(** * gcp-cni: IP allocator, CNI driver and provisioner

    A shallow embedding of the Go sources of the gcp-cni IPAM plugin:

    - [Net]: the parts of Go's [net] package the allocator calls
      ([ParseCIDR], [IP.Mask], [IPNet.Contains], [IP.String], ...), on
      byte slices;
    - [Ipam]: [pkg/ipam/allocator.go], the allocator over the [IPPool]
      record, with the cluster API as explicit state;
    - [Provisioner]: [internal/provisioner/provisioner.go] and [range.go];
    - [Driver]: [cmd/ipam/main.go], the CNI verbs ADD and DEL.

    Bytes are integers in [0, 256) with the wrap-around written out,
    byte slices are lists, Go maps are [gmap]s, and effectful code runs in
    a state-and-error monad over the world the code talks to. *)

From Stdlib Require Import ZArith List Ascii String Lia Bool.
From stdpp Require Import base gmap strings list pretty.

Local Open Scope string_scope.
Local Open Scope list_scope.
Local Open Scope Z_scope.

(** ** Bytes and byte slices *)

Definition is_byte (b : Z) : Prop := 0 <= b < 256.

(** [uint8] arithmetic wraps modulo 256. *)
Definition wrap8 (z : Z) : Z := z mod 256.

(** [^b] on a [byte]. *)
Definition bnot (b : Z) : Z := Z.lxor b 255.

(** The big-endian value of a byte slice: each step is
    [acc << 8 | b], which on bytes is [acc * 256 + b]. *)
Definition be_val (l : list Z) : Z := fold_left (fun acc b => acc * 256 + b) l 0.

(** The four bytes of a 32-bit value, most significant first. *)
Definition ip_of_Z (x : Z) : list Z :=
  [x / 16777216 mod 256; x / 65536 mod 256; x / 256 mod 256; x mod 256].

Module Net.

(** [net.IP] and [net.IPMask] are byte slices; the nil slice is [[]]. *)
Definition IP := list Z.
Definition IPMask := list Z.

Record IPNet := mkIPNet { IPNet_IP : IP; IPNet_Mask : IPMask }.

Definition IPv4len : nat := 4.
Definition IPv6len : nat := 16.

Definition v4InV6Prefix : list Z := [0; 0; 0; 0; 0; 0; 0; 0; 0; 0; 255; 255].

Definition bytes_eqb (a b : list Z) : bool := bool_decide (a = b).

(** [func CIDRMask(ones, bits int) IPMask]: the loop over the [l] bytes
    of the mask, [n] the ones still to place. *)
Fixpoint CIDRMask_loop (l : nat) (n : Z) : IPMask :=
  match l with
  | O => []
  | S l' =>
      if 8 <=? n then 255 :: CIDRMask_loop l' (n - 8)
      else bnot (Z.shiftr 255 n) :: CIDRMask_loop l' 0
  end.

Definition CIDRMask (ones bits : Z) : IPMask :=
  if negb (bits =? 32) && negb (bits =? 128) then []
  else if (ones <? 0) || (bits <? ones) then []
  else CIDRMask_loop (Z.to_nat (bits / 8)) ones.

(** [simpleMaskLength]: the number of leading ones, [-1] when the mask
    is not a run of ones followed by zeros. *)
Fixpoint count_ones (fuel : nat) (v : Z) (n : Z) : Z * Z :=
  match fuel with
  | O => (v, n)
  | S f =>
      if negb (Z.land v 128 =? 0) then count_ones f (wrap8 (Z.shiftl v 1)) (n + 1)
      else (v, n)
  end.

Fixpoint simpleMaskLength_loop (mask : IPMask) (n : Z) : Z :=
  match mask with
  | [] => n
  | v :: rest =>
      if v =? 255 then simpleMaskLength_loop rest (n + 8)
      else
        let '(v', n') := count_ones 8 v n in
        if negb (v' =? 0) then -1
        else if forallb (fun b => b =? 0) rest then n' else -1
  end.

Definition simpleMaskLength (mask : IPMask) : Z := simpleMaskLength_loop mask 0.

(** [func (m IPMask) Size() (ones, bits int)]. *)
Definition Size (m : IPMask) : Z * Z :=
  let ones := simpleMaskLength m in
  let bits := Z.of_nat (length m) * 8 in
  if ones =? -1 then (0, 0) else (ones, bits).

(** [func (ip IP) To4() IP]; nil is [[]]. *)
Definition To4 (ip : IP) : IP :=
  if Nat.eqb (length ip) IPv4len then ip
  else if Nat.eqb (length ip) IPv6len
          && forallb (fun b => b =? 0) (firstn 10 ip)
          && bytes_eqb (firstn 2 (skipn 10 ip)) [255; 255]
       then skipn 12 ip
       else [].

(** [func (ip IP) Mask(mask IPMask) IP]. *)
Definition Mask (ip : IP) (mask : IPMask) : IP :=
  let mask :=
    if Nat.eqb (length mask) IPv6len && Nat.eqb (length ip) IPv4len
       && forallb (fun b => b =? 255) (firstn 12 mask)
    then skipn 12 mask else mask in
  let ip :=
    if Nat.eqb (length mask) IPv4len && Nat.eqb (length ip) IPv6len
       && bytes_eqb (firstn 12 ip) v4InV6Prefix
    then skipn 12 ip else ip in
  if negb (Nat.eqb (length ip) (length mask)) then []
  else zip_with Z.land ip mask.

(** [func (ip IP) Equal(x IP) bool]. *)
Definition Equal (ip x : IP) : bool :=
  if Nat.eqb (length ip) (length x) then bytes_eqb ip x
  else if Nat.eqb (length ip) IPv4len && Nat.eqb (length x) IPv6len then
    bytes_eqb (firstn 12 x) v4InV6Prefix && bytes_eqb ip (skipn 12 x)
  else if Nat.eqb (length ip) IPv6len && Nat.eqb (length x) IPv4len then
    bytes_eqb (firstn 12 ip) v4InV6Prefix && bytes_eqb (skipn 12 ip) x
  else false.

(** [networkNumberAndMask]; [None] is the pair of nils. *)
Definition networkNumberAndMask (n : IPNet) : option (IP * IPMask) :=
  let ip4 := To4 (IPNet_IP n) in
  let ip := if Nat.eqb (length ip4) 0 then IPNet_IP n else ip4 in
  if Nat.eqb (length ip4) 0 && negb (Nat.eqb (length ip) IPv6len) then None
  else if Nat.eqb (length (IPNet_Mask n)) IPv4len then
    if negb (Nat.eqb (length ip) IPv4len) then None
    else Some (ip, IPNet_Mask n)
  else if Nat.eqb (length (IPNet_Mask n)) IPv6len then
    if Nat.eqb (length ip) IPv4len then Some (ip, skipn 12 (IPNet_Mask n))
    else Some (ip, IPNet_Mask n)
  else None.

(** [func (n *IPNet) Contains(ip IP) bool]. *)
Definition Contains (n : IPNet) (ip : IP) : bool :=
  match networkNumberAndMask n with
  | None => false
  | Some (nn, m) =>
      let x := To4 ip in
      let ip := if Nat.eqb (length x) 0 then ip else x in
      if negb (Nat.eqb (length ip) (length nn)) then false
      else bytes_eqb (zip_with Z.land nn m) (zip_with Z.land ip m)
  end.

(** Decimal digits of a byte, as [ubtoa] writes them. *)
Definition digit (d : Z) : ascii := ascii_of_N (Z.to_N (48 + d)).

Definition ubtoa (b : Z) : string :=
  if b <? 10 then String (digit b) EmptyString
  else if b <? 100 then String (digit (b / 10)) (String (digit (b mod 10)) EmptyString)
  else String (digit (b / 100))
         (String (digit (b / 10 mod 10)) (String (digit (b mod 10)) EmptyString)).

(** [func (ip IP) String() string] on the addresses of the model: the nil
    slice, and dotted quads for what [To4] accepts.  The IPv6 and the
    malformed-length renderings are outside the model and print as ["?"]. *)
Definition IP_String (ip : IP) : string :=
  if Nat.eqb (length ip) 0 then "<nil>"
  else match To4 ip with
       | [a; b; c; d] => ubtoa a +:+ "." +:+ ubtoa b +:+ "." +:+ ubtoa c +:+ "." +:+ ubtoa d
       | _ => "?"
       end.

(** *** Parsing *)

Definition is_digit (c : ascii) : bool :=
  let n := Z.of_N (N_of_ascii c) in (48 <=? n) && (n <=? 57).

Definition digit_val (c : ascii) : Z := Z.of_N (N_of_ascii c) - 48.

Definition ascii_eqb (a b : ascii) : bool := Ascii.eqb a b.

(** [parseIPv4Fields]: [prev] is [s[i-1]] ([None] at [i = 0]), [fields]
    the octets stored so far, so [pos] is its length. *)
Fixpoint parseIPv4Fields (s : string) (prev : option ascii) (val digLen : Z)
         (fields : list Z) : option (list Z) :=
  match s with
  | EmptyString =>
      if (length fields <? 3)%nat then None else Some (fields ++ [val])
  | String c rest =>
      if is_digit c then
        if (digLen =? 1) && (val =? 0) then None
        else
          let val' := val * 10 + digit_val c in
          if 255 <? val' then None
          else parseIPv4Fields rest (Some c) val' (digLen + 1) fields
      else if ascii_eqb c "." then
        let prev_dot := match prev with Some p => ascii_eqb p "." | None => true end in
        if prev_dot || (match rest with EmptyString => true | _ => false end) then None
        else if Nat.eqb (length fields) 3 then None
        else parseIPv4Fields rest (Some c) 0 0 (fields ++ [val])
      else None
  end.

Inductive addr_kind := KindV4 | KindV6 | KindBad.

(** The dispatch of [netip.ParseAddr] on the first of ['.'], [':'], ['%']. *)
Fixpoint addr_dispatch (s : string) : addr_kind :=
  match s with
  | EmptyString => KindBad
  | String c rest =>
      if ascii_eqb c "." then KindV4
      else if ascii_eqb c ":" then KindV6
      else if ascii_eqb c "%" then KindBad
      else addr_dispatch rest
  end.

(** [netip.ParseAddr] on IPv4 literals.  IPv6 literals are outside the
    model (the system handles IPv4 pools only) and do not parse here. *)
Definition ParseAddr4 (s : string) : option (list Z) :=
  match addr_dispatch s with
  | KindV4 => parseIPv4Fields s None 0 0 []
  | _ => None
  end.

Definition big : Z := 16777215.

(** [dtoi]: the value of the leading decimal digits and what follows
    them; [None] when there is no digit or the value reaches [big]. *)
Fixpoint dtoi_loop (s : string) (n : Z) (i : nat) : option (Z * nat * string) :=
  match s with
  | EmptyString => Some (n, i, s)
  | String c rest =>
      if is_digit c then
        let n' := n * 10 + digit_val c in
        if big <=? n' then None else dtoi_loop rest n' (S i)
      else Some (n, i, s)
  end.

Definition dtoi (s : string) : option (Z * string) :=
  match dtoi_loop s 0 0 with
  | Some (n, i, rest) => if Nat.eqb i 0 then None else Some (n, rest)
  | None => None
  end.

(** Split at the first ['/'] ([bytealg.IndexByteString]). *)
Fixpoint split_slash (s : string) : option (string * string) :=
  match s with
  | EmptyString => None
  | String c rest =>
      if ascii_eqb c "/" then Some (EmptyString, rest)
      else match split_slash rest with
           | Some (a, m) => Some (String c a, m)
           | None => None
           end
  end.

(** [func ParseCIDR(s string) (IP, *IPNet, error)]; [None] is the
    [ParseError]. *)
Definition ParseCIDR (s : string) : option (IP * IPNet) :=
  match split_slash s with
  | None => None
  | Some (addr, mask) =>
      match ParseAddr4 addr with
      | None => None
      | Some a =>
          match dtoi mask with
          | Some (n, EmptyString) =>
              if (n <? 0) || (32 <? n) then None
              else
                let m := CIDRMask n 32 in
                let addr16 := v4InV6Prefix ++ a in
                Some (addr16, mkIPNet (Mask addr16 m) m)
          | _ => None
          end
      end
  end.

(** [func ParseIP(s string) IP]: the 16-byte form, nil when it does not
    parse. *)
Definition ParseIP (s : string) : IP :=
  match ParseAddr4 s with
  | Some a => v4InV6Prefix ++ a
  | None => []
  end.

End Net.

(** ** Errors and outcomes *)

(** The [reason] of a Kubernetes API [StatusError]. *)
Inductive StatusReason :=
| StatusReasonNotFound
| StatusReasonConflict
| StatusReasonAlreadyExists
| StatusReasonInternalError
| StatusReasonTimeout
| StatusReasonForbidden.

(** Go [error] values: the API machinery's [StatusError], the compute
    API's [googleapi.Error] with its HTTP code, a gRPC status with its
    code, an [errors.New]-style message, and [fmt.Errorf("<msg>: %w", err)]. *)
Inductive error :=
| StatusError (reason : StatusReason) (msg : string)
| GoogleApiError (code : Z) (msg : string)
| GrpcStatus (code : Z) (msg : string)
| ErrorString (msg : string)
| Wrapped (msg : string) (inner : error).

Fixpoint Error (e : error) : string :=
  match e with
  | StatusError _ msg => msg
  | GoogleApiError _ msg => msg
  | GrpcStatus _ msg => msg
  | ErrorString msg => msg
  | Wrapped msg inner => msg +:+ ": " +:+ Error inner
  end.

(** [errors.IsConflict]: the reason of the first [StatusError] in the
    chain of wrapped errors ([errors.As]). *)
Fixpoint IsConflict (e : error) : bool :=
  match e with
  | StatusError StatusReasonConflict _ => true
  | Wrapped _ inner => IsConflict inner
  | _ => false
  end.

(** What running a piece of Go code comes to: a value, a returned error, a
    run-time panic, or (for loops the model runs on fuel) no return within
    the fuel. *)
Inductive Outcome (A : Type) :=
| Ok (a : A)
| Err (e : error)
| Panic (msg : string)
| OutOfFuel.
Arguments Ok {A} a.
Arguments Err {A} e.
Arguments Panic {A} msg.
Arguments OutOfFuel {A}.

(** ** The IPPool resource ([pkg/apis/ipam/v1alpha1/types.go]) *)

Record IPAllocation := mkIPAllocation {
  PodName : string;
  PodNamespace : string;
  PodUID : string;
  NodeName : string;
  AllocatedAt : Z }.

(** [Allocations] is a Go map: [None] is the nil map. *)
Record IPPoolSpec := mkIPPoolSpec {
  CIDR : string;
  Subnet : string;
  SecondaryRangeName : string;
  Allocations : option (gmap string IPAllocation) }.

Record IPPoolStatus := mkIPPoolStatus {
  Capacity : Z;
  Allocated : Z;
  Available : Z;
  LastUpdated : Z }.

(** [ObjectMeta] is kept to the name and the [resourceVersion] token. *)
Record IPPool := mkIPPool {
  Name : string;
  ResourceVersion : Z;
  Spec : IPPoolSpec;
  Status : IPPoolStatus }.

(** Reading a Go map that may be nil: [len], lookup and [range] see the
    nil map as empty. *)
Definition map_of (a : option (gmap string IPAllocation)) : gmap string IPAllocation :=
  match a with Some m => m | None => ∅ end.

(** Go's [int] on the 64-bit targets the plugin is built for. *)
Definition wrap_int (z : Z) : Z := (z + 2 ^ 63) mod 2 ^ 64 - 2 ^ 63.

(** ** The world the code talks to *)

(** The pod record, as far as the driver reads it. *)
Record Pod := mkPod {
  pod_UID : string;
  pod_Annotations : gmap string string;
  pod_PodIPs : list string }.

(** The compute API's resources.  A fingerprint is an opaque token; the
    model draws fresh ones by counting. *)
Record AliasIpRange := mkAliasIpRange {
  IpCidrRange : string;
  SubnetworkRangeName : string }.

Record NetworkInterface := mkNetworkInterface {
  nic_Name : string;
  nic_Fingerprint : Z;
  nic_Network : string;
  nic_Subnetwork : string;
  nic_AliasIpRanges : list AliasIpRange }.

Record Instance := mkInstance {
  inst_Name : string;
  inst_NetworkInterfaces : list NetworkInterface }.

Record SubnetworkSecondaryRange := mkSecondaryRange {
  sr_RangeName : string;
  sr_IpCidrRange : string;
  sr_ReservedInternalRange : string }.

Record Subnetwork := mkSubnetwork {
  sub_IpCidrRange : string;
  sub_Fingerprint : Z;
  sub_SecondaryIpRanges : list SubnetworkSecondaryRange }.

(** A zone operation started by [UpdateNetworkInterface]: the interface it
    rewrites, the alias list it installs, and whether the cloud has carried
    it out. *)
Record Operation := mkOperation {
  op_Instance : string;
  op_Interface : string;
  op_AliasIpRanges : list AliasIpRange;
  op_Applied : bool }.

(** What the cloud answers to one poll of an operation: still running
    ([progress] tells whether the cloud carries the update out during this
    poll interval), or done, with the error messages of its [Error] when
    the operation failed. *)
Inductive PollReply :=
| PollRunning (progress : bool)
| PollDone (error : option (list string)).

Record Metadata := mkMetadata {
  md_ProjectID : string;
  md_Zone : string;
  md_InstanceName : string }.

(** The calls that leave the process, in the order they are made. *)
Inductive Event :=
| EvSleep (ms : Z)
| EvLock
| EvUnlock
| EvCall (what : string)
| EvPodGet (ns name : string)
| EvPoolGet (name : string)
| EvPoolUpdate (name : string)
| EvPoolCreate (name : string)
| EvInstanceGet (name : string)
| EvSubnetGet (name : string)
| EvUpdateNetworkInterface (instance : string) (aliases : list AliasIpRange)
| EvOperationStarted (op instance : string)
| EvOperationGet (op : string)
| EvOperationDone (op : string)
| EvInternalRangeGet (name : string)
| EvInternalRangeCreate (name : string)
| EvSubnetPatch (name : string) (ranges : list SubnetworkSecondaryRange)
| EvPrintResult.

(** The state of everything outside the process, with the environment's
    behaviour as data: [w_faults] decides, call by call, whether the next
    remote call fails in transport or at the server ([None]: it goes
    through; an exhausted list: every further call goes through), and
    [w_polls] what successive operation polls answer, and
    [w_assigned_cidr] is the block the cloud assigns to the next internal
    range reservation.  [w_trace] records
    the calls made so far, oldest first, and [w_history] every earlier
    state of the cloud's instances, most recent first. *)
Record World := mkWorld {
  w_pools : gmap string IPPool;
  w_pods : gmap (string * string) Pod;
  w_metadata : Metadata;
  w_instances : gmap string Instance;
  w_subnets : gmap string Subnetwork;
  w_operations : gmap string Operation;
  w_ranges : gmap string string;
  w_assigned_cidr : string;
  w_now : Z;
  w_faults : list (option error);
  w_polls : list PollReply;
  w_trace : list Event;
  w_history : list (gmap string Instance) }.

Definition set_pools (f : gmap string IPPool -> gmap string IPPool) (w : World) : World :=
  mkWorld (f (w_pools w)) (w_pods w) (w_metadata w) (w_instances w) (w_subnets w)
    (w_operations w) (w_ranges w) (w_assigned_cidr w) (w_now w) (w_faults w) (w_polls w) (w_trace w)
    (w_history w).

Definition set_instances (i : gmap string Instance) (w : World) : World :=
  mkWorld (w_pools w) (w_pods w) (w_metadata w) i (w_subnets w)
    (w_operations w) (w_ranges w) (w_assigned_cidr w) (w_now w) (w_faults w) (w_polls w) (w_trace w)
    (w_instances w :: w_history w).

Definition set_subnets (f : gmap string Subnetwork -> gmap string Subnetwork) (w : World)
  : World :=
  mkWorld (w_pools w) (w_pods w) (w_metadata w) (w_instances w) (f (w_subnets w))
    (w_operations w) (w_ranges w) (w_assigned_cidr w) (w_now w) (w_faults w) (w_polls w) (w_trace w)
    (w_history w).

Definition set_operations (f : gmap string Operation -> gmap string Operation) (w : World)
  : World :=
  mkWorld (w_pools w) (w_pods w) (w_metadata w) (w_instances w) (w_subnets w)
    (f (w_operations w)) (w_ranges w) (w_assigned_cidr w) (w_now w) (w_faults w) (w_polls w) (w_trace w)
    (w_history w).

Definition set_ranges (f : gmap string string -> gmap string string) (w : World) : World :=
  mkWorld (w_pools w) (w_pods w) (w_metadata w) (w_instances w) (w_subnets w)
    (w_operations w) (f (w_ranges w)) (w_assigned_cidr w) (w_now w) (w_faults w) (w_polls w) (w_trace w)
    (w_history w).

Definition set_now (t : Z) (w : World) : World :=
  mkWorld (w_pools w) (w_pods w) (w_metadata w) (w_instances w) (w_subnets w)
    (w_operations w) (w_ranges w) (w_assigned_cidr w) t (w_faults w) (w_polls w) (w_trace w)
    (w_history w).

Definition set_faults (fs : list (option error)) (w : World) : World :=
  mkWorld (w_pools w) (w_pods w) (w_metadata w) (w_instances w) (w_subnets w)
    (w_operations w) (w_ranges w) (w_assigned_cidr w) (w_now w) fs (w_polls w) (w_trace w)
    (w_history w).

Definition set_polls (ps : list PollReply) (w : World) : World :=
  mkWorld (w_pools w) (w_pods w) (w_metadata w) (w_instances w) (w_subnets w)
    (w_operations w) (w_ranges w) (w_assigned_cidr w) (w_now w) (w_faults w) ps (w_trace w)
    (w_history w).

Definition log (ev : Event) (w : World) : World :=
  mkWorld (w_pools w) (w_pods w) (w_metadata w) (w_instances w) (w_subnets w)
    (w_operations w) (w_ranges w) (w_assigned_cidr w) (w_now w) (w_faults w) (w_polls w)
    (w_trace w ++ [ev]) (w_history w).

(** ** The monad of the embedding: state, errors, panics *)

Definition M (A : Type) : Type := World -> Outcome A * World.

Definition ret {A} (a : A) : M A := fun w => (Ok a, w).

Definition bind {A B} (m : M A) (k : A -> M B) : M B :=
  fun w =>
    match m w with
    | (Ok a, w') => k a w'
    | (Err e, w') => (Err e, w')
    | (Panic msg, w') => (Panic msg, w')
    | (OutOfFuel, w') => (OutOfFuel, w')
    end.

Notation "x <- m ;; k" := (bind m (fun x => k))
  (at level 100, m at next level, right associativity).
Notation "m ;;; k" := (bind m (fun _ => k))
  (at level 100, right associativity).

(** [return err]. *)
Definition fail {A} (e : error) : M A := fun w => (Err e, w).

Definition panic {A} (msg : string) : M A := fun w => (Panic msg, w).

(** Run [m]; an error it returns goes through [f] ([if err != nil { return
    fmt.Errorf(...) }]). *)
Definition map_err {A} (f : error -> error) (m : M A) : M A :=
  fun w =>
    match m w with
    | (Err e, w') => (Err (f e), w')
    | r => r
    end.

(** [m], with its returned error as a value ([x, err := f()]). *)
Definition try {A} (m : M A) : M (error + A) :=
  fun w =>
    match m w with
    | (Ok a, w') => (Ok (inr a), w')
    | (Err e, w') => (Ok (inl e), w')
    | (Panic msg, w') => (Panic msg, w')
    | (OutOfFuel, w') => (OutOfFuel, w')
    end.

(** [s[0]] on a slice. *)
Definition index0 {A} (s : list A) : M A :=
  match s with
  | x :: _ => ret x
  | [] => panic "index out of range [0] with length 0"
  end.

(** One call that leaves the process: it is recorded, and the
    environment decides whether it fails. *)
Definition remote (ev : Event) : M unit :=
  fun w =>
    let w' := set_faults (tail (w_faults w)) (log ev w) in
    match w_faults w with
    | Some e :: _ => (Err e, w')
    | _ => (Ok tt, w')
    end.

(** [time.Sleep(d)], [d] in milliseconds: the clock moves on. *)
Definition Sleep (ms : Z) : M unit :=
  fun w => (Ok tt, set_now (w_now w + ms) (log (EvSleep ms) w)).

(** [metav1.Now()]. *)
Definition Now : M Z := fun w => (Ok (w_now w), w).

(** ** The cluster API: the dynamic client on [ippools] *)

Definition not_found (kind name : string) : error :=
  StatusError StatusReasonNotFound (kind +:+ " '" +:+ name +:+ "' not found").

(** The object as it is stored: [omitempty] drops an empty [allocations]
    map, which reads back as the nil map. *)
Definition on_wire (p : IPPool) : IPPool :=
  match Allocations (Spec p) with
  | Some m =>
      if bool_decide (m = ∅) then
        mkIPPool (Name p) (ResourceVersion p)
          (mkIPPoolSpec (CIDR (Spec p)) (Subnet (Spec p)) (SecondaryRangeName (Spec p)) None)
          (Status p)
      else p
  | None => p
  end.

Definition with_version (v : Z) (p : IPPool) : IPPool :=
  mkIPPool (Name p) v (Spec p) (Status p).

Definition with_name (name : string) (p : IPPool) : IPPool :=
  mkIPPool name (ResourceVersion p) (Spec p) (Status p).

(** [client.Resource(IPPoolGVR).Get(ctx, name, ...)]: the object stored
    under [name], which is its [metadata.name]. *)
Definition pool_Get (name : string) : M IPPool :=
  remote (EvPoolGet name) ;;;
  fun w =>
    match w_pools w !! name with
    | Some p => (Ok (with_name name p), w)
    | None => (Err (not_found "ippools.ipam.gcp-cni.cast.ai" name), w)
    end.

(** [client.Resource(IPPoolGVR).Update(ctx, obj, ...)]: the write goes
    through only when the object carries the stored [resourceVersion]; the
    store stamps a new one. *)
Definition pool_Update (p : IPPool) : M IPPool :=
  remote (EvPoolUpdate (Name p)) ;;;
  fun w =>
    match w_pools w !! Name p with
    | None => (Err (not_found "ippools.ipam.gcp-cni.cast.ai" (Name p)), w)
    | Some cur =>
        if ResourceVersion cur =? ResourceVersion p then
          let p' := with_version (ResourceVersion cur + 1) (on_wire p) in
          (Ok p', set_pools (fun ps => <[Name p := p']> ps) w)
        else
          (Err (StatusError StatusReasonConflict
                  ("Operation cannot be fulfilled on ippools.ipam.gcp-cni.cast.ai '"
                   +:+ Name p
                   +:+ "': the object has been modified; please apply your changes to the latest version and try again")),
           w)
    end.

(** [client.Resource(IPPoolGVR).Create(ctx, obj, ...)]. *)
Definition pool_Create (p : IPPool) : M IPPool :=
  remote (EvPoolCreate (Name p)) ;;;
  fun w =>
    match w_pools w !! Name p with
    | Some _ =>
        (Err (StatusError StatusReasonAlreadyExists
                ("ippools.ipam.gcp-cni.cast.ai '" +:+ Name p +:+ "' already exists")), w)
    | None =>
        let p' := with_version 1 (on_wire p) in
        (Ok p', set_pools (fun ps => <[Name p := p']> ps) w)
    end.

(** ** Strings, as the code cuts them *)

(** [strings.Split(s, sep)] for a one-character separator. *)
Fixpoint split_on (sep : ascii) (s : string) : list string :=
  match s with
  | EmptyString => [EmptyString]
  | String.String c rest =>
      if Ascii.eqb c sep then EmptyString :: split_on sep rest
      else match split_on sep rest with
           | part :: parts => String.String c part :: parts
           | [] => [String.String c EmptyString]
           end
  end.

(** [strings.SplitN(s, sep, 2)] for a one-character separator. *)
Fixpoint split2 (sep : ascii) (s : string) : list string :=
  match s with
  | EmptyString => [EmptyString]
  | String.String c rest =>
      if Ascii.eqb c sep then [EmptyString; rest]
      else match split2 sep rest with
           | part :: parts => String.String c part :: parts
           | [] => [String.String c EmptyString]
           end
  end.

(** [parts[len(parts)-1]]; [strings.Split] never returns an empty slice. *)
Definition last_part (parts : list string) : string := List.last parts EmptyString.

(** [strings.Join(elems, sep)]. *)
Fixpoint Join (elems : list string) (sep : string) : string :=
  match elems with
  | [] => EmptyString
  | [e] => e
  | e :: rest => e +:+ sep +:+ Join rest sep
  end.

(** [m[k]] on a [map[string]string]: the zero value when the key is absent. *)
Definition get_or_empty (m : gmap string string) (k : string) : string :=
  match m !! k with
  | Some v => v
  | None => EmptyString
  end.

(** The args string of the CNI call as a map:
    [lo.SliceToMap(strings.Split(args, ";"), ...)] with [strings.SplitN(s, "=", 2)];
    a later pair replaces an earlier one with the same key. *)
Definition parse_cni_args (args : string) : gmap string string :=
  fold_left
    (fun m s =>
       match split2 "=" s with
       | [k; v] => <[k := v]> m
       | k :: _ => <[k := EmptyString]> m
       | [] => m
       end)
    (split_on ";" args) ∅.

(** ** The cloud: metadata server and compute API *)

(** A call to the metadata server. *)
Definition metadata_get (what : string) (field : Metadata -> string) : M string :=
  remote (EvCall ("metadata." +:+ what)) ;;;
  fun w => (Ok (field (w_metadata w)), w).

(** The region of a zone: [zone[:len(zone)-2]] when [len(zone) > 2]. *)
Definition region_of_zone (zone : string) : M string :=
  if (2 <? String.length zone)%nat then
    ret (String.substring 0 (String.length zone - 2) zone)
  else fail (ErrorString ("cannot determine region from zone: " +:+ zone)).

(** [Instances.Get(project, zone, name)]. *)
Definition Instances_Get (name : string) : M Instance :=
  remote (EvInstanceGet name) ;;;
  fun w =>
    match w_instances w !! name with
    | Some i => (Ok i, w)
    | None => (Err (GoogleApiError 404 ("The resource 'instances/" +:+ name
                                        +:+ "' was not found")), w)
    end.

(** [Subnetworks.Get(project, region, name)]. *)
Definition Subnetworks_Get (name : string) : M Subnetwork :=
  remote (EvSubnetGet name) ;;;
  fun w =>
    match w_subnets w !! name with
    | Some s => (Ok s, w)
    | None => (Err (GoogleApiError 404 ("The resource 'subnetworks/" +:+ name
                                        +:+ "' was not found")), w)
    end.

Definition has_interface (nicName : string) (i : Instance) : bool :=
  existsb (fun nic => String.eqb (nic_Name nic) nicName) (inst_NetworkInterfaces i).

Definition fingerprint_of (nicName : string) (i : Instance) : option Z :=
  match List.find (fun nic => String.eqb (nic_Name nic) nicName) (inst_NetworkInterfaces i) with
  | Some nic => Some (nic_Fingerprint nic)
  | None => None
  end.

(** [Instances.UpdateNetworkInterface(project, zone, instance, nic, body)]:
    the cloud checks that the interface exists and that the body carries
    its current fingerprint, and starts a zone operation that will install
    the body's alias list. *)
Definition Instances_UpdateNetworkInterface (instance nicName : string)
           (fingerprint : Z) (aliases : list AliasIpRange) : M string :=
  remote (EvUpdateNetworkInterface instance aliases) ;;;
  fun w =>
    match w_instances w !! instance with
    | None => (Err (GoogleApiError 404 ("The resource 'instances/" +:+ instance
                                        +:+ "' was not found")), w)
    | Some i =>
        match fingerprint_of nicName i with
        | None => (Err (GoogleApiError 400 "Invalid value for field 'networkInterface'"), w)
        | Some fp =>
            if fp =? fingerprint then
              let op := "operation-" +:+ pretty (Z.of_nat (size (w_operations w))) in
              (Ok op,
               log (EvOperationStarted op instance)
                 (set_operations
                    (fun ops => <[op := mkOperation instance nicName aliases false]> ops) w))
            else
              (Err (GoogleApiError 412 "Supplied fingerprint does not match current fingerprint"),
               w)
        end
    end.

(** The update an operation stands for, on the cloud's instances: the
    named interface gets the alias list and a fresh fingerprint. *)
Definition install_aliases (nicName : string) (aliases : list AliasIpRange) (i : Instance)
  : Instance :=
  mkInstance (inst_Name i)
    (map (fun nic =>
            if String.eqb (nic_Name nic) nicName then
              mkNetworkInterface (nic_Name nic) (nic_Fingerprint nic + 1) (nic_Network nic)
                (nic_Subnetwork nic) aliases
            else nic)
         (inst_NetworkInterfaces i)).

(** The cloud carries out an operation, once. *)
Definition carry_out (opName : string) (o : Operation) (w : World) : World :=
  if op_Applied o then w
  else
    let w := set_operations
               (fun ops => <[opName := mkOperation (op_Instance o) (op_Interface o)
                                         (op_AliasIpRanges o) true]> ops) w in
    match w_instances w !! op_Instance o with
    | Some i =>
        set_instances
          (<[op_Instance o := install_aliases (op_Interface o) (op_AliasIpRanges o) i]>
             (w_instances w)) w
    | None => w
    end.

(** What [ZoneOperations.Get] returns, as far as the driver reads it. *)
Record OperationStatus := mkOperationStatus {
  os_Status : string;
  os_Error : option (list string) }.

(** [ZoneOperations.Get(project, zone, op)]: the next poll reply decides
    how far the operation has come; with no reply left it is done. *)
Definition ZoneOperations_Get (opName : string) : M OperationStatus :=
  remote (EvOperationGet opName) ;;;
  fun w =>
    match w_operations w !! opName with
    | None => (Err (GoogleApiError 404 ("The resource 'operations/" +:+ opName
                                        +:+ "' was not found")), w)
    | Some o =>
        let reply := match w_polls w with r :: _ => r | [] => PollDone None end in
        let w := set_polls (tail (w_polls w)) w in
        match reply with
        | PollRunning progress =>
            (Ok (mkOperationStatus "RUNNING" None),
             if progress then carry_out opName o w else w)
        | PollDone None =>
            (Ok (mkOperationStatus "DONE" None),
             log (EvOperationDone opName) (carry_out opName o w))
        | PollDone (Some errs) =>
            (Ok (mkOperationStatus "DONE" (Some errs)), w)
        end
    end.

Module Ipam.

Definition MaxRetries : Z := 10.
(** [RetryDelay], in milliseconds. *)
Definition RetryDelay : Z := 100.

Record AllocationRequest := mkAllocationRequest {
  req_PoolName : string;
  req_PodName : string;
  req_PodNamespace : string;
  req_PodUID : string;
  req_NodeName : string;
  req_RequestedIP : string }.

Record AllocationResult := mkAllocationResult {
  res_IP : string;
  res_CIDR : string;
  res_Subnet : string;
  res_SecondaryRangeName : string }.

(** [nextIP]: the loop [for i := len(next)-1; i >= 0; i--] with
    [n = i + 1]; [next[i]++] wraps as a [byte]. *)
Fixpoint nextIP_loop (n : nat) (next : Net.IP) : Net.IP :=
  match n with
  | O => next
  | S i =>
      match next !! i with
      | None => next
      | Some b =>
          let next' := <[i := wrap8 (b + 1)]> next in
          if 0 <? wrap8 (b + 1) then next' else nextIP_loop i next'
      end
  end.

Definition nextIP (ip : Net.IP) : Net.IP := nextIP_loop (length ip) ip.

(** [isBroadcast]: [broadcast[i] = ip[i] | ^ipNet.Mask[i]] for every
    index of [ip]; indexing the mask past its end panics. *)
Definition isBroadcast (ip : Net.IP) (ipNet : Net.IPNet) : Outcome bool :=
  if (length (Net.IPNet_Mask ipNet) <? length ip)%nat then
    Panic "index out of range"
  else
    let broadcast := zip_with (fun b m => Z.lor b (bnot m)) ip (Net.IPNet_Mask ipNet) in
    Ok (Net.Equal ip broadcast).

(** The [for ipNet.Contains(currentIP)] loop of [findAvailableIP].
    [Ok None] is leaving the loop without an address (the condition
    failed, or the [break] at the broadcast address). *)
Fixpoint findAvailableIP_loop (fuel : nat) (ipNet : Net.IPNet)
         (allocations : gmap string IPAllocation) (currentIP : Net.IP)
  : Outcome (option string) :=
  match fuel with
  | O => OutOfFuel
  | S fuel' =>
      if Net.Contains ipNet currentIP then
        let ipStr := Net.IP_String currentIP in
        match isBroadcast currentIP ipNet with
        | Ok true => Ok None
        | Ok false =>
            match allocations !! ipStr with
            | None => Ok (Some ipStr)
            | Some _ =>
                findAvailableIP_loop fuel' ipNet allocations (nextIP currentIP)
            end
        | Err e => Err e
        | Panic msg => Panic msg
        | OutOfFuel => OutOfFuel
        end
      else Ok None
  end.

(** The error [net.ParseCIDR] returns. *)
Definition ParseError (s : string) : error :=
  ErrorString ("invalid CIDR address: " +:+ s).

(** The loop visits each address of the network at most once, so the
    size of the network is fuel enough ([findAvailableIP_returns]). *)
Definition scan_fuel (ipNet : Net.IPNet) : nat :=
  let '(ones, bits) := Net.Size (Net.IPNet_Mask ipNet) in
  Z.to_nat (2 ^ (bits - ones)).

Definition findAvailableIP (cidr : string) (allocations : gmap string IPAllocation)
  : Outcome string :=
  match Net.ParseCIDR cidr with
  | None => Err (Wrapped ("invalid CIDR " +:+ cidr) (ParseError cidr))
  | Some (ip, ipNet) =>
      let currentIP := Net.Mask ip (Net.IPNet_Mask ipNet) in
      let currentIP := nextIP currentIP in
      match findAvailableIP_loop (scan_fuel ipNet) ipNet allocations currentIP with
      | Ok (Some ipStr) => Ok ipStr
      | Ok None => Err (ErrorString ("no available IPs in CIDR " +:+ cidr))
      | Err e => Err e
      | Panic msg => Panic msg
      | OutOfFuel => OutOfFuel
      end
  end.

(** [calculateCapacity]; the shift and the subtraction are on [int]. *)
Definition calculateCapacity (cidr : string) : Z :=
  match Net.ParseCIDR cidr with
  | None => 0
  | Some (_, ipNet) =>
      let '(ones, bits) := Net.Size (Net.IPNet_Mask ipNet) in
      let totalIPs := wrap_int (Z.shiftl 1 (bits - ones)) in
      if ones =? bits then 1
      else wrap_int (totalIPs - 2)
  end.

(** A result computed without talking to the world. *)
Definition lift {A} (o : Outcome A) : M A := fun w => (o, w).

(** [tryAllocate]: one read-modify-write of the pool.  The stored object
    is typed, so the conversions from and to [unstructured] succeed. *)
Definition tryAllocate (req : AllocationRequest) : M AllocationResult :=
  pool <- map_err (Wrapped ("failed to get IPPool " +:+ req_PoolName req))
            (pool_Get (req_PoolName req)) ;;
  let allocations :=
    match Allocations (Spec pool) with
    | None => ∅
    | Some m => m
    end in
  allocatedIP <-
    (if negb (String.eqb (req_RequestedIP req) EmptyString) then
       match allocations !! req_RequestedIP req with
       | Some _ =>
           fail (ErrorString ("requested IP " +:+ req_RequestedIP req
                              +:+ " is already allocated"))
       | None => ret (req_RequestedIP req)
       end
     else
       map_err (Wrapped "failed to find available IP")
         (lift (findAvailableIP (CIDR (Spec pool)) allocations))) ;;
  allocatedAt <- Now ;;
  let allocations :=
    <[allocatedIP := mkIPAllocation (req_PodName req) (req_PodNamespace req)
                       (req_PodUID req) (req_NodeName req) allocatedAt]> allocations in
  let capacity := calculateCapacity (CIDR (Spec pool)) in
  let allocated := Z.of_nat (size allocations) in
  lastUpdated <- Now ;;
  let pool' :=
    mkIPPool (Name pool) (ResourceVersion pool)
      (mkIPPoolSpec (CIDR (Spec pool)) (Subnet (Spec pool))
         (SecondaryRangeName (Spec pool)) (Some allocations))
      (mkIPPoolStatus capacity allocated (wrap_int (capacity - allocated)) lastUpdated) in
  pool_Update pool' ;;;
  ret (mkAllocationResult allocatedIP (CIDR (Spec pool)) (Subnet (Spec pool))
         (SecondaryRangeName (Spec pool))).

(** The error after the last retry; [lastErr] is nil only when the loop
    never ran. *)
Definition retries_error (what : string) (lastErr : option error) : error :=
  let msg := "failed to " +:+ what +:+ " after " +:+ pretty MaxRetries +:+ " retries" in
  match lastErr with
  | Some e => Wrapped msg e
  | None => ErrorString (msg +:+ ": %!w(<nil>)")
  end.

(** The [for i := 0; i < MaxRetries; i++] loop of [Allocate], with [n]
    the iterations left.  The delay is [RetryDelay * (1 << (i-1))], far
    from the range of [time.Duration]. *)
Fixpoint Allocate_loop (n : nat) (i : Z) (lastErr : option error)
         (req : AllocationRequest) : M AllocationResult :=
  match n with
  | O => fail (retries_error "allocate IP" lastErr)
  | S n' =>
      (if 0 <? i then Sleep (RetryDelay * Z.shiftl 1 (i - 1)) else ret tt) ;;;
      r <- try (tryAllocate req) ;;
      match r with
      | inr result => ret result
      | inl err =>
          if IsConflict err then Allocate_loop n' (i + 1) (Some err) req
          else fail err
      end
  end.

Definition Allocate (req : AllocationRequest) : M AllocationResult :=
  Allocate_loop (Z.to_nat MaxRetries) 0 None req.

(** [GetAllocation]: read only. *)
Definition GetAllocation (poolName ip : string) : M AllocationResult :=
  pool <- map_err (Wrapped ("failed to get IPPool " +:+ poolName)) (pool_Get poolName) ;;
  let missing := ErrorString ("IP " +:+ ip +:+ " not found in pool " +:+ poolName) in
  match Allocations (Spec pool) with
  | None => fail missing
  | Some allocations =>
      match allocations !! ip with
      | None => fail missing
      | Some _ =>
          ret (mkAllocationResult ip (CIDR (Spec pool)) (Subnet (Spec pool))
                 (SecondaryRangeName (Spec pool)))
      end
  end.

(** [tryRelease]: [delete] on the map when it is not nil, the status
    recomputed, the write. *)
Definition tryRelease (poolName ip : string) : M unit :=
  pool <- map_err (Wrapped ("failed to get IPPool " +:+ poolName)) (pool_Get poolName) ;;
  let allocations :=
    match Allocations (Spec pool) with
    | Some m => Some (delete ip m)
    | None => None
    end in
  let capacity := calculateCapacity (CIDR (Spec pool)) in
  let allocated := Z.of_nat (size (map_of allocations)) in
  lastUpdated <- Now ;;
  let pool' :=
    mkIPPool (Name pool) (ResourceVersion pool)
      (mkIPPoolSpec (CIDR (Spec pool)) (Subnet (Spec pool))
         (SecondaryRangeName (Spec pool)) allocations)
      (mkIPPoolStatus capacity allocated (wrap_int (capacity - allocated)) lastUpdated) in
  pool_Update pool' ;;;
  ret tt.

Fixpoint Release_loop (n : nat) (i : Z) (lastErr : option error)
         (poolName ip : string) : M unit :=
  match n with
  | O => fail (retries_error "release IP" lastErr)
  | S n' =>
      (if 0 <? i then Sleep (RetryDelay * Z.shiftl 1 (i - 1)) else ret tt) ;;;
      r <- try (tryRelease poolName ip) ;;
      match r with
      | inr _ => ret tt
      | inl err =>
          if IsConflict err then Release_loop n' (i + 1) (Some err) poolName ip
          else fail err
      end
  end.

Definition Release (poolName ip : string) : M unit :=
  Release_loop (Z.to_nat MaxRetries) 0 None poolName ip.

(** [binary.BigEndian.Uint32(b)]: [_ = b[3]] is the bounds check, then
    [uint32(b[3]) | uint32(b[2])<<8 | uint32(b[1])<<16 | uint32(b[0])<<24]. *)
Definition Uint32 (b : list Z) : Outcome Z :=
  match b with
  | b0 :: b1 :: b2 :: b3 :: _ =>
      Ok (Z.lor (Z.lor (Z.lor b3 (Z.shiftl b2 8)) (Z.shiftl b1 16)) (Z.shiftl b0 24))
  | _ => Panic ("index out of range [3] with length " +:+ pretty (Z.of_nat (length b)))
  end.

(** [ipToInt]: [To4], [0] for what is not an IPv4 address. *)
Definition ipToInt (ip : Net.IP) : Outcome Z :=
  let ip := Net.To4 ip in
  if Nat.eqb (length ip) 0 then Ok 0 else Uint32 ip.

End Ipam.
(** ** The provisioner ([internal/provisioner]) *)

Module Provisioner.

Definition internalRangePrefixLength : Z := 16.
Definition targetCidr : string := "10.0.0.0/8".

Record clusterInfo := mkClusterInfo {
  projectID : string;
  region : string;
  subnetworkName : string;
  networkName : string }.

(** [getClusterInfo] ([cluster.go]).  [strings.Split] returns at least one
    part, so the two "failed to parse" branches cannot be taken. *)
Definition getClusterInfo : M clusterInfo :=
  projectID <- map_err (Wrapped "failed to get project ID from metadata")
                 (metadata_get "ProjectID" md_ProjectID) ;;
  zone <- map_err (Wrapped "failed to get zone from metadata")
            (metadata_get "Zone" md_Zone) ;;
  region <- region_of_zone zone ;;
  instanceName <- map_err (Wrapped "failed to get instance name from metadata")
                    (metadata_get "InstanceName" md_InstanceName) ;;
  instance <- map_err (Wrapped "failed to get instance details")
                (Instances_Get instanceName) ;;
  match inst_NetworkInterfaces instance with
  | [] => fail (ErrorString "instance has no network interfaces")
  | nic :: _ =>
      let networkName := last_part (split_on "/" (nic_Network nic)) in
      let subnetworkName := last_part (split_on "/" (nic_Subnetwork nic)) in
      ret (mkClusterInfo projectID region subnetworkName networkName)
  end.

(** [isNotFound] of [range.go]: a gRPC status with code [NotFound] (5). *)
Definition isNotFound (err : error) : bool :=
  match err with
  | GrpcStatus code _ => code =? 5
  | _ => false
  end.

(** [internalRangesClient.GetInternalRange]. *)
Definition GetInternalRange (name : string) : M string :=
  remote (EvInternalRangeGet name) ;;;
  fun w =>
    match w_ranges w !! name with
    | Some cidr => (Ok cidr, w)
    | None => (Err (GrpcStatus 5 ("Resource '" +:+ name +:+ "' was not found")), w)
    end.

(** [internalRangesClient.CreateInternalRange], which starts the
    long-running operation. *)
Definition CreateInternalRange (name : string) : M string :=
  remote (EvInternalRangeCreate name) ;;; ret name.

(** [op.Wait(ctx)] on the reservation: the cloud assigns the block. *)
Definition WaitInternalRange (name : string) : M string :=
  remote (EvCall "CreateInternalRangeOperation.Wait") ;;;
  fun w => (Ok (w_assigned_cidr w),
            set_ranges (fun rs => <[name := w_assigned_cidr w]> rs) w).

(** [allocateInternalRange] ([range.go]). *)
Definition allocateInternalRange (c : clusterInfo) (addressName : string) : M string :=
  let parent := "projects/" +:+ projectID c +:+ "/locations/global" in
  let resourceName := parent +:+ "/internalRanges/" +:+ addressName in
  existing <- try (GetInternalRange resourceName) ;;
  match existing with
  | inr existingCIDR => ret existingCIDR
  | inl err =>
      if negb (isNotFound err) then
        fail (Wrapped "failed to check existing reservation" err)
      else
        op <- map_err (Wrapped "failed to create internal range reservation")
                (CreateInternalRange resourceName) ;;
        map_err (Wrapped "failed to wait for internal range reservation")
          (WaitInternalRange op)
  end.

(** [subnetworkClient.Patch]: checked against the subnet's fingerprint. *)
Definition Subnetworks_Patch (name : string) (fingerprint : Z)
           (ranges : list SubnetworkSecondaryRange) : M string :=
  remote (EvSubnetPatch name ranges) ;;;
  fun w =>
    match w_subnets w !! name with
    | None => (Err (GoogleApiError 404 ("The resource 'subnetworks/" +:+ name
                                        +:+ "' was not found")), w)
    | Some s =>
        if sub_Fingerprint s =? fingerprint then (Ok name, w)
        else (Err (GoogleApiError 412 "Supplied fingerprint does not match current fingerprint"),
              w)
    end.

(** [op.Wait(ctx)] on the patch: the subnet gets the ranges. *)
Definition WaitSubnetPatch (name : string) (ranges : list SubnetworkSecondaryRange)
  : M unit :=
  remote (EvCall "Operation.Wait") ;;;
  fun w =>
    (Ok tt,
     set_subnets
       (fun ss =>
          match ss !! name with
          | Some s => <[name := mkSubnetwork (sub_IpCidrRange s) (sub_Fingerprint s + 1) ranges]> ss
          | None => ss
          end) w).

(** [createOrUpdateIPPool]: any error of the [Get] leads to [Create]. *)
Definition createOrUpdateIPPool (subnetworkName cidr subnetURL secondaryRangeName : string)
  : M unit :=
  let poolName := "ippool-" +:+ subnetworkName in
  let ipPool :=
    mkIPPool poolName 0
      (mkIPPoolSpec cidr subnetURL secondaryRangeName (Some ∅))
      (mkIPPoolStatus 0 0 0 0) in
  existing <- try (pool_Get poolName) ;;
  match existing with
  | inr existingIPPool =>
      let ipPool :=
        mkIPPool poolName (ResourceVersion existingIPPool)
          (mkIPPoolSpec cidr subnetURL secondaryRangeName
             (Allocations (Spec existingIPPool)))
          (mkIPPoolStatus 0 0 0 0) in
      map_err (Wrapped "update IPPool") (pool_Update ipPool) ;;;
      ret tt
  | inl _ =>
      map_err (Wrapped "create IPPool") (pool_Create ipPool) ;;;
      ret tt
  end.

(** [Provision].  The error of [allocateInternalRange] is assigned and
    never read: the next [err] the code looks at is the one of [Patch]. *)
Definition Provision (secondaryRangeName : string) : M unit :=
  clusterInfo <- map_err (Wrapped "get cluster info") getClusterInfo ;;
  subnet <- map_err (Wrapped "get subnetwork")
              (Subnetworks_Get (subnetworkName clusterInfo)) ;;
  let subnetURL := "projects/" +:+ projectID clusterInfo +:+ "/regions/"
                   +:+ region clusterInfo +:+ "/subnetworks/"
                   +:+ subnetworkName clusterInfo in
  match List.find (fun r => String.eqb (sr_RangeName r) secondaryRangeName)
          (sub_SecondaryIpRanges subnet) with
  | Some r =>
      map_err (Wrapped "ensure IPPool resource")
        (createOrUpdateIPPool (subnetworkName clusterInfo) (sr_IpCidrRange r) subnetURL
           secondaryRangeName)
  | None =>
      allocated <- try (allocateInternalRange clusterInfo secondaryRangeName) ;;
      let internalRangeCIDR :=
        match allocated with
        | inr cidr => cidr
        | inl _ => EmptyString
        end in
      let internalRangePath :=
        "//networkconnectivity.googleapis.com/projects/" +:+ projectID clusterInfo
        +:+ "/locations/global/internalRanges/" +:+ secondaryRangeName in
      let ranges :=
        sub_SecondaryIpRanges subnet
        ++ [mkSecondaryRange secondaryRangeName internalRangeCIDR internalRangePath] in
      op <- map_err (Wrapped "update subnetwork")
              (Subnetworks_Patch (subnetworkName clusterInfo) (sub_Fingerprint subnet) ranges) ;;
      map_err (Wrapped "wait for subnet update") (WaitSubnetPatch op ranges) ;;;
      map_err (Wrapped "create IPPool resource")
        (createOrUpdateIPPool (subnetworkName clusterInfo) internalRangeCIDR subnetURL
           secondaryRangeName)
  end.

End Provisioner.

(** ** The CNI driver ([cmd/ipam/main.go]) *)

Module Driver.

Record PluginConf := mkPluginConf {
  conf_CNIVersion : string;
  conf_IPPoolName : string }.

(** [skel.CmdArgs]. *)
Record CmdArgs := mkCmdArgs {
  ContainerID : string;
  Netns : string;
  IfName : string;
  Args : string;
  Path : string;
  StdinData : string }.

(** The [current.Result] of an ADD: one address with its gateway, one
    route. *)
Record Result := mkResult {
  res_CNIVersion : string;
  res_Address : Net.IPNet;
  res_Gateway : Net.IP;
  res_RouteDst : Net.IPNet }.

Definition LiveIPAnnotation : string := "live.cast.ai/ip".
Definition OriginalInstanceAnnotation : string := "live.cast.ai/original-instance".
Definition MoveOutAnnotation : string := "live.cast.ai/move-out-ip".

(** [fmt.Sprintf("%s/32", ip)]. *)
Definition slash32 (ip : string) : string := ip +:+ "/32".

(** [lo.Filter(aliases, func(a) bool { return a.IpCidrRange != "<ip>/32" })]. *)
Definition without_alias (ip : string) (aliases : list AliasIpRange) : list AliasIpRange :=
  List.filter (fun a => negb (String.eqb (IpCidrRange a) (slash32 ip))) aliases.

(** [waitForInstanceOperation], on fuel: one unit per poll.  Both callers
    pass [context.Background()], whose [Done] channel never fires, so the
    [select] always takes the 100 ms timer. *)
Fixpoint waitForInstanceOperation (fuel : nat) (opName : string) : M unit :=
  match fuel with
  | O => fun w => (OutOfFuel, w)
  | S fuel' =>
      op <- ZoneOperations_Get opName ;;
      if String.eqb (os_Status op) "DONE" then
        match os_Error op with
        | Some errs => fail (ErrorString ("operation failed: " +:+ Join errs ", "))
        | None => ret tt
        end
      else
        Sleep 100 ;;;
        waitForInstanceOperation fuel' opName
  end.

(** [getInstanceInfo]: project, zone, region and instance name. *)
Definition getInstanceInfo : M (string * string * string * string) :=
  map_err (Wrapped "failed to create compute service") (remote (EvCall "compute.New")) ;;;
  projectID <- map_err (Wrapped "failed to get project ID from metadata")
                 (metadata_get "ProjectID" md_ProjectID) ;;
  zone <- map_err (Wrapped "failed to get zone from metadata")
            (metadata_get "Zone" md_Zone) ;;
  region <- region_of_zone zone ;;
  instanceName <- map_err (Wrapped "failed to get instance name from metadata")
                    (metadata_get "InstanceName" md_InstanceName) ;;
  ret (projectID, zone, region, instanceName).

(** [Pods(ns).Get(ctx, name, ...)]. *)
Definition Pods_Get (ns name : string) : M Pod :=
  remote (EvPodGet ns name) ;;;
  fun w =>
    match w_pods w !! (ns, name) with
    | Some p => (Ok p, w)
    | None => (Err (not_found "pods" name), w)
    end.

(** [fileLock.Lock()] with the deferred [fileLock.Unlock()], which also
    runs when the body panics. *)
Definition with_lock {A} (body : M A) : M A :=
  fun w =>
    match body (log EvLock w) with
    | (OutOfFuel, w') => (OutOfFuel, w')
    | (o, w') => (o, log EvUnlock w')
    end.

Section WithConfigParser.

(** [parseConfig]: [json.Unmarshal] and [version.ParsePrevResult] belong to
    the CNI framing library; the driver is modelled over any such decoder. *)
Variable parseConfig : string -> error + PluginConf.

Definition parse_config (stdin : string) : M PluginConf :=
  match parseConfig stdin with
  | inr conf => ret conf
  | inl err => fail err
  end.

(** What the first part of [cmdAdd] hands to the rest. *)
Record AddContext := mkAddContext {
  ctx_conf : PluginConf;
  ctx_podName : string;
  ctx_podNamespace : string;
  ctx_pod : Pod;
  ctx_instanceName : string;
  ctx_instance : Instance;
  ctx_nic : NetworkInterface;
  ctx_subnet : Subnetwork;
  ctx_poolName : string }.

(** [cmdAdd], from [parseConfig] to the pool name (lines 125 to 202). *)
Definition add_preamble (args : CmdArgs) : M AddContext :=
  conf <- parse_config (StdinData args) ;;
  map_err (Wrapped "failed to build k8s client") (remote (EvCall "buildKubeClient")) ;;;
  let cniArgs := parse_cni_args (Args args) in
  let ns := get_or_empty cniArgs "K8S_POD_NAMESPACE" in
  let name := get_or_empty cniArgs "K8S_POD_NAME" in
  p <- map_err (Wrapped ("failed to get pod " +:+ ns +:+ "/" +:+ name)) (Pods_Get ns name) ;;
  map_err (Wrapped "failed to create google default client")
    (remote (EvCall "google.DefaultClient")) ;;;
  info <- getInstanceInfo ;;
  let '(projectID, zone, region, instanceName) := info in
  instance <- map_err (Wrapped "failed to get instance details")
                (Instances_Get instanceName) ;;
  nic <- index0 (inst_NetworkInterfaces instance) ;;
  let subnetwork := last_part (split_on "/" (nic_Subnetwork nic)) in
  subnet <- map_err (Wrapped "failed to get subnetwork details")
              (Subnetworks_Get subnetwork) ;;
  map_err (Wrapped "failed to build dynamic client")
    (remote (EvCall "buildDynamicClient")) ;;;
  let poolName :=
    if String.eqb (conf_IPPoolName conf) EmptyString then "ippool-" +:+ subnetwork
    else conf_IPPoolName conf in
  ret (mkAddContext conf name ns p instanceName instance nic subnet poolName).

(** The allocation (lines 204 to 240): [Allocate] on the standard path,
    [GetAllocation] when the pod carries the requested-IP annotation. *)
Definition add_allocation (ctx : AddContext) : M (string * Ipam.AllocationResult) :=
  match pod_Annotations (ctx_pod ctx) !! LiveIPAnnotation with
  | None =>
      let allocationReq :=
        Ipam.mkAllocationRequest (ctx_poolName ctx) (ctx_podName ctx) (ctx_podNamespace ctx)
          (pod_UID (ctx_pod ctx)) (ctx_instanceName ctx) EmptyString in
      allocationResult <-
        map_err (Wrapped ("failed to allocate IP from pool " +:+ ctx_poolName ctx))
          (Ipam.Allocate allocationReq) ;;
      ret (Ipam.res_IP allocationResult, allocationResult)
  | Some reqIP =>
      allocationResult <-
        map_err (Wrapped ("failed to get allocation for IP " +:+ reqIP +:+ " from pool "
                          +:+ ctx_poolName ctx))
          (Ipam.GetAllocation (ctx_poolName ctx) reqIP) ;;
      ret (reqIP, allocationResult)
  end.

(** The detach on the source instance (lines 242 to 270). *)
Definition add_source_detach (fuel : nat) (ctx : AddContext) : M unit :=
  match pod_Annotations (ctx_pod ctx) !! OriginalInstanceAnnotation with
  | None => ret tt
  | Some origInst =>
      let reqIP := get_or_empty (pod_Annotations (ctx_pod ctx)) LiveIPAnnotation in
      origInstance <- map_err (Wrapped "failed to get original instance")
                        (Instances_Get origInst) ;;
      nic <- index0 (inst_NetworkInterfaces origInstance) ;;
      let removed := without_alias reqIP (nic_AliasIpRanges nic) in
      c <- map_err (Wrapped "failed to update network interface")
             (Instances_UpdateNetworkInterface origInst (nic_Name nic)
                (nic_Fingerprint nic) removed) ;;
      map_err (Wrapped "failed to wait for network interface update operation")
        (waitForInstanceOperation fuel c)
  end.

(** The attach on this instance (lines 272 to 295). *)
Definition add_destination_attach (fuel : nat) (ctx : AddContext) (newAddress : string)
           (allocationResult : Ipam.AllocationResult) : M unit :=
  let secondaryRangeName :=
    if String.eqb (Ipam.res_SecondaryRangeName allocationResult) EmptyString then "live"
    else Ipam.res_SecondaryRangeName allocationResult in
  c <- map_err (Wrapped "failed to update network interface")
         (Instances_UpdateNetworkInterface (ctx_instanceName ctx) (nic_Name (ctx_nic ctx))
            (nic_Fingerprint (ctx_nic ctx))
            (nic_AliasIpRanges (ctx_nic ctx)
             ++ [mkAliasIpRange (slash32 newAddress) secondaryRangeName])) ;;
  map_err (Wrapped "failed to wait for network interface update operation")
    (waitForInstanceOperation fuel c).

(** The result (lines 297 to 324).  The errors of the second and third
    [ParseCIDR] are dropped, so a pool cidr that does not parse leaves [gw]
    nil and [gw[15]] panics. *)
Definition add_result (ctx : AddContext) (newAddress : string)
           (allocationResult : Ipam.AllocationResult) : M Result :=
  match Net.ParseCIDR (sub_IpCidrRange (ctx_subnet ctx)) with
  | None =>
      fail (Wrapped ("failed to parse subnetwork CIDR " +:+ sub_IpCidrRange (ctx_subnet ctx))
              (Ipam.ParseError (sub_IpCidrRange (ctx_subnet ctx))))
  | Some (_, ipNet) =>
      let ipNet := Net.mkIPNet (Net.ParseIP newAddress) (Net.IPNet_Mask ipNet) in
      let gw := match Net.ParseCIDR (Ipam.res_CIDR allocationResult) with
                | Some (ip, _) => ip
                | None => []
                end in
      match gw !! 15%nat with
      | None => panic ("index out of range [15] with length "
                       +:+ pretty (Z.of_nat (length gw)))
      | Some b =>
          let gw := <[15%nat := wrap8 (b + 1)]> gw in
          let r := match Net.ParseCIDR "0.0.0.0/0" with
                   | Some (_, r) => r
                   | None => Net.mkIPNet [] []
                   end in
          remote EvPrintResult ;;;
          ret (mkResult (conf_CNIVersion (ctx_conf ctx)) ipNet gw r)
      end
  end.

(** [cmdAdd]. *)
Definition cmdAdd (fuel : nat) (args : CmdArgs) : M Result :=
  with_lock
    (ctx <- add_preamble args ;;
     allocation <- add_allocation ctx ;;
     let '(newAddress, allocationResult) := allocation in
     add_source_detach fuel ctx ;;;
     add_destination_attach fuel ctx newAddress allocationResult ;;;
     add_result ctx newAddress allocationResult).

(** The release at the end of [cmdDel] (lines 454 to 484): its failures
    are logged, not returned. *)
Definition del_release (conf : PluginConf) (instance : Instance) (ip : string) : M unit :=
  built <- try (remote (EvCall "buildDynamicClient")) ;;
  match built with
  | inl _ => ret tt
  | inr _ =>
      nic <- index0 (inst_NetworkInterfaces instance) ;;
      let subnetwork := last_part (split_on "/" (nic_Subnetwork nic)) in
      let poolName :=
        if String.eqb (conf_IPPoolName conf) EmptyString then "ippool-" +:+ subnetwork
        else conf_IPPoolName conf in
      try (Ipam.Release poolName ip) ;;;
      ret tt
  end.

(** [cmdDel]. *)
Definition cmdDel (fuel : nat) (args : CmdArgs) : M unit :=
  if String.eqb (Netns args) EmptyString then ret tt
  else
    with_lock
      (conf <- parse_config (StdinData args) ;;
       let cniArgs := parse_cni_args (Args args) in
       let ns := get_or_empty cniArgs "K8S_POD_NAMESPACE" in
       let name := get_or_empty cniArgs "K8S_POD_NAME" in
       map_err (Wrapped "failed to build k8s client") (remote (EvCall "buildKubeClient")) ;;;
       p <- map_err (Wrapped ("failed to get pod " +:+ ns +:+ "/" +:+ name))
              (Pods_Get ns name) ;;
       let isMigrationFlow :=
         match pod_Annotations p !! MoveOutAnnotation with
         | Some _ => true
         | None => false
         end in
       ip <- index0 (pod_PodIPs p) ;;
       map_err (Wrapped "failed to create google default client")
         (remote (EvCall "google.DefaultClient")) ;;;
       info <- getInstanceInfo ;;
       let '(projectID, zone, region, instanceName) := info in
       instance <- map_err (Wrapped "failed to get instance details")
                     (Instances_Get instanceName) ;;
       i <- map_err (Wrapped "failed to get instance") (Instances_Get instanceName) ;;
       nic <- index0 (inst_NetworkInterfaces i) ;;
       let removed := without_alias ip (nic_AliasIpRanges nic) in
       c <- map_err (Wrapped "failed to update network interface")
              (Instances_UpdateNetworkInterface instanceName (nic_Name nic)
                 (nic_Fingerprint nic) removed) ;;
       map_err (Wrapped "failed to wait for network interface update operation")
         (waitForInstanceOperation fuel c) ;;;
       if isMigrationFlow then ret tt
       else del_release conf instance ip).

(** [cmdCheck]. *)
Definition cmdCheck (args : CmdArgs) : M unit := ret tt.

End WithConfigParser.

End Driver.

(** ** The installer ([cmd/installer], [internal/installer]) *)

Module Installer.

(** *** The host's files *)

(** A file as the installer sees it: its bytes, its permission bits and
    its modification time. *)
Record File := mkFile {
  file_data : string;
  file_mode : Z;
  file_mtime : Z }.

(** The errors of the [os] calls: the one [os.IsNotExist] recognises, and
    the others. *)
Inductive OsError :=
| ErrNotExist (op path : string)
| ErrOther (op path msg : string).

Definition IsNotExist (e : OsError) : bool :=
  match e with
  | ErrNotExist _ _ => true
  | ErrOther _ _ _ => false
  end.

(** The message of a [PathError], as an [error] of the embedding. *)
Definition os_error (e : OsError) : error :=
  match e with
  | ErrNotExist op path => ErrorString (op +:+ " " +:+ path +:+ ": no such file or directory")
  | ErrOther op path msg => ErrorString (op +:+ " " +:+ path +:+ ": " +:+ msg)
  end.

Inductive FsEvent :=
| FsStat (path : string)
| FsReadFile (path : string)
| FsWriteFile (path : string)
| FsRename (oldpath newpath : string)
| FsMkdirAll (path : string)
| FsOpen (path : string)
| FsCreate (path : string)
| FsCopy (source target : string)
| FsChmod (path : string).

(** The host: its files by path, the clock, and the environment's
    behaviour as data, as in [World]: [h_faults] decides, call by call,
    whether the next [os] call fails for a reason of the host's (a missing
    directory, a read-only mount, ...), and [h_trace] records the calls
    made, oldest first.  Directories are not modelled: a call that needs
    one fails when the fault script says so. *)
Record Host := mkHost {
  h_files : gmap string File;
  h_now : Z;
  h_faults : list (option OsError);
  h_trace : list FsEvent }.

Definition H (A : Type) : Type := Host -> Outcome A * Host.

Definition hret {A} (a : A) : H A := fun h => (Ok a, h).

Definition hbind {A B} (m : H A) (k : A -> H B) : H B :=
  fun h =>
    match m h with
    | (Ok a, h') => k a h'
    | (Err e, h') => (Err e, h')
    | (Panic msg, h') => (Panic msg, h')
    | (OutOfFuel, h') => (OutOfFuel, h')
    end.

Definition hfail {A} (e : error) : H A := fun h => (Err e, h).

(** One [os] call: it is recorded, the fault script decides whether it
    fails, and otherwise it has its effect [run] on the files. *)
Definition oscall {A} (ev : FsEvent)
           (run : gmap string File -> Z -> (OsError + A) * gmap string File)
  : H (OsError + A) :=
  fun h =>
    let trace := h_trace h ++ [ev] in
    match h_faults h with
    | Some e :: fs => (Ok (inl e), mkHost (h_files h) (h_now h) fs trace)
    | fs =>
        let '(r, files) := run (h_files h) (h_now h) in
        (Ok r, mkHost files (h_now h) (tail fs) trace)
    end.

(** [if err := f(); err != nil { return fmt.Errorf("<msg>: %w", err) }] on
    a function of this program. *)
Definition hmap_err {A} (f : error -> error) (m : H A) : H A :=
  fun h =>
    match m h with
    | (Err e, h') => (Err (f e), h')
    | r => r
    end.

(** [x, err := f(); if err != nil { return fmt.Errorf("<msg>: %w", err) }]
    on an [os] call. *)
Definition orfail {A} (msg : string) (m : H (OsError + A)) : H A :=
  hbind m (fun r =>
             match r with
             | inr a => hret a
             | inl e => hfail (Wrapped msg (os_error e))
             end).

(** [os.Stat]: the size and the modification time. *)
Definition Stat (path : string) : H (OsError + (Z * Z)) :=
  oscall (FsStat path)
    (fun files _ =>
       match files !! path with
       | Some f => (inr (Z.of_nat (String.length (file_data f)), file_mtime f), files)
       | None => (inl (ErrNotExist "stat" path), files)
       end).

(** [os.ReadFile]. *)
Definition ReadFile (path : string) : H (OsError + string) :=
  oscall (FsReadFile path)
    (fun files _ =>
       match files !! path with
       | Some f => (inr (file_data f), files)
       | None => (inl (ErrNotExist "open" path), files)
       end).

(** Opening with [O_CREATE|O_TRUNC] and writing [data]: an existing file
    keeps its permission bits, a new one gets [perm]. *)
Definition truncated (files : gmap string File) (path data : string) (perm now : Z) : File :=
  match files !! path with
  | Some f => mkFile data (file_mode f) now
  | None => mkFile data perm now
  end.

(** [os.WriteFile(path, data, perm)]; a nil [data] writes nothing, which
    leaves the file empty. *)
Definition WriteFile (path : string) (data : option string) (perm : Z) : H (OsError + unit) :=
  oscall (FsWriteFile path)
    (fun files now =>
       let bytes := match data with Some d => d | None => EmptyString end in
       (inr tt, <[path := truncated files path bytes perm now]> files)).

(** [os.Rename]: the file moves, replacing what was at [newpath]; its
    modification time goes with it. *)
Definition Rename (oldpath newpath : string) : H (OsError + unit) :=
  oscall (FsRename oldpath newpath)
    (fun files _ =>
       match files !! oldpath with
       | Some f => (inr tt, <[newpath := f]> (delete oldpath files))
       | None => (inl (ErrNotExist "rename" oldpath), files)
       end).

(** [os.MkdirAll]. *)
Definition MkdirAll (path : string) : H (OsError + unit) :=
  oscall (FsMkdirAll path) (fun files _ => (inr tt, files)).

(** [os.Open]: the handle is the path; reads through it see the file as
    it is when they are made. *)
Definition Open (path : string) : H (OsError + string) :=
  oscall (FsOpen path)
    (fun files _ =>
       match files !! path with
       | Some _ => (inr path, files)
       | None => (inl (ErrNotExist "open" path), files)
       end).

(** [os.Create]: [O_RDWR|O_CREATE|O_TRUNC] with mode [0o666]. *)
Definition Create (path : string) : H (OsError + string) :=
  oscall (FsCreate path)
    (fun files now => (inr path, <[path := truncated files path EmptyString 438 now]> files)).

(** The first [n] bytes of a string. *)
Definition take (n : Z) (s : string) : string := String.substring 0 (Z.to_nat n) s.

(** [io.Copy(outFile, &io.LimitedReader{R: source, N: n})]: at most [n]
    bytes of the source go to the target; the value is the reader's [N]
    afterwards. *)
Definition CopyLimited (source target : string) (n : Z) : H (OsError + Z) :=
  oscall (FsCopy source target)
    (fun files now =>
       match files !! source, files !! target with
       | Some src, Some dst =>
           let bytes := take n (file_data src) in
           (inr (n - Z.of_nat (String.length bytes)),
            <[target := mkFile bytes (file_mode dst) now]> files)
       | None, _ => (inl (ErrOther "read" source "file already closed"), files)
       | _, None => (inl (ErrOther "write" target "file already closed"), files)
       end).

(** [os.Chmod]. *)
Definition Chmod (path : string) (mode : Z) : H (OsError + unit) :=
  oscall (FsChmod path)
    (fun files _ =>
       match files !! path with
       | Some f => (inr tt, <[path := mkFile (file_data f) mode (file_mtime f)]> files)
       | None => (inl (ErrNotExist "chmod" path), files)
       end).

(** *** [internal/installer/cni.go] *)

(** What [encoding/json] decodes into an [interface{}]: nil, a bool, a
    [float64] (by its bits), a string, a slice, a map. *)
Local Unset Elimination Schemes.
Inductive JSON :=
| JNull
| JBool (b : bool)
| JNumber (bits : Z)
| JString (s : string)
| JArray (l : list JSON)
| JObject (m : gmap string JSON).
Local Set Elimination Schemes.

(** A plugin is a [map[string]interface{}], nil ([None]) when the
    document has [null] in its place; the slice of plugins is nil when the
    document has no [plugins]. *)
Definition Plugin := option (gmap string JSON).

Record CNIConfig := mkCNIConfig {
  cfg_CNIVersion : string;
  cfg_Name : string;
  cfg_Plugins : option (list Plugin) }.

(** [ipam, ok := plugin["ipam"].(map[string]interface{})]. *)
Definition plugin_ipam (plugin : Plugin) : option (gmap string JSON) :=
  match plugin with
  | Some m =>
      match m !! "ipam" with
      | Some (JObject ipam) => Some ipam
      | _ => None
      end
  | None => None
  end.

(** [ipam["type"] = ipamType]: the map [ipam] is the one the plugin holds
    under ["ipam"], so the plugin sees the new type. *)
Definition set_ipam_type (ipamType : string) (plugin : Plugin) (ipam : gmap string JSON)
  : Plugin :=
  match plugin with
  | Some m => Some (<["ipam" := JObject (<["type" := JString ipamType]> ipam)]> m)
  | None => None
  end.

(** The loop [for i, plugin := range config.Plugins]: the plugins after
    it, and [modified]. *)
Fixpoint update_plugins (ipamType : string) (plugins : list Plugin) (modified : bool)
  : list Plugin * bool :=
  match plugins with
  | [] => ([], modified)
  | plugin :: rest =>
      match plugin_ipam plugin with
      | None =>
          let '(rest', modified') := update_plugins ipamType rest modified in
          (plugin :: rest', modified')
      | Some ipam =>
          let '(rest', modified') := update_plugins ipamType rest true in
          (set_ipam_type ipamType plugin ipam :: rest', modified')
      end
  end.

Section WithJSON.

(** [json.Unmarshal] into a [CNIConfig] and [json.MarshalIndent] of one
    belong to the standard library; the installer is modelled over any
    such pair. *)
Variable Unmarshal : string -> error + CNIConfig.
Variable MarshalIndent : CNIConfig -> error + string.

(** [UpdateCNIIPAM]: the new document, [inr None] for the [nil, nil] it
    returns when no plugin has an [ipam] object. *)
Definition UpdateCNIIPAM (data ipamType : string) : error + option string :=
  match Unmarshal data with
  | inl err => inl (Wrapped "failed to parse CNI config" err)
  | inr config =>
      let '(plugins, modified) :=
        match cfg_Plugins config with
        | Some ps =>
            let '(ps', modified) := update_plugins ipamType ps false in
            (Some ps', modified)
        | None => (None, false)
        end in
      if negb modified then inr None
      else
        match MarshalIndent (mkCNIConfig (cfg_CNIVersion config) (cfg_Name config) plugins) with
        | inl err => inl (Wrapped "failed to marshal updated config" err)
        | inr updatedData => inr (Some updatedData)
        end
  end.

(** *** [cmd/installer] *)

(** The flags of the installer. *)
Record Flags := mkFlags {
  cniBinDir : string;
  cniConfDir : string;
  cniConfName : string;
  hostRoot : string }.

Definition maxCopyBytes : Z := 100 * 1024 * 1024.

(** [filepath.Join], of the standard library. *)
Variable Join_path : list string -> string.

Variable flags : Flags.

(** [filesMatch]. *)
Definition filesMatch (src dest : string) : H bool :=
  hbind (Stat src) (fun srcInfo =>
  match srcInfo with
  | inl _ => hret false
  | inr (srcSize, srcTime) =>
      hbind (Stat dest) (fun destInfo =>
      match destInfo with
      | inl _ => hret false
      | inr (destSize, destTime) => hret ((srcSize =? destSize) && (srcTime =? destTime))
      end)
  end).

(** [copyFile]; the [io.Reader] is the open source file. *)
Definition copyFile (source targetPath : string) : H unit :=
  hbind (orfail "failed to create file" (Create targetPath)) (fun outFile =>
  hbind (orfail "failed to write file" (CopyLimited source outFile maxCopyBytes)) (fun n =>
  if n <=? 0 then
    hfail (ErrorString ("reached uncompressed file size limit " +:+ pretty maxCopyBytes
                        +:+ " bytes"))
  else hret tt)).

(** [installHostBinary]. *)
Definition installHostBinary (binaryName : string) : H unit :=
  let srcPath := Join_path ["/app"; binaryName] in
  let destDir := Join_path [hostRoot flags; cniBinDir flags] in
  let destPath := Join_path [destDir; binaryName] in
  hbind (filesMatch srcPath destPath) (fun same =>
  if same then hret tt
  else
    hbind (orfail ("failed to create directory " +:+ destDir) (MkdirAll destDir)) (fun _ =>
    hbind (orfail ("failed to open source file " +:+ srcPath) (Open srcPath)) (fun srcFile =>
    let tmpPath := destPath +:+ ".tmp" in
    hbind (hmap_err (Wrapped "failed to copy file") (copyFile srcFile tmpPath)) (fun _ =>
    hbind (orfail "failed to set permissions" (Chmod tmpPath 493)) (fun _ =>
    orfail "failed to rename file" (Rename tmpPath destPath)))))).

(** [reconfigureCNIIPAMConf]. *)
Definition reconfigureCNIIPAMConf (ipamType : string) : H unit :=
  let confDir := Join_path [hostRoot flags; cniConfDir flags] in
  let confPath := Join_path [confDir; cniConfName flags] in
  hbind (Stat confPath) (fun info =>
  if match info with inl err => IsNotExist err | inr _ => false end then hret tt
  else
    hbind (orfail "failed to read CNI config" (ReadFile confPath)) (fun data =>
    match UpdateCNIIPAM data ipamType with
    | inl err => hfail err
    | inr updatedData =>
        let tmpPath := confPath +:+ ".tmp" in
        hbind (orfail "failed to write temporary config" (WriteFile tmpPath updatedData 420))
          (fun _ => orfail "failed to rename config file" (Rename tmpPath confPath))
    end)).

(** [runInstallation]. *)
Definition runInstallation : H unit :=
  hbind (hmap_err (Wrapped "failed to install gcp-ipam binary") (installHostBinary "gcp-ipam"))
    (fun _ => hmap_err (Wrapped "failed to reconfigure CNI") (reconfigureCNIIPAMConf "gcp-ipam")).

End WithJSON.

End Installer.

Definition alloc0 : IPAllocation := mkIPAllocation "p" "ns" "uid" "node" 0.

Example parse_cidr_30 :
  Net.ParseCIDR "10.0.0.5/30"
  = Some ([0;0;0;0;0;0;0;0;0;0;255;255;10;0;0;5],
          Net.mkIPNet [10;0;0;4] [255;255;255;252]).
Proof. reflexivity. Qed.

Example string_ip : Net.IP_String [10; 111; 0; 255] = "10.111.0.255".
Proof. reflexivity. Qed.

Example size_of_mask : Net.Size (Net.CIDRMask 19 32) = (19, 32).
Proof. reflexivity. Qed.

Example nextIP_carry : Ipam.nextIP [10; 0; 255; 255] = [10; 1; 0; 0].
Proof. reflexivity. Qed.

Example find_first : Ipam.findAvailableIP "10.111.0.0/16" ∅ = Ok "10.111.0.1".
Proof. vm_compute. reflexivity. Qed.

Example find_second :
  Ipam.findAvailableIP "10.0.0.0/30" {[ "10.0.0.1" := alloc0 ]} = Ok "10.0.0.2".
Proof. vm_compute. reflexivity. Qed.

Example find_slash32 :
  Ipam.findAvailableIP "10.0.0.7/32" ∅
  = Err (ErrorString "no available IPs in CIDR 10.0.0.7/32").
Proof. vm_compute. reflexivity. Qed.

Example capacity_examples :
  Ipam.calculateCapacity "10.111.0.0/16" = 65534
  /\ Ipam.calculateCapacity "10.0.0.7/32" = 1
  /\ Ipam.calculateCapacity "10.0.0.6/31" = 0
  /\ Ipam.calculateCapacity "0.0.0.0/0" = 4294967294.
Proof. vm_compute. auto. Qed.

(** ** Facts on bytes and big-endian values *)

Lemma range_forallb (k : nat) (f : Z -> bool) :
  forallb f (map Z.of_nat (seq 0 k)) = true ->
  forall n, 0 <= n < Z.of_nat k -> f n = true.
Proof.
  intros H n Hn. rewrite forallb_forall in H. apply H.
  apply in_map_iff. exists (Z.to_nat n). split; [lia|].
  apply in_seq. lia.
Qed.

Lemma land_mod_pow2 a b h :
  0 <= h -> Z.land a b mod 2 ^ h = Z.land (a mod 2 ^ h) (b mod 2 ^ h).
Proof.
  intros Hh. rewrite <- !Z.land_ones by lia.
  apply Z.bits_inj'. intros n Hn. rewrite !Z.land_spec.
  destruct (Z.testbit a n), (Z.testbit b n), (Z.testbit (Z.ones h) n); reflexivity.
Qed.

Lemma lor_mod_pow2 a b h :
  0 <= h -> Z.lor a b mod 2 ^ h = Z.lor (a mod 2 ^ h) (b mod 2 ^ h).
Proof.
  intros Hh. rewrite <- !Z.land_ones by lia.
  apply Z.bits_inj'. intros n Hn. rewrite !Z.land_spec, !Z.lor_spec, !Z.land_spec.
  destruct (Z.testbit a n), (Z.testbit b n), (Z.testbit (Z.ones h) n); reflexivity.
Qed.

Lemma land_div_pow2 a b h :
  0 <= h -> Z.land a b / 2 ^ h = Z.land (a / 2 ^ h) (b / 2 ^ h).
Proof. intros Hh. rewrite <- !Z.shiftr_div_pow2 by lia. apply Z.shiftr_land. Qed.

Lemma lor_div_pow2 a b h :
  0 <= h -> Z.lor a b / 2 ^ h = Z.lor (a / 2 ^ h) (b / 2 ^ h).
Proof. intros Hh. rewrite <- !Z.shiftr_div_pow2 by lia. apply Z.shiftr_lor. Qed.

Lemma land_is_byte a b : is_byte b -> is_byte (Z.land a b).
Proof.
  intros Hb. unfold is_byte in *.
  assert (E : Z.land a b = Z.land a b mod 2 ^ 8).
  { rewrite land_mod_pow2 by lia. rewrite (Z.mod_small b) by lia.
    rewrite <- (Z.land_ones a) by lia.
    rewrite <- Z.land_assoc. rewrite (Z.land_comm (Z.ones 8)).
    rewrite Z.land_ones by lia. rewrite (Z.mod_small b) by lia. reflexivity. }
  rewrite E. change (2 ^ 8) with 256. apply Z.mod_pos_bound. lia.
Qed.

Lemma lor_is_byte a b : is_byte a -> is_byte b -> is_byte (Z.lor a b).
Proof.
  intros Ha Hb. unfold is_byte in *.
  assert (E : Z.lor a b = Z.lor a b mod 2 ^ 8).
  { rewrite lor_mod_pow2 by lia. rewrite !Z.mod_small by lia. reflexivity. }
  rewrite E. change (2 ^ 8) with 256. apply Z.mod_pos_bound. lia.
Qed.

Lemma bnot_spec b : is_byte b -> bnot b = 255 - b.
Proof.
  intros Hb.
  assert (Hall : forallb (fun b => bnot b =? 255 - b) (map Z.of_nat (seq 0 256)) = true)
    by (vm_compute; reflexivity).
  pose proof (range_forallb 256 _ Hall b Hb) as H.
  simpl in H. lia.
Qed.

Lemma bnot_is_byte b : is_byte b -> is_byte (bnot b).
Proof. intros Hb. rewrite bnot_spec by assumption. unfold is_byte in *. lia. Qed.

(** One step of the big-endian fold commutes with the bitwise operations. *)
Lemma land_step p q a b :
  is_byte a -> is_byte b ->
  Z.land (p * 256 + a) (q * 256 + b) = Z.land p q * 256 + Z.land a b.
Proof.
  intros Ha Hb. unfold is_byte in *.
  rewrite (Z.div_mod (Z.land (p * 256 + a) (q * 256 + b)) (2 ^ 8)) by lia.
  rewrite land_div_pow2, land_mod_pow2 by lia. change (2 ^ 8) with 256.
  rewrite !Z.div_add_l, !(Z.div_small a), !(Z.div_small b) by lia.
  rewrite !Z.add_0_r.
  rewrite !(Z.add_comm (_ * 256)), !Z.mod_add, !Z.mod_small by lia. lia.
Qed.

Lemma lor_step p q a b :
  is_byte a -> is_byte b ->
  Z.lor (p * 256 + a) (q * 256 + b) = Z.lor p q * 256 + Z.lor a b.
Proof.
  intros Ha Hb. unfold is_byte in *.
  rewrite (Z.div_mod (Z.lor (p * 256 + a) (q * 256 + b)) (2 ^ 8)) by lia.
  rewrite lor_div_pow2, lor_mod_pow2 by lia. change (2 ^ 8) with 256.
  rewrite !Z.div_add_l, !(Z.div_small a), !(Z.div_small b) by lia.
  rewrite !Z.add_0_r.
  rewrite !(Z.add_comm (_ * 256)), !Z.mod_add, !Z.mod_small by lia. lia.
Qed.

(** IPv4 addresses as byte slices: four bytes. *)
Definition ip4 (l : list Z) : Prop := length l = 4%nat /\ Forall is_byte l.

Lemma ip4_inv l :
  ip4 l -> exists a b c d, l = [a; b; c; d] /\ is_byte a /\ is_byte b /\ is_byte c /\ is_byte d.
Proof.
  intros [Hl Hf].
  destruct l as [|a [|b [|c [|d [|? ?]]]]]; try discriminate.
  exists a, b, c, d. split; [reflexivity|].
  repeat match goal with H : Forall _ (_ :: _) |- _ => inversion H; subst; clear H end.
  auto.
Qed.

Lemma ip4_intro a b c d :
  is_byte a -> is_byte b -> is_byte c -> is_byte d -> ip4 [a; b; c; d].
Proof.
  intros. split; [reflexivity|].
  repeat (apply Forall_cons_2; [assumption|]). apply Forall_nil_2.
Qed.

Lemma be_val_4 a b c d : be_val [a; b; c; d] = ((a * 256 + b) * 256 + c) * 256 + d.
Proof. unfold be_val. simpl. lia. Qed.

Lemma be_val_bound l : ip4 l -> 0 <= be_val l < 2 ^ 32.
Proof.
  intros H. destruct (ip4_inv l H) as (a & b & c & d & -> & Ha & Hb & Hc & Hd).
  rewrite be_val_4. unfold is_byte in *. change (2 ^ 32) with 4294967296. lia.
Qed.

Lemma ip_of_Z_be_val l : ip4 l -> ip_of_Z (be_val l) = l.
Proof.
  intros H. destruct (ip4_inv l H) as (a & b & c & d & -> & Ha & Hb & Hc & Hd).
  rewrite be_val_4. unfold ip_of_Z, is_byte in *.
  assert (E3 : (((a * 256 + b) * 256 + c) * 256 + d) mod 256 = d).
  { rewrite Z.add_comm, Z.mod_add, Z.mod_small by lia. reflexivity. }
  assert (D3 : (((a * 256 + b) * 256 + c) * 256 + d) / 256 = (a * 256 + b) * 256 + c).
  { rewrite Z.div_add_l, Z.div_small by lia. lia. }
  assert (D2 : (((a * 256 + b) * 256 + c) * 256 + d) / 65536 = a * 256 + b).
  { change 65536 with (256 * 256). rewrite <- Z.div_div, D3 by lia.
    rewrite Z.div_add_l, Z.div_small by lia. lia. }
  assert (D1 : (((a * 256 + b) * 256 + c) * 256 + d) / 16777216 = a).
  { change 16777216 with (65536 * 256). rewrite <- Z.div_div, D2 by lia.
    rewrite Z.div_add_l, Z.div_small by lia. lia. }
  rewrite E3, D3, D2, D1.
  rewrite (Z.mod_small a) by lia.
  rewrite (Z.add_comm (a * 256)), Z.mod_add, (Z.mod_small b) by lia.
  rewrite (Z.add_comm (_ * 256) c), Z.mod_add, (Z.mod_small c) by lia.
  reflexivity.
Qed.

Lemma ip_of_Z_ip4 x : ip4 (ip_of_Z x).
Proof.
  unfold ip_of_Z. apply ip4_intro; unfold is_byte; apply Z.mod_pos_bound; lia.
Qed.

Lemma be_val_ip_of_Z x : 0 <= x < 2 ^ 32 -> be_val (ip_of_Z x) = x.
Proof.
  intros Hx. unfold ip_of_Z. rewrite be_val_4.
  change (2 ^ 32) with 4294967296 in Hx.
  pose proof (Z.div_mod x 256 ltac:(lia)) as H0.
  pose proof (Z.div_mod (x / 256) 256 ltac:(lia)) as H1.
  pose proof (Z.div_mod (x / 256 / 256) 256 ltac:(lia)) as H2.
  rewrite !Z.div_div in H1, H2 by lia.
  change (256 * 256) with 65536 in *.
  rewrite Z.div_div in H2 by lia. change (65536 * 256) with 16777216 in *.
  assert (H3 : x / 16777216 mod 256 = x / 16777216).
  { apply Z.mod_small. split; [apply Z.div_pos; lia|].
    apply Z.div_lt_upper_bound; lia. }
  rewrite H3. lia.
Qed.

Lemma be_val_inj l1 l2 : ip4 l1 -> ip4 l2 -> be_val l1 = be_val l2 -> l1 = l2.
Proof.
  intros H1 H2 E. rewrite <- (ip_of_Z_be_val l1), <- (ip_of_Z_be_val l2) by assumption.
  rewrite E. reflexivity.
Qed.

Lemma be_val_zip_land x m :
  ip4 x -> ip4 m -> be_val (zip_with Z.land x m) = Z.land (be_val x) (be_val m).
Proof.
  intros Hx Hm.
  destruct (ip4_inv x Hx) as (a & b & c & d & -> & Ha & Hb & Hc & Hd).
  destruct (ip4_inv m Hm) as (a' & b' & c' & d' & -> & Ha' & Hb' & Hc' & Hd').
  simpl zip_with. rewrite !be_val_4, !land_step by assumption. reflexivity.
Qed.

Lemma be_val_zip_lor x m :
  ip4 x -> ip4 m -> be_val (zip_with Z.lor x m) = Z.lor (be_val x) (be_val m).
Proof.
  intros Hx Hm.
  destruct (ip4_inv x Hx) as (a & b & c & d & -> & Ha & Hb & Hc & Hd).
  destruct (ip4_inv m Hm) as (a' & b' & c' & d' & -> & Ha' & Hb' & Hc' & Hd').
  simpl zip_with. rewrite !be_val_4, !lor_step by assumption. reflexivity.
Qed.

Lemma zip_land_ip4 x m : ip4 x -> ip4 m -> ip4 (zip_with Z.land x m).
Proof.
  intros Hx Hm.
  destruct (ip4_inv x Hx) as (a & b & c & d & -> & Ha & Hb & Hc & Hd).
  destruct (ip4_inv m Hm) as (a' & b' & c' & d' & -> & Ha' & Hb' & Hc' & Hd').
  simpl. apply ip4_intro; apply land_is_byte; assumption.
Qed.

(** ** Prefix masks as numbers *)

(** The value of the IPv4 mask with [n] leading ones, the network address
    [ip & mask] and the broadcast address [ip | ^mask] of a CIDR block. *)
Definition mask_val (n : Z) : Z := 2 ^ 32 - 2 ^ (32 - n).
Definition network_addr (a n : Z) : Z := Z.land a (mask_val n).
Definition broadcast_addr (a n : Z) : Z := Z.lor a (2 ^ (32 - n) - 1).

Lemma land_prefix_mask X h :
  0 <= h <= 32 -> 0 <= X < 2 ^ 32 ->
  Z.land X (2 ^ 32 - 2 ^ h) = 2 ^ h * (X / 2 ^ h).
Proof.
  intros Hh HX.
  assert (Hp : 0 < 2 ^ h) by (apply Z.pow_pos_nonneg; lia).
  assert (HM : 2 ^ 32 - 2 ^ h = (2 ^ (32 - h) - 1) * 2 ^ h).
  { rewrite Z.mul_sub_distr_r, <- Z.pow_add_r by lia.
    replace (32 - h + h) with 32 by lia. lia. }
  rewrite (Z.div_mod (Z.land X (2 ^ 32 - 2 ^ h)) (2 ^ h)) by lia.
  rewrite land_div_pow2, land_mod_pow2 by lia.
  rewrite HM. rewrite Z.div_mul, Z.mod_mul by lia.
  rewrite Z.land_0_r, Z.add_0_r.
  replace (2 ^ (32 - h) - 1) with (Z.ones (32 - h)) by (rewrite Z.ones_equiv; lia).
  rewrite Z.land_ones by lia.
  rewrite Z.mod_small; [reflexivity|].
  split; [apply Z.div_pos; lia|].
  apply Z.div_lt_upper_bound; [lia|].
  rewrite <- Z.pow_add_r by lia. replace (h + (32 - h)) with 32 by lia. lia.
Qed.

Lemma lor_ones_low Y h : 0 <= h -> 0 <= Y < 2 ^ h -> Z.lor Y (Z.ones h) = Z.ones h.
Proof.
  intros Hh HY. apply Z.bits_inj'. intros n Hn. rewrite Z.lor_spec.
  destruct (Z.lt_ge_cases n h) as [Hlt|Hge].
  - rewrite Z.ones_spec_low by lia. apply orb_true_r.
  - rewrite Z.ones_spec_high by lia. rewrite orb_false_r.
    rewrite <- (Z.mod_small Y (2 ^ h)) by lia.
    apply Z.mod_pow2_bits_high. lia.
Qed.

Lemma lor_host_mask X h :
  0 <= h -> 0 <= X ->
  Z.lor X (2 ^ h - 1) = 2 ^ h * (X / 2 ^ h) + (2 ^ h - 1).
Proof.
  intros Hh HX.
  assert (Hp : 0 < 2 ^ h) by (apply Z.pow_pos_nonneg; lia).
  rewrite (Z.div_mod (Z.lor X (2 ^ h - 1)) (2 ^ h)) by lia.
  rewrite lor_div_pow2, lor_mod_pow2 by lia.
  rewrite (Z.div_small (2 ^ h - 1)), (Z.mod_small (2 ^ h - 1)) by lia.
  rewrite Z.lor_0_r.
  replace (2 ^ h - 1) with (Z.ones h) by (rewrite Z.ones_equiv; lia).
  rewrite lor_ones_low; [reflexivity | lia | apply Z.mod_pos_bound; lia].
Qed.

Lemma network_addr_spec a n :
  0 <= n <= 32 -> 0 <= a < 2 ^ 32 ->
  network_addr a n = 2 ^ (32 - n) * (a / 2 ^ (32 - n)).
Proof. intros. unfold network_addr, mask_val. apply land_prefix_mask; lia. Qed.

Lemma broadcast_addr_spec a n :
  0 <= n <= 32 -> 0 <= a < 2 ^ 32 ->
  broadcast_addr a n = network_addr a n + 2 ^ (32 - n) - 1.
Proof.
  intros. rewrite network_addr_spec by assumption.
  unfold broadcast_addr. rewrite lor_host_mask by lia. lia.
Qed.

Lemma network_addr_range a n :
  0 <= n <= 32 -> 0 <= a < 2 ^ 32 ->
  0 <= network_addr a n /\ broadcast_addr a n < 2 ^ 32.
Proof.
  intros Hn Ha. rewrite broadcast_addr_spec, network_addr_spec by assumption.
  assert (Hp : 0 < 2 ^ (32 - n)) by (apply Z.pow_pos_nonneg; lia).
  assert (Hq : 0 <= a / 2 ^ (32 - n)) by (apply Z.div_pos; lia).
  assert (Hu : a / 2 ^ (32 - n) < 2 ^ n).
  { apply Z.div_lt_upper_bound; [lia|].
    rewrite <- Z.pow_add_r by lia. replace (32 - n + n) with 32 by lia. lia. }
  assert (E : 2 ^ 32 = 2 ^ (32 - n) * 2 ^ n).
  { rewrite <- Z.pow_add_r by lia. f_equal. lia. }
  split; [nia|]. rewrite E. nia.
Qed.

(** Membership in the block of [N = network_addr a n]. *)
Lemma same_block_iff N X h :
  0 <= h -> (2 ^ h | N) ->
  2 ^ h * (X / 2 ^ h) = N <-> N <= X < N + 2 ^ h.
Proof.
  intros Hh [q Hq].
  assert (Hp : 0 < 2 ^ h) by (apply Z.pow_pos_nonneg; lia).
  pose proof (Z.div_mod X (2 ^ h) ltac:(lia)) as HX.
  pose proof (Z.mod_pos_bound X (2 ^ h) Hp) as Hm.
  split.
  - intros E. lia.
  - intros HR. subst N.
    assert (X / 2 ^ h = q); [|nia].
    symmetry. apply (Z.div_unique X (2 ^ h) q (X - q * 2 ^ h)); lia.
Qed.

(** *** [CIDRMask] and [Size], prefix by prefix *)

Definition mask_check (n : Z) : bool :=
  let m := Net.CIDRMask n 32 in
  Nat.eqb (length m) 4
  && forallb (fun b => (0 <=? b) && (b <? 256)) m
  && (be_val m =? mask_val n)
  && bool_decide (Net.Size m = (n, 32)).

Lemma CIDRMask_facts n :
  0 <= n <= 32 ->
  ip4 (Net.CIDRMask n 32) /\ be_val (Net.CIDRMask n 32) = mask_val n
  /\ Net.Size (Net.CIDRMask n 32) = (n, 32).
Proof.
  intros Hn.
  assert (Hall : forallb mask_check (map Z.of_nat (seq 0 33)) = true)
    by (vm_compute; reflexivity).
  pose proof (range_forallb 33 mask_check Hall n ltac:(lia)) as H.
  unfold mask_check in H.
  apply andb_prop in H as [H H4]. apply andb_prop in H as [H H3].
  apply andb_prop in H as [H1 H2].
  repeat split.
  - apply Nat.eqb_eq. exact H1.
  - rewrite forallb_forall in H2. apply List.Forall_forall. intros b Hb.
    apply H2 in Hb. unfold is_byte. lia.
  - lia.
  - apply bool_decide_eq_true in H4. exact H4.
Qed.

(** ** The scanner's primitives on IPv4 addresses *)

Lemma wrap8_succ d :
  is_byte d -> wrap8 (d + 1) = if d =? 255 then 0 else d + 1.
Proof.
  intros Hd. unfold wrap8, is_byte in *.
  destruct (Z.eqb_spec d 255) as [->|Hne]; [reflexivity|].
  apply Z.mod_small. lia.
Qed.

Lemma nextIP_ip4 l :
  ip4 l -> ip4 (Ipam.nextIP l) /\ be_val (Ipam.nextIP l) = (be_val l + 1) mod 2 ^ 32.
Proof.
  intros H. destruct (ip4_inv l H) as (a & b & c & d & -> & Ha & Hb & Hc & Hd).
  unfold Ipam.nextIP. cbn [length Ipam.nextIP_loop lookup list_lookup insert list_insert].
  rewrite !wrap8_succ by assumption.
  change (2 ^ 32) with 4294967296.
  unfold is_byte in *.
  destruct (Z.eqb_spec d 255) as [->|Hd'];
    [cbn [Z.ltb Z.compare]
    |replace (0 <? d + 1) with true by (symmetry; apply Z.ltb_lt; lia)].
  2:{ split; [apply ip4_intro; unfold is_byte; lia|].
      rewrite !be_val_4. rewrite Z.mod_small; lia. }
  destruct (Z.eqb_spec c 255) as [->|Hc'];
    [cbn [Z.ltb Z.compare]
    |replace (0 <? c + 1) with true by (symmetry; apply Z.ltb_lt; lia)].
  2:{ split; [apply ip4_intro; unfold is_byte; lia|].
      rewrite !be_val_4. rewrite Z.mod_small; lia. }
  destruct (Z.eqb_spec b 255) as [->|Hb'];
    [cbn [Z.ltb Z.compare]
    |replace (0 <? b + 1) with true by (symmetry; apply Z.ltb_lt; lia)].
  2:{ split; [apply ip4_intro; unfold is_byte; lia|].
      rewrite !be_val_4. rewrite Z.mod_small; lia. }
  destruct (Z.eqb_spec a 255) as [->|Ha'];
    [cbn [Z.ltb Z.compare]
    |replace (0 <? a + 1) with true by (symmetry; apply Z.ltb_lt; lia)].
  2:{ split; [apply ip4_intro; unfold is_byte; lia|].
      rewrite !be_val_4. rewrite Z.mod_small; lia. }
  split; [apply ip4_intro; unfold is_byte; lia|]. reflexivity.
Qed.

Lemma Contains_ip4 nn m c :
  ip4 nn -> ip4 m -> ip4 c ->
  Net.Contains (Net.mkIPNet nn m) c
  = bool_decide (Z.land (be_val nn) (be_val m) = Z.land (be_val c) (be_val m)).
Proof.
  intros Hnn Hm Hc.
  rewrite <- !be_val_zip_land by assumption.
  pose proof (zip_land_ip4 nn m Hnn Hm) as H1.
  pose proof (zip_land_ip4 c m Hc Hm) as H2.
  destruct (ip4_inv nn Hnn) as (a & b & c0 & d & -> & _).
  destruct (ip4_inv m Hm) as (a' & b' & c' & d' & -> & _).
  destruct (ip4_inv c Hc) as (a2 & b2 & c2 & d2 & -> & _).
  unfold Net.Contains, Net.networkNumberAndMask, Net.To4, Net.bytes_eqb.
  cbn [Net.IPNet_IP Net.IPNet_Mask length Nat.eqb Net.IPv4len Net.IPv6len andb negb].
  apply bool_decide_ext. split.
  - intros E. rewrite E. reflexivity.
  - intros E. apply be_val_inj; assumption.
Qed.

Lemma isBroadcast_ip4 c nn m :
  ip4 c -> ip4 m ->
  Ipam.isBroadcast c (Net.mkIPNet nn m)
  = Ok (bool_decide (be_val c = Z.lor (be_val c) (2 ^ 32 - 1 - be_val m))).
Proof.
  intros Hc Hm.
  destruct (ip4_inv c Hc) as (a & b & c0 & d & -> & Ha & Hb & Hc0 & Hd).
  destruct (ip4_inv m Hm) as (a' & b' & c' & d' & -> & Ha' & Hb' & Hc' & Hd').
  unfold Ipam.isBroadcast. cbn [Net.IPNet_Mask length Nat.ltb Nat.leb zip_with].
  unfold Net.Equal, Net.bytes_eqb. cbn [length Nat.eqb].
  f_equal. apply bool_decide_ext.
  assert (Hm' : ip4 [bnot a'; bnot b'; bnot c'; bnot d'])
    by (apply ip4_intro; apply bnot_is_byte; assumption).
  assert (Hl : ip4 [Z.lor a (bnot a'); Z.lor b (bnot b'); Z.lor c0 (bnot c'); Z.lor d (bnot d')])
    by (apply ip4_intro; apply lor_is_byte; try apply bnot_is_byte; assumption).
  assert (Ev : be_val [bnot a'; bnot b'; bnot c'; bnot d']
               = 2 ^ 32 - 1 - be_val [a'; b'; c'; d']).
  { rewrite !be_val_4, !bnot_spec by assumption. change (2 ^ 32) with 4294967296. lia. }
  rewrite <- Ev.
  rewrite <- (be_val_zip_lor [a; b; c0; d] [bnot a'; bnot b'; bnot c'; bnot d'])
    by assumption.
  cbn [zip_with]. split.
  - intros E. rewrite <- E. reflexivity.
  - intros E. apply be_val_inj; assumption.
Qed.

(** *** Dotted quads are injective *)

Fixpoint prefix_related (x y : string) : bool :=
  match x, y with
  | EmptyString, _ => true
  | _, EmptyString => true
  | String.String a x', String.String b y' => Ascii.eqb a b && prefix_related x' y'
  end.

Lemma append_cons a x y : String.String a x +:+ y = String.String a (x +:+ y).
Proof. reflexivity. Qed.

Lemma append_nil_l y : EmptyString +:+ y = y.
Proof. reflexivity. Qed.

Lemma append_prefix_related x y s t :
  x +:+ s = y +:+ t -> prefix_related x y = true.
Proof.
  revert y. induction x as [|a x IH]; intros [|b y] E; try reflexivity.
  rewrite !append_cons in E. injection E as -> E. simpl.
  rewrite Ascii.eqb_refl. simpl. eapply IH, E.
Qed.

Lemma append_assoc_str x y z : (x +:+ y) +:+ z = x +:+ y +:+ z.
Proof.
  induction x as [|a x IH]; [reflexivity|].
  rewrite !append_cons. f_equal. exact IH.
Qed.

Lemma append_cancel_l x s t : x +:+ s = x +:+ t -> s = t.
Proof.
  induction x as [|a x IH]; intros E; [exact E|].
  rewrite !append_cons in E. injection E as E. auto.
Qed.

Definition ubtoa_check (a : Z) : bool :=
  forallb (fun b => (a =? b)
                    || negb (prefix_related (Net.ubtoa a +:+ ".") (Net.ubtoa b +:+ ".")))
          (map Z.of_nat (seq 0 256)).

Lemma ubtoa_dot_inj a b s t :
  is_byte a -> is_byte b ->
  Net.ubtoa a +:+ "." +:+ s = Net.ubtoa b +:+ "." +:+ t -> a = b /\ s = t.
Proof.
  intros Ha Hb E.
  assert (Hab : a = b).
  { assert (Hall : forallb ubtoa_check (map Z.of_nat (seq 0 256)) = true)
      by (vm_compute; reflexivity).
    pose proof (range_forallb 256 ubtoa_check Hall a Ha) as H.
    unfold ubtoa_check in H.
    pose proof (range_forallb 256 _ H b Hb) as H'. cbv beta in H'.
    apply orb_prop in H' as [H'|H']; [lia|].
    assert (R : prefix_related (Net.ubtoa a +:+ ".") (Net.ubtoa b +:+ ".") = true).
    { apply (append_prefix_related _ _ s t).
      rewrite !append_assoc_str. exact E. }
    rewrite R in H'. discriminate. }
  subst b. split; [reflexivity|].
  apply append_cancel_l in E. rewrite !append_cons, !append_nil_l in E. congruence.
Qed.

Lemma IP_String_ip4 a b c d :
  Net.IP_String [a; b; c; d]
  = Net.ubtoa a +:+ "." +:+ Net.ubtoa b +:+ "." +:+ Net.ubtoa c +:+ "." +:+ Net.ubtoa d.
Proof. reflexivity. Qed.

Lemma IP_String_inj l1 l2 :
  ip4 l1 -> ip4 l2 -> Net.IP_String l1 = Net.IP_String l2 -> l1 = l2.
Proof.
  intros H1 H2 E.
  destruct (ip4_inv l1 H1) as (a & b & c & d & -> & Ha & Hb & Hc & Hd).
  destruct (ip4_inv l2 H2) as (a' & b' & c' & d' & -> & Ha' & Hb' & Hc' & Hd').
  rewrite !IP_String_ip4 in E.
  apply ubtoa_dot_inj in E as [-> E]; try assumption.
  apply ubtoa_dot_inj in E as [-> E]; try assumption.
  apply ubtoa_dot_inj in E as [-> E]; try assumption.
  assert (E' : Net.ubtoa d +:+ "." +:+ EmptyString = Net.ubtoa d' +:+ "." +:+ EmptyString) by (rewrite E; reflexivity).
  apply ubtoa_dot_inj in E' as [-> _]; try assumption.
  reflexivity.
Qed.

(** *** What [ParseCIDR] returns *)

Lemma digit_val_nonneg c : Net.is_digit c = true -> 0 <= Net.digit_val c <= 9.
Proof.
  unfold Net.is_digit, Net.digit_val. intros H.
  apply andb_prop in H as [H1 H2]. lia.
Qed.

Lemma parseIPv4Fields_ip4 s : forall prev val digLen fields r,
  0 <= val <= 255 -> Forall is_byte fields -> (length fields <= 3)%nat ->
  Net.parseIPv4Fields s prev val digLen fields = Some r -> ip4 r.
Proof.
  induction s as [|c s IH]; intros prev val digLen fields r Hv Hf Hl; simpl.
  - destruct (Nat.ltb_spec (length fields) 3); [discriminate|].
    intros [= <-]. split.
    + rewrite length_app. simpl. lia.
    + apply Forall_app. split; [assumption|].
      apply Forall_cons_2; [unfold is_byte; lia | apply Forall_nil_2].
  - destruct (Net.is_digit c) eqn:Hd.
    + destruct ((digLen =? 1) && (val =? 0)); [discriminate|].
      destruct (Z.ltb_spec 255 (val * 10 + Net.digit_val c)); [discriminate|].
      apply IH; try assumption.
      pose proof (digit_val_nonneg c Hd). lia.
    + destruct (Net.ascii_eqb c "."); [|discriminate].
      destruct (_ || _); [discriminate|].
      destruct (Nat.eqb_spec (length fields) 3); [discriminate|].
      apply IH.
      * lia.
      * apply Forall_app. split; [assumption|].
        apply Forall_cons_2; [unfold is_byte; lia | apply Forall_nil_2].
      * rewrite length_app. simpl. lia.
Qed.

Lemma ParseAddr4_ip4 s a : Net.ParseAddr4 s = Some a -> ip4 a.
Proof.
  unfold Net.ParseAddr4. destruct (Net.addr_dispatch s); try discriminate.
  apply parseIPv4Fields_ip4; [lia | apply Forall_nil_2 | simpl; lia].
Qed.

Lemma To4_mapped a : ip4 a -> Net.To4 (Net.v4InV6Prefix ++ a) = a.
Proof.
  intros H. destruct (ip4_inv a H) as (b0 & b1 & b2 & b3 & -> & _). reflexivity.
Qed.

Lemma Mask_mapped a m :
  ip4 a -> ip4 m -> Net.Mask (Net.v4InV6Prefix ++ a) m = zip_with Z.land a m.
Proof.
  intros Ha Hm.
  destruct (ip4_inv a Ha) as (b0 & b1 & b2 & b3 & -> & _).
  destruct (ip4_inv m Hm) as (m0 & m1 & m2 & m3 & -> & _).
  reflexivity.
Qed.

Lemma ParseCIDR_inv cidr ip ipNet :
  Net.ParseCIDR cidr = Some (ip, ipNet) ->
  exists a n, ip4 a /\ 0 <= n <= 32
    /\ ip = Net.v4InV6Prefix ++ a
    /\ ipNet = Net.mkIPNet (zip_with Z.land a (Net.CIDRMask n 32)) (Net.CIDRMask n 32).
Proof.
  unfold Net.ParseCIDR.
  destruct (Net.split_slash cidr) as [[addr mask]|]; [|discriminate].
  destruct (Net.ParseAddr4 addr) as [a|] eqn:Ha; [|discriminate].
  destruct (Net.dtoi mask) as [[n rest]|]; [|discriminate].
  destruct rest; [|discriminate].
  destruct (Z.ltb_spec n 0); [discriminate|].
  destruct (Z.ltb_spec 32 n); [discriminate|].
  cbn [orb]. intros [= <- <-].
  apply ParseAddr4_ip4 in Ha.
  exists a, n. repeat split; try lia; try apply Ha.
  f_equal. apply Mask_mapped; [assumption | apply CIDRMask_facts; lia].
Qed.

(** The address and the prefix length a pool's [cidr] denotes. *)
Definition parse_v4 (cidr : string) : option (Z * Z) :=
  match Net.ParseCIDR cidr with
  | Some (ip, ipNet) => Some (be_val (Net.To4 ip), fst (Net.Size (Net.IPNet_Mask ipNet)))
  | None => None
  end.

Lemma parse_v4_inv cidr A n :
  parse_v4 cidr = Some (A, n) ->
  exists a, ip4 a /\ A = be_val a /\ 0 <= n <= 32
    /\ Net.ParseCIDR cidr
       = Some (Net.v4InV6Prefix ++ a,
               Net.mkIPNet (zip_with Z.land a (Net.CIDRMask n 32)) (Net.CIDRMask n 32)).
Proof.
  unfold parse_v4. destruct (Net.ParseCIDR cidr) as [[ip ipNet]|] eqn:E; [|discriminate].
  destruct (ParseCIDR_inv _ _ _ E) as (a & n' & Ha & Hn & -> & ->).
  destruct (CIDRMask_facts n' Hn) as (_ & _ & HS).
  cbn [Net.IPNet_Mask]. rewrite HS, To4_mapped by assumption. cbn [fst].
  intros [= <- <-]. exists a. auto.
Qed.

Lemma parse_v4_range cidr A n :
  parse_v4 cidr = Some (A, n) -> 0 <= A < 2 ^ 32 /\ 0 <= n <= 32.
Proof.
  intros H. destruct (parse_v4_inv _ _ _ H) as (a & Ha & -> & Hn & _).
  split; [apply be_val_bound; assumption | assumption].
Qed.

(** ** The scanner finds the lowest free address *)

(** An address is free when its dotted quad is not a key of the map. *)
Definition free (allocations : gmap string IPAllocation) (x : Z) : Prop :=
  allocations !! Net.IP_String (ip_of_Z x) = None.

(** The lowest free address among the [len] addresses from [lo] on. *)
Fixpoint lowest_free (allocations : gmap string IPAllocation) (len : nat) (lo : Z)
  : option Z :=
  match len with
  | O => None
  | S k =>
      match allocations !! Net.IP_String (ip_of_Z lo) with
      | None => Some lo
      | Some _ => lowest_free allocations k (lo + 1)
      end
  end.

Lemma lowest_free_Some allocations len : forall lo x,
  lowest_free allocations len lo = Some x ->
  lo <= x < lo + Z.of_nat len /\ free allocations x
  /\ forall y, lo <= y < x -> ~ free allocations y.
Proof.
  induction len as [|k IH]; intros lo x; simpl; [discriminate|].
  destruct (allocations !! Net.IP_String (ip_of_Z lo)) eqn:E.
  - intros H. apply IH in H as (Hr & Hf & Hl). split; [lia|]. split; [exact Hf|].
    intros y Hy. destruct (Z.eq_dec y lo) as [->|Hne].
    + unfold free. rewrite E. discriminate.
    + apply Hl. lia.
  - intros [= <-]. split; [lia|]. split; [exact E|]. intros y Hy. lia.
Qed.

Lemma lowest_free_None allocations len : forall lo,
  lowest_free allocations len lo = None ->
  forall y, lo <= y < lo + Z.of_nat len -> ~ free allocations y.
Proof.
  induction len as [|k IH]; intros lo; simpl; [intros _ y Hy; lia|].
  destruct (allocations !! Net.IP_String (ip_of_Z lo)) eqn:E; [|discriminate].
  intros H y Hy. destruct (Z.eq_dec y lo) as [->|Hne].
  - unfold free. rewrite E. discriminate.
  - apply (IH _ H). lia.
Qed.

Section Scan.

Variables (a : list Z) (n : Z).
Hypothesis (Ha : ip4 a) (Hn : 0 <= n <= 32).
Variable allocations : gmap string IPAllocation.

Let A := be_val a.
Let m := Net.CIDRMask n 32.
Let ipNet := Net.mkIPNet (zip_with Z.land a m) m.
Let N := network_addr A n.
Let B := broadcast_addr A n.

Local Lemma A_range : 0 <= A < 2 ^ 32.
Proof. apply be_val_bound, Ha. Qed.

Local Lemma m_ip4 : ip4 m.
Proof. apply CIDRMask_facts, Hn. Qed.

Local Lemma m_val : be_val m = mask_val n.
Proof. apply CIDRMask_facts, Hn. Qed.

Local Lemma pow_host_pos : 0 < 2 ^ (32 - n).
Proof. apply Z.pow_pos_nonneg; lia. Qed.

Local Lemma NB : B = N + 2 ^ (32 - n) - 1 /\ 0 <= N /\ B < 2 ^ 32.
Proof.
  pose proof A_range. unfold B, N. split.
  - apply broadcast_addr_spec; assumption.
  - apply network_addr_range; assumption.
Qed.

Local Lemma N_divides : (2 ^ (32 - n) | N).
Proof.
  unfold N. rewrite network_addr_spec by (auto using A_range).
  exists (A / 2 ^ (32 - n)). lia.
Qed.

(** [ip.Mask(ipNet.Mask)] is the network address. *)
Lemma network_bytes :
  ip4 (zip_with Z.land a m) /\ be_val (zip_with Z.land a m) = N.
Proof.
  split; [apply zip_land_ip4; auto using m_ip4|].
  rewrite be_val_zip_land by auto using m_ip4. rewrite m_val. reflexivity.
Qed.

Lemma Contains_range c :
  ip4 c -> Net.Contains ipNet c = bool_decide (N <= be_val c <= B).
Proof.
  intros Hc. unfold ipNet.
  destruct network_bytes as [Hnb Hnv].
  rewrite Contains_ip4 by auto using m_ip4.
  rewrite Hnv, m_val.
  pose proof (be_val_bound c Hc) as Hcb. pose proof A_range as HA.
  assert (E1 : Z.land N (mask_val n) = N).
  { unfold N, network_addr. rewrite <- Z.land_assoc, Z.land_diag. reflexivity. }
  rewrite E1. unfold mask_val. rewrite land_prefix_mask by lia.
  destruct NB as (HB & _ & _). pose proof pow_host_pos.
  apply bool_decide_ext. split.
  - intros E. symmetry in E. apply same_block_iff in E; [lia | lia | apply N_divides].
  - intros HR. symmetry. apply same_block_iff; [lia | apply N_divides | lia].
Qed.

Lemma isBroadcast_range c :
  ip4 c -> N <= be_val c <= B ->
  Ipam.isBroadcast c ipNet = Ok (bool_decide (be_val c = B)).
Proof.
  intros Hc HR. unfold ipNet. rewrite isBroadcast_ip4 by auto using m_ip4.
  rewrite m_val. unfold mask_val.
  replace (2 ^ 32 - 1 - (2 ^ 32 - 2 ^ (32 - n))) with (2 ^ (32 - n) - 1) by lia.
  pose proof (be_val_bound c Hc) as Hcb.
  rewrite lor_host_mask by lia.
  destruct NB as (HB & _ & _). pose proof pow_host_pos.
  assert (E : 2 ^ (32 - n) * (be_val c / 2 ^ (32 - n)) = N).
  { apply same_block_iff; [lia | apply N_divides | lia]. }
  rewrite E. f_equal. apply bool_decide_ext. lia.
Qed.

Lemma nextIP_ip_of_Z x :
  0 <= x -> x + 1 < 2 ^ 32 -> Ipam.nextIP (ip_of_Z x) = ip_of_Z (x + 1).
Proof.
  intros H0 H1.
  destruct (nextIP_ip4 (ip_of_Z x) (ip_of_Z_ip4 x)) as [Hi Hv].
  apply be_val_inj; [assumption | apply ip_of_Z_ip4 |].
  rewrite Hv, !be_val_ip_of_Z by lia. apply Z.mod_small. lia.
Qed.

(** The loop from an address [x] of the block, [k] addresses below the
    broadcast address, with fuel for them. *)
Lemma findAvailableIP_loop_spec k : forall fuel x,
  N <= x -> x + Z.of_nat k = B -> (k < fuel)%nat ->
  Ipam.findAvailableIP_loop fuel ipNet allocations (ip_of_Z x)
  = Ok (option_map (fun y => Net.IP_String (ip_of_Z y)) (lowest_free allocations k x)).
Proof.
  destruct NB as (HB & HN0 & HB32).
  induction k as [|k IH]; intros fuel x Hx Hk Hf;
    (destruct fuel as [|fuel]; [lia|]); cbn [Ipam.findAvailableIP_loop].
  - rewrite Contains_range by apply ip_of_Z_ip4.
    rewrite be_val_ip_of_Z by lia.
    rewrite bool_decide_eq_true_2 by lia.
    rewrite isBroadcast_range by (try apply ip_of_Z_ip4; rewrite be_val_ip_of_Z; lia).
    rewrite be_val_ip_of_Z by lia.
    rewrite bool_decide_eq_true_2 by lia. reflexivity.
  - rewrite Contains_range by apply ip_of_Z_ip4.
    rewrite be_val_ip_of_Z by lia.
    rewrite bool_decide_eq_true_2 by lia.
    rewrite isBroadcast_range by (try apply ip_of_Z_ip4; rewrite be_val_ip_of_Z; lia).
    rewrite be_val_ip_of_Z by lia.
    rewrite bool_decide_eq_false_2 by lia.
    cbn [lowest_free].
    destruct (allocations !! Net.IP_String (ip_of_Z x)); [|reflexivity].
    rewrite nextIP_ip_of_Z by lia. apply IH; lia.
Qed.

(** Outside the block the loop condition fails at once. *)
Lemma findAvailableIP_loop_outside fuel c :
  ip4 c -> ~ (N <= be_val c <= B) ->
  Ipam.findAvailableIP_loop (S fuel) ipNet allocations c = Ok None.
Proof.
  intros Hc HR. cbn [Ipam.findAvailableIP_loop].
  rewrite Contains_range by assumption.
  rewrite bool_decide_eq_false_2 by assumption. reflexivity.
Qed.

Lemma scan_fuel_val : Ipam.scan_fuel ipNet = Z.to_nat (2 ^ (32 - n)).
Proof.
  unfold Ipam.scan_fuel, ipNet, m. cbn [Net.IPNet_Mask].
  destruct (CIDRMask_facts n Hn) as (_ & _ & ->). reflexivity.
Qed.

(** The scan from the address after the network address. *)
Lemma scan_from_network :
  Ipam.findAvailableIP_loop (Ipam.scan_fuel ipNet) ipNet allocations
    (Ipam.nextIP (zip_with Z.land a m))
  = Ok (option_map (fun y => Net.IP_String (ip_of_Z y))
          (lowest_free allocations (Z.to_nat (B - N - 1)) (N + 1))).
Proof.
  destruct NB as (HB & HN0 & HB32). pose proof pow_host_pos as Hp.
  destruct network_bytes as [Hnb Hnv].
  destruct (nextIP_ip4 _ Hnb) as [Hi Hv]. rewrite Hnv in Hv.
  rewrite scan_fuel_val.
  destruct (Z.eq_dec n 32) as [E32|Hne].
  - (* a /32: the block is the single address, and the scan starts past it *)
    assert (HBN : B = N) by (rewrite HB, E32; simpl; lia).
    replace (Z.to_nat (B - N - 1)) with 0%nat by lia.
    replace (Z.to_nat (2 ^ (32 - n))) with 1%nat by (rewrite E32; reflexivity).
    cbn [lowest_free option_map].
    apply findAvailableIP_loop_outside; [assumption|].
    rewrite Hv, HBN.
    destruct (Z.eq_dec (N + 1) (2 ^ 32)) as [Ew|Hw].
    + rewrite Ew, Z.mod_same by lia. lia.
    + rewrite Z.mod_small by lia. lia.
  - assert (H2 : 2 <= 2 ^ (32 - n)).
    { change 2 with (2 ^ 1) at 1. apply Z.pow_le_mono_r; lia. }
    assert (Ec : Ipam.nextIP (zip_with Z.land a m) = ip_of_Z (N + 1)).
    { apply be_val_inj; [assumption | apply ip_of_Z_ip4 |].
      rewrite Hv, be_val_ip_of_Z by lia. apply Z.mod_small. lia. }
    rewrite Ec. apply findAvailableIP_loop_spec; lia.
Qed.

End Scan.

(** [findAvailableIP], completely: the lowest free address strictly
    between the network and the broadcast address, or the error. *)
Lemma findAvailableIP_spec cidr allocations A n :
  parse_v4 cidr = Some (A, n) ->
  Ipam.findAvailableIP cidr allocations
  = match lowest_free allocations
            (Z.to_nat (broadcast_addr A n - network_addr A n - 1))
            (network_addr A n + 1) with
    | Some x => Ok (Net.IP_String (ip_of_Z x))
    | None => Err (ErrorString ("no available IPs in CIDR " +:+ cidr))
    end.
Proof.
  intros H. destruct (parse_v4_inv _ _ _ H) as (a & Ha & -> & Hn & E).
  unfold Ipam.findAvailableIP. rewrite E. cbn [Net.IPNet_Mask].
  rewrite Mask_mapped by (try assumption; apply CIDRMask_facts; assumption).
  rewrite (scan_from_network a n Ha Hn allocations).
  destruct (lowest_free _ _ _); reflexivity.
Qed.

Lemma findAvailableIP_invalid cidr allocations :
  parse_v4 cidr = None ->
  Ipam.findAvailableIP cidr allocations
  = Err (Wrapped ("invalid CIDR " +:+ cidr) (Ipam.ParseError cidr)).
Proof.
  unfold parse_v4, Ipam.findAvailableIP.
  destruct (Net.ParseCIDR cidr) as [[ip ipNet]|]; [discriminate | reflexivity].
Qed.

(** The scan always returns within its fuel. *)
Lemma findAvailableIP_returns cidr allocations :
  Ipam.findAvailableIP cidr allocations <> OutOfFuel
  /\ forall msg, Ipam.findAvailableIP cidr allocations <> Panic msg.
Proof.
  destruct (parse_v4 cidr) as [[A n]|] eqn:E.
  - rewrite (findAvailableIP_spec _ _ _ _ E). destruct (lowest_free _ _ _); split; congruence.
  - rewrite (findAvailableIP_invalid _ _ E). split; congruence.
Qed.

(** ** Running the monad *)

Lemma remote_run ev w :
  exists o, remote ev w = (o, set_faults (tail (w_faults w)) (log ev w))
            /\ (o = Ok tt \/ exists e, o = Err e).
Proof.
  unfold remote. destruct (w_faults w) as [|[e|] fs]; eauto.
Qed.

Lemma remote_nofault ev w :
  w_faults w = [] -> remote ev w = (Ok tt, set_faults [] (log ev w)).
Proof. intros H. unfold remote. rewrite H. reflexivity. Qed.

(** The milliseconds slept along a trace. *)
Fixpoint sleep_total (tr : list Event) : Z :=
  match tr with
  | [] => 0
  | EvSleep ms :: r => ms + sleep_total r
  | _ :: r => sleep_total r
  end.

Lemma sleep_total_app t1 t2 : sleep_total (t1 ++ t2) = sleep_total t1 + sleep_total t2.
Proof.
  induction t1 as [|ev t1 IH]; simpl; [lia|]. destruct ev; rewrite ?IH; lia.
Qed.

(** What one attempt of [Allocate] selects in the pool it read. *)
Definition selected (req : Ipam.AllocationRequest) (p : IPPool) (key : string) : Prop :=
  if String.eqb (Ipam.req_RequestedIP req) EmptyString
  then Ipam.findAvailableIP (CIDR (Spec p)) (map_of (Allocations (Spec p))) = Ok key
  else key = Ipam.req_RequestedIP req /\ map_of (Allocations (Spec p)) !! key = None.

(** The pool one attempt of [Allocate] writes back, as the store keeps it. *)
Definition allocated_pool (req : Ipam.AllocationRequest) (key : string) (t : Z)
           (name : string) (p : IPPool) : IPPool :=
  let allocations :=
    <[key := mkIPAllocation (Ipam.req_PodName req) (Ipam.req_PodNamespace req)
               (Ipam.req_PodUID req) (Ipam.req_NodeName req) t]>
      (map_of (Allocations (Spec p))) in
  let capacity := Ipam.calculateCapacity (CIDR (Spec p)) in
  let allocated := Z.of_nat (size allocations) in
  with_version (ResourceVersion p + 1)
    (on_wire
       (mkIPPool name (ResourceVersion p)
          (mkIPPoolSpec (CIDR (Spec p)) (Subnet (Spec p)) (SecondaryRangeName (Spec p))
             (Some allocations))
          (mkIPPoolStatus capacity allocated (wrap_int (capacity - allocated)) t))).

Definition allocation_result (key : string) (p : IPPool) : Ipam.AllocationResult :=
  Ipam.mkAllocationResult key (CIDR (Spec p)) (Subnet (Spec p)) (SecondaryRangeName (Spec p)).

(** One attempt, whatever the environment does: it keeps the clock and
    sleeps nothing; when it returns a result the pool has been rewritten
    with the selected key, and when it returns an error the store is as
    before. *)
Lemma tryAllocate_inv req w o w' :
  Ipam.tryAllocate req w = (o, w') ->
  w_now w' = w_now w
  /\ sleep_total (w_trace w') = sleep_total (w_trace w)
  /\ match o with
     | Ok r =>
         exists p key,
           w_pools w !! Ipam.req_PoolName req = Some p
           /\ selected req p key
           /\ r = allocation_result key p
           /\ w_pools w' = <[Ipam.req_PoolName req :=
                               allocated_pool req key (w_now w) (Ipam.req_PoolName req) p]>
                             (w_pools w)
     | Err e => w_pools w' = w_pools w
     | Panic _ => False
     | OutOfFuel => False
     end.
Proof.
  unfold Ipam.tryAllocate, bind, map_err, pool_Get, pool_Update, bind, Now, ret, fail,
    Ipam.lift, selected.
  destruct (remote_run (EvPoolGet (Ipam.req_PoolName req)) w) as (o1 & -> & Ho1).
  destruct Ho1 as [-> | [e ->]].
  2:{ intros [= <- <-]. cbn. rewrite sleep_total_app. cbn. repeat split; lia. }
  cbn [w_pools set_faults log].
  destruct (w_pools w !! Ipam.req_PoolName req) as [p|] eqn:Ep.
  2:{ intros [= <- <-]. cbn. rewrite sleep_total_app. cbn. repeat split; lia. }
  cbn [with_name Spec Name ResourceVersion Allocations CIDR Subnet SecondaryRangeName].
  destruct (String.eqb (Ipam.req_RequestedIP req) EmptyString) eqn:Er; cbn [negb].
  - pose proof (findAvailableIP_returns (CIDR (Spec p))
                  match Allocations (Spec p) with Some m => m | None => ∅ end) as [Hf Hp].
    destruct (Ipam.findAvailableIP _ _) as [key|e|msg|] eqn:Ef;
      [|intros [= <- <-]; cbn; rewrite sleep_total_app; cbn; repeat split; lia
       |exfalso; eapply Hp; reflexivity | congruence].
    match goal with |- context [remote ?ev ?w0] =>
      destruct (remote_run ev w0) as (o2 & -> & Ho2) end.
    destruct Ho2 as [-> | [e ->]].
    2:{ intros [= <- <-]. cbn. rewrite !sleep_total_app. cbn. repeat split; lia. }
    cbn [w_pools set_faults log Name]. rewrite Ep. rewrite Z.eqb_refl.
    intros [= <- <-]. cbn. rewrite !sleep_total_app. cbn.
    split; [reflexivity|]. split; [lia|].
    exists p, key. unfold map_of. rewrite Ef. auto.
  - destruct (_ !! Ipam.req_RequestedIP req) eqn:El.
    { intros [= <- <-]. cbn. rewrite sleep_total_app. cbn. repeat split; lia. }
    match goal with |- context [remote ?ev ?w0] =>
      destruct (remote_run ev w0) as (o2 & -> & Ho2) end.
    destruct Ho2 as [-> | [e ->]].
    2:{ intros [= <- <-]. cbn. rewrite !sleep_total_app. cbn. repeat split; lia. }
    cbn [w_pools set_faults log Name]. rewrite Ep. rewrite Z.eqb_refl.
    intros [= <- <-]. cbn. rewrite !sleep_total_app. cbn.
    split; [reflexivity|]. split; [lia|].
    exists p, (Ipam.req_RequestedIP req). unfold map_of. auto.
Qed.

(** One attempt when no call fails. *)
Lemma tryAllocate_nofault req w p :
  w_faults w = [] ->
  w_pools w !! Ipam.req_PoolName req = Some p ->
  exists o w',
    Ipam.tryAllocate req w = (o, w') /\ w_faults w' = []
    /\ ((exists key, selected req p key /\ o = Ok (allocation_result key p))
        \/ (String.eqb (Ipam.req_RequestedIP req) EmptyString = true
            /\ exists e, Ipam.findAvailableIP (CIDR (Spec p)) (map_of (Allocations (Spec p)))
                         = Err e
                         /\ o = Err (Wrapped "failed to find available IP" e))
        \/ (String.eqb (Ipam.req_RequestedIP req) EmptyString = false
            /\ is_Some (map_of (Allocations (Spec p)) !! Ipam.req_RequestedIP req)
            /\ o = Err (ErrorString ("requested IP " +:+ Ipam.req_RequestedIP req
                                     +:+ " is already allocated")))).
Proof.
  intros Hf Ep.
  unfold Ipam.tryAllocate, bind, map_err, pool_Get, pool_Update, bind, Now, ret, fail,
    Ipam.lift, selected.
  rewrite (remote_nofault _ _ Hf). cbn [w_pools set_faults log]. rewrite Ep.
  cbn [with_name Spec Name ResourceVersion Allocations CIDR Subnet SecondaryRangeName].
  fold (map_of (Allocations (Spec p))).
  destruct (String.eqb (Ipam.req_RequestedIP req) EmptyString) eqn:Er; cbn [negb].
  - pose proof (findAvailableIP_returns (CIDR (Spec p)) (map_of (Allocations (Spec p))))
      as [Hfu Hp].
    destruct (Ipam.findAvailableIP _ _) as [key|e|msg|] eqn:Ef;
      [| |exfalso; eapply Hp; reflexivity | congruence].
    + rewrite remote_nofault by reflexivity.
      cbn [w_pools set_faults log Name]. rewrite Ep, Z.eqb_refl.
      eexists _, _. split; [reflexivity|]. split; [reflexivity|]. left. eauto.
    + eexists _, _. split; [reflexivity|]. split; [reflexivity|]. right. left. eauto.
  - destruct (map_of (Allocations (Spec p)) !! Ipam.req_RequestedIP req) eqn:El.
    + eexists _, _. split; [reflexivity|]. split; [reflexivity|]. right. right. eauto.
    + rewrite remote_nofault by reflexivity.
      cbn [w_pools set_faults log Name]. rewrite Ep, Z.eqb_refl.
      eexists _, _. split; [reflexivity|]. split; [reflexivity|]. left. eauto.
Qed.

Lemma findAvailableIP_err_not_conflict cidr allocations e :
  Ipam.findAvailableIP cidr allocations = Err e -> IsConflict e = false.
Proof.
  destruct (parse_v4 cidr) as [[A n]|] eqn:E.
  - rewrite (findAvailableIP_spec _ _ _ _ E). destruct (lowest_free _ _ _); [discriminate|].
    intros [= <-]. reflexivity.
  - rewrite (findAvailableIP_invalid _ _ E). intros [= <-]. reflexivity.
Qed.

(** [Allocate] when no call fails: the first attempt decides. *)
Lemma Allocate_nofault req w p :
  w_faults w = [] ->
  w_pools w !! Ipam.req_PoolName req = Some p ->
  exists o w',
    Ipam.Allocate req w = (o, w') /\ Ipam.tryAllocate req w = (o, w') /\ w_faults w' = []
    /\ ((exists key, selected req p key /\ o = Ok (allocation_result key p))
        \/ (String.eqb (Ipam.req_RequestedIP req) EmptyString = true
            /\ exists e, Ipam.findAvailableIP (CIDR (Spec p)) (map_of (Allocations (Spec p)))
                         = Err e
                         /\ o = Err (Wrapped "failed to find available IP" e))
        \/ (String.eqb (Ipam.req_RequestedIP req) EmptyString = false
            /\ is_Some (map_of (Allocations (Spec p)) !! Ipam.req_RequestedIP req)
            /\ o = Err (ErrorString ("requested IP " +:+ Ipam.req_RequestedIP req
                                     +:+ " is already allocated")))).
Proof.
  intros Hf Ep.
  destruct (tryAllocate_nofault req w p Hf Ep) as (o & w' & Et & Hf' & Hc).
  exists o, w'. split; [|auto].
  unfold Ipam.Allocate. change (Z.to_nat Ipam.MaxRetries) with 10%nat.
  cbn [Ipam.Allocate_loop Z.ltb Z.compare]. unfold bind, ret, try. rewrite Et.
  destruct Hc as [(key & _ & ->) | [(_ & e & He & ->) | (_ & _ & ->)]]; try reflexivity.
  cbn [IsConflict]. rewrite (findAvailableIP_err_not_conflict _ _ _ He). reflexivity.
Qed.

(** The loop of [Allocate]: failed attempts leave the store alone, and a
    result comes from one attempt on the store as it was. *)
Lemma Allocate_loop_inv req n : forall i last w o w',
  Ipam.Allocate_loop n i last req w = (o, w') ->
  match o with
  | Ok r => exists w1, w_pools w1 = w_pools w /\ Ipam.tryAllocate req w1 = (Ok r, w')
  | Err e => w_pools w' = w_pools w
  | Panic _ => False
  | OutOfFuel => False
  end.
Proof.
  induction n as [|n IH]; intros i last w o w'; cbn [Ipam.Allocate_loop].
  - unfold fail. intros [= <- <-]. reflexivity.
  - set (w0 := snd ((if 0 <? i then Sleep (Ipam.RetryDelay * Z.shiftl 1 (i - 1)) else ret tt) w)).
    assert (Hs : (if 0 <? i then Sleep (Ipam.RetryDelay * Z.shiftl 1 (i - 1)) else ret tt) w
                 = (Ok tt, w0)) by (subst w0; destruct (0 <? i); reflexivity).
    assert (Hp0 : w_pools w0 = w_pools w) by (subst w0; destruct (0 <? i); reflexivity).
    unfold bind at 1. rewrite Hs. unfold bind, try.
    destruct (Ipam.tryAllocate req w0) as [o1 w1] eqn:Et.
    pose proof (tryAllocate_inv _ _ _ _ Et) as (_ & _ & Ho).
    destruct o1 as [r|e|msg|]; try contradiction.
    + unfold ret. intros [= <- <-]. exists w0. auto.
    + destruct (IsConflict e).
      * intros Hl. apply IH in Hl. destruct o as [r| | |]; try assumption.
        -- destruct Hl as (w2 & Hp2 & Ht2). exists w2. split; [congruence | assumption].
        -- congruence.
      * unfold fail. intros [= <- <-]. congruence.
Qed.

(** The pool one attempt of [Release] writes back, as the store keeps it. *)
Definition released_pool (ip : string) (t : Z) (name : string) (p : IPPool) : IPPool :=
  let allocations :=
    match Allocations (Spec p) with
    | Some m => Some (delete ip m)
    | None => None
    end in
  let capacity := Ipam.calculateCapacity (CIDR (Spec p)) in
  let allocated := Z.of_nat (size (map_of allocations)) in
  with_version (ResourceVersion p + 1)
    (on_wire
       (mkIPPool name (ResourceVersion p)
          (mkIPPoolSpec (CIDR (Spec p)) (Subnet (Spec p)) (SecondaryRangeName (Spec p))
             allocations)
          (mkIPPoolStatus capacity allocated (wrap_int (capacity - allocated)) t))).

Lemma tryRelease_inv name ip w o w' :
  Ipam.tryRelease name ip w = (o, w') ->
  w_now w' = w_now w
  /\ sleep_total (w_trace w') = sleep_total (w_trace w)
  /\ match o with
     | Ok _ =>
         exists p,
           w_pools w !! name = Some p
           /\ w_pools w' = <[name := released_pool ip (w_now w) name p]> (w_pools w)
     | Err e => w_pools w' = w_pools w
     | Panic _ => False
     | OutOfFuel => False
     end.
Proof.
  unfold Ipam.tryRelease, bind, map_err, pool_Get, pool_Update, bind, Now, ret, fail.
  destruct (remote_run (EvPoolGet name) w) as (o1 & -> & Ho1).
  destruct Ho1 as [-> | [e ->]].
  2:{ intros [= <- <-]. cbn. rewrite sleep_total_app. cbn. repeat split; lia. }
  cbn [w_pools set_faults log].
  destruct (w_pools w !! name) as [p|] eqn:Ep.
  2:{ intros [= <- <-]. cbn. rewrite sleep_total_app. cbn. repeat split; lia. }
  cbn [with_name Spec Name ResourceVersion Allocations CIDR Subnet SecondaryRangeName].
  match goal with |- context [remote ?ev ?w0] =>
    destruct (remote_run ev w0) as (o2 & -> & Ho2) end.
  destruct Ho2 as [-> | [e ->]].
  2:{ intros [= <- <-]. cbn. rewrite !sleep_total_app. cbn. repeat split; lia. }
  cbn [w_pools set_faults log Name]. rewrite Ep. rewrite Z.eqb_refl.
  intros [= <- <-]. cbn. rewrite !sleep_total_app. cbn.
  split; [reflexivity|]. split; [lia|]. exists p. auto.
Qed.

Lemma tryRelease_nofault name ip w p :
  w_faults w = [] ->
  w_pools w !! name = Some p ->
  exists w', Ipam.tryRelease name ip w = (Ok tt, w') /\ w_faults w' = [].
Proof.
  intros Hf Ep.
  unfold Ipam.tryRelease, bind, map_err, pool_Get, pool_Update, bind, Now, ret, fail.
  rewrite (remote_nofault _ _ Hf). cbn [w_pools set_faults log]. rewrite Ep.
  cbn [with_name Spec Name ResourceVersion Allocations CIDR Subnet SecondaryRangeName].
  rewrite remote_nofault by reflexivity.
  cbn [w_pools set_faults log Name]. rewrite Ep, Z.eqb_refl.
  eexists. split; reflexivity.
Qed.

Lemma Release_nofault name ip w p :
  w_faults w = [] ->
  w_pools w !! name = Some p ->
  exists w', Ipam.Release name ip w = (Ok tt, w')
             /\ Ipam.tryRelease name ip w = (Ok tt, w') /\ w_faults w' = [].
Proof.
  intros Hf Ep. destruct (tryRelease_nofault name ip w p Hf Ep) as (w' & Et & Hf').
  exists w'. split; [|auto].
  unfold Ipam.Release. change (Z.to_nat Ipam.MaxRetries) with 10%nat.
  cbn [Ipam.Release_loop Z.ltb Z.compare]. unfold bind, ret, try. rewrite Et. reflexivity.
Qed.

Lemma Release_loop_inv name ip n : forall i last w o w',
  Ipam.Release_loop n i last name ip w = (o, w') ->
  match o with
  | Ok r => exists w1, w_pools w1 = w_pools w /\ Ipam.tryRelease name ip w1 = (Ok r, w')
  | Err e => w_pools w' = w_pools w
  | Panic _ => False
  | OutOfFuel => False
  end.
Proof.
  induction n as [|n IH]; intros i last w o w'; cbn [Ipam.Release_loop].
  - unfold fail. intros [= <- <-]. reflexivity.
  - set (w0 := snd ((if 0 <? i then Sleep (Ipam.RetryDelay * Z.shiftl 1 (i - 1)) else ret tt) w)).
    assert (Hs : (if 0 <? i then Sleep (Ipam.RetryDelay * Z.shiftl 1 (i - 1)) else ret tt) w
                 = (Ok tt, w0)) by (subst w0; destruct (0 <? i); reflexivity).
    assert (Hp0 : w_pools w0 = w_pools w) by (subst w0; destruct (0 <? i); reflexivity).
    unfold bind at 1. rewrite Hs. unfold bind, try.
    destruct (Ipam.tryRelease name ip w0) as [o1 w1] eqn:Et.
    pose proof (tryRelease_inv _ _ _ _ _ Et) as (_ & _ & Ho).
    destruct o1 as [r|e|msg|]; try contradiction.
    + unfold ret. intros [= <- <-]. exists w0. destruct r. auto.
    + destruct (IsConflict e).
      * intros Hl. apply IH in Hl. destruct o as [r| | |]; try assumption.
        -- destruct Hl as (w2 & Hp2 & Ht2). exists w2. split; [congruence | assumption].
        -- congruence.
      * unfold fail. intros [= <- <-]. congruence.
Qed.

(** *** Reading the store *)

Definition pool_allocations (w : World) (name : string) : gmap string IPAllocation :=
  match w_pools w !! name with
  | Some p => map_of (Allocations (Spec p))
  | None => ∅
  end.

Lemma map_of_on_wire p :
  map_of (Allocations (Spec (on_wire p))) = map_of (Allocations (Spec p)).
Proof.
  unfold on_wire. destruct (Allocations (Spec p)) as [m|] eqn:E; [|rewrite E; reflexivity].
  case_bool_decide; cbn; [subst; reflexivity | rewrite E; reflexivity].
Qed.

Lemma on_wire_fields p :
  CIDR (Spec (on_wire p)) = CIDR (Spec p) /\ Status (on_wire p) = Status p
  /\ Name (on_wire p) = Name p.
Proof.
  unfold on_wire. destruct (Allocations (Spec p)) as [m|]; [|auto].
  case_bool_decide; cbn; auto.
Qed.

Lemma allocated_pool_allocations req key t name p :
  map_of (Allocations (Spec (allocated_pool req key t name p)))
  = <[key := mkIPAllocation (Ipam.req_PodName req) (Ipam.req_PodNamespace req)
               (Ipam.req_PodUID req) (Ipam.req_NodeName req) t]>
      (map_of (Allocations (Spec p))).
Proof. unfold allocated_pool. cbn [with_version Spec]. rewrite map_of_on_wire. reflexivity. Qed.

Lemma allocated_pool_CIDR req key t name p :
  CIDR (Spec (allocated_pool req key t name p)) = CIDR (Spec p).
Proof.
  unfold allocated_pool. cbn [with_version Spec].
  match goal with |- CIDR (Spec (on_wire ?q)) = _ =>
    destruct (on_wire_fields q) as (-> & _ & _) end.
  reflexivity.
Qed.

Lemma released_pool_CIDR ip t name p :
  CIDR (Spec (released_pool ip t name p)) = CIDR (Spec p).
Proof.
  unfold released_pool. cbn [with_version Spec].
  match goal with |- CIDR (Spec (on_wire ?q)) = _ =>
    destruct (on_wire_fields q) as (-> & _ & _) end.
  reflexivity.
Qed.

Lemma map_of_delete ip (a : option (gmap string IPAllocation)) :
  map_of (match a with Some m => Some (delete ip m) | None => None end)
  = delete ip (map_of a).
Proof. destruct a; cbn; [reflexivity | rewrite delete_empty; reflexivity]. Qed.

Lemma released_pool_allocations ip t name p :
  map_of (Allocations (Spec (released_pool ip t name p)))
  = delete ip (map_of (Allocations (Spec p))).
Proof.
  unfold released_pool. cbn [with_version Spec]. rewrite map_of_on_wire. cbn [Spec Allocations].
  apply map_of_delete.
Qed.

(** ** Facts the allocator's claims rest on *)

(** The number of addresses strictly between the network and the
    broadcast address of a block. *)
Definition usable_count (A n : Z) : nat :=
  Z.to_nat (broadcast_addr A n - network_addr A n - 1).

Definition exhausted_error (cidr : string) : error :=
  Wrapped "failed to find available IP" (ErrorString ("no available IPs in CIDR " +:+ cidr)).

Definition capacity_check (n : Z) : bool :=
  let ones := n in
  let bits := 32 in
  let totalIPs := wrap_int (Z.shiftl 1 (bits - ones)) in
  (if ones =? bits then 1 else wrap_int (totalIPs - 2))
  =? (if n =? 32 then 1 else 2 ^ (32 - n) - 2).

Lemma calculateCapacity_spec cidr A n :
  parse_v4 cidr = Some (A, n) ->
  Ipam.calculateCapacity cidr = if n =? 32 then 1 else 2 ^ (32 - n) - 2.
Proof.
  intros H. destruct (parse_v4_inv _ _ _ H) as (a & Ha & -> & Hn & E).
  unfold Ipam.calculateCapacity. rewrite E. cbn [Net.IPNet_Mask].
  destruct (CIDRMask_facts n Hn) as (_ & _ & ->).
  assert (Hall : forallb capacity_check (map Z.of_nat (seq 0 33)) = true)
    by (vm_compute; reflexivity).
  pose proof (range_forallb 33 capacity_check Hall n ltac:(lia)) as Hc.
  unfold capacity_check in Hc. apply Z.eqb_eq in Hc. exact Hc.
Qed.

Lemma ip_string_inj x y :
  0 <= x < 2 ^ 32 -> 0 <= y < 2 ^ 32 ->
  Net.IP_String (ip_of_Z x) = Net.IP_String (ip_of_Z y) -> x = y.
Proof.
  intros Hx Hy E. apply IP_String_inj in E; try apply ip_of_Z_ip4.
  rewrite <- (be_val_ip_of_Z x), <- (be_val_ip_of_Z y) by assumption. congruence.
Qed.

Lemma lowest_free_first allocations len : forall lo y,
  lo <= y < lo + Z.of_nat len ->
  free allocations y ->
  (forall x, lo <= x < y -> ~ free allocations x) ->
  lowest_free allocations len lo = Some y.
Proof.
  induction len as [|k IH]; intros lo y Hy Hf Hl; [lia|]. cbn [lowest_free].
  destruct (Z.eq_dec lo y) as [->|Hne].
  - rewrite Hf. reflexivity.
  - destruct (allocations !! Net.IP_String (ip_of_Z lo)) eqn:E.
    + apply IH; [lia | assumption | intros x Hx; apply Hl; lia].
    + exfalso. apply (Hl lo); [lia | exact E].
Qed.

Lemma lowest_free_full allocations len : forall lo,
  (forall x, lo <= x < lo + Z.of_nat len -> ~ free allocations x) ->
  lowest_free allocations len lo = None.
Proof.
  induction len as [|k IH]; intros lo Hl; [reflexivity|]. cbn [lowest_free].
  destruct (allocations !! Net.IP_String (ip_of_Z lo)) eqn:E.
  - apply IH. intros x Hx. apply Hl. lia.
  - exfalso. apply (Hl lo); [lia | exact E].
Qed.

(** What a successful scan returns. *)
Lemma findAvailableIP_Ok cidr allocations A n key :
  parse_v4 cidr = Some (A, n) ->
  Ipam.findAvailableIP cidr allocations = Ok key ->
  exists x,
    key = Net.IP_String (ip_of_Z x)
    /\ network_addr A n < x < broadcast_addr A n
    /\ free allocations x
    /\ forall y, network_addr A n < y < x -> ~ free allocations y.
Proof.
  intros Hp. rewrite (findAvailableIP_spec _ _ _ _ Hp).
  destruct (lowest_free _ _ _) as [x|] eqn:E; [|discriminate].
  intros [= <-]. apply lowest_free_Some in E as (Hr & Hf & Hl).
  exists x. split; [reflexivity|]. split; [lia|]. split; [assumption|].
  intros y Hy. apply Hl. lia.
Qed.

Lemma findAvailableIP_Ok_parses cidr allocations key :
  Ipam.findAvailableIP cidr allocations = Ok key -> is_Some (parse_v4 cidr).
Proof.
  destruct (parse_v4 cidr) eqn:E; [eauto|].
  rewrite (findAvailableIP_invalid _ _ E). discriminate.
Qed.

(** The invariant on a pool's keys: each is the dotted quad of an address
    of the pool's block other than the network and the broadcast address
    (so distinct keys are distinct addresses). *)
Definition usable_key (cidr key : string) : Prop :=
  exists A n x,
    parse_v4 cidr = Some (A, n)
    /\ network_addr A n < x < broadcast_addr A n
    /\ key = Net.IP_String (ip_of_Z x).

Definition pool_inv (p : IPPool) : Prop :=
  forall key, is_Some (map_of (Allocations (Spec p)) !! key) ->
              usable_key (CIDR (Spec p)) key.

Definition store_inv (w : World) : Prop :=
  forall name p, w_pools w !! name = Some p -> pool_inv p.

(** [k] calls of [Allocate] in a row, collecting the addresses. *)
Fixpoint Allocate_many (k : nat) (req : Ipam.AllocationRequest) : M (list string) :=
  match k with
  | O => ret []
  | S k' =>
      r <- Ipam.Allocate req ;;
      rest <- Allocate_many k' req ;;
      ret (Ipam.res_IP r :: rest)
  end.

(** A pool whose addresses up to [N + j] are taken and whose others are
    free. *)
Definition filled_to (w : World) (name cidr : string) (N B : Z) (j : Z) : Prop :=
  exists p, w_pools w !! name = Some p /\ CIDR (Spec p) = cidr
    /\ (forall x, N < x <= N + j -> ~ free (map_of (Allocations (Spec p))) x)
    /\ (forall x, N + j < x < B -> free (map_of (Allocations (Spec p))) x).

Lemma Allocate_many_fills req cidr A n m : forall w j,
  Ipam.req_RequestedIP req = EmptyString ->
  parse_v4 cidr = Some (A, n) ->
  w_faults w = [] ->
  0 <= j ->
  network_addr A n + j + Z.of_nat m < broadcast_addr A n ->
  filled_to w (Ipam.req_PoolName req) cidr (network_addr A n) (broadcast_addr A n) j ->
  exists w',
    Allocate_many m req w
    = (Ok (map (fun i => Net.IP_String (ip_of_Z (network_addr A n + j + 1 + Z.of_nat i)))
             (seq 0 m)), w')
    /\ w_faults w' = []
    /\ filled_to w' (Ipam.req_PoolName req) cidr (network_addr A n) (broadcast_addr A n)
         (j + Z.of_nat m).
Proof.
  induction m as [|m IH]; intros w j Hreq Hp Hf Hj Hm Hfill.
  - exists w. cbn. split; [reflexivity|]. split; [assumption|].
    replace (j + Z.of_nat 0) with j by lia. assumption.
  - destruct Hfill as (p & Ep & Ec & Hused & Hfree).
    destruct (parse_v4_range _ _ _ Hp) as [HA Hn].
    destruct (network_addr_range A n Hn HA) as [HN HB].
    set (N := network_addr A n) in *. set (B := broadcast_addr A n) in *.
    assert (Hlow : Ipam.findAvailableIP cidr (map_of (Allocations (Spec p)))
                   = Ok (Net.IP_String (ip_of_Z (N + j + 1)))).
    { rewrite (findAvailableIP_spec _ _ _ _ Hp). fold N B.
      rewrite (lowest_free_first _ _ _ (N + j + 1)); [reflexivity | lia | | ].
      - apply Hfree. lia.
      - intros x Hx. apply Hused. lia. }
    destruct (Allocate_nofault req w p Hf Ep) as (o & w1 & Ea & Et & Hf1 & Hc).
    assert (Ho : o = Ok (allocation_result (Net.IP_String (ip_of_Z (N + j + 1))) p)).
    { destruct Hc as [(key & Hs & ->) | [(_ & e & He & _) | (Hne & _)]].
      - unfold selected in Hs. rewrite Hreq in Hs. cbn in Hs. rewrite Ec in Hs. congruence.
      - rewrite Ec in He. congruence.
      - rewrite Hreq in Hne. discriminate. }
    subst o.
    pose proof (tryAllocate_inv _ _ _ _ Et) as (_ & _ & (p' & key & Ep' & _ & Er & Hw1)).
    assert (p' = p) by congruence. subst p'.
    assert (key = Net.IP_String (ip_of_Z (N + j + 1))).
    { unfold allocation_result in Er. congruence. }
    subst key.
    assert (Hfill1 : filled_to w1 (Ipam.req_PoolName req) cidr N B (j + 1)).
    { eexists. split; [rewrite Hw1; apply lookup_insert_eq|].
      split; [rewrite allocated_pool_CIDR; exact Ec|].
      rewrite allocated_pool_allocations. unfold free. split.
      - intros x Hx. destruct (Z.eq_dec x (N + j + 1)) as [->|Hne].
        + rewrite lookup_insert_eq. discriminate.
        + rewrite lookup_insert_ne.
          * apply Hused. lia.
          * intros E. apply ip_string_inj in E; lia.
      - intros x Hx. rewrite lookup_insert_ne.
        + apply Hfree. lia.
        + intros E. apply ip_string_inj in E; lia. }
    destruct (IH w1 (j + 1) Hreq Hp Hf1 ltac:(lia) ltac:(fold N B; lia) Hfill1)
      as (w' & Em & Hf' & Hfill').
    exists w'. cbn [Allocate_many]. unfold bind at 1. rewrite Ea.
    unfold bind at 1. fold N. rewrite Em. unfold ret.
    split.
    + f_equal. f_equal. cbn [seq map]. f_equal.
      * cbn [allocation_result Ipam.res_IP]. f_equal. f_equal. lia.
      * rewrite <- seq_shift, map_map. apply map_ext. intros i. f_equal. f_equal. lia.
    + split; [assumption|].
      replace (j + Z.of_nat (S m)) with (j + 1 + Z.of_nat m) by lia. assumption.
Qed.

Lemma Allocate_Ok_inv req w r w' :
  Ipam.Allocate req w = (Ok r, w') ->
  exists p key t,
    w_pools w !! Ipam.req_PoolName req = Some p
    /\ selected req p key
    /\ r = allocation_result key p
    /\ t = w_now w'
    /\ w_pools w' = <[Ipam.req_PoolName req :=
                        allocated_pool req key t (Ipam.req_PoolName req) p]> (w_pools w).
Proof.
  intros H. apply Allocate_loop_inv in H as (w1 & Hp & Ht).
  apply tryAllocate_inv in Ht as (Hn & _ & (p & key & Ep & Hs & Hr & Hw)).
  exists p, key, (w_now w'). rewrite <- Hp. rewrite Hn. auto.
Qed.

Lemma Allocate_Err_inv req w e w' :
  Ipam.Allocate req w = (Err e, w') -> w_pools w' = w_pools w.
Proof. intros H. apply Allocate_loop_inv in H. exact H. Qed.

Lemma Allocate_returns req w :
  Ipam.Allocate req w <> (OutOfFuel, snd (Ipam.Allocate req w))
  /\ forall msg, Ipam.Allocate req w <> (Panic msg, snd (Ipam.Allocate req w)).
Proof.
  destruct (Ipam.Allocate req w) as [o w'] eqn:E.
  apply Allocate_loop_inv in E. destruct o; try contradiction; split; congruence.
Qed.

Lemma Release_Ok_inv name ip w u w' :
  Ipam.Release name ip w = (Ok u, w') ->
  exists p,
    w_pools w !! name = Some p
    /\ w_pools w' = <[name := released_pool ip (w_now w') name p]> (w_pools w).
Proof.
  intros H. apply Release_loop_inv in H as (w1 & Hp & Ht).
  apply tryRelease_inv in Ht as (Hn & _ & (p & Ep & Hw)).
  exists p. rewrite <- Hp, Hn. auto.
Qed.

Lemma Release_Err_inv name ip w e w' :
  Ipam.Release name ip w = (Err e, w') -> w_pools w' = w_pools w.
Proof. intros H. apply Release_loop_inv in H. exact H. Qed.

Lemma allocated_pool_Status req key t name p :
  Status (allocated_pool req key t name p)
  = let allocated := Z.of_nat (size (map_of (Allocations (Spec (allocated_pool req key t name p))))) in
    let capacity := Ipam.calculateCapacity (CIDR (Spec p)) in
    mkIPPoolStatus capacity allocated (wrap_int (capacity - allocated)) t.
Proof.
  rewrite allocated_pool_allocations.
  unfold allocated_pool. cbn [with_version Status].
  match goal with |- Status (on_wire ?q) = _ =>
    destruct (on_wire_fields q) as (_ & -> & _) end.
  reflexivity.
Qed.

Lemma released_pool_Status ip t name p :
  Status (released_pool ip t name p)
  = let allocated := Z.of_nat (size (map_of (Allocations (Spec (released_pool ip t name p))))) in
    let capacity := Ipam.calculateCapacity (CIDR (Spec p)) in
    mkIPPoolStatus capacity allocated (wrap_int (capacity - allocated)) t.
Proof.
  rewrite released_pool_allocations.
  unfold released_pool. cbn [with_version Status].
  match goal with |- Status (on_wire ?q) = _ =>
    destruct (on_wire_fields q) as (_ & -> & _) end.
  cbn [Status]. rewrite map_of_delete. reflexivity.
Qed.

Lemma wrap_int_small z : - 2 ^ 63 <= z < 2 ^ 63 -> wrap_int z = z.
Proof. intros H. unfold wrap_int. rewrite Z.mod_small; lia. Qed.

Lemma capacity_range cidr : 0 <= Ipam.calculateCapacity cidr <= 2 ^ 32.
Proof.
  destruct (parse_v4 cidr) as [[A n]|] eqn:E.
  - rewrite (calculateCapacity_spec _ _ _ E).
    destruct (parse_v4_range _ _ _ E) as [_ Hn].
    destruct (Z.eqb_spec n 32); [lia|].
    assert (2 ^ 1 <= 2 ^ (32 - n)) by (apply Z.pow_le_mono_r; lia).
    assert (2 ^ (32 - n) <= 2 ^ 32) by (apply Z.pow_le_mono_r; lia).
    change (2 ^ 1) with 2 in *. lia.
  - unfold parse_v4 in E. unfold Ipam.calculateCapacity.
    destruct (Net.ParseCIDR cidr) as [[? ?]|]; [discriminate | lia].
Qed.

(** ** Worlds to run the code on *)

Definition empty_world : World :=
  mkWorld ∅ ∅ (mkMetadata "proj" "europe-west1-b" "nodeB") ∅ ∅ ∅ ∅ "10.111.0.0/16"
    0 [] [] [] [].

Definition fresh_pool (name cidr : string) : IPPool :=
  mkIPPool name 1 (mkIPPoolSpec cidr "projects/proj/regions/europe-west1/subnetworks/a" "live" None)
    (mkIPPoolStatus 0 0 0 0).

Definition world_with_pool (name cidr : string) : World :=
  set_pools (fun ps => <[name := fresh_pool name cidr]> ps) empty_world.

Definition request (pool ip : string) : Ipam.AllocationRequest :=
  Ipam.mkAllocationRequest pool "p1" "ns" "uid-1" "nodeB" ip.

(** ** The allocator's claims *)

(** C2.  For a /32 pool the scanner has no candidate: it starts one past
    the network address, which is outside the block, so [findAvailableIP]
    reports that no address is available whatever the map holds, and
    [Allocate] without a requested IP on such a pool never returns an
    address, while [calculateCapacity] counts one usable address. *)
Theorem C2_slash32_scan_has_no_candidate :
  forall cidr A allocations,
    parse_v4 cidr = Some (A, 32) ->
    Ipam.findAvailableIP cidr allocations
    = Err (ErrorString ("no available IPs in CIDR " +:+ cidr))
    /\ Ipam.calculateCapacity cidr = 1
    /\ forall req w p r w',
         Ipam.req_RequestedIP req = EmptyString ->
         w_pools w !! Ipam.req_PoolName req = Some p ->
         CIDR (Spec p) = cidr ->
         Ipam.Allocate req w <> (Ok r, w').
Proof.
  intros cidr A allocations Hp.
  assert (Hscan : forall a, Ipam.findAvailableIP cidr a
                            = Err (ErrorString ("no available IPs in CIDR " +:+ cidr))).
  { intros a. rewrite (findAvailableIP_spec _ _ _ _ Hp).
    destruct (parse_v4_range _ _ _ Hp) as [HA Hn].
    rewrite broadcast_addr_spec by assumption.
    replace (Z.to_nat _) with 0%nat by (change (2 ^ (32 - 32)) with 1; lia).
    reflexivity. }
  split; [apply Hscan|]. split; [apply (calculateCapacity_spec _ _ _ Hp)|].
  intros req w p r w' Hreq Ep Ec Ha.
  apply Allocate_Ok_inv in Ha as (p' & key & t & Ep' & Hs & _).
  assert (p' = p) by congruence. subst p'.
  unfold selected in Hs. rewrite Hreq in Hs. cbn in Hs. rewrite Ec, Hscan in Hs.
  discriminate.
Qed.

Lemma C2_slash32_witness :
  Ipam.findAvailableIP "10.0.0.7/32" ∅
  = Err (ErrorString "no available IPs in CIDR 10.0.0.7/32")
  /\ Ipam.calculateCapacity "10.0.0.7/32" = 1.
Proof.
  destruct (C2_slash32_scan_has_no_candidate "10.0.0.7/32" 167772167 ∅ eq_refl)
    as (H1 & H2 & _).
  split; [exact H1 | exact H2].
Defined.

(** C2, on the running allocator: a fresh /32 pool, no failing call. *)
Example slash32_allocate_fails :
  fst (Ipam.Allocate (request "ippool-a" EmptyString) (world_with_pool "ippool-a" "10.0.0.7/32"))
  = Err (exhausted_error "10.0.0.7/32").
Proof. vm_compute. reflexivity. Qed.

(** C3.  On a pool with a valid IPv4 cidr, [Allocate] without a requested
    IP returns the numerically smallest address strictly between the
    network and the broadcast address whose dotted quad is not a key of the
    map: whatever the cluster API does when it returns a result, and
    always when no call fails (with the exhaustion error when no such
    address exists).  Hence, from the empty pool with [k] such addresses,
    [k] calls return the addresses [network + 1, ..., network + k] in this
    order and the next call fails with the exhaustion error. *)
Theorem C3_allocate_returns_lowest_free :
  forall req w p A n,
    Ipam.req_RequestedIP req = EmptyString ->
    w_pools w !! Ipam.req_PoolName req = Some p ->
    parse_v4 (CIDR (Spec p)) = Some (A, n) ->
    let N := network_addr A n in
    let B := broadcast_addr A n in
    let allocations := map_of (Allocations (Spec p)) in
    (forall r w', Ipam.Allocate req w = (Ok r, w') ->
       exists x, Ipam.res_IP r = Net.IP_String (ip_of_Z x)
                 /\ N < x < B /\ free allocations x
                 /\ forall y, N < y < x -> ~ free allocations y)
    /\ (w_faults w = [] ->
        (forall x, N < x < B -> free allocations x ->
                   (forall y, N < y < x -> ~ free allocations y) ->
                   exists w', Ipam.Allocate req w
                              = (Ok (allocation_result (Net.IP_String (ip_of_Z x)) p), w'))
        /\ ((forall x, N < x < B -> ~ free allocations x) ->
            exists w', Ipam.Allocate req w = (Err (exhausted_error (CIDR (Spec p))), w')))
    /\ (w_faults w = [] -> allocations = ∅ ->
        exists w1 w2,
          Allocate_many (usable_count A n) req w
          = (Ok (map (fun i => Net.IP_String (ip_of_Z (N + 1 + Z.of_nat i)))
                   (seq 0 (usable_count A n))), w1)
          /\ Ipam.Allocate req w1 = (Err (exhausted_error (CIDR (Spec p))), w2)).
Proof.
  intros req w p A n Hreq Ep Hp N B allocations.
  destruct (parse_v4_range _ _ _ Hp) as [HA Hn].
  destruct (network_addr_range A n Hn HA) as [HN HB]. fold N B in HN, HB.
  assert (Hnf : forall w0 p0,
             w_faults w0 = [] -> w_pools w0 !! Ipam.req_PoolName req = Some p0 ->
             CIDR (Spec p0) = CIDR (Spec p) ->
             exists w', Ipam.Allocate req w0
               = (match Ipam.findAvailableIP (CIDR (Spec p)) (map_of (Allocations (Spec p0))) with
                  | Ok key => Ok (allocation_result key p0)
                  | Err e => Err (Wrapped "failed to find available IP" e)
                  | Panic msg => Panic msg
                  | OutOfFuel => OutOfFuel
                  end, w')).
  { intros w0 p0 Hf0 Ep0 Ec0.
    destruct (Allocate_nofault req w0 p0 Hf0 Ep0) as (o & w' & Ea & _ & _ & Hc).
    exists w'. rewrite Ea. f_equal.
    destruct Hc as [(key & Hs & ->) | [(_ & e & He & ->) | (Hne & _)]].
    - unfold selected in Hs. rewrite Hreq in Hs. cbn in Hs. rewrite Ec0 in Hs.
      rewrite Hs. reflexivity.
    - rewrite Ec0 in He. rewrite He. reflexivity.
    - rewrite Hreq in Hne. discriminate. }
  split; [|split].
  - intros r w' Ha.
    apply Allocate_Ok_inv in Ha as (p' & key & t & Ep' & Hs & Hr & _).
    assert (p' = p) by congruence. subst p'.
    unfold selected in Hs. rewrite Hreq in Hs. cbn in Hs.
    destruct (findAvailableIP_Ok _ _ _ _ _ Hp Hs) as (x & Hk & Hx & Hf & Hl).
    exists x. subst r. cbn. auto.
  - intros Hf. split.
    + intros x Hx Hfree Hl.
      destruct (Hnf w p Hf Ep eq_refl) as (w' & Ea). exists w'. rewrite Ea.
      rewrite (findAvailableIP_spec _ _ _ _ Hp). fold N B.
      rewrite (lowest_free_first _ _ _ x); [reflexivity | lia | assumption |].
      intros y Hy. apply Hl. lia.
    + intros Hfull.
      destruct (Hnf w p Hf Ep eq_refl) as (w' & Ea). exists w'. rewrite Ea.
      rewrite (findAvailableIP_spec _ _ _ _ Hp). fold N B.
      rewrite lowest_free_full; [reflexivity|].
      intros x Hx. apply Hfull. lia.
  - intros Hf Hempty.
    assert (Hfill : filled_to w (Ipam.req_PoolName req) (CIDR (Spec p)) N B 0).
    { exists p. split; [assumption|]. split; [reflexivity|]. split.
      - intros x Hx. lia.
      - intros x Hx. unfold free. fold allocations. rewrite Hempty. apply lookup_empty. }
    assert (Hk : Z.of_nat (usable_count A n) = Z.max 0 (B - N - 1))
      by (unfold usable_count; fold N B; lia).
    destruct (Z.le_gt_cases (B - N - 1) 0) as [Hsmall|Hbig].
    + (* no usable address: the first call already fails *)
      replace (usable_count A n) with 0%nat by lia. cbn [Allocate_many seq map].
      exists w. destruct (Hnf w p Hf Ep eq_refl) as (w2 & Ea). exists w2.
      split; [reflexivity|]. rewrite Ea.
      rewrite (findAvailableIP_spec _ _ _ _ Hp). fold N B.
      rewrite lowest_free_full; [reflexivity|]. intros x Hx. lia.
    + destruct (Allocate_many_fills req (CIDR (Spec p)) A n (usable_count A n) w 0
                  Hreq Hp Hf ltac:(lia) ltac:(fold N B; lia) Hfill)
        as (w1 & Em & Hf1 & (p1 & Ep1 & Ec1 & Hused & _)).
      exists w1. destruct (Hnf w1 p1 Hf1 Ep1 Ec1) as (w2 & Ea). exists w2.
      split.
      * rewrite Em. f_equal. f_equal. apply map_ext. intros i. fold N. f_equal. f_equal. lia.
      * rewrite Ea. rewrite (findAvailableIP_spec _ _ _ _ Hp). fold N B.
        rewrite lowest_free_full; [reflexivity|].
        intros x Hx. apply Hused. lia.
Qed.

Lemma C3_witness :
  exists w1 w2,
    Allocate_many 2 (request "ippool-a" EmptyString) (world_with_pool "ippool-a" "10.0.0.0/30")
    = (Ok ["10.0.0.1"; "10.0.0.2"], w1)
    /\ Ipam.Allocate (request "ippool-a" EmptyString) w1
       = (Err (exhausted_error "10.0.0.0/30"), w2).
Proof.
  destruct (C3_allocate_returns_lowest_free
              (request "ippool-a" EmptyString) (world_with_pool "ippool-a" "10.0.0.0/30")
              (fresh_pool "ippool-a" "10.0.0.0/30") 167772160 30
              eq_refl eq_refl eq_refl) as (_ & _ & H).
  exact (H eq_refl eq_refl).
Defined.

(** C4, as stated, fails: [Allocate] with a requested IP records the
    requested key as it is.  On the pool 10.0.0.0/30 the request for
    192.168.1.1 succeeds and leaves a key outside the pool's block. *)
Lemma C4_requested_ip_outside_cidr_recorded :
  let w := world_with_pool "ippool-a" "10.0.0.0/30" in
  let req := request "ippool-a" "192.168.1.1" in
  store_inv w
  /\ (exists r, fst (Ipam.Allocate req w) = Ok r)
  /\ ~ store_inv (snd (Ipam.Allocate req w)).
Proof.
  intros w req.
  assert (Ep : w_pools w !! "ippool-a" = Some (fresh_pool "ippool-a" "10.0.0.0/30"))
    by reflexivity.
  split; [|split].
  - intros name p E key [v Hv].
    unfold w, world_with_pool in E. cbn [w_pools set_pools empty_world] in E.
    apply lookup_insert_Some in E as [[_ <-]|[_ E]]; [|rewrite lookup_empty in E; discriminate].
    cbn in Hv. rewrite lookup_empty in Hv. discriminate.
  - destruct (Allocate_nofault req w _ eq_refl Ep) as (o & w' & Ea & _ & _ & Hc).
    rewrite Ea. cbn [fst].
    destruct Hc as [(key & _ & ->) | [(Hne & _) | (_ & [v Hv] & _)]]; [eauto | discriminate |].
    cbn in Hv. rewrite lookup_empty in Hv. discriminate.
  - intros Hinv.
    destruct (Allocate_nofault req w _ eq_refl Ep) as (o & w' & Ea & _ & _ & Hc).
    rewrite Ea in Hinv. cbn [snd] in Hinv.
    destruct Hc as [(key & Hs & ->) | [(Hne & _) | (_ & [v Hv] & _)]];
      [| discriminate | cbn in Hv; rewrite lookup_empty in Hv; discriminate].
    destruct Hs as [-> _].
    apply Allocate_Ok_inv in Ea as (p & key & t & Ep' & Hs & Hr & _ & Hw).
    change (w_pools w !! "ippool-a" = Some p) in Ep'.
    assert (p = fresh_pool "ippool-a" "10.0.0.0/30") by congruence. subst p.
    destruct Hs as [Hkey _]. change (key = "192.168.1.1") in Hkey. subst key.
    specialize (Hinv "ippool-a" _ ltac:(rewrite Hw; apply lookup_insert_eq) "192.168.1.1").
    rewrite allocated_pool_allocations, allocated_pool_CIDR in Hinv.
    destruct (Hinv ltac:(rewrite lookup_insert_eq; eauto)) as (A & n & x & HP & Hx & Hk).
    assert (HP' : parse_v4 "10.0.0.0/30" = Some (167772160, 30)) by (vm_compute; reflexivity).
    cbn [fresh_pool Spec CIDR] in HP. rewrite HP' in HP. injection HP as <- <-.
    assert (HN : network_addr 167772160 30 = 167772160) by (vm_compute; reflexivity).
    assert (HB : broadcast_addr 167772160 30 = 167772163) by (vm_compute; reflexivity).
    rewrite HN, HB in Hx.
    assert (Hcases : x = 167772161 \/ x = 167772162) by lia.
    destruct Hcases as [-> | ->]; vm_compute in Hk; discriminate.
Qed.

(** C4, amended.  [Allocate] without a requested IP and [Release] keep every
    key of every pool the dotted quad of an address of the pool's block
    other than the network and the broadcast address (keys of a map are
    unique, and distinct keys are distinct addresses); [Allocate] with a
    requested IP records the requested key unchecked, so it keeps the
    invariant when that key is itself such an address of the pool. *)
Theorem C4_allocator_keeps_keys_usable :
  (forall req w,
     store_inv w ->
     (Ipam.req_RequestedIP req = EmptyString
      \/ forall p, w_pools w !! Ipam.req_PoolName req = Some p ->
                   usable_key (CIDR (Spec p)) (Ipam.req_RequestedIP req)) ->
     store_inv (snd (Ipam.Allocate req w)))
  /\ (forall name ip w, store_inv w -> store_inv (snd (Ipam.Release name ip w))).
Proof.
  split.
  - intros req w Hinv Hreq.
    destruct (Ipam.Allocate req w) as [o w'] eqn:Ea. cbn [snd].
    destruct o as [r|e|msg|].
    + apply Allocate_Ok_inv in Ea as (p & key & t & Ep & Hs & _ & _ & Hw).
      intros name q Eq key' Hk. rewrite Hw in Eq.
      apply lookup_insert_Some in Eq as [[<- <-]|[Hne Eq]]; [|eapply Hinv; eassumption].
      rewrite allocated_pool_CIDR. rewrite allocated_pool_allocations in Hk.
      destruct (decide (key = key')) as [<-|Hkk].
      * unfold selected in Hs.
        destruct (String.eqb (Ipam.req_RequestedIP req) EmptyString) eqn:Er.
        -- destruct (findAvailableIP_Ok_parses _ _ _ Hs) as [[A n] HP].
           destruct (findAvailableIP_Ok _ _ _ _ _ HP Hs) as (x & Hx & Hr & _).
           exists A, n, x. auto.
        -- destruct Hs as [-> _]. destruct Hreq as [Hreq|Hreq].
           ++ rewrite Hreq in Er. discriminate.
           ++ apply Hreq, Ep.
      * rewrite lookup_insert_ne in Hk by assumption. eapply Hinv; eassumption.
    + apply Allocate_Err_inv in Ea. intros name q Eq. rewrite Ea in Eq. eapply Hinv, Eq.
    + apply Allocate_loop_inv in Ea. contradiction.
    + apply Allocate_loop_inv in Ea. contradiction.
  - intros name ip w Hinv.
    destruct (Ipam.Release name ip w) as [o w'] eqn:Er. cbn [snd].
    destruct o as [u|e|msg|].
    + apply Release_Ok_inv in Er as (p & Ep & Hw).
      intros name' q Eq key Hk. rewrite Hw in Eq.
      apply lookup_insert_Some in Eq as [[<- <-]|[Hne Eq]]; [|eapply Hinv; eassumption].
      rewrite released_pool_CIDR. rewrite released_pool_allocations in Hk.
      destruct Hk as [v Hv]. apply lookup_delete_Some in Hv as [_ Hv].
      eapply Hinv; eauto.
    + apply Release_Err_inv in Er. intros name' q Eq. rewrite Er in Eq. eapply Hinv, Eq.
    + apply Release_loop_inv in Er. contradiction.
    + apply Release_loop_inv in Er. contradiction.
Qed.

Lemma empty_store_inv name cidr : store_inv (world_with_pool name cidr).
Proof.
  intros name' p E key [v Hv].
  unfold world_with_pool in E. cbn [w_pools set_pools empty_world] in E.
  apply lookup_insert_Some in E as [[_ <-]|[_ E]]; [|rewrite lookup_empty in E; discriminate].
  cbn in Hv. rewrite lookup_empty in Hv. discriminate.
Qed.

Lemma C4_witness :
  store_inv (snd (Ipam.Allocate (request "ippool-a" EmptyString)
                    (world_with_pool "ippool-a" "10.0.0.0/30"))).
Proof.
  apply (proj1 C4_allocator_keeps_keys_usable).
  - apply empty_store_inv.
  - left. reflexivity.
Defined.

(** C5.  After a successful [Allocate] or [Release] the pool's status has
    [allocated] the number of keys, [available] the capacity less
    [allocated], and, for a valid IPv4 cidr of prefix [n], capacity
    [2^(32-n) - 2], or [1] when [n = 32]; [len] of a Go map is an [int]. *)
Theorem C5_status_after_mutation :
  forall w w' name p' A n,
    ((exists req r, Ipam.req_PoolName req = name /\ Ipam.Allocate req w = (Ok r, w'))
     \/ (exists ip u, Ipam.Release name ip w = (Ok u, w'))) ->
    w_pools w' !! name = Some p' ->
    parse_v4 (CIDR (Spec p')) = Some (A, n) ->
    Z.of_nat (size (map_of (Allocations (Spec p')))) < 2 ^ 63 ->
    Allocated (Status p') = Z.of_nat (size (map_of (Allocations (Spec p'))))
    /\ Available (Status p') = Capacity (Status p') - Allocated (Status p')
    /\ Capacity (Status p') = if n =? 32 then 1 else 2 ^ (32 - n) - 2.
Proof.
  intros w w' name p' A n Hop Ep' HP Hsize.
  assert (Hst : exists cidr,
             CIDR (Spec p') = cidr
             /\ Status p'
                = mkIPPoolStatus (Ipam.calculateCapacity cidr)
                    (Z.of_nat (size (map_of (Allocations (Spec p')))))
                    (wrap_int (Ipam.calculateCapacity cidr
                               - Z.of_nat (size (map_of (Allocations (Spec p'))))))
                    (w_now w')).
  { destruct Hop as [(req & r & <- & Ha) | (ip & u & Hr)].
    - apply Allocate_Ok_inv in Ha as (p & key & t & Ep & _ & _ & -> & Hw).
      rewrite Hw, lookup_insert_eq in Ep'. injection Ep' as <-.
      exists (CIDR (Spec p)). split; [apply allocated_pool_CIDR|].
      apply allocated_pool_Status.
    - apply Release_Ok_inv in Hr as (p & Ep & Hw).
      rewrite Hw, lookup_insert_eq in Ep'. injection Ep' as <-.
      exists (CIDR (Spec p)). split; [apply released_pool_CIDR|].
      apply released_pool_Status. }
  destruct Hst as (cidr & Ec & ->). cbn [Allocated Available Capacity].
  pose proof (capacity_range cidr) as Hc.
  split; [reflexivity|]. split.
  - apply wrap_int_small. change (2 ^ 32) with 4294967296 in Hc.
    change (2 ^ 63) with 9223372036854775808 in *. lia.
  - rewrite <- Ec. apply (calculateCapacity_spec _ _ _ HP).
Qed.

Lemma C5_witness :
  exists p',
    w_pools (snd (Ipam.Allocate (request "ippool-a" EmptyString)
                    (world_with_pool "ippool-a" "10.111.0.0/16"))) !! "ippool-a" = Some p'
    /\ Allocated (Status p') = Z.of_nat (size (map_of (Allocations (Spec p'))))
    /\ Available (Status p') = Capacity (Status p') - Allocated (Status p')
    /\ Capacity (Status p') = 65534.
Proof.
  eexists. split; [vm_compute; reflexivity|].
  refine (C5_status_after_mutation
            (world_with_pool "ippool-a" "10.111.0.0/16") _ "ippool-a" _ 175046656 16
            _ _ _ _).
  - left. exists (request "ippool-a" EmptyString). eexists. split; [reflexivity|].
    vm_compute. reflexivity.
  - vm_compute. reflexivity.
  - vm_compute. reflexivity.
  - vm_compute. reflexivity.
Defined.

(** C8.  A successful [Allocate] without a requested IP followed by a
    successful [Release] of the returned address leaves the pool's
    allocations exactly as they were; and [Release] of a key that is not in
    the map leaves the allocations as they were while it still writes the
    pool back with the status recomputed and stamped with the current time.
    When no call fails and the pool exists, [Release] succeeds. *)
Theorem C8_allocate_release_round_trip :
  (forall req w r w1 u w2,
     Ipam.req_RequestedIP req = EmptyString ->
     Ipam.Allocate req w = (Ok r, w1) ->
     Ipam.Release (Ipam.req_PoolName req) (Ipam.res_IP r) w1 = (Ok u, w2) ->
     pool_allocations w2 (Ipam.req_PoolName req) = pool_allocations w (Ipam.req_PoolName req)
     /\ dom (pool_allocations w2 (Ipam.req_PoolName req))
        = dom (pool_allocations w (Ipam.req_PoolName req)))
  /\ (forall name ip w u w2,
        pool_allocations w name !! ip = None ->
        Ipam.Release name ip w = (Ok u, w2) ->
        pool_allocations w2 name = pool_allocations w name
        /\ exists p p',
             w_pools w !! name = Some p /\ w_pools w2 !! name = Some p'
             /\ ResourceVersion p' = ResourceVersion p + 1
             /\ Status p'
                = mkIPPoolStatus (Ipam.calculateCapacity (CIDR (Spec p)))
                    (Z.of_nat (size (pool_allocations w name)))
                    (wrap_int (Ipam.calculateCapacity (CIDR (Spec p))
                               - Z.of_nat (size (pool_allocations w name))))
                    (w_now w2))
  /\ (forall name ip w p,
        w_faults w = [] -> w_pools w !! name = Some p ->
        exists w2, Ipam.Release name ip w = (Ok tt, w2)).
Proof.
  split; [|split].
  - intros req w r w1 u w2 Hreq Ha Hr.
    apply Allocate_Ok_inv in Ha as (p & key & t & Ep & Hs & -> & _ & Hw1).
    apply Release_Ok_inv in Hr as (p1 & Ep1 & Hw2).
    rewrite Hw1, lookup_insert_eq in Ep1. injection Ep1 as <-.
    assert (E : pool_allocations w2 (Ipam.req_PoolName req)
                = pool_allocations w (Ipam.req_PoolName req)).
    { unfold pool_allocations. rewrite Hw2, lookup_insert_eq, Ep.
      rewrite released_pool_allocations, allocated_pool_allocations.
      cbn [allocation_result Ipam.res_IP]. apply delete_insert_id.
      unfold selected in Hs. rewrite Hreq in Hs. cbn in Hs.
      destruct (findAvailableIP_Ok_parses _ _ _ Hs) as [[A n] HP].
      destruct (findAvailableIP_Ok _ _ _ _ _ HP Hs) as (x & -> & _ & Hf & _). exact Hf. }
    split; [exact E | rewrite E; reflexivity].
  - intros name ip w u w2 Habs Hr.
    apply Release_Ok_inv in Hr as (p & Ep & Hw2).
    unfold pool_allocations in *. rewrite Ep in Habs. rewrite Hw2, lookup_insert_eq, Ep.
    assert (E : map_of (Allocations (Spec (released_pool ip (w_now w2) name p)))
                = map_of (Allocations (Spec p))).
    { rewrite released_pool_allocations. apply delete_id. exact Habs. }
    split; [exact E|].
    exists p, (released_pool ip (w_now w2) name p).
    split; [reflexivity|]. split; [reflexivity|]. split; [reflexivity|].
    rewrite released_pool_Status. cbn zeta. rewrite E. reflexivity.
  - intros name ip w p Hf Ep.
    destruct (Release_nofault name ip w p Hf Ep) as (w2 & Hr & _). eauto.
Qed.

Lemma C8_witness :
  let req := request "ippool-a" EmptyString in
  let w := world_with_pool "ippool-a" "10.0.0.0/30" in
  let w1 := snd (Ipam.Allocate req w) in
  let w2 := snd (Ipam.Release "ippool-a" "10.0.0.1" w1) in
  pool_allocations w2 "ippool-a" = pool_allocations w "ippool-a".
Proof.
  intros req w w1 w2.
  refine (proj1 (proj1 C8_allocate_release_round_trip req w
                   (allocation_result "10.0.0.1" (fresh_pool "ippool-a" "10.0.0.0/30"))
                   w1 tt w2 _ _ _)).
  - reflexivity.
  - vm_compute. reflexivity.
  - vm_compute. reflexivity.
Defined.

(** ** The retry policy *)

(** The policy in the specification's words: attempts are numbered from 1
    to 10; an attempt that succeeds or fails with an error other than a
    conflict ends the call with that outcome; after a conflict at attempt
    [i < 10] the call sleeps [100ms * 2^(i-1)] and makes attempt [i + 1];
    a conflict at attempt 10 ends the call with the exhaustion error, which
    carries that last conflict. *)
Inductive retry_run {A} (attempt : M A) (on_exhaustion : error -> error)
  : Z -> World -> Outcome A * World -> Prop :=
| retry_done i w a w' :
    1 <= i <= 10 -> attempt w = (Ok a, w') ->
    retry_run attempt on_exhaustion i w (Ok a, w')
| retry_error i w e w' :
    1 <= i <= 10 -> attempt w = (Err e, w') -> IsConflict e = false ->
    retry_run attempt on_exhaustion i w (Err e, w')
| retry_again i w e w1 r :
    1 <= i < 10 -> attempt w = (Err e, w1) -> IsConflict e = true ->
    retry_run attempt on_exhaustion (i + 1) (snd (Sleep (100 * 2 ^ (i - 1)) w1)) r ->
    retry_run attempt on_exhaustion i w r
| retry_exhausted w e w' :
    attempt w = (Err e, w') -> IsConflict e = true ->
    retry_run attempt on_exhaustion 10 w (Err (on_exhaustion e), w')
| retry_panic i w msg w' :
    1 <= i <= 10 -> attempt w = (Panic msg, w') ->
    retry_run attempt on_exhaustion i w (Panic msg, w')
| retry_fuel i w w' :
    1 <= i <= 10 -> attempt w = (OutOfFuel, w') ->
    retry_run attempt on_exhaustion i w (OutOfFuel, w').

(** The loop both [Allocate] and [Release] write out. *)
Fixpoint retry_loop {A} (what : string) (attempt : M A) (n : nat) (i : Z)
         (lastErr : option error) : M A :=
  match n with
  | O => fail (Ipam.retries_error what lastErr)
  | S n' =>
      (if 0 <? i then Sleep (Ipam.RetryDelay * Z.shiftl 1 (i - 1)) else ret tt) ;;;
      r <- try attempt ;;
      match r with
      | inr result => ret result
      | inl err =>
          if IsConflict err then retry_loop what attempt n' (i + 1) (Some err)
          else fail err
      end
  end.

Lemma Allocate_loop_retry req n : forall i last w,
  Ipam.Allocate_loop n i last req w
  = retry_loop "allocate IP" (Ipam.tryAllocate req) n i last w.
Proof.
  induction n as [|n IH]; intros i last w; [reflexivity|].
  cbn [Ipam.Allocate_loop retry_loop]. unfold bind, try.
  destruct (0 <? i); unfold Sleep, ret;
    (destruct (Ipam.tryAllocate req _) as [[r|e|msg|] w1]; try reflexivity;
     destruct (IsConflict e); [apply IH | reflexivity]).
Qed.

Lemma Release_loop_retry name ip n : forall i last w,
  Ipam.Release_loop n i last name ip w
  = retry_loop "release IP" (Ipam.tryRelease name ip) n i last w.
Proof.
  induction n as [|n IH]; intros i last w; [reflexivity|].
  cbn [Ipam.Release_loop retry_loop]. unfold bind, try.
  destruct (0 <? i); unfold Sleep, ret;
    (destruct (Ipam.tryRelease name ip _) as [[[]|e|msg|] w1]; try reflexivity;
     destruct (IsConflict e); [apply IH | reflexivity]).
Qed.

Lemma retry_loop_run {A} what (attempt : M A) n : forall i last w,
  Z.of_nat n = 10 - i -> 0 <= i < 10 ->
  retry_run attempt (fun e => Ipam.retries_error what (Some e)) (i + 1)
    (snd ((if 0 <? i then Sleep (Ipam.RetryDelay * Z.shiftl 1 (i - 1)) else ret tt) w))
    (retry_loop what attempt n i last w).
Proof.
  induction n as [|n IH]; intros i last w Hn Hi; [lia|].
  cbn [retry_loop]. unfold bind at 1.
  set (pre := (if 0 <? i then Sleep (Ipam.RetryDelay * Z.shiftl 1 (i - 1)) else ret tt) w).
  assert (Hpre : pre = (Ok tt, snd pre)) by (subst pre; destruct (0 <? i); reflexivity).
  rewrite Hpre. cbn [snd]. set (w0 := snd pre). clearbody w0. clear pre Hpre.
  unfold bind, try.
  destruct (attempt w0) as [[a|e|msg|] w1] eqn:Ea.
  - apply retry_done; [lia | assumption].
  - destruct (IsConflict e) eqn:Ec.
    + destruct n as [|n'].
      * assert (i = 9) by lia. subst i. cbn [retry_loop]. unfold fail.
        apply (retry_exhausted attempt _ w0 e w1); assumption.
      * eapply retry_again; [lia | eassumption | assumption |].
        specialize (IH (i + 1) (Some e) w1 ltac:(lia) ltac:(lia)).
        replace (0 <? i + 1) with true in IH by (symmetry; apply Z.ltb_lt; lia).
        replace (i + 1 - 1) with i in * by lia.
        rewrite Z.shiftl_1_l in IH. exact IH.
    + unfold fail. apply retry_error; [lia | assumption..].
  - apply retry_panic; [lia | assumption].
  - apply retry_fuel; [lia | assumption].
Qed.

(** C6.  [Allocate] and [Release] follow the retry policy: at most 10
    attempts, the sleep [100ms * 2^(i-1)] between attempt [i] and attempt
    [i + 1], a retry only after an attempt that failed with a Conflict
    error, any other error returned at once as it is, and after ten
    conflicts the error "failed to ... after 10 retries" wrapping the last
    conflict. *)
Theorem C6_allocate_release_follow_retry_policy :
  (forall req w,
     retry_run (Ipam.tryAllocate req)
       (Wrapped "failed to allocate IP after 10 retries") 1 w (Ipam.Allocate req w))
  /\ (forall name ip w,
        retry_run (Ipam.tryRelease name ip)
          (Wrapped "failed to release IP after 10 retries") 1 w (Ipam.Release name ip w)).
Proof.
  split.
  - intros req w. unfold Ipam.Allocate. rewrite Allocate_loop_retry.
    exact (retry_loop_run "allocate IP" (Ipam.tryAllocate req) 10 0 None w eq_refl
             ltac:(lia)).
  - intros name ip w. unfold Ipam.Release. rewrite Release_loop_retry.
    exact (retry_loop_run "release IP" (Ipam.tryRelease name ip) 10 0 None w eq_refl
             ltac:(lia)).
Qed.

(** Within one attempt only the cluster API produces a Conflict: the
    attempt's own errors are plain messages. *)
Lemma tryAllocate_conflict_from_api req w e w' :
  w_faults w = [] -> Ipam.tryAllocate req w = (Err e, w') -> IsConflict e = false.
Proof.
  intros Hf Ht.
  destruct (w_pools w !! Ipam.req_PoolName req) as [p|] eqn:Ep.
  - destruct (tryAllocate_nofault req w p Hf Ep) as (o & w1 & Et & _ & Hc).
    rewrite Et in Ht. injection Ht as Ho _. subst o.
    destruct Hc as [(key & _ & Ho) | [(_ & e0 & He & Ho) | (_ & _ & Ho)]];
      [discriminate | injection Ho as -> | injection Ho as ->].
    + cbn. eapply findAvailableIP_err_not_conflict, He.
    + reflexivity.
  - unfold Ipam.tryAllocate, bind, map_err, pool_Get, bind in Ht.
    rewrite (remote_nofault _ _ Hf) in Ht. cbn [w_pools set_faults log] in Ht.
    rewrite Ep in Ht. injection Ht as <- _. reflexivity.
Qed.

(** ** The backoff, summed *)

(** The sleeps of the iterations [i, i + 1, ...] of the loop, [n] of them. *)
Fixpoint backoff (n : nat) (i : Z) : Z :=
  match n with
  | O => 0
  | S n' => (if 0 <? i then Ipam.RetryDelay * Z.shiftl 1 (i - 1) else 0) + backoff n' (i + 1)
  end.

Lemma backoff_nonneg n : forall i, 0 <= i -> 0 <= backoff n i.
Proof.
  induction n as [|n IH]; intros i Hi; cbn [backoff]; [lia|].
  specialize (IH (i + 1) ltac:(lia)).
  destruct (Z.ltb_spec 0 i); [|lia].
  rewrite Z.shiftl_1_l. unfold Ipam.RetryDelay.
  assert (0 < 2 ^ (i - 1)) by (apply Z.pow_pos_nonneg; lia). lia.
Qed.

Lemma retry_loop_sleeps {A} what (attempt : M A) n : forall i last w,
  0 <= i ->
  (forall w0 o w1, attempt w0 = (o, w1) ->
                   sleep_total (w_trace w1) = sleep_total (w_trace w0)) ->
  sleep_total (w_trace (snd (retry_loop what attempt n i last w)))
  - sleep_total (w_trace w) <= backoff n i.
Proof.
  induction n as [|n IH]; intros i last w Hi Hatt; cbn [retry_loop backoff].
  - cbn. lia.
  - pose proof (backoff_nonneg n (i + 1) ltac:(lia)) as Hb.
    unfold bind at 1.
    set (d := if 0 <? i then Ipam.RetryDelay * Z.shiftl 1 (i - 1) else 0).
    set (pre := (if 0 <? i then Sleep (Ipam.RetryDelay * Z.shiftl 1 (i - 1)) else ret tt) w).
    assert (Hpre : pre = (Ok tt, snd pre)
                   /\ sleep_total (w_trace (snd pre)) = sleep_total (w_trace w) + d).
    { subst pre d. destruct (0 <? i); cbn; [|split; [reflexivity | lia]].
      rewrite sleep_total_app. cbn. split; [reflexivity | lia]. }
    destruct Hpre as [Hpre Hs]. rewrite Hpre. set (w0 := snd pre) in *.
    clearbody w0. clear pre Hpre. unfold bind, try.
    destruct (attempt w0) as [[a|e|msg|] w1] eqn:Ea; pose proof (Hatt _ _ _ Ea) as H1;
      cbn [snd ret fail]; try lia.
    destruct (IsConflict e); [|cbn; lia].
    specialize (IH (i + 1) (Some e) w1 ltac:(lia) Hatt). lia.
Qed.

(** "Approximately 25 seconds", read with a tolerance of a tenth. *)
Definition about_25_seconds (ms : Z) : Prop := 22500 <= ms <= 27500.

(** A cluster API on which the next [n] attempts all lose the race: each
    attempt's read goes through and its write is refused with a Conflict. *)
Definition conflict : error :=
  StatusError StatusReasonConflict "the object has been modified".

Fixpoint conflicts (n : nat) : list (option error) :=
  match n with
  | O => []
  | S n' => None :: Some conflict :: conflicts n'
  end.

Definition contended_world (n : nat) : World :=
  set_faults (conflicts n) (world_with_pool "ippool-a" "10.0.0.0/30").

(** C7, as stated, fails: when all ten attempts conflict the call has
    slept 51.1 seconds in all. *)
Lemma C7_worst_case_sleep_is_not_25_seconds :
  let w' := snd (Ipam.Allocate (request "ippool-a" EmptyString) (contended_world 10)) in
  sleep_total (w_trace w') = 51100
  /\ fst (Ipam.Allocate (request "ippool-a" EmptyString) (contended_world 10))
     = Err (Wrapped "failed to allocate IP after 10 retries" conflict)
  /\ ~ about_25_seconds (sleep_total (w_trace w')).
Proof.
  assert (E : sleep_total (w_trace (snd (Ipam.Allocate (request "ippool-a" EmptyString)
                                           (contended_world 10)))) = 51100)
    by (vm_compute; reflexivity).
  cbv zeta. rewrite E. split; [reflexivity|]. split; [vm_compute; reflexivity|].
  unfold about_25_seconds. lia.
Qed.

(** C7, amended.  Over its ten attempts a call of [Allocate] or [Release]
    sleeps at most 51.1 seconds in all, whatever the cluster API does (the
    delays are 100 ms, 200 ms, ..., the last one, before the tenth attempt,
    25.6 seconds), and it sleeps exactly that long when all ten attempts
    conflict. *)
Theorem C7_cumulative_sleep_at_most_51100ms :
  (forall req w,
     sleep_total (w_trace (snd (Ipam.Allocate req w))) - sleep_total (w_trace w) <= 51100)
  /\ (forall name ip w,
        sleep_total (w_trace (snd (Ipam.Release name ip w))) - sleep_total (w_trace w)
        <= 51100)
  /\ sleep_total (w_trace (snd (Ipam.Allocate (request "ippool-a" EmptyString)
                                  (contended_world 10)))) = 51100
  /\ backoff 10 0 = 51100
  /\ Ipam.RetryDelay * Z.shiftl 1 (9 - 1) = 25600.
Proof.
  split; [|split; [|split; [|split]]].
  - intros req w. unfold Ipam.Allocate. change (Z.to_nat Ipam.MaxRetries) with 10%nat.
    rewrite Allocate_loop_retry.
    change 51100 with (backoff 10 0). apply retry_loop_sleeps; [lia|].
    intros w0 o w1 H. apply tryAllocate_inv in H. apply H.
  - intros name ip w. unfold Ipam.Release. change (Z.to_nat Ipam.MaxRetries) with 10%nat.
    rewrite Release_loop_retry.
    change 51100 with (backoff 10 0). apply retry_loop_sleeps; [lia|].
    intros w0 o w1 H. apply tryRelease_inv in H. apply H.
  - vm_compute. reflexivity.
  - reflexivity.
  - reflexivity.
Qed.

(** ** The provisioner's errors *)

Definition nodeB : Instance :=
  mkInstance "nodeB"
    [mkNetworkInterface "nic0" 1 "projects/proj/global/networks/default"
       "projects/proj/regions/europe-west1/subnetworks/subnet-a" []].

(** A fresh cluster: the node, its subnet without secondary ranges, no
    reservation, no pool. *)
Definition provision_world (faults : list (option error)) : World :=
  mkWorld ∅ ∅ (mkMetadata "proj" "europe-west1-b" "nodeB")
    {[ "nodeB" := nodeB ]} {[ "subnet-a" := mkSubnetwork "10.0.0.0/24" 7 [] ]} ∅ ∅
    "10.111.0.0/16" 0 faults [] [] [].

Definition permission_denied : error := GrpcStatus 7 "permission denied".

Definition live_range (cidr : string) : SubnetworkSecondaryRange :=
  mkSecondaryRange "live" cidr
    "//networkconnectivity.googleapis.com/projects/proj/locations/global/internalRanges/live".

(** C9, on the code.  When fetching the reservation fails with
    PermissionDenied (the sixth remote call of the run), and likewise when
    creating it does (the seventh), [Provision] goes on: it patches the
    subnet with a secondary range whose cidr is empty, creates the IPPool
    with an empty cidr, and reports success. *)
Theorem C9_internal_range_error_is_dropped :
  let fetch_fails :=
    provision_world [None; None; None; None; None; Some permission_denied] in
  let create_fails :=
    provision_world [None; None; None; None; None; None; Some permission_denied] in
  fst (Provisioner.Provision "live" fetch_fails) = Ok tt
  /\ w_trace (snd (Provisioner.Provision "live" fetch_fails))
     = [EvCall "metadata.ProjectID"; EvCall "metadata.Zone"; EvCall "metadata.InstanceName";
        EvInstanceGet "nodeB"; EvSubnetGet "subnet-a";
        EvInternalRangeGet "projects/proj/locations/global/internalRanges/live";
        EvSubnetPatch "subnet-a" [live_range EmptyString];
        EvCall "Operation.Wait"; EvPoolGet "ippool-subnet-a"; EvPoolCreate "ippool-subnet-a"]
  /\ (CIDR ∘ Spec) <$> (w_pools (snd (Provisioner.Provision "live" fetch_fails))
                          !! "ippool-subnet-a") = Some EmptyString
  /\ fst (Provisioner.Provision "live" create_fails) = Ok tt
  /\ w_trace (snd (Provisioner.Provision "live" create_fails))
     = [EvCall "metadata.ProjectID"; EvCall "metadata.Zone"; EvCall "metadata.InstanceName";
        EvInstanceGet "nodeB"; EvSubnetGet "subnet-a";
        EvInternalRangeGet "projects/proj/locations/global/internalRanges/live";
        EvInternalRangeCreate "projects/proj/locations/global/internalRanges/live";
        EvSubnetPatch "subnet-a" [live_range EmptyString];
        EvCall "Operation.Wait"; EvPoolGet "ippool-subnet-a"; EvPoolCreate "ippool-subnet-a"].
Proof. vm_compute. repeat split; reflexivity. Qed.

(** The same run when nothing fails, for comparison. *)
Example provision_fresh_cluster :
  fst (Provisioner.Provision "live" (provision_world [])) = Ok tt
  /\ (CIDR ∘ Spec) <$> (w_pools (snd (Provisioner.Provision "live" (provision_world [])))
                          !! "ippool-subnet-a") = Some "10.111.0.0/16".
Proof. vm_compute. split; reflexivity. Qed.

(** ** The driver *)

(** The next remote call goes through. *)
Definition passes (faults : list (option error)) : Prop :=
  match faults with
  | Some _ :: _ => False
  | _ => True
  end.

Lemma remote_passes ev w :
  passes (w_faults w) -> remote ev w = (Ok tt, set_faults (tail (w_faults w)) (log ev w)).
Proof. unfold remote, passes. destruct (w_faults w) as [|[e|] fs]; [reflexivity | tauto | reflexivity]. Qed.

(** C10.  A DEL with a non-empty container namespace that gets as far as
    the pod (the configuration decodes, the client is built and the pod is
    fetched) and finds the pod's list of IPs empty panics on
    [p.Status.PodIPs[0]] with an index out of range; it does not return an
    error. *)
Theorem C10_del_panics_on_empty_pod_ips :
  forall parseConfig fuel args w conf pod,
    Driver.Netns args <> EmptyString ->
    parseConfig (Driver.StdinData args) = inr conf ->
    passes (w_faults w) ->
    passes (tail (w_faults w)) ->
    w_pods w !! (get_or_empty (parse_cni_args (Driver.Args args)) "K8S_POD_NAMESPACE",
                 get_or_empty (parse_cni_args (Driver.Args args)) "K8S_POD_NAME") = Some pod ->
    pod_PodIPs pod = [] ->
    fst (Driver.cmdDel parseConfig fuel args w)
    = Panic "index out of range [0] with length 0".
Proof.
  intros parseConfig fuel args w conf pod Hns Hconf Hp1 Hp2 Hpod Hips.
  unfold Driver.cmdDel.
  destruct (String.eqb_spec (Driver.Netns args) EmptyString) as [E|_]; [contradiction|].
  unfold Driver.with_lock, Driver.parse_config. rewrite Hconf.
  unfold bind at 1. unfold ret at 1.
  unfold bind at 1. unfold map_err at 1.
  rewrite remote_passes by exact Hp1.
  unfold bind at 1. unfold map_err at 1. unfold Driver.Pods_Get. unfold bind at 1.
  rewrite remote_passes by exact Hp2.
  cbn [w_pods set_faults log]. rewrite Hpod.
  unfold bind at 1. rewrite Hips. reflexivity.
Qed.

Definition any_conf (_ : string) : error + Driver.PluginConf :=
  inr (Driver.mkPluginConf "1.0.0" EmptyString).

Definition del_args : Driver.CmdArgs :=
  Driver.mkCmdArgs "c1" "/var/run/netns/cni-1" "eth0"
    "K8S_POD_NAMESPACE=ns;K8S_POD_NAME=p1" "/opt/cni/bin" "{}".

Definition pod_without_ips : Pod := mkPod "uid-1" ∅ [].

Definition del_world : World :=
  mkWorld ∅ {[ ("ns", "p1") := pod_without_ips ]} (mkMetadata "proj" "europe-west1-b" "nodeB")
    {[ "nodeB" := nodeB ]} ∅ ∅ ∅ "10.111.0.0/16" 0 [] [] [] [].

Lemma C10_witness :
  fst (Driver.cmdDel any_conf 5 del_args del_world)
  = Panic "index out of range [0] with length 0".
Proof.
  apply (C10_del_panics_on_empty_pod_ips any_conf 5 del_args del_world
           (Driver.mkPluginConf "1.0.0" EmptyString) pod_without_ips).
  - discriminate.
  - reflexivity.
  - exact I.
  - exact I.
  - vm_compute. reflexivity.
  - reflexivity.
Defined.

(** ** Migration ADD: what happens to the pool and to the two instances *)

(** Calls that neither write the pool nor touch an interface. *)
Definition quiet (ev : Event) : Prop :=
  match ev with
  | EvPoolUpdate _ | EvPoolCreate _ | EvUpdateNetworkInterface _ _
  | EvOperationStarted _ _ | EvOperationDone _ => False
  | _ => True
  end.

(** A stretch of the run that only reads: the cluster and the cloud are as
    before, and the calls made are quiet. *)
Definition quiet_step (w w' : World) : Prop :=
  w_pools w' = w_pools w /\ w_pods w' = w_pods w /\ w_metadata w' = w_metadata w
  /\ w_instances w' = w_instances w /\ w_operations w' = w_operations w
  /\ w_history w' = w_history w
  /\ exists tr, w_trace w' = w_trace w ++ tr /\ Forall quiet tr.

Definition quietly {A} (m : M A) : Prop := forall w, quiet_step w (snd (m w)).

Lemma quiet_step_refl w : quiet_step w w.
Proof.
  repeat split. exists []. split; [symmetry; apply app_nil_r | apply Forall_nil_2].
Qed.

Lemma quiet_step_trans w1 w2 w3 : quiet_step w1 w2 -> quiet_step w2 w3 -> quiet_step w1 w3.
Proof.
  intros (A1 & A2 & A3 & A4 & A5 & A6 & t1 & A7 & A8) (B1 & B2 & B3 & B4 & B5 & B6 & t2 & B7 & B8).
  repeat split; try congruence.
  exists (t1 ++ t2). split; [rewrite B7, A7, app_assoc; reflexivity|].
  apply Forall_app. auto.
Qed.

Lemma quiet_step_log ev fs w : quiet ev -> quiet_step w (set_faults fs (log ev w)).
Proof.
  intros H. repeat split. exists [ev]. split; [reflexivity|].
  apply Forall_cons_2; [assumption | apply Forall_nil_2].
Qed.

Lemma quietly_ret {A} (a : A) : quietly (ret a).
Proof. intros w. apply quiet_step_refl. Qed.

Lemma quietly_fail {A} e : quietly (@fail A e).
Proof. intros w. apply quiet_step_refl. Qed.

Lemma quietly_panic {A} msg : quietly (@panic A msg).
Proof. intros w. apply quiet_step_refl. Qed.

Lemma quietly_bind {A B} (m : M A) (k : A -> M B) :
  quietly m -> (forall a, quietly (k a)) -> quietly (bind m k).
Proof.
  intros Hm Hk w. unfold bind. specialize (Hm w).
  destruct (m w) as [[a|e|msg|] w1]; cbn [snd] in *; try assumption.
  eapply quiet_step_trans; [exact Hm | apply Hk].
Qed.

Lemma quietly_map_err {A} f (m : M A) : quietly m -> quietly (map_err f m).
Proof.
  intros Hm w. unfold map_err. specialize (Hm w).
  destruct (m w) as [[a|e|msg|] w1]; exact Hm.
Qed.

Lemma quietly_try {A} (m : M A) : quietly m -> quietly (try m).
Proof.
  intros Hm w. unfold try. specialize (Hm w).
  destruct (m w) as [[a|e|msg|] w1]; exact Hm.
Qed.

Lemma quietly_remote ev : quiet ev -> quietly (remote ev).
Proof.
  intros H w. unfold remote.
  destruct (w_faults w) as [|[e|] fs]; cbn [snd]; apply quiet_step_log, H.
Qed.

Lemma quietly_read {A} (f : World -> Outcome A) : quietly (fun w => (f w, w)).
Proof. intros w. apply quiet_step_refl. Qed.

Lemma quietly_Sleep ms : quietly (Sleep ms).
Proof.
  intros w. unfold Sleep. cbn [snd]. repeat split. exists [EvSleep ms].
  split; [reflexivity|]. apply Forall_cons_2; [exact I | apply Forall_nil_2].
Qed.

Lemma quietly_index0 {A} (s : list A) : quietly (index0 s).
Proof. destruct s; [apply quietly_panic | apply quietly_ret]. Qed.

Lemma quietly_metadata_get what field : quietly (metadata_get what field).
Proof.
  unfold metadata_get. apply quietly_bind; [apply quietly_remote; exact I|].
  intros _. apply (quietly_read (fun w => Ok (field (w_metadata w)))).
Qed.

Lemma quietly_region_of_zone zone : quietly (region_of_zone zone).
Proof. unfold region_of_zone. destruct (_ <? _)%nat; [apply quietly_ret | apply quietly_fail]. Qed.

Lemma quietly_Instances_Get name : quietly (Instances_Get name).
Proof.
  unfold Instances_Get. apply quietly_bind; [apply quietly_remote; exact I|].
  intros _ w. destruct (w_instances w !! name); apply quiet_step_refl.
Qed.

Lemma quietly_Subnetworks_Get name : quietly (Subnetworks_Get name).
Proof.
  unfold Subnetworks_Get. apply quietly_bind; [apply quietly_remote; exact I|].
  intros _ w. destruct (w_subnets w !! name); apply quiet_step_refl.
Qed.

Lemma quietly_pool_Get name : quietly (pool_Get name).
Proof.
  unfold pool_Get. apply quietly_bind; [apply quietly_remote; exact I|].
  intros _ w. destruct (w_pools w !! name); apply quiet_step_refl.
Qed.

Lemma quietly_Pods_Get ns name : quietly (Driver.Pods_Get ns name).
Proof.
  unfold Driver.Pods_Get. apply quietly_bind; [apply quietly_remote; exact I|].
  intros _ w. destruct (w_pods w !! (ns, name)); apply quiet_step_refl.
Qed.

Lemma quietly_GetAllocation poolName ip : quietly (Ipam.GetAllocation poolName ip).
Proof.
  unfold Ipam.GetAllocation.
  apply quietly_bind; [apply quietly_map_err, quietly_pool_Get|].
  intros pool. destruct (Allocations (Spec pool)) as [m|]; [|apply quietly_fail].
  destruct (m !! ip); [apply quietly_ret | apply quietly_fail].
Qed.

Lemma quietly_getInstanceInfo : quietly Driver.getInstanceInfo.
Proof.
  unfold Driver.getInstanceInfo.
  repeat (first [ apply quietly_map_err
                | apply quietly_remote; exact I
                | apply quietly_metadata_get
                | apply quietly_region_of_zone
                | apply quietly_ret
                | apply quietly_bind; [|intros ?] ]).
Qed.

Lemma quietly_parse_config parseConfig stdin : quietly (Driver.parse_config parseConfig stdin).
Proof.
  unfold Driver.parse_config. destruct (parseConfig stdin); [apply quietly_fail | apply quietly_ret].
Qed.

Lemma quietly_add_preamble parseConfig args : quietly (Driver.add_preamble parseConfig args).
Proof.
  unfold Driver.add_preamble.
  repeat (first [ apply quietly_map_err
                | apply quietly_remote; exact I
                | apply quietly_parse_config
                | apply quietly_Pods_Get
                | apply quietly_getInstanceInfo
                | apply quietly_Instances_Get
                | apply quietly_Subnetworks_Get
                | apply quietly_index0
                | apply quietly_ret
                | match goal with |- quietly (let '(_, _) := ?x in _) => destruct x end
                | apply quietly_bind; [|intros ?] ]).
Qed.

Lemma bind_Ok {A B} (m : M A) (k : A -> M B) w b w' :
  bind m k w = (Ok b, w') -> exists a w1, m w = (Ok a, w1) /\ k a w1 = (Ok b, w').
Proof.
  unfold bind. destruct (m w) as [[a|e|msg|] w1]; try discriminate. eauto.
Qed.

Lemma map_err_Ok {A} f (m : M A) w a w' :
  map_err f m w = (Ok a, w') -> m w = (Ok a, w').
Proof. unfold map_err. destruct (m w) as [[a0|e|msg|] w1]; congruence. Qed.

Lemma quietly_run {A} (m : M A) w o w' : quietly m -> m w = (o, w') -> quiet_step w w'.
Proof. intros H E. specialize (H w). rewrite E in H. exact H. Qed.

Lemma remote_metadata ev w o w' : remote ev w = (o, w') -> w_metadata w' = w_metadata w.
Proof.
  intros E. unfold remote in E. destruct (w_faults w) as [|[e|] fs]; injection E as _ <-; reflexivity.
Qed.

Lemma metadata_get_Ok what field w v w' :
  metadata_get what field w = (Ok v, w') -> v = field (w_metadata w).
Proof.
  unfold metadata_get. intros H. apply bind_Ok in H as ([] & w1 & H1 & H2).
  apply remote_metadata in H1. injection H2 as <- _. congruence.
Qed.

Lemma getInstanceInfo_Ok w projectID zone region instanceName w' :
  Driver.getInstanceInfo w = (Ok (projectID, zone, region, instanceName), w') ->
  instanceName = md_InstanceName (w_metadata w).
Proof.
  unfold Driver.getInstanceInfo. intros H.
  apply bind_Ok in H as ([] & w1 & H1 & H).
  pose proof (quietly_run _ _ _ _
                (quietly_map_err _ _ (quietly_remote (EvCall "compute.New") I)) H1) as Q1.
  apply bind_Ok in H as (p & w2 & H2 & H).
  pose proof (quietly_run _ _ _ _ (quietly_map_err _ _ (quietly_metadata_get _ _)) H2) as Q2.
  apply bind_Ok in H as (z & w3 & H3 & H).
  pose proof (quietly_run _ _ _ _ (quietly_map_err _ _ (quietly_metadata_get _ _)) H3) as Q3.
  apply bind_Ok in H as (r & w4 & H4 & H).
  pose proof (quietly_run _ _ _ _ (quietly_region_of_zone _) H4) as Q4.
  apply bind_Ok in H as (i & w5 & H5 & H).
  apply map_err_Ok, metadata_get_Ok in H5.
  injection H as _ _ _ <- _. subst i.
  destruct Q1 as (_ & _ & E1 & _), Q2 as (_ & _ & E2 & _), Q3 as (_ & _ & E3 & _),
    Q4 as (_ & _ & E4 & _). congruence.
Qed.

Lemma Pods_Get_Ok ns name w p w' :
  Driver.Pods_Get ns name w = (Ok p, w') -> w_pods w !! (ns, name) = Some p.
Proof.
  unfold Driver.Pods_Get. intros H. apply bind_Ok in H as ([] & w1 & H1 & H2).
  pose proof (quietly_run _ _ _ _ (quietly_remote (EvPodGet ns name) I) H1)
    as (_ & E & _).
  rewrite <- E. destruct (w_pods w1 !! (ns, name)); congruence.
Qed.

(** What the first part of an ADD has read when it goes through. *)
Lemma add_preamble_Ok parseConfig args w ctx w1 :
  Driver.add_preamble parseConfig args w = (Ok ctx, w1) ->
  w_pods w !! (get_or_empty (parse_cni_args (Driver.Args args)) "K8S_POD_NAMESPACE",
               get_or_empty (parse_cni_args (Driver.Args args)) "K8S_POD_NAME")
  = Some (Driver.ctx_pod ctx)
  /\ Driver.ctx_instanceName ctx = md_InstanceName (w_metadata w).
Proof.
  unfold Driver.add_preamble. intros H.
  apply bind_Ok in H as (conf & wa & Ha & H).
  pose proof (quietly_run _ _ _ _ (quietly_parse_config _ _) Ha) as Qa.
  apply bind_Ok in H as ([] & wb & Hb & H).
  pose proof (quietly_run _ _ _ _
                (quietly_map_err _ _ (quietly_remote (EvCall "buildKubeClient") I)) Hb) as Qb.
  apply bind_Ok in H as (p & wc & Hc & H).
  pose proof (quietly_run _ _ _ _ (quietly_map_err _ _ (quietly_Pods_Get _ _)) Hc) as Qc.
  apply map_err_Ok, Pods_Get_Ok in Hc.
  apply bind_Ok in H as ([] & wd & Hd & H).
  pose proof (quietly_run _ _ _ _
                (quietly_map_err _ _ (quietly_remote (EvCall "google.DefaultClient") I)) Hd)
    as Qd.
  apply bind_Ok in H as ([[[projectID zone] region] instanceName] & we & He & H).
  apply getInstanceInfo_Ok in He.
  apply bind_Ok in H as (instance & wf & Hf & H).
  apply bind_Ok in H as (nic & wg & Hg & H).
  apply bind_Ok in H as (subnet & wh & Hh & H).
  apply bind_Ok in H as ([] & wi & Hi & H).
  injection H as <- _. cbn [Driver.ctx_pod Driver.ctx_instanceName].
  destruct Qa as (_ & Pa & Ma & _), Qb as (_ & Pb & Mb & _), Qc as (_ & Pc & Mc & _),
    Qd as (_ & Pd & Md & _).
  split; [|subst instanceName]; congruence.
Qed.

(** The /32 of [ip] is an alias of the primary interface of [inst]. *)
Definition attached (c : gmap string Instance) (inst ip : string) : Prop :=
  exists i nic,
    c !! inst = Some i
    /\ head (inst_NetworkInterfaces i) = Some nic
    /\ In (Driver.slash32 ip) (map IpCidrRange (nic_AliasIpRanges nic)).

Lemma attached_agree c c' inst ip :
  c !! inst = c' !! inst -> attached c inst ip -> attached c' inst ip.
Proof. intros E (i & nic & H1 & H2 & H3). exists i, nic. rewrite <- E. auto. Qed.

(** The states the cloud's instances are or have been in. *)
Definition states (w : World) : list (gmap string Instance) :=
  w_instances w :: w_history w.

(** A stretch of the run in which the cloud changes at most the instance
    [t]: cluster state is as before, and every state of the instances is
    either an earlier one or differs from the first one only at [t]. *)
Definition evolves (t : string) (w w' : World) : Prop :=
  w_pools w' = w_pools w /\ w_pods w' = w_pods w /\ w_metadata w' = w_metadata w
  /\ (forall k, k <> t -> w_instances w' !! k = w_instances w !! k)
  /\ (forall c, In c (states w') ->
                In c (states w) \/ forall k, k <> t -> c !! k = w_instances w !! k).

Lemma evolves_refl t w : evolves t w w.
Proof. repeat split; auto. Qed.

Lemma evolves_trans t w1 w2 w3 : evolves t w1 w2 -> evolves t w2 w3 -> evolves t w1 w3.
Proof.
  intros (A1 & A2 & A3 & A4 & A5) (B1 & B2 & B3 & B4 & B5).
  repeat split; try congruence.
  - intros k Hk. rewrite B4, A4 by assumption. reflexivity.
  - intros c Hc. destruct (B5 c Hc) as [H|H]; [apply A5, H|].
    right. intros k Hk. rewrite H, A4 by assumption. reflexivity.
Qed.

Lemma quiet_evolves t w w' : quiet_step w w' -> evolves t w w'.
Proof.
  intros (A1 & A2 & A3 & A4 & A5 & A6 & _). repeat split; try assumption.
  - intros k _. rewrite A4. reflexivity.
  - intros c Hc. left. unfold states in *. rewrite A4, A6 in Hc. exact Hc.
Qed.

(** Calls other than pool writes and interface updates. *)
Definition calm (ev : Event) : Prop :=
  match ev with
  | EvPoolUpdate _ | EvPoolCreate _ | EvUpdateNetworkInterface _ _ => False
  | _ => True
  end.

Lemma quiet_calm ev : quiet ev -> calm ev.
Proof. destruct ev; cbn; auto. Qed.

(** What the cloud knows of the operation [op]: its target and its alias
    list do not change; once carried out, it stays so. *)
Definition op_known (w : World) (op t iface : string) (aliases : list AliasIpRange)
           (applied : bool) : Prop :=
  w_operations w !! op = Some (mkOperation t iface aliases applied).

(** The operation [op] on [t] installs a list without the /32 of [ip]:
    either it has been carried out and the /32 is off [t], or it has not
    and the interface it names is the primary one of [t]. *)
Definition detaching (w : World) (op t ip : string) : Prop :=
  exists iface aliases applied,
    op_known w op t iface aliases applied
    /\ ~ In (Driver.slash32 ip) (map IpCidrRange aliases)
    /\ if applied then ~ attached (w_instances w) t ip
       else exists i nic rest,
              w_instances w !! t = Some i
              /\ inst_NetworkInterfaces i = nic :: rest
              /\ nic_Name nic = iface.

Lemma install_detaches iface aliases i nic rest ip c t :
  inst_NetworkInterfaces i = nic :: rest ->
  nic_Name nic = iface ->
  ~ In (Driver.slash32 ip) (map IpCidrRange aliases) ->
  ~ attached (<[t := install_aliases iface aliases i]> c) t ip.
Proof.
  intros Hn Hname Hnot (i' & nic' & H1 & H2 & H3).
  rewrite lookup_insert_eq in H1. injection H1 as <-.
  unfold install_aliases in H2. cbn [inst_NetworkInterfaces] in H2.
  rewrite Hn in H2. cbn [map head] in H2. rewrite Hname in H2.
  rewrite String.eqb_refl in H2. injection H2 as <-. cbn in H3. contradiction.
Qed.

(** The cloud carrying out [op]. *)
Lemma carry_out_spec op t iface aliases applied w :
  op_known w op t iface aliases applied ->
  let w' := carry_out op (mkOperation t iface aliases applied) w in
  evolves t w w'
  /\ w_trace w' = w_trace w
  /\ op_known w' op t iface aliases true
  /\ forall ip, detaching w op t ip -> ~ attached (w_instances w') t ip.
Proof.
  intros Hop. unfold carry_out. cbn [op_Applied op_Instance op_Interface op_AliasIpRanges].
  destruct applied.
  - cbn zeta. split; [apply evolves_refl|]. split; [reflexivity|]. split; [exact Hop|].
    intros ip (iface' & aliases' & applied' & Hk & _ & Hd).
    unfold op_known in *. rewrite Hop in Hk. injection Hk as <- <- <-. exact Hd.
  - cbn [w_instances set_operations].
    destruct (w_instances w !! t) as [i|] eqn:Ei; cbn zeta.
    + split; [|split; [reflexivity|split]].
      * repeat split; cbn [w_pools w_pods w_metadata w_instances set_instances set_operations].
        -- intros k Hk. apply lookup_insert_ne. congruence.
        -- intros c Hc. cbn [states w_instances w_history set_instances set_operations] in Hc.
           destruct Hc as [<-|Hc].
           ++ right. intros k Hk. apply lookup_insert_ne. congruence.
           ++ left. exact Hc.
      * unfold op_known. cbn. apply lookup_insert_eq.
      * intros ip (iface' & aliases' & applied' & Hk & Hnot & Hd).
        unfold op_known in *. rewrite Hop in Hk. injection Hk as <- <- <-.
        destruct Hd as (i' & nic & rest & Ei' & Hn & Hname).
        rewrite Ei in Ei'. injection Ei' as <-.
        cbn [w_instances set_instances]. eapply install_detaches; eassumption.
    + split; [|split; [reflexivity|split]].
      * repeat split; cbn; auto.
      * unfold op_known. cbn. apply lookup_insert_eq.
      * intros ip (iface' & aliases' & applied' & Hk & Hnot & Hd).
        unfold op_known in *. rewrite Hop in Hk. injection Hk as <- <- <-.
        destruct Hd as (i' & nic & rest & Ei' & _). cbn in Ei'. congruence.
Qed.

Lemma detaching_ext w w' op t ip :
  w_operations w' = w_operations w -> w_instances w' = w_instances w ->
  detaching w op t ip -> detaching w' op t ip.
Proof.
  intros Eo Ei (iface & aliases & applied & Hk & Hnot & Hd).
  exists iface, aliases, applied. unfold op_known. rewrite Eo, Ei. auto.
Qed.

Lemma detaching_applied w op t iface aliases ip :
  op_known w op t iface aliases true ->
  detaching w op t ip -> ~ attached (w_instances w) t ip.
Proof.
  intros Hop (iface' & aliases' & applied' & Hk & _ & Hd).
  unfold op_known in *. rewrite Hop in Hk. injection Hk as <- <- <-. exact Hd.
Qed.

(** The events of a wait on [op]. *)
Definition wait_event (op : string) (ev : Event) : Prop :=
  ev = EvOperationGet op \/ ev = EvOperationDone op \/ exists ms, ev = EvSleep ms.

Lemma wait_event_calm op ev : wait_event op ev -> calm ev.
Proof. intros [->|[->|[ms ->]]]; exact I. Qed.

(** One poll of [op]. *)
Lemma poll_spec op t iface aliases applied w o w' :
  op_known w op t iface aliases applied ->
  ZoneOperations_Get op w = (o, w') ->
  evolves t w w'
  /\ (exists applied', op_known w' op t iface aliases applied')
  /\ (forall ip, detaching w op t ip -> detaching w' op t ip)
  /\ match o with
     | Ok st =>
         if String.eqb (os_Status st) "DONE" then
           match os_Error st with
           | None =>
               w_trace w' = w_trace w ++ [EvOperationGet op; EvOperationDone op]
               /\ forall ip, detaching w op t ip -> ~ attached (w_instances w') t ip
           | Some _ => w_trace w' = w_trace w ++ [EvOperationGet op]
           end
         else w_trace w' = w_trace w ++ [EvOperationGet op]
     | Err _ => w_trace w' = w_trace w ++ [EvOperationGet op]
     | Panic _ => False
     | OutOfFuel => False
     end.
Proof.
  intros Hop. unfold ZoneOperations_Get, bind.
  destruct (remote_run (EvOperationGet op) w) as (o1 & -> & Ho1).
  set (w1 := set_faults (tail (w_faults w)) (log (EvOperationGet op) w)).
  assert (Q1 : quiet_step w w1) by (apply quiet_step_log; exact I).
  assert (Hop1 : op_known w1 op t iface aliases applied) by exact Hop.
  destruct Ho1 as [-> | [e ->]].
  2:{ intros [= <- <-]. split; [apply quiet_evolves, Q1|]. split; [eauto|].
      split; [|reflexivity]. intros ip. apply detaching_ext; reflexivity. }
  unfold op_known in Hop1. rewrite Hop1.
  set (w2 := set_polls (tail (w_polls w1)) w1).
  assert (Q2 : quiet_step w w2)
    by (eapply quiet_step_trans; [exact Q1|]; repeat split; exists []; split;
        [symmetry; apply app_nil_r | apply Forall_nil_2]).
  assert (Hop2 : op_known w2 op t iface aliases applied) by exact Hop1.
  assert (Hd2 : forall ip, detaching w op t ip -> detaching w2 op t ip)
    by (intros ip; apply detaching_ext; reflexivity).
  pose proof (carry_out_spec op t iface aliases applied w2 Hop2) as (Hev & Htr & Hk & Hdet).
  assert (Hev' : evolves t w (carry_out op (mkOperation t iface aliases applied) w2))
    by (eapply evolves_trans; [apply quiet_evolves, Q2 | exact Hev]).
  assert (Hd3 : forall ip, detaching w op t ip ->
                           detaching (carry_out op (mkOperation t iface aliases applied) w2) op t ip).
  { intros ip Hd. pose proof (Hdet ip (Hd2 ip Hd)) as Hn.
    destruct Hd as (iface' & aliases' & applied' & Hk' & Hnot & _).
    unfold op_known in Hk'. rewrite Hop in Hk'. injection Hk' as <- <- <-.
    exists iface, aliases, true. auto. }
  destruct (match w_polls w1 with r :: _ => r | [] => PollDone None end)
    as [progress|[errs|]] eqn:Er.
  - intros [= <- <-]. cbn [os_Status String.eqb Ascii.eqb Bool.eqb].
    destruct progress.
    + split; [exact Hev'|]. split; [eauto|]. split; [exact Hd3|]. rewrite Htr. reflexivity.
    + split; [apply quiet_evolves, Q2|]. split; [eauto|]. split; [exact Hd2|]. reflexivity.
  - intros [= <- <-]. cbn [os_Status os_Error String.eqb Ascii.eqb Bool.eqb].
    split; [apply quiet_evolves, Q2|]. split; [eauto|]. split; [exact Hd2|]. reflexivity.
  - intros [= <- <-]. cbn [os_Status os_Error String.eqb Ascii.eqb Bool.eqb].
    split.
    { destruct Hev' as (A1 & A2 & A3 & A4 & A5). repeat split; assumption. }
    split; [eexists; exact Hk|]. split.
    + intros ip Hd. eapply detaching_ext; [| |apply Hd3, Hd]; reflexivity.
    + split.
      * cbn [w_trace log]. rewrite Htr. cbn. rewrite <- app_assoc. reflexivity.
      * intros ip Hd. apply (Hdet ip (Hd2 ip Hd)).
Qed.

(** The wait on [op], poll after poll. *)
Lemma wait_spec op t iface aliases fuel : forall applied w o w',
  op_known w op t iface aliases applied ->
  Driver.waitForInstanceOperation fuel op w = (o, w') ->
  evolves t w w'
  /\ exists tr,
       w_trace w' = w_trace w ++ tr
       /\ Forall (wait_event op) tr
       /\ match o with
          | Ok _ =>
              (exists t2, tr = t2 ++ [EvOperationDone op])
              /\ forall ip, detaching w op t ip -> ~ attached (w_instances w') t ip
          | Panic _ => False
          | _ => True
          end.
Proof.
  induction fuel as [|fuel IH]; intros applied w o w' Hop; cbn [Driver.waitForInstanceOperation].
  - intros [= <- <-]. split; [apply evolves_refl|]. exists [].
    split; [symmetry; apply app_nil_r|]. split; [apply Forall_nil_2 | exact I].
  - unfold bind at 1.
    destruct (ZoneOperations_Get op w) as [o1 w1] eqn:Ep.
    pose proof (poll_spec _ _ _ _ _ _ _ _ Hop Ep) as (Hev & (applied1 & Hop1) & Hd & Ho).
    destruct o1 as [st|e|msg|]; try contradiction.
    + destruct (String.eqb (os_Status st) "DONE").
      * destruct (os_Error st) as [errs|].
        -- unfold fail. intros [= <- <-]. split; [exact Hev|].
           exists [EvOperationGet op]. split; [exact Ho|].
           split; [|exact I]. apply Forall_cons_2; [left; reflexivity | apply Forall_nil_2].
        -- unfold ret. intros [= <- <-]. destruct Ho as [Ht Hdet]. split; [exact Hev|].
           exists [EvOperationGet op; EvOperationDone op]. split; [exact Ht|].
           split.
           ++ apply Forall_cons_2; [left; reflexivity|].
              apply Forall_cons_2; [right; left; reflexivity | apply Forall_nil_2].
           ++ split; [exists [EvOperationGet op]; reflexivity | exact Hdet].
      * unfold bind at 1. unfold Sleep at 1.
        set (w2 := set_now (w_now w1 + 100) (log (EvSleep 100) w1)).
        assert (Hop2 : op_known w2 op t iface aliases applied1) by exact Hop1.
        intros Hw. destruct (IH _ _ _ _ Hop2 Hw) as (Hev2 & tr & Ht & Hf & Hres).
        assert (Q : quiet_step w1 w2)
          by (repeat split; exists [EvSleep 100]; split;
              [reflexivity | apply Forall_cons_2; [exact I | apply Forall_nil_2]]).
        split.
        { eapply evolves_trans; [exact Hev|].
          eapply evolves_trans; [apply quiet_evolves, Q | exact Hev2]. }
        exists (EvOperationGet op :: EvSleep 100 :: tr).
        split.
        { rewrite Ht. cbn [w2 w_trace set_now log]. rewrite Ho.
          rewrite <- !app_assoc. reflexivity. }
        split.
        { apply Forall_cons_2; [left; reflexivity|].
          apply Forall_cons_2; [right; right; eauto | exact Hf]. }
        destruct o as [u|e|msg|]; try exact Hres.
        destruct Hres as [(t2 & ->) Hdet]. split.
        -- exists (EvOperationGet op :: EvSleep 100 :: t2). reflexivity.
        -- intros ip Hdw. apply Hdet.
           eapply detaching_ext; [| |apply Hd, Hdw]; reflexivity.
    + intros [= <- <-]. split; [exact Hev|].
      exists [EvOperationGet op]. split; [exact Ho|].
      split; [|exact I]. apply Forall_cons_2; [left; reflexivity | apply Forall_nil_2].
Qed.

Lemma Instances_Get_run name w o w' :
  Instances_Get name w = (o, w') ->
  quiet_step w w' /\ forall i, o = Ok i -> w_instances w !! name = Some i.
Proof.
  intros H. split; [eapply quietly_run; [apply quietly_Instances_Get | exact H]|].
  unfold Instances_Get, bind in H.
  destruct (remote_run (EvInstanceGet name) w) as (o1 & E & Ho1). rewrite E in H.
  destruct Ho1 as [-> | [e ->]]; [|intros i ->; discriminate].
  cbn [w_instances set_faults log] in H.
  destruct (w_instances w !! name) as [i0|]; intros i ->; congruence.
Qed.

(** The request to rewrite an interface: it changes no instance; when the
    cloud accepts it, the operation is on record, not yet carried out. *)
Lemma update_spec inst nicName fp al w o w' :
  Instances_UpdateNetworkInterface inst nicName fp al w = (o, w') ->
  w_pools w' = w_pools w /\ w_pods w' = w_pods w /\ w_metadata w' = w_metadata w
  /\ w_instances w' = w_instances w /\ w_history w' = w_history w
  /\ match o with
     | Ok op =>
         w_trace w' = w_trace w ++ [EvUpdateNetworkInterface inst al; EvOperationStarted op inst]
         /\ op_known w' op inst nicName al false
     | Err _ => w_trace w' = w_trace w ++ [EvUpdateNetworkInterface inst al]
     | Panic _ => False
     | OutOfFuel => False
     end.
Proof.
  unfold Instances_UpdateNetworkInterface, bind.
  destruct (remote_run (EvUpdateNetworkInterface inst al) w) as (o1 & -> & Ho1).
  destruct Ho1 as [-> | [e ->]]; [|intros [= <- <-]; repeat split].
  cbn [w_instances set_faults log w_operations].
  destruct (w_instances w !! inst) as [i|]; [|intros [= <- <-]; repeat split].
  destruct (fingerprint_of nicName i) as [fp'|]; [|intros [= <- <-]; repeat split].
  destruct (fp' =? fp); intros [= <- <-]; repeat split.
  - cbn. rewrite <- app_assoc. reflexivity.
  - unfold op_known. cbn. apply lookup_insert_eq.
Qed.

Lemma without_alias_spec ip aliases :
  ~ In (Driver.slash32 ip) (map IpCidrRange (Driver.without_alias ip aliases)).
Proof.
  unfold Driver.without_alias. intros H. apply in_map_iff in H as (a & Ea & Ha).
  apply filter_In in Ha as [_ Hb]. rewrite Ea, String.eqb_refl in Hb. discriminate.
Qed.

(** The traces of a migration ADD, by how far it got: nothing but calm
    calls; or the request to the source and calm calls; or the request to
    the source, its operation started and seen done, and only then the
    request to the destination. *)
Definition detach_requested (src : string) (tr : list Event) : Prop :=
  exists t1 removed t2,
    tr = t1 ++ EvUpdateNetworkInterface src removed :: t2
    /\ Forall calm t1 /\ Forall calm t2.

Definition detach_done (src ip : string) (tr : list Event) : Prop :=
  exists t1 removed op t2 t3,
    tr = t1 ++ EvUpdateNetworkInterface src removed :: EvOperationStarted op src
            :: t2 ++ EvOperationDone op :: t3
    /\ Forall calm t1 /\ Forall calm t2 /\ Forall calm t3
    /\ ~ In (Driver.slash32 ip) (map IpCidrRange removed).

Definition attach_after_detach (src dst ip : string) (tr : list Event) : Prop :=
  exists tb al t4,
    tr = tb ++ EvUpdateNetworkInterface dst al :: t4
    /\ detach_done src ip tb /\ Forall calm t4.

(** The source-side detach of a migration ADD. *)
Lemma add_source_detach_spec fuel ctx origInst reqIP w o w' :
  pod_Annotations (Driver.ctx_pod ctx) !! Driver.OriginalInstanceAnnotation = Some origInst ->
  pod_Annotations (Driver.ctx_pod ctx) !! Driver.LiveIPAnnotation = Some reqIP ->
  Driver.add_source_detach fuel ctx w = (o, w') ->
  evolves origInst w w'
  /\ exists tr,
       w_trace w' = w_trace w ++ tr
       /\ match o with
          | Ok _ => detach_done origInst reqIP tr
                    /\ ~ attached (w_instances w') origInst reqIP
          | Panic _ => Forall calm tr
          | _ => Forall calm tr \/ detach_requested origInst tr
          end.
Proof.
  intros Horig Hip. unfold Driver.add_source_detach. rewrite Horig.
  unfold get_or_empty. rewrite Hip.
  unfold bind at 1. unfold map_err at 1.
  destruct (Instances_Get origInst w) as [o1 w1] eqn:E1.
  destruct (Instances_Get_run _ _ _ _ E1) as [Q1 Hi].
  pose proof Q1 as (_ & _ & _ & EI1 & _ & _ & tr1 & Et1 & Hq1).
  assert (Hc1 : Forall calm tr1) by (eapply Forall_impl; [exact Hq1 | apply quiet_calm]).
  destruct o1 as [origInstance|e|msg|];
    try (intros [= <- <-]; split; [apply quiet_evolves, Q1|]; exists tr1;
         split; [exact Et1 | auto]).
  specialize (Hi _ eq_refl).
  unfold bind at 1.
  destruct (inst_NetworkInterfaces origInstance) as [|nic rest] eqn:En; cbn [index0].
  { unfold panic. intros [= <- <-]. split; [apply quiet_evolves, Q1|]. exists tr1. auto. }
  unfold ret at 1. unfold bind at 1. unfold map_err at 1.
  set (removed := Driver.without_alias reqIP (nic_AliasIpRanges nic)).
  destruct (Instances_UpdateNetworkInterface origInst (nic_Name nic) (nic_Fingerprint nic)
              removed w1) as [o2 w2] eqn:E2.
  pose proof (update_spec _ _ _ _ _ _ _ E2) as (U1 & U2 & U3 & U4 & U5 & Uo).
  assert (Ev2 : evolves origInst w w2).
  { eapply evolves_trans; [apply quiet_evolves, Q1|].
    repeat split; try assumption.
    - intros k _. rewrite U4. reflexivity.
    - intros c Hc. left. unfold states in *. rewrite U4, U5 in Hc. exact Hc. }
  destruct o2 as [op|e|msg|]; try contradiction.
  2:{ intros [= <- <-]. split; [exact Ev2|].
      exists (tr1 ++ [EvUpdateNetworkInterface origInst removed]).
      split; [rewrite Uo, Et1, app_assoc; reflexivity|].
      right. exists tr1, removed, []. auto using Forall_nil_2. }
  destruct Uo as [Ut Hop]. unfold map_err.
  destruct (Driver.waitForInstanceOperation fuel op w2) as [o3 w3] eqn:E3.
  pose proof (wait_spec _ _ _ _ _ _ _ _ _ Hop E3) as (Ev3 & tr3 & Et3 & Hw3 & Ho3).
  assert (Hc3 : Forall calm tr3) by (eapply Forall_impl; [exact Hw3 | apply wait_event_calm]).
  assert (Hdet : detaching w2 op origInst reqIP).
  { exists (nic_Name nic), removed, false. split; [exact Hop|].
    split; [apply without_alias_spec|].
    exists origInstance, nic, rest. rewrite U4, EI1. auto. }
  assert (Etr : w_trace w3
                = w_trace w ++ tr1 ++ EvUpdateNetworkInterface origInst removed
                    :: EvOperationStarted op origInst :: tr3).
  { rewrite Et3, Ut, Et1. rewrite <- !app_assoc. reflexivity. }
  assert (Hreq : detach_requested origInst
                   (tr1 ++ EvUpdateNetworkInterface origInst removed
                        :: EvOperationStarted op origInst :: tr3)).
  { exists tr1, removed, (EvOperationStarted op origInst :: tr3).
    split; [reflexivity|]. split; [exact Hc1|]. apply Forall_cons_2; [exact I | exact Hc3]. }
  destruct o3 as [u|e|msg|]; try contradiction;
    intros [= <- <-]; (split; [eapply evolves_trans; eassumption|]);
    eexists; (split; [exact Etr|]); auto.
  destruct Ho3 as [(t2 & ->) Hoff]. split; [|apply Hoff, Hdet].
  exists tr1, removed, op, t2, []. split; [reflexivity|].
  split; [exact Hc1|]. split; [|split; [apply Forall_nil_2 | apply without_alias_spec]].
  apply Forall_app in Hc3. apply Hc3.
Qed.

(** The destination-side attach: its first call is the request, and only
    the destination instance can change. *)
Lemma add_destination_attach_spec fuel ctx newAddress allocationResult w o w' :
  Driver.add_destination_attach fuel ctx newAddress allocationResult w = (o, w') ->
  evolves (Driver.ctx_instanceName ctx) w w'
  /\ exists al t4,
       w_trace w' = w_trace w ++ EvUpdateNetworkInterface (Driver.ctx_instanceName ctx) al :: t4
       /\ Forall calm t4.
Proof.
  unfold Driver.add_destination_attach. unfold bind, map_err.
  match goal with |- context [Instances_UpdateNetworkInterface ?i ?n ?f ?a w] =>
    destruct (Instances_UpdateNetworkInterface i n f a w) as [o2 w2] eqn:E2;
    set (al := a) in * end.
  pose proof (update_spec _ _ _ _ _ _ _ E2) as (U1 & U2 & U3 & U4 & U5 & Uo).
  assert (Ev2 : evolves (Driver.ctx_instanceName ctx) w w2).
  { repeat split; try assumption.
    - intros k _. rewrite U4. reflexivity.
    - intros c Hc. left. unfold states in *. rewrite U4, U5 in Hc. exact Hc. }
  destruct o2 as [op|e|msg|]; try contradiction.
  2:{ intros [= <- <-]. split; [exact Ev2|]. exists al, []. split; [exact Uo | apply Forall_nil_2]. }
  destruct Uo as [Ut Hop].
  destruct (Driver.waitForInstanceOperation fuel op w2) as [o3 w3] eqn:E3.
  pose proof (wait_spec _ _ _ _ _ _ _ _ _ Hop E3) as (Ev3 & tr3 & Et3 & Hw3 & Ho3).
  assert (Hc3 : Forall calm tr3) by (eapply Forall_impl; [exact Hw3 | apply wait_event_calm]).
  assert (Hres : evolves (Driver.ctx_instanceName ctx) w w3
                 /\ exists al0 t4,
                      w_trace w3
                      = w_trace w ++ EvUpdateNetworkInterface (Driver.ctx_instanceName ctx) al0 :: t4
                      /\ Forall calm t4).
  { split; [eapply evolves_trans; eassumption|].
    exists al, (EvOperationStarted op (Driver.ctx_instanceName ctx) :: tr3).
    split; [rewrite Et3, Ut, <- app_assoc; reflexivity|].
    apply Forall_cons_2; [exact I | exact Hc3]. }
  destruct o3 as [u|e|msg|]; intros [= <- <-]; exact Hres.
Qed.

Definition pool_write (ev : Event) : Prop :=
  match ev with
  | EvPoolUpdate _ | EvPoolCreate _ => True
  | _ => False
  end.

(** What a migration ADD from [src] to [dst] for the address [ip], run
    from [w0], has done by [w]: the pool store is as it was and no pool
    write was sent; the request to [dst], if it was sent at all, was sent
    after the request to [src], whose alias list is without the /32, had
    its operation started and seen done; and in no state the cloud's
    instances went through since [w0] the /32 was on both instances. *)
Definition migration_safe (src dst ip : string) (w0 w : World) : Prop :=
  w_pools w = w_pools w0
  /\ (exists tr,
        w_trace w = w_trace w0 ++ tr
        /\ Forall (fun ev => ~ pool_write ev) tr
        /\ (Forall calm tr \/ detach_requested src tr \/ attach_after_detach src dst ip tr))
  /\ (forall c, In c (states w) ->
                In c (w_history w0) \/ ~ (attached c src ip /\ attached c dst ip)).

Lemma calm_not_pool_write tr : Forall calm tr -> Forall (fun ev => ~ pool_write ev) tr.
Proof. intros H. eapply Forall_impl; [exact H|]. intros ev. destruct ev; cbn; tauto. Qed.

Lemma update_not_pool_write inst al : ~ pool_write (EvUpdateNetworkInterface inst al).
Proof. cbn. tauto. Qed.

Lemma detach_requested_writes src tr :
  detach_requested src tr -> Forall (fun ev => ~ pool_write ev) tr.
Proof.
  intros (t1 & removed & t2 & -> & H1 & H2).
  apply Forall_app. split; [apply calm_not_pool_write, H1|].
  apply Forall_cons_2; [apply update_not_pool_write | apply calm_not_pool_write, H2].
Qed.

Lemma detach_done_writes src ip tr :
  detach_done src ip tr -> Forall (fun ev => ~ pool_write ev) tr.
Proof.
  intros (t1 & removed & op & t2 & t3 & -> & H1 & H2 & H3 & _).
  apply Forall_app. split; [apply calm_not_pool_write, H1|].
  apply Forall_cons_2; [apply update_not_pool_write|].
  apply Forall_cons_2; [cbn; tauto|].
  apply Forall_app. split; [apply calm_not_pool_write, H2|].
  apply Forall_cons_2; [cbn; tauto | apply calm_not_pool_write, H3].
Qed.

Lemma detach_requested_prefix src tq tr :
  Forall calm tq -> detach_requested src tr -> detach_requested src (tq ++ tr).
Proof.
  intros Hq (t1 & removed & t2 & -> & H1 & H2).
  exists (tq ++ t1), removed, t2. split; [rewrite app_assoc; reflexivity|].
  split; [apply Forall_app; auto | assumption].
Qed.

Lemma detach_done_prefix src ip tq tr :
  Forall calm tq -> detach_done src ip tr -> detach_done src ip (tq ++ tr).
Proof.
  intros Hq (t1 & removed & op & t2 & t3 & -> & H1 & H2 & H3 & Hn).
  exists (tq ++ t1), removed, op, t2, t3. split; [rewrite app_assoc; reflexivity|].
  split; [apply Forall_app; auto | auto].
Qed.

Lemma migration_safe_quiet src dst ip w0 w w' :
  migration_safe src dst ip w0 w -> quiet_step w w' -> migration_safe src dst ip w0 w'.
Proof.
  intros (Hp & (tr & Ht & Hw & Hs) & Hst) (Q1 & _ & _ & Q4 & _ & Q6 & tq & Qt & Qq).
  assert (Hcq : Forall calm tq) by (eapply Forall_impl; [exact Qq | apply quiet_calm]).
  split; [congruence|]. split.
  - exists (tr ++ tq). split; [rewrite Qt, Ht, app_assoc; reflexivity|].
    split; [apply Forall_app; split; [exact Hw | apply calm_not_pool_write, Hcq]|].
    destruct Hs as [Hs|[Hs|Hs]].
    + left. apply Forall_app. auto.
    + right. left. destruct Hs as (t1 & removed & t2 & -> & H1 & H2).
      exists t1, removed, (t2 ++ tq). split; [rewrite <- app_assoc; reflexivity|].
      split; [assumption | apply Forall_app; auto].
    + right. right. destruct Hs as (tb & al & t4 & -> & Hb & H4).
      exists tb, al, (t4 ++ tq). split; [rewrite <- app_assoc; reflexivity|].
      split; [assumption | apply Forall_app; auto].
  - intros c Hc. apply Hst. unfold states in *. rewrite Q4, Q6 in Hc. exact Hc.
Qed.

Section MigrationAdd.

Variables (src dst ip : string) (w0 : World).
Hypothesis Hne : src <> dst.
Hypothesis Hfree : ~ attached (w_instances w0) dst ip.

(** While only the source instance changes, the destination is as it was:
    without the /32. *)
Lemma safe_states_src w :
  evolves src w0 w ->
  forall c, In c (states w) ->
            In c (w_history w0) \/ ~ (attached c src ip /\ attached c dst ip).
Proof.
  intros (_ & _ & _ & _ & Hst) c Hc.
  destruct (Hst c Hc) as [[<-|H]|H].
  - right. intros [_ Hd]. contradiction.
  - left. exact H.
  - right. intros [_ Hd]. apply Hfree.
    eapply attached_agree; [|exact Hd]. apply H. congruence.
Qed.

(** Once the /32 is off the source, changes of the destination keep it
    off the source. *)
Lemma safe_states_dst w3 w4 :
  (forall c, In c (states w3) ->
             In c (w_history w0) \/ ~ (attached c src ip /\ attached c dst ip)) ->
  ~ attached (w_instances w3) src ip ->
  evolves dst w3 w4 ->
  forall c, In c (states w4) ->
            In c (w_history w0) \/ ~ (attached c src ip /\ attached c dst ip).
Proof.
  intros H3 Hoff (_ & _ & _ & _ & Hst) c Hc.
  destruct (Hst c Hc) as [H|H]; [apply H3, H|].
  right. intros [Hs _]. apply Hoff.
  eapply attached_agree; [|exact Hs]. apply H. exact Hne.
Qed.

Lemma migration_safe_init : migration_safe src dst ip w0 w0.
Proof.
  split; [reflexivity|]. split.
  - exists []. split; [symmetry; apply app_nil_r|].
    split; [apply Forall_nil_2 | left; apply Forall_nil_2].
  - apply safe_states_src, evolves_refl.
Qed.

End MigrationAdd.

Lemma quietly_add_allocation_migration ctx reqIP :
  pod_Annotations (Driver.ctx_pod ctx) !! Driver.LiveIPAnnotation = Some reqIP ->
  quietly (Driver.add_allocation ctx).
Proof.
  intros H. unfold Driver.add_allocation. rewrite H.
  apply quietly_bind; [apply quietly_map_err, quietly_GetAllocation|].
  intros ar. apply quietly_ret.
Qed.

Lemma quietly_add_result ctx newAddress ar : quietly (Driver.add_result ctx newAddress ar).
Proof.
  unfold Driver.add_result.
  destruct (Net.ParseCIDR (sub_IpCidrRange (Driver.ctx_subnet ctx))) as [[ip0 ipNet]|];
    [|apply quietly_fail].
  destruct (_ !! 15%nat); [|apply quietly_panic].
  apply quietly_bind; [apply quietly_remote; exact I|]. intros _. apply quietly_ret.
Qed.

(** The body of [cmdAdd] on the migration path. *)
Lemma add_body_safe parseConfig fuel args w pod reqIP origInst o wb :
  w_pods w !! (get_or_empty (parse_cni_args (Driver.Args args)) "K8S_POD_NAMESPACE",
               get_or_empty (parse_cni_args (Driver.Args args)) "K8S_POD_NAME") = Some pod ->
  pod_Annotations pod !! Driver.LiveIPAnnotation = Some reqIP ->
  pod_Annotations pod !! Driver.OriginalInstanceAnnotation = Some origInst ->
  origInst <> md_InstanceName (w_metadata w) ->
  ~ attached (w_instances w) (md_InstanceName (w_metadata w)) reqIP ->
  (ctx <- Driver.add_preamble parseConfig args ;;
   allocation <- Driver.add_allocation ctx ;;
   let '(newAddress, allocationResult) := allocation in
   Driver.add_source_detach fuel ctx ;;;
   Driver.add_destination_attach fuel ctx newAddress allocationResult ;;;
   Driver.add_result ctx newAddress allocationResult) w = (o, wb) ->
  migration_safe origInst (md_InstanceName (w_metadata w)) reqIP w wb.
Proof.
  intros Hpod Hip Horig Hne Hfree. set (self := md_InstanceName (w_metadata w)) in *.
  pose proof (migration_safe_init origInst self reqIP w Hne Hfree) as H0.
  unfold bind at 1.
  destruct (Driver.add_preamble parseConfig args w) as [o1 w1] eqn:E1.
  pose proof (quietly_run _ _ _ _ (quietly_add_preamble parseConfig args) E1) as Q1.
  pose proof (migration_safe_quiet _ _ _ _ _ _ H0 Q1) as H1.
  destruct o1 as [ctx|e|msg|]; try (intros [= <- <-]; exact H1).
  destruct (add_preamble_Ok _ _ _ _ _ E1) as [Hp Hself]. rewrite Hpod in Hp.
  injection Hp as Hp. fold self in Hself.
  assert (Hip' : pod_Annotations (Driver.ctx_pod ctx) !! Driver.LiveIPAnnotation = Some reqIP)
    by (rewrite <- Hp; exact Hip).
  assert (Horig' : pod_Annotations (Driver.ctx_pod ctx) !! Driver.OriginalInstanceAnnotation
                   = Some origInst) by (rewrite <- Hp; exact Horig).
  unfold bind at 1.
  destruct (Driver.add_allocation ctx w1) as [o2 w2] eqn:E2.
  pose proof (quietly_run _ _ _ _ (quietly_add_allocation_migration ctx reqIP Hip') E2) as Q2.
  pose proof (migration_safe_quiet _ _ _ _ _ _ H1 Q2) as H2.
  destruct o2 as [[newAddress allocationResult]|e|msg|]; try (intros [= <- <-]; exact H2).
  assert (Q02 : quiet_step w w2) by (eapply quiet_step_trans; eassumption).
  pose proof Q02 as (P2 & _ & _ & I2 & _ & Hi2 & tq & Tq & Hq).
  assert (Hcq : Forall calm tq) by (eapply Forall_impl; [exact Hq | apply quiet_calm]).
  unfold bind at 1.
  destruct (Driver.add_source_detach fuel ctx w2) as [o3 w3] eqn:E3.
  pose proof (add_source_detach_spec _ _ _ _ _ _ _ Horig' Hip' E3) as (Ev3 & tr3 & T3 & Ho3).
  assert (Ev03 : evolves origInst w w3)
    by (eapply evolves_trans; [apply quiet_evolves, Q02 | exact Ev3]).
  assert (Hst3 : forall c, In c (states w3) ->
                   In c (w_history w) \/ ~ (attached c origInst reqIP /\ attached c self reqIP))
    by (apply safe_states_src; assumption).
  assert (Hp3 : w_pools w3 = w_pools w) by apply Ev03.
  assert (Hfail3 : Forall calm tr3 \/ detach_requested origInst tr3 ->
                   migration_safe origInst self reqIP w w3).
  { intros Hs. split; [exact Hp3|]. split; [|exact Hst3].
    exists (tq ++ tr3). split; [rewrite T3, Tq, app_assoc; reflexivity|].
    destruct Hs as [Hs|Hs].
    - assert (Forall calm (tq ++ tr3)) by (apply Forall_app; auto).
      split; [apply calm_not_pool_write; assumption | left; assumption].
    - assert (detach_requested origInst (tq ++ tr3)) by (apply detach_requested_prefix; auto).
      split; [eapply detach_requested_writes; eassumption | right; left; assumption]. }
  destruct o3 as [u|e|msg|]; try (intros [= <- <-]; apply Hfail3; auto).
  destruct Ho3 as [Hdone Hoff].
  unfold bind at 1.
  destruct (Driver.add_destination_attach fuel ctx newAddress allocationResult w3)
    as [o4 w4] eqn:E4.
  pose proof (add_destination_attach_spec _ _ _ _ _ _ _ E4) as (Ev4 & al & t4 & T4 & Hc4).
  rewrite Hself in Ev4, T4.
  assert (H4 : migration_safe origInst self reqIP w w4).
  { split; [destruct Ev4 as (-> & _); exact Hp3|]. split.
    - exists ((tq ++ tr3) ++ EvUpdateNetworkInterface self al :: t4).
      split; [rewrite T4, T3, Tq, <- !app_assoc; reflexivity|].
      assert (Hd : detach_done origInst reqIP (tq ++ tr3))
        by (apply detach_done_prefix; assumption).
      split.
      + apply Forall_app. split; [eapply detach_done_writes; exact Hd|].
        apply Forall_cons_2; [apply update_not_pool_write | apply calm_not_pool_write, Hc4].
      + right. right. exists (tq ++ tr3), al, t4. auto.
    - eapply safe_states_dst; eassumption. }
  destruct o4 as [u4|e|msg|]; try (intros [= <- <-]; exact H4).
  intros E5.
  eapply migration_safe_quiet; [exact H4|].
  eapply quietly_run; [apply quietly_add_result | exact E5].
Qed.

Lemma migration_safe_prefix src dst ip w wl wb :
  quiet_step w wl -> migration_safe src dst ip wl wb -> migration_safe src dst ip w wb.
Proof.
  intros (Q1 & _ & _ & _ & _ & Q6 & tq & Qt & Qq) (Hp & (tr & Ht & Hw & Hs) & Hst).
  assert (Hcq : Forall calm tq) by (eapply Forall_impl; [exact Qq | apply quiet_calm]).
  split; [congruence|]. split.
  - exists (tq ++ tr). split; [rewrite Ht, Qt, app_assoc; reflexivity|].
    split; [apply Forall_app; split; [apply calm_not_pool_write, Hcq | exact Hw]|].
    destruct Hs as [Hs|[Hs|Hs]].
    + left. apply Forall_app. auto.
    + right. left. apply detach_requested_prefix; assumption.
    + right. right. destruct Hs as (tb & al & t4 & -> & Hb & H4).
      exists (tq ++ tb), al, t4. split; [rewrite app_assoc; reflexivity|].
      split; [apply detach_done_prefix; assumption | assumption].
  - intros c Hc. rewrite <- Q6. apply Hst, Hc.
Qed.

(** C1.  In an ADD whose pod carries the requested-IP and the
    original-instance annotation (of another instance than this one), the
    driver reads the allocation and writes nothing to the pool; the request
    that appends the alias on this instance is sent only after the request
    that removes it on the source instance has had its operation started
    and seen done; and, the /32 not being on this instance when the ADD
    starts, at no moment of the run is it on both instances.  This holds
    however far the run gets and whatever the cluster API and the cloud
    answer. *)
Theorem C1_migration_add_detaches_before_it_attaches :
  forall parseConfig fuel args w pod reqIP origInst,
    w_pods w !! (get_or_empty (parse_cni_args (Driver.Args args)) "K8S_POD_NAMESPACE",
                 get_or_empty (parse_cni_args (Driver.Args args)) "K8S_POD_NAME") = Some pod ->
    pod_Annotations pod !! Driver.LiveIPAnnotation = Some reqIP ->
    pod_Annotations pod !! Driver.OriginalInstanceAnnotation = Some origInst ->
    origInst <> md_InstanceName (w_metadata w) ->
    ~ attached (w_instances w) (md_InstanceName (w_metadata w)) reqIP ->
    migration_safe origInst (md_InstanceName (w_metadata w)) reqIP w
      (snd (Driver.cmdAdd parseConfig fuel args w)).
Proof.
  intros parseConfig fuel args w pod reqIP origInst Hpod Hip Horig Hne Hfree.
  unfold Driver.cmdAdd, Driver.with_lock.
  match goal with |- context [?body (log EvLock w)] =>
    destruct (body (log EvLock w)) as [o wb] eqn:Eb end.
  assert (Ql : quiet_step w (log EvLock w)).
  { repeat split. exists [EvLock]. split; [reflexivity|].
    apply Forall_cons_2; [exact I | apply Forall_nil_2]. }
  pose proof (add_body_safe parseConfig fuel args (log EvLock w) pod reqIP origInst o wb
                Hpod Hip Horig Hne Hfree Eb) as Hb.
  cbn [w_metadata log] in Hb.
  apply (migration_safe_prefix _ _ _ _ _ _ Ql) in Hb.
  assert (Hu : migration_safe origInst (md_InstanceName (w_metadata w)) reqIP w
                 (log EvUnlock wb)).
  { eapply migration_safe_quiet; [exact Hb|].
    repeat split. exists [EvUnlock]. split; [reflexivity|].
    apply Forall_cons_2; [exact I | apply Forall_nil_2]. }
  destruct o; cbn [snd]; assumption.
Qed.

(** *** A migration, run

    The pod [ns/p2] moves from [nodeA] to [nodeB] with its address
    10.111.0.5: the pool holds the allocation, [nodeA] still carries the
    /32, and the ADD runs on [nodeB]. *)

Definition subnet_a_url : string :=
  "projects/proj/regions/europe-west1/subnetworks/subnet-a".

Definition node (name : string) (aliases : list AliasIpRange) : Instance :=
  mkInstance name
    [mkNetworkInterface "nic0" 1 "projects/proj/global/networks/default"
       subnet_a_url aliases].

Definition migrating_pod : Pod :=
  mkPod "uid-2"
    {[ Driver.LiveIPAnnotation := "10.111.0.5";
       Driver.OriginalInstanceAnnotation := "nodeA" ]} [].

Definition migration_pool : IPPool :=
  mkIPPool "ippool-subnet-a" 4
    (mkIPPoolSpec "10.111.0.0/16" subnet_a_url "live"
       (Some {[ "10.111.0.5" := mkIPAllocation "p1" "ns" "uid-1" "nodeA" 0 ]}))
    (mkIPPoolStatus 65534 1 65533 0).

Definition migration_world : World :=
  mkWorld {[ "ippool-subnet-a" := migration_pool ]} {[ ("ns", "p2") := migrating_pod ]}
    (mkMetadata "proj" "europe-west1-b" "nodeB")
    {[ "nodeA" := node "nodeA" [mkAliasIpRange "10.111.0.5/32" "live"];
       "nodeB" := node "nodeB" [] ]}
    {[ "subnet-a" := mkSubnetwork "10.0.0.0/24" 7 [] ]} ∅ ∅ "10.111.0.0/16" 0 []
    [PollRunning false; PollRunning true; PollDone None] [] [].

Definition add_args : Driver.CmdArgs :=
  Driver.mkCmdArgs "c2" "/var/run/netns/cni-2" "eth0"
    "K8S_POD_NAMESPACE=ns;K8S_POD_NAME=p2" "/opt/cni/bin" "{}".

Example migration_run :
  let r := Driver.cmdAdd any_conf 5 add_args migration_world in
  w_pools (snd r) = w_pools migration_world
  /\ w_trace (snd r)
     = [EvLock; EvCall "buildKubeClient"; EvPodGet "ns" "p2";
        EvCall "google.DefaultClient"; EvCall "compute.New";
        EvCall "metadata.ProjectID"; EvCall "metadata.Zone";
        EvCall "metadata.InstanceName"; EvInstanceGet "nodeB";
        EvSubnetGet "subnet-a"; EvCall "buildDynamicClient";
        EvPoolGet "ippool-subnet-a"; EvInstanceGet "nodeA";
        EvUpdateNetworkInterface "nodeA" [];
        EvOperationStarted "operation-0" "nodeA";
        EvOperationGet "operation-0"; EvSleep 100;
        EvOperationGet "operation-0"; EvSleep 100;
        EvOperationGet "operation-0"; EvOperationDone "operation-0";
        EvUpdateNetworkInterface "nodeB" [mkAliasIpRange "10.111.0.5/32" "live"];
        EvOperationStarted "operation-1" "nodeB";
        EvOperationGet "operation-1"; EvOperationDone "operation-1";
        EvPrintResult; EvUnlock]
  /\ w_instances (snd r) !! "nodeA"
     = Some (mkInstance "nodeA"
               [mkNetworkInterface "nic0" 2 "projects/proj/global/networks/default"
                  subnet_a_url []])
  /\ w_instances (snd r) !! "nodeB"
     = Some (mkInstance "nodeB"
               [mkNetworkInterface "nic0" 2 "projects/proj/global/networks/default"
                  subnet_a_url [mkAliasIpRange "10.111.0.5/32" "live"]]).
Proof. vm_compute. repeat split. Qed.

Lemma C1_witness :
  migration_safe "nodeA" "nodeB" "10.111.0.5" migration_world
    (snd (Driver.cmdAdd any_conf 5 add_args migration_world)).
Proof.
  apply (C1_migration_add_detaches_before_it_attaches any_conf 5 add_args
           migration_world migrating_pod "10.111.0.5" "nodeA").
  - vm_compute. reflexivity.
  - vm_compute. reflexivity.
  - vm_compute. reflexivity.
  - discriminate.
  - intros (i & nic & H1 & H2 & H3).
    vm_compute in H1. injection H1 as <-.
    vm_compute in H2. injection H2 as <-.
    vm_compute in H3. exact H3.
Defined.
(** * Further properties of the allocator *)

(** ** [nextIP], [isBroadcast], [ipToInt] *)

Lemma nextIP_loop_length n : forall l, length (Ipam.nextIP_loop n l) = length l.
Proof.
  induction n as [|i IH]; intros l; simpl; [reflexivity|].
  destruct (l !! i) as [b|]; [|reflexivity].
  destruct (0 <? wrap8 (b + 1)).
  - apply length_insert.
  - rewrite IH. apply length_insert.
Qed.

(** X1.  [nextIP] returns a slice of the length of its argument; on a
    four-byte address it is the successor modulo 2^32, so the last address
    255.255.255.255 is followed by 0.0.0.0. *)
Theorem X1_nextIP_is_successor_mod_2_32 :
  (forall ip, length (Ipam.nextIP ip) = length ip)
  /\ (forall ip, ip4 ip ->
        ip4 (Ipam.nextIP ip) /\ be_val (Ipam.nextIP ip) = (be_val ip + 1) mod 2 ^ 32)
  /\ (forall ip, ip4 ip -> be_val ip = 2 ^ 32 - 1 -> Ipam.nextIP ip = [0; 0; 0; 0]).
Proof.
  split; [|split].
  - intros ip. apply nextIP_loop_length.
  - intros ip H. apply nextIP_ip4, H.
  - intros ip H Hv.
    destruct (nextIP_ip4 ip H) as [H4 Hn].
    apply be_val_inj; [exact H4 | apply (ip_of_Z_ip4 0) |].
    rewrite Hn, Hv. reflexivity.
Qed.

Lemma X1_witness :
  length (Ipam.nextIP [10; 0; 0; 255]) = 4%nat
  /\ be_val (Ipam.nextIP [10; 0; 0; 255]) = (be_val [10; 0; 0; 255] + 1) mod 2 ^ 32
  /\ Ipam.nextIP [255; 255; 255; 255] = [0; 0; 0; 0].
Proof.
  destruct X1_nextIP_is_successor_mod_2_32 as (H1 & H2 & H3).
  split; [apply (H1 [10; 0; 0; 255])|]. split.
  - apply (H2 [10; 0; 0; 255]). apply ip4_intro; unfold is_byte; lia.
  - apply (H3 [255; 255; 255; 255]); [apply ip4_intro; unfold is_byte; lia | reflexivity].
Defined.

(** X2.  [isBroadcast] looks at the mask only: an address is reported as
    the broadcast address exactly when its host bits are all ones, whatever
    network the [IPNet] names.  With a mask shorter than the address the
    loop indexes past the mask and panics. *)
Theorem X2_isBroadcast_tests_host_bits :
  (forall c nn n,
     ip4 c -> 0 <= n <= 32 ->
     Ipam.isBroadcast c (Net.mkIPNet nn (Net.CIDRMask n 32))
     = Ok (bool_decide (be_val c mod 2 ^ (32 - n) = 2 ^ (32 - n) - 1)))
  /\ (forall c ipNet,
        (length (Net.IPNet_Mask ipNet) < length c)%nat ->
        Ipam.isBroadcast c ipNet = Panic "index out of range").
Proof.
  split.
  - intros c nn n Hc Hn.
    destruct (CIDRMask_facts n Hn) as (Hm & Hv & _).
    rewrite (isBroadcast_ip4 c nn _ Hc Hm). f_equal.
    rewrite Hv. unfold mask_val.
    pose proof (be_val_bound c Hc) as Hb.
    assert (Hh : 0 <= 32 - n) by lia.
    replace (2 ^ 32 - 1 - (2 ^ 32 - 2 ^ (32 - n))) with (2 ^ (32 - n) - 1) by lia.
    rewrite (lor_host_mask (be_val c) (32 - n) Hh) by lia.
    assert (Hp : 0 < 2 ^ (32 - n)) by (apply Z.pow_pos_nonneg; lia).
    pose proof (Z.div_mod (be_val c) (2 ^ (32 - n)) ltac:(lia)) as Hdm.
    pose proof (Z.mod_pos_bound (be_val c) (2 ^ (32 - n)) Hp) as Hmb.
    apply bool_decide_ext. split; intros H; lia.
  - intros c ipNet Hl. unfold Ipam.isBroadcast.
    apply Nat.ltb_lt in Hl. rewrite Hl. reflexivity.
Qed.

Lemma X2_witness :
  Ipam.isBroadcast [10; 0; 0; 255] (Net.mkIPNet [192; 168; 1; 0] (Net.CIDRMask 24 32))
  = Ok (bool_decide (be_val [10; 0; 0; 255] mod 2 ^ (32 - 24) = 2 ^ (32 - 24) - 1)).
Proof.
  apply (proj1 X2_isBroadcast_tests_host_bits [10; 0; 0; 255] [192; 168; 1; 0] 24).
  - apply ip4_intro; unfold is_byte; lia.
  - lia.
Defined.

Lemma lor_shift_byte p b : is_byte b -> 0 <= p -> Z.lor b (p * 256) = p * 256 + b.
Proof.
  intros Hb Hp.
  replace b with (0 * 256 + b) at 1 by lia.
  replace (p * 256) with (p * 256 + 0) at 1 by lia.
  rewrite (lor_step 0 p b 0 Hb) by (unfold is_byte; lia).
  rewrite Z.lor_0_l, Z.lor_0_r. reflexivity.
Qed.

Lemma lor_shift_low x p : 0 <= x < 2 ^ 8 * 2 ^ 8 -> 0 <= p ->
  Z.lor x (p * 65536) = p * 65536 + x.
Proof.
  intros Hx Hp.
  rewrite (Z.div_mod x 256) at 1 by lia.
  replace (256 * (x / 256) + x mod 256) with ((x / 256) * 256 + x mod 256) by lia.
  replace (p * 65536) with ((p * 256) * 256 + 0) by lia.
  assert (Hm : is_byte (x mod 256)) by (unfold is_byte; apply Z.mod_pos_bound; lia).
  assert (Hd : is_byte (x / 256)).
  { unfold is_byte. split; [apply Z.div_pos; lia | apply Z.div_lt_upper_bound; lia]. }
  rewrite (lor_step _ _ _ 0 Hm) by (unfold is_byte; lia).
  rewrite Z.lor_0_r, (lor_shift_byte p _ Hd Hp).
  pose proof (Z.div_mod x 256 ltac:(lia)). lia.
Qed.

Lemma lor_shift_high x p : 0 <= x < 2 ^ 24 -> 0 <= p ->
  Z.lor x (p * 16777216) = p * 16777216 + x.
Proof.
  intros Hx Hp.
  rewrite (Z.div_mod x 256) at 1 by lia.
  replace (256 * (x / 256) + x mod 256) with ((x / 256) * 256 + x mod 256) by lia.
  replace (p * 16777216) with ((p * 65536) * 256 + 0) by lia.
  assert (Hm : is_byte (x mod 256)) by (unfold is_byte; apply Z.mod_pos_bound; lia).
  rewrite (lor_step _ _ _ 0 Hm) by (unfold is_byte; lia).
  rewrite Z.lor_0_r, lor_shift_low; [| |exact Hp].
  - pose proof (Z.div_mod x 256 ltac:(lia)). lia.
  - split; [apply Z.div_pos; lia | apply Z.div_lt_upper_bound; lia].
Qed.

Lemma Uint32_ip4 ip : ip4 ip -> Ipam.Uint32 ip = Ok (be_val ip).
Proof.
  intros H. destruct (ip4_inv ip H) as (a & b & c & d & -> & Ha & Hb & Hc & Hd).
  unfold Ipam.Uint32. rewrite be_val_4. f_equal.
  rewrite !Z.shiftl_mul_pow2 by lia.
  change (2 ^ 8) with 256. change (2 ^ 16) with 65536. change (2 ^ 24) with 16777216.
  unfold is_byte in *.
  rewrite (lor_shift_byte c d) by (unfold is_byte; lia).
  rewrite lor_shift_low by lia.
  rewrite lor_shift_high by lia.
  lia.
Qed.

(** X3.  [ipToInt] gives the 32-bit big-endian value of an IPv4 address,
    the same for its four-byte and its sixteen-byte form; it turns
    [nextIP] into adding one modulo 2^32, and the four bytes are recovered
    from the value.  What is not an IPv4 address gives [0], the value of
    0.0.0.0. *)
Theorem X3_ipToInt_is_big_endian_value :
  (forall ip, ip4 ip ->
     Ipam.ipToInt ip = Ok (be_val ip)
     /\ Ipam.ipToInt (Net.v4InV6Prefix ++ ip) = Ok (be_val ip)
     /\ Ipam.ipToInt (Ipam.nextIP ip) = Ok ((be_val ip + 1) mod 2 ^ 32)
     /\ ip_of_Z (be_val ip) = ip)
  /\ (forall ip, Net.To4 ip = [] -> Ipam.ipToInt ip = Ok 0)
  /\ Ipam.ipToInt [0; 0; 0; 0] = Ok 0.
Proof.
  split; [|split].
  - intros ip H.
    assert (H4 : Net.To4 ip = ip).
    { unfold Net.To4. destruct H as [Hl _]. rewrite Hl. reflexivity. }
    assert (Hne : forall l, ip4 l -> Nat.eqb (length l) 0 = false).
    { intros l [Hl _]. rewrite Hl. reflexivity. }
    repeat split.
    + unfold Ipam.ipToInt. rewrite H4, (Hne ip H). apply Uint32_ip4, H.
    + unfold Ipam.ipToInt. rewrite (To4_mapped ip H), (Hne ip H). apply Uint32_ip4, H.
    + destruct (nextIP_ip4 ip H) as [Hn Hv].
      unfold Ipam.ipToInt.
      assert (Net.To4 (Ipam.nextIP ip) = Ipam.nextIP ip) as ->.
      { unfold Net.To4. destruct Hn as [Hl _]. rewrite Hl. reflexivity. }
      rewrite (Hne _ Hn), (Uint32_ip4 _ Hn), Hv. reflexivity.
    + apply ip_of_Z_be_val, H.
  - intros ip H. unfold Ipam.ipToInt. rewrite H. reflexivity.
  - reflexivity.
Qed.

Lemma X3_witness :
  Ipam.ipToInt [10; 111; 0; 5] = Ok (be_val [10; 111; 0; 5])
  /\ Ipam.ipToInt (Net.v4InV6Prefix ++ [10; 111; 0; 5]) = Ok (be_val [10; 111; 0; 5])
  /\ Ipam.ipToInt (Ipam.nextIP [10; 111; 0; 5]) = Ok ((be_val [10; 111; 0; 5] + 1) mod 2 ^ 32)
  /\ ip_of_Z (be_val [10; 111; 0; 5]) = [10; 111; 0; 5].
Proof.
  apply (proj1 X3_ipToInt_is_big_endian_value [10; 111; 0; 5]).
  apply ip4_intro; unfold is_byte; lia.
Defined.

(** ** [findAvailableIP] *)

Lemma lowest_free_ext al1 al2 len : forall lo,
  (forall x, lo <= x < lo + Z.of_nat len -> (free al1 x <-> free al2 x)) ->
  lowest_free al1 len lo = lowest_free al2 len lo.
Proof.
  induction len as [|k IH]; intros lo H; [reflexivity|].
  cbn [lowest_free].
  assert (Hlo : free al1 lo <-> free al2 lo) by (apply H; lia).
  unfold free in Hlo.
  destruct (al1 !! Net.IP_String (ip_of_Z lo)) as [a1|] eqn:E1;
    destruct (al2 !! Net.IP_String (ip_of_Z lo)) as [a2|] eqn:E2.
  - apply IH. intros x Hx. apply H. lia.
  - destruct Hlo as [_ Hlo]. discriminate (Hlo eq_refl).
  - destruct Hlo as [Hlo _]. discriminate (Hlo eq_refl).
  - reflexivity.
Qed.

(** X4.  [findAvailableIP] masks the address of the cidr before it scans,
    and looks up only the dotted quads of the addresses it visits: two
    cidrs of the same prefix length in the same block, with allocation maps
    that agree on the addresses strictly between the network and the
    broadcast address, give the same address.  Host bits written in the
    cidr and keys that are not such dotted quads play no part. *)
Theorem X4_findAvailableIP_reads_block_and_usable_keys :
  forall c1 c2 A1 A2 n al1 al2,
    parse_v4 c1 = Some (A1, n) ->
    parse_v4 c2 = Some (A2, n) ->
    network_addr A1 n = network_addr A2 n ->
    (forall x, network_addr A1 n < x < broadcast_addr A1 n ->
               (free al1 x <-> free al2 x)) ->
    (forall key, Ipam.findAvailableIP c1 al1 = Ok key
                 <-> Ipam.findAvailableIP c2 al2 = Ok key)
    /\ (Ipam.findAvailableIP c1 al1 = Err (ErrorString ("no available IPs in CIDR " +:+ c1))
        <-> Ipam.findAvailableIP c2 al2
            = Err (ErrorString ("no available IPs in CIDR " +:+ c2))).
Proof.
  intros c1 c2 A1 A2 n al1 al2 H1 H2 HN Hal.
  destruct (parse_v4_range _ _ _ H1) as [HA1 Hn].
  destruct (parse_v4_range _ _ _ H2) as [HA2 _].
  assert (HB : broadcast_addr A1 n = broadcast_addr A2 n).
  { rewrite !broadcast_addr_spec by assumption. lia. }
  rewrite (findAvailableIP_spec c1 al1 A1 n H1), (findAvailableIP_spec c2 al2 A2 n H2).
  rewrite <- HB, <- HN.
  rewrite (lowest_free_ext al1 al2).
  - destruct (lowest_free al2 _ _); split; split; intros H;
      solve [exact H | discriminate H | reflexivity].
  - intros x Hx. apply Hal.
    pose proof (broadcast_addr_spec A1 n Hn HA1). lia.
Qed.

Lemma X4_witness :
  Ipam.findAvailableIP "10.0.0.77/24" ∅ = Ok "10.0.0.1"
  <-> Ipam.findAvailableIP "10.0.0.0/24" ∅ = Ok "10.0.0.1".
Proof.
  apply (X4_findAvailableIP_reads_block_and_usable_keys
           "10.0.0.77/24" "10.0.0.0/24" 167772237 167772160 24 ∅ ∅).
  - vm_compute. reflexivity.
  - vm_compute. reflexivity.
  - vm_compute. reflexivity.
  - intros x _. tauto.
Defined.

(** ** The allocator's calls on the pool *)

(** X5.  [GetAllocation] makes one call, the read of the pool, and writes
    nothing.  It succeeds only for a key that is in the pool's allocations,
    with the cidr, subnet and range name of the pool; when the read goes
    through, a missing pool gives the wrapped not-found error and a missing
    key (or a nil map) the error [IP <ip> not found in pool <pool>]. *)
Theorem X5_GetAllocation_only_reads :
  forall poolName ip w,
    let r := Ipam.GetAllocation poolName ip w in
    w_pools (snd r) = w_pools w
    /\ w_trace (snd r) = w_trace w ++ [EvPoolGet poolName]
    /\ (forall res, fst r = Ok res ->
          exists p a,
            w_pools w !! poolName = Some p
            /\ map_of (Allocations (Spec p)) !! ip = Some a
            /\ res = Ipam.mkAllocationResult ip (CIDR (Spec p)) (Subnet (Spec p))
                       (SecondaryRangeName (Spec p)))
    /\ (passes (w_faults w) ->
        match w_pools w !! poolName with
        | None =>
            fst r = Err (Wrapped ("failed to get IPPool " +:+ poolName)
                           (not_found "ippools.ipam.gcp-cni.cast.ai" poolName))
        | Some p =>
            match map_of (Allocations (Spec p)) !! ip with
            | Some _ =>
                fst r = Ok (Ipam.mkAllocationResult ip (CIDR (Spec p)) (Subnet (Spec p))
                              (SecondaryRangeName (Spec p)))
            | None =>
                fst r = Err (ErrorString ("IP " +:+ ip +:+ " not found in pool " +:+ poolName))
            end
        end).
Proof.
  intros poolName ip w. cbv zeta.
  unfold Ipam.GetAllocation, pool_Get, bind, map_err, remote, passes, fail, ret.
  destruct (w_faults w) as [|[e|] fs]; cbn [fst snd w_pools w_trace set_faults log];
    try (destruct (w_pools w !! poolName) as [p|] eqn:Ep; cbn [fst snd w_pools w_trace set_faults log];
         [ cbn [Spec with_name];
           destruct (Allocations (Spec p)) as [m|] eqn:Em; cbn [map_of];
           [ destruct (m !! ip) as [a|] eqn:Ea | ] | ]);
    cbn [fst snd w_pools w_trace set_faults log];
    (split; [reflexivity|]); (split; [reflexivity|]); (split; [|try tauto; try reflexivity]);
    intros res Hres; try discriminate Hres.
  all: try (injection Hres as <-; exists p, a; rewrite Em; cbn [map_of]; auto).
  all: try (rewrite lookup_empty; reflexivity).
Qed.

Lemma X5_witness :
  fst (Ipam.GetAllocation "ippool-subnet-a" "10.111.0.5" migration_world)
  = Ok (Ipam.mkAllocationResult "10.111.0.5" "10.111.0.0/16" subnet_a_url "live")
  /\ fst (Ipam.GetAllocation "ippool-subnet-a" "10.111.0.6" migration_world)
     = Err (ErrorString "IP 10.111.0.6 not found in pool ippool-subnet-a").
Proof.
  split.
  - exact (proj2 (proj2 (proj2 (X5_GetAllocation_only_reads
                                   "ippool-subnet-a" "10.111.0.5" migration_world))) I).
  - exact (proj2 (proj2 (proj2 (X5_GetAllocation_only_reads
                                   "ippool-subnet-a" "10.111.0.6" migration_world))) I).
Defined.

(** X6.  A request for an address that is already a key of the pool's
    allocations is refused after the one read: no write is attempted, no
    retry and no sleep follow, and the record under that key stays as it
    was. *)
Theorem X6_requested_ip_already_allocated :
  forall req w p a,
    passes (w_faults w) ->
    Ipam.req_RequestedIP req <> EmptyString ->
    w_pools w !! Ipam.req_PoolName req = Some p ->
    map_of (Allocations (Spec p)) !! Ipam.req_RequestedIP req = Some a ->
    let r := Ipam.Allocate req w in
    fst r = Err (ErrorString ("requested IP " +:+ Ipam.req_RequestedIP req
                              +:+ " is already allocated"))
    /\ w_pools (snd r) = w_pools w
    /\ w_trace (snd r) = w_trace w ++ [EvPoolGet (Ipam.req_PoolName req)]
    /\ w_now (snd r) = w_now w.
Proof.
  intros req w p a Hp Hne Hpool Ha. cbv zeta.
  assert (Hneb : String.eqb (Ipam.req_RequestedIP req) EmptyString = false)
    by (apply String.eqb_neq, Hne).
  assert (Ht : Ipam.tryAllocate req w
               = (Err (ErrorString ("requested IP " +:+ Ipam.req_RequestedIP req
                                    +:+ " is already allocated")),
                  set_faults (tail (w_faults w)) (log (EvPoolGet (Ipam.req_PoolName req)) w))).
  { unfold Ipam.tryAllocate. unfold bind at 1. unfold map_err, pool_Get. unfold bind at 1.
    rewrite remote_passes by exact Hp.
    cbn [w_pools set_faults log]. rewrite Hpool.
    unfold bind at 1. rewrite Hneb. cbn [negb Spec with_name].
    change (match Allocations (Spec p) with Some m => m | None => ∅ end)
      with (map_of (Allocations (Spec p))).
    rewrite Ha. reflexivity. }
  assert (Hr : Ipam.Allocate req w
               = (Err (ErrorString ("requested IP " +:+ Ipam.req_RequestedIP req
                                    +:+ " is already allocated")),
                  set_faults (tail (w_faults w)) (log (EvPoolGet (Ipam.req_PoolName req)) w))).
  { unfold Ipam.Allocate. change (Z.to_nat Ipam.MaxRetries) with 10%nat.
    cbn [Ipam.Allocate_loop Z.ltb Z.compare].
    unfold bind at 1. unfold ret at 1. unfold bind at 1. unfold try. rewrite Ht.
    reflexivity. }
  rewrite Hr. cbn [fst snd w_pools w_trace w_now set_faults log]. auto.
Qed.

Lemma X6_witness :
  let req := Ipam.mkAllocationRequest "ippool-subnet-a" "p2" "ns" "uid-2" "nodeB" "10.111.0.5" in
  let r := Ipam.Allocate req migration_world in
  fst r = Err (ErrorString "requested IP 10.111.0.5 is already allocated")
  /\ w_pools (snd r) = w_pools migration_world
  /\ w_trace (snd r) = w_trace migration_world ++ [EvPoolGet "ippool-subnet-a"]
  /\ w_now (snd r) = w_now migration_world.
Proof.
  apply (X6_requested_ip_already_allocated
           (Ipam.mkAllocationRequest "ippool-subnet-a" "p2" "ns" "uid-2" "nodeB" "10.111.0.5")
           migration_world migration_pool (mkIPAllocation "p1" "ns" "uid-1" "nodeA" 0)).
  - exact I.
  - discriminate.
  - vm_compute. reflexivity.
  - vm_compute. reflexivity.
Defined.

Lemma on_wire_meta p :
  Subnet (Spec (on_wire p)) = Subnet (Spec p)
  /\ SecondaryRangeName (Spec (on_wire p)) = SecondaryRangeName (Spec p)
  /\ ResourceVersion (on_wire p) = ResourceVersion p.
Proof.
  unfold on_wire. destruct (Allocations (Spec p)) as [m|]; [|auto].
  destruct (bool_decide (m = ∅)); auto.
Qed.

Lemma selected_fresh req p key :
  selected req p key -> map_of (Allocations (Spec p)) !! key = None.
Proof.
  unfold selected. destruct (String.eqb (Ipam.req_RequestedIP req) EmptyString).
  - intros H.
    destruct (findAvailableIP_Ok_parses _ _ _ H) as [[A n] Hparse].
    destruct (findAvailableIP_Ok _ _ A n key Hparse H) as (x & -> & _ & Hfree & _).
    exact Hfree.
  - intros [_ H]. exact H.
Qed.

(** X7.  A successful [Allocate] changes one key of one pool: the other
    pools are as before; in the pool of the request the returned address
    was not a key and now holds the pod of the request, stamped with the
    time of the write; every other allocation, the cidr, the subnet and the
    range name are as before, and the [resourceVersion] has moved on by
    one.  The result repeats the pool's cidr, subnet and range name. *)
Theorem X7_Allocate_adds_one_key :
  forall req w r w',
    Ipam.Allocate req w = (Ok r, w') ->
    (forall name, name <> Ipam.req_PoolName req -> w_pools w' !! name = w_pools w !! name)
    /\ exists p p',
         w_pools w !! Ipam.req_PoolName req = Some p
         /\ w_pools w' !! Ipam.req_PoolName req = Some p'
         /\ map_of (Allocations (Spec p)) !! Ipam.res_IP r = None
         /\ map_of (Allocations (Spec p')) !! Ipam.res_IP r
            = Some (mkIPAllocation (Ipam.req_PodName req) (Ipam.req_PodNamespace req)
                      (Ipam.req_PodUID req) (Ipam.req_NodeName req) (w_now w'))
         /\ (forall k, k <> Ipam.res_IP r ->
                       map_of (Allocations (Spec p')) !! k = map_of (Allocations (Spec p)) !! k)
         /\ CIDR (Spec p') = CIDR (Spec p)
         /\ Subnet (Spec p') = Subnet (Spec p)
         /\ SecondaryRangeName (Spec p') = SecondaryRangeName (Spec p)
         /\ ResourceVersion p' = ResourceVersion p + 1
         /\ Name p' = Ipam.req_PoolName req
         /\ r = Ipam.mkAllocationResult (Ipam.res_IP r) (CIDR (Spec p)) (Subnet (Spec p))
                  (SecondaryRangeName (Spec p)).
Proof.
  intros req w r w' H.
  destruct (Allocate_Ok_inv req w r w' H) as (p & key & t & Hp & Hsel & -> & -> & Hw).
  split.
  - intros name Hne. rewrite Hw. apply lookup_insert_ne. congruence.
  - exists p, (allocated_pool req key (w_now w') (Ipam.req_PoolName req) p).
    cbn [allocation_result Ipam.res_IP].
    split; [exact Hp|]. split; [rewrite Hw; apply lookup_insert_eq|].
    split; [apply selected_fresh with req, Hsel|].
    rewrite allocated_pool_allocations.
    split; [apply lookup_insert_eq|].
    split; [intros k Hk; apply lookup_insert_ne; congruence|].
    split; [apply allocated_pool_CIDR|].
    unfold allocated_pool, with_version. cbn [Spec ResourceVersion Name].
    match goal with |- context [on_wire ?q] =>
      destruct (on_wire_meta q) as (Hs & Hr & _); destruct (on_wire_fields q) as (_ & _ & Hn)
    end.
    rewrite Hs, Hr, Hn. cbn [Spec Subnet SecondaryRangeName Name]. auto.
Qed.

Lemma X7_witness :
  let req := request "ippool-a" EmptyString in
  let w := world_with_pool "ippool-a" "10.0.0.0/30" in
  exists p',
    w_pools (snd (Ipam.Allocate req w)) !! "ippool-a" = Some p'
    /\ map_of (Allocations (Spec p')) !! "10.0.0.1"
       = Some (mkIPAllocation "p1" "ns" "uid-1" "nodeB" 0)
    /\ ResourceVersion p' = 2.
Proof.
  cbv zeta.
  destruct (X7_Allocate_adds_one_key (request "ippool-a" EmptyString)
              (world_with_pool "ippool-a" "10.0.0.0/30")
              (Ipam.mkAllocationResult "10.0.0.1" "10.0.0.0/30"
                 "projects/proj/regions/europe-west1/subnetworks/a" "live")
              (snd (Ipam.Allocate (request "ippool-a" EmptyString)
                      (world_with_pool "ippool-a" "10.0.0.0/30"))))
    as (_ & p & p' & Hp & Hp' & _ & Hnew & _ & _ & _ & _ & Hv & _).
  - vm_compute. reflexivity.
  - exists p'. split; [exact Hp'|]. split; [exact Hnew|].
    rewrite Hv. vm_compute in Hp. injection Hp as <-. reflexivity.
Defined.

Lemma Release_no_pool name ip w :
  passes (w_faults w) ->
  w_pools w !! name = None ->
  Ipam.Release name ip w
  = (Err (Wrapped ("failed to get IPPool " +:+ name)
            (not_found "ippools.ipam.gcp-cni.cast.ai" name)),
     set_faults (tail (w_faults w)) (log (EvPoolGet name) w)).
Proof.
  intros Hp Hnone.
  unfold Ipam.Release. change (Z.to_nat Ipam.MaxRetries) with 10%nat.
  cbn [Ipam.Release_loop Z.ltb Z.compare].
  unfold bind at 1. unfold ret at 1. unfold bind at 1. unfold try.
  unfold Ipam.tryRelease. unfold bind at 1. unfold map_err, pool_Get. unfold bind at 1.
  rewrite remote_passes by exact Hp.
  cbn [w_pools set_faults log]. rewrite Hnone. reflexivity.
Qed.

(** X8.  A successful [Release] removes one key of one pool and nothing
    else: the other pools, the other allocations, the cidr, the subnet and
    the range name are as before, and the [resourceVersion] has moved on by
    one.  On a pool that does not exist it returns the wrapped not-found
    error after the one read, without a retry. *)
Theorem X8_Release_removes_one_key :
  (forall name ip w u w',
     Ipam.Release name ip w = (Ok u, w') ->
     (forall other, other <> name -> w_pools w' !! other = w_pools w !! other)
     /\ exists p p',
          w_pools w !! name = Some p
          /\ w_pools w' !! name = Some p'
          /\ map_of (Allocations (Spec p')) !! ip = None
          /\ (forall k, k <> ip ->
                        map_of (Allocations (Spec p')) !! k = map_of (Allocations (Spec p)) !! k)
          /\ CIDR (Spec p') = CIDR (Spec p)
          /\ Subnet (Spec p') = Subnet (Spec p)
          /\ SecondaryRangeName (Spec p') = SecondaryRangeName (Spec p)
          /\ ResourceVersion p' = ResourceVersion p + 1)
  /\ (forall name ip w,
        passes (w_faults w) ->
        w_pools w !! name = None ->
        Ipam.Release name ip w
        = (Err (Wrapped ("failed to get IPPool " +:+ name)
                  (not_found "ippools.ipam.gcp-cni.cast.ai" name)),
           set_faults (tail (w_faults w)) (log (EvPoolGet name) w))).
Proof.
  split.
  - intros name ip w u w' H.
    destruct (Release_Ok_inv name ip w u w' H) as (p & Hp & Hw).
    split.
    + intros other Hne. rewrite Hw. apply lookup_insert_ne. congruence.
    + exists p, (released_pool ip (w_now w') name p).
      split; [exact Hp|]. split; [rewrite Hw; apply lookup_insert_eq|].
      rewrite released_pool_allocations.
      split; [apply lookup_delete_eq|].
      split; [intros k Hk; apply lookup_delete_ne; congruence|].
      split; [apply released_pool_CIDR|].
      unfold released_pool, with_version. cbn [Spec ResourceVersion].
      match goal with |- context [on_wire ?q] =>
        destruct (on_wire_meta q) as (Hs & Hr & _)
      end.
      rewrite Hs, Hr. cbn [Spec Subnet SecondaryRangeName]. auto.
  - apply Release_no_pool.
Qed.

Lemma X8_witness :
  let w := migration_world in
  exists p',
    w_pools (snd (Ipam.Release "ippool-subnet-a" "10.111.0.5" w)) !! "ippool-subnet-a" = Some p'
    /\ map_of (Allocations (Spec p')) !! "10.111.0.5" = None
    /\ ResourceVersion p' = 5.
Proof.
  cbv zeta.
  destruct (proj1 X8_Release_removes_one_key "ippool-subnet-a" "10.111.0.5" migration_world tt
              (snd (Ipam.Release "ippool-subnet-a" "10.111.0.5" migration_world)))
    as (_ & p & p' & Hp & Hp' & Hgone & _ & _ & _ & _ & Hv).
  - vm_compute. reflexivity.
  - exists p'. split; [exact Hp'|]. split; [exact Hgone|].
    rewrite Hv. vm_compute in Hp. injection Hp as <-. reflexivity.
Defined.
(** * Further properties of the driver *)

(** ** [waitForInstanceOperation] *)

(** The instances once the cloud has carried an operation out. *)
Definition installed (o : Operation) (instances : gmap string Instance)
  : gmap string Instance :=
  if op_Applied o then instances
  else match instances !! op_Instance o with
       | Some i =>
           <[op_Instance o := install_aliases (op_Interface o) (op_AliasIpRanges o) i]> instances
       | None => instances
       end.

Definition applied (o : Operation) : Operation :=
  mkOperation (op_Instance o) (op_Interface o) (op_AliasIpRanges o) true.

Lemma carry_out_fields op o w :
  w_instances (carry_out op o w) = installed o (w_instances w)
  /\ w_operations (carry_out op o w) !! op
     = (if op_Applied o then w_operations w !! op else Some (applied o))
  /\ w_pools (carry_out op o w) = w_pools w
  /\ w_faults (carry_out op o w) = w_faults w
  /\ w_polls (carry_out op o w) = w_polls w
  /\ w_now (carry_out op o w) = w_now w
  /\ w_trace (carry_out op o w) = w_trace w
  /\ w_pods (carry_out op o w) = w_pods w
  /\ w_metadata (carry_out op o w) = w_metadata w
  /\ w_subnets (carry_out op o w) = w_subnets w.
Proof.
  unfold carry_out, installed. destruct (op_Applied o); [repeat split|].
  cbn [w_instances set_operations].
  destruct (w_instances w !! op_Instance o);
    cbn [w_instances w_operations w_pools w_faults w_polls w_now w_trace w_pods w_metadata
         w_subnets set_instances set_operations];
    rewrite lookup_insert_eq; repeat split.
Qed.

Lemma installed_frame o instances k :
  k <> op_Instance o -> installed o instances !! k = instances !! k.
Proof.
  intros Hk. unfold installed. destruct (op_Applied o); [reflexivity|].
  destruct (instances !! op_Instance o); [|reflexivity].
  apply lookup_insert_ne. congruence.
Qed.

Lemma installed_applied o instances : installed (applied o) instances = instances.
Proof. reflexivity. Qed.

Lemma installed_idem o instances :
  op_Applied o = true -> installed o instances = instances.
Proof. unfold installed. intros ->. reflexivity. Qed.

Definition poll_events (op : string) (flags : list bool) : list Event :=
  concat (map (fun _ : bool => [EvOperationGet op; EvSleep 100]) flags).

Definition wait_outcome (err : option (list string)) : Outcome unit :=
  match err with
  | None => Ok tt
  | Some errs => Err (ErrorString ("operation failed: " +:+ Join errs ", "))
  end.

Lemma wait_run : forall flags err rest fuel op o w,
  w_faults w = [] ->
  w_operations w !! op = Some o ->
  w_polls w = map PollRunning flags ++ PollDone err :: rest ->
  (length flags < fuel)%nat ->
  exists w',
    Driver.waitForInstanceOperation fuel op w = (wait_outcome err, w')
    /\ w_now w' = w_now w + 100 * Z.of_nat (length flags)
    /\ w_trace w'
       = w_trace w ++ poll_events op flags
         ++ EvOperationGet op :: match err with None => [EvOperationDone op] | Some _ => [] end
    /\ w_polls w' = rest
    /\ w_faults w' = []
    /\ w_pools w' = w_pools w
    /\ w_pods w' = w_pods w
    /\ w_metadata w' = w_metadata w
    /\ w_subnets w' = w_subnets w
    /\ (forall k, k <> op_Instance o -> w_instances w' !! k = w_instances w !! k)
    /\ (err = None -> w_instances w' = installed o (w_instances w)).
Proof.
  induction flags as [|flag flags IH]; intros err rest fuel op o w Hf Ho Hpolls Hfuel;
    (destruct fuel as [|fuel]; [cbn [length] in Hfuel; lia|]);
    cbn [Driver.waitForInstanceOperation];
    unfold bind at 1; unfold ZoneOperations_Get; unfold bind at 1;
    rewrite (remote_nofault _ _ Hf);
    cbn [w_operations w_polls set_faults log]; rewrite Ho, Hpolls;
    cbn [map app tail].
  - destruct (carry_out_fields op o (set_polls rest (set_faults [] (log (EvOperationGet op) w))))
      as (Hi & _ & Hp & Hfl & Hpl & Hn & Ht & Hpo & Hmd & Hsn).
    destruct err as [errs|]; cbn [os_Status os_Error String.eqb Ascii.eqb Bool.eqb fst snd];
      unfold fail, ret; cbn [wait_outcome length poll_events map concat app Z.of_nat];
      eexists; (split; [reflexivity|]).
    + cbn [w_now w_trace w_polls w_faults w_pools w_pods w_metadata w_subnets w_instances
           set_polls set_faults log].
      rewrite Z.add_0_r. repeat split. discriminate.
    + cbn [w_now w_trace w_polls w_faults w_pools w_pods w_metadata w_subnets w_instances log].
      rewrite Hi, Hp, Hfl, Hpl, Hn, Ht, Hpo, Hmd, Hsn.
      cbn [w_now w_trace w_polls w_faults w_pools w_pods w_metadata w_subnets w_instances
           set_polls set_faults log].
      rewrite Z.add_0_r, <- app_assoc. repeat split.
      intros k Hk. apply installed_frame, Hk.
  - cbn [os_Status os_Error String.eqb Ascii.eqb Bool.eqb].
    set (w0 := set_polls (map PollRunning flags ++ PollDone err :: rest)
                 (set_faults [] (log (EvOperationGet op) w))).
    set (w1 := if flag then carry_out op o w0 else w0).
    set (o1 := if flag then (if op_Applied o then o else applied o) else o).
    assert (H1 : w_faults w1 = [] /\ w_operations w1 !! op = Some o1
                 /\ w_polls w1 = map PollRunning flags ++ PollDone err :: rest
                 /\ w_now w1 = w_now w /\ w_trace w1 = w_trace w ++ [EvOperationGet op]
                 /\ w_pools w1 = w_pools w /\ w_pods w1 = w_pods w
                 /\ w_metadata w1 = w_metadata w /\ w_subnets w1 = w_subnets w
                 /\ op_Instance o1 = op_Instance o
                 /\ (forall k, k <> op_Instance o -> w_instances w1 !! k = w_instances w !! k)
                 /\ installed o1 (w_instances w1) = installed o (w_instances w)).
    { subst w1 o1. destruct flag.
      - destruct (carry_out_fields op o w0)
          as (Hi & Hop & Hp & Hfl & Hpl & Hn & Ht & Hpo & Hmd & Hsn).
        rewrite Hi, Hop, Hp, Hfl, Hpl, Hn, Ht, Hpo, Hmd, Hsn. subst w0.
        cbn [w_now w_trace w_polls w_faults w_pools w_pods w_metadata w_subnets w_instances
             w_operations set_polls set_faults log].
        repeat split.
        + destruct (op_Applied o); [exact Ho | reflexivity].
        + destruct (op_Applied o); reflexivity.
        + intros k Hk. apply installed_frame, Hk.
        + destruct (op_Applied o) eqn:Ea.
          * rewrite !(installed_idem o) by exact Ea. reflexivity.
          * apply installed_applied.
      - subst w0. cbn [w_now w_trace w_polls w_faults w_pools w_pods w_metadata w_subnets
                       w_instances w_operations set_polls set_faults log].
        repeat split. exact Ho. }
    destruct H1 as (Hf1 & Ho1 & Hpl1 & Hn1 & Ht1 & Hp1 & Hpo1 & Hmd1 & Hsn1 & Hoi & Hfr1 & Hi1).
    unfold bind at 1. unfold Sleep at 1.
    set (w2 := set_now (w_now w1 + 100) (log (EvSleep 100) w1)).
    assert (Hlen : (length flags < fuel)%nat) by (cbn [length] in Hfuel; lia).
    destruct (IH err rest fuel op o1 w2 Hf1 Ho1 Hpl1 Hlen)
      as (w' & R0 & R2 & R3 & R4 & R5 & R6 & R6a & R6b & R6c & R6d & R7).
    exists w'. split; [exact R0|].
    subst w2. cbn [w_now w_trace w_pools w_pods w_metadata w_subnets w_instances set_now log] in *.
    rewrite R2, R3, R4, R5, R6, R6a, R6b, R6c, Hn1, Ht1, Hp1, Hpo1, Hmd1, Hsn1.
    cbn [length poll_events map concat app]. fold (poll_events op flags).
    rewrite <- !app_assoc. cbn [app].
    repeat split; try lia.
    + intros k Hk. rewrite R6d by congruence. apply Hfr1, Hk.
    + intros He. rewrite (R7 He). exact Hi1.
Qed.

(** X9.  [waitForInstanceOperation] polls the operation until the reply is
    DONE, sleeping 100 ms after each reply that is not: with [k] replies
    RUNNING before the DONE it makes [k + 1] polls and sleeps [k] times.
    A DONE without error returns nil, and by then the cloud has installed
    the alias list of the request on the instance; a DONE with errors
    returns [operation failed: ] and the messages joined by [, ].  The
    pools are not touched. *)
Theorem X9_wait_polls_until_done :
  forall flags err rest fuel op o w,
    w_faults w = [] ->
    w_operations w !! op = Some o ->
    w_polls w = map PollRunning flags ++ PollDone err :: rest ->
    (length flags < fuel)%nat ->
    let r := Driver.waitForInstanceOperation fuel op w in
    fst r = match err with
            | None => Ok tt
            | Some errs => Err (ErrorString ("operation failed: " +:+ Join errs ", "))
            end
    /\ w_now (snd r) = w_now w + 100 * Z.of_nat (length flags)
    /\ w_trace (snd r)
       = w_trace w ++ poll_events op flags
         ++ EvOperationGet op :: match err with None => [EvOperationDone op] | Some _ => [] end
    /\ w_polls (snd r) = rest
    /\ w_pools (snd r) = w_pools w
    /\ (err = None -> w_instances (snd r) = installed o (w_instances w)).
Proof.
  intros flags err rest fuel op o w Hf Ho Hpolls Hfuel. cbv zeta.
  destruct (wait_run flags err rest fuel op o w Hf Ho Hpolls Hfuel)
    as (w' & -> & Hn & Ht & Hpl & _ & Hp & _ & _ & _ & _ & Hi).
  cbn [fst snd]. unfold wait_outcome. auto 10.
Qed.

Definition polling_world : World :=
  mkWorld ∅ ∅ (mkMetadata "proj" "europe-west1-b" "nodeB")
    {[ "nodeA" := node "nodeA" [mkAliasIpRange "10.111.0.5/32" "live"] ]} ∅
    {[ "operation-0" := mkOperation "nodeA" "nic0" [] false ]} ∅ "10.111.0.0/16" 0 []
    [PollRunning false; PollRunning true; PollDone None] [] [].

Lemma X9_witness :
  let r := Driver.waitForInstanceOperation 3 "operation-0" polling_world in
  fst r = Ok tt
  /\ w_now (snd r) = w_now polling_world + 100 * Z.of_nat (length [false; true])
  /\ w_trace (snd r)
     = w_trace polling_world ++ poll_events "operation-0" [false; true]
       ++ [EvOperationGet "operation-0"; EvOperationDone "operation-0"]
  /\ w_polls (snd r) = []
  /\ w_pools (snd r) = w_pools polling_world
  /\ (@None (list string) = None ->
      w_instances (snd r)
      = installed (mkOperation "nodeA" "nic0" [] false) (w_instances polling_world)).
Proof.
  apply (X9_wait_polls_until_done [false; true] None [] 3 "operation-0"
           (mkOperation "nodeA" "nic0" [] false) polling_world).
  - reflexivity.
  - vm_compute. reflexivity.
  - reflexivity.
  - cbn [length]. lia.
Defined.

(** ** Runs in which every call goes through *)

(** The world after the calls [tr], none of which changed anything. *)
Definition logged (tr : list Event) (w : World) : World :=
  mkWorld (w_pools w) (w_pods w) (w_metadata w) (w_instances w) (w_subnets w)
    (w_operations w) (w_ranges w) (w_assigned_cidr w) (w_now w) [] (w_polls w)
    (w_trace w ++ tr) (w_history w).

Lemma logged_nil w : w_faults w = [] -> w = logged [] w.
Proof.
  destruct w as [a b c d e f g h i fs k tr l]; simpl; intros ->.
  unfold logged. simpl. rewrite app_nil_r. reflexivity.
Qed.

Lemma log_logged ev tr w : log ev (logged tr w) = logged (tr ++ [ev]) w.
Proof. unfold log, logged. cbn. rewrite app_assoc. reflexivity. Qed.

Lemma log_nofault ev w : w_faults w = [] -> log ev w = logged [ev] w.
Proof.
  destruct w as [a b c d e f g h i fs k tr l]; simpl; intros ->. reflexivity.
Qed.

Lemma remote_logged ev tr w : remote ev (logged tr w) = (Ok tt, logged (tr ++ [ev]) w).
Proof. unfold remote, logged, set_faults, log. cbn. rewrite app_assoc. reflexivity. Qed.

Lemma metadata_get_logged what field tr w :
  metadata_get what field (logged tr w)
  = (Ok (field (w_metadata w)), logged (tr ++ [EvCall ("metadata." +:+ what)]) w).
Proof. unfold metadata_get, bind. rewrite remote_logged. reflexivity. Qed.

Lemma Instances_Get_logged name tr w i :
  w_instances w !! name = Some i ->
  Instances_Get name (logged tr w) = (Ok i, logged (tr ++ [EvInstanceGet name]) w).
Proof. intros H. unfold Instances_Get, bind. rewrite remote_logged. cbn. rewrite H. reflexivity. Qed.

Lemma Subnetworks_Get_logged name tr w s :
  w_subnets w !! name = Some s ->
  Subnetworks_Get name (logged tr w) = (Ok s, logged (tr ++ [EvSubnetGet name]) w).
Proof. intros H. unfold Subnetworks_Get, bind. rewrite remote_logged. cbn. rewrite H. reflexivity. Qed.

Lemma Pods_Get_logged ns name tr w p :
  w_pods w !! (ns, name) = Some p ->
  Driver.Pods_Get ns name (logged tr w) = (Ok p, logged (tr ++ [EvPodGet ns name]) w).
Proof. intros H. unfold Driver.Pods_Get, bind. rewrite remote_logged. cbn. rewrite H. reflexivity. Qed.

Lemma region_of_zone_Ok zone w :
  (2 < String.length zone)%nat ->
  region_of_zone zone w = (Ok (String.substring 0 (String.length zone - 2) zone), w).
Proof. intros H. unfold region_of_zone. apply Nat.ltb_lt in H. rewrite H. reflexivity. Qed.

Definition region_of (zone : string) : string :=
  String.substring 0 (String.length zone - 2) zone.

Lemma getInstanceInfo_logged tr w :
  (2 < String.length (md_Zone (w_metadata w)))%nat ->
  Driver.getInstanceInfo (logged tr w)
  = (Ok (md_ProjectID (w_metadata w), md_Zone (w_metadata w),
         region_of (md_Zone (w_metadata w)), md_InstanceName (w_metadata w)),
     logged (tr ++ [EvCall "compute.New"; EvCall "metadata.ProjectID"; EvCall "metadata.Zone";
                    EvCall "metadata.InstanceName"]) w).
Proof.
  intros Hz. unfold Driver.getInstanceInfo.
  unfold bind at 1. unfold map_err at 1. rewrite remote_logged.
  unfold bind at 1. unfold map_err at 1. rewrite metadata_get_logged.
  unfold bind at 1. unfold map_err at 1. rewrite metadata_get_logged.
  unfold bind at 1. rewrite (region_of_zone_Ok _ _ Hz).
  unfold bind at 1. unfold map_err at 1. rewrite metadata_get_logged.
  unfold ret. rewrite <- !app_assoc. reflexivity.
Qed.

(** What the allocator leaves alone: everything but the pools, the clock
    and the record of calls. *)
Definition cloud_same (w w' : World) : Prop :=
  w_instances w' = w_instances w /\ w_pods w' = w_pods w /\ w_metadata w' = w_metadata w
  /\ w_subnets w' = w_subnets w /\ w_operations w' = w_operations w
  /\ w_ranges w' = w_ranges w /\ w_polls w' = w_polls w /\ w_history w' = w_history w.

Definition pool_only {A} (m : M A) : Prop := forall w, cloud_same w (snd (m w)).

Lemma cloud_same_refl w : cloud_same w w.
Proof. repeat split. Qed.

Lemma cloud_same_trans w1 w2 w3 : cloud_same w1 w2 -> cloud_same w2 w3 -> cloud_same w1 w3.
Proof.
  unfold cloud_same. intros (A1 & A2 & A3 & A4 & A5 & A6 & A7 & A8)
                            (B1 & B2 & B3 & B4 & B5 & B6 & B7 & B8).
  repeat split; congruence.
Qed.

Lemma pool_only_ret {A} (a : A) : pool_only (ret a).
Proof. intros w. apply cloud_same_refl. Qed.

Lemma pool_only_fail {A} e : pool_only (@fail A e).
Proof. intros w. apply cloud_same_refl. Qed.

Lemma pool_only_lift {A} (o : Outcome A) : pool_only (Ipam.lift o).
Proof. intros w. apply cloud_same_refl. Qed.

Lemma pool_only_Now : pool_only Now.
Proof. intros w. apply cloud_same_refl. Qed.

Lemma pool_only_bind {A B} (m : M A) (k : A -> M B) :
  pool_only m -> (forall a, pool_only (k a)) -> pool_only (bind m k).
Proof.
  intros Hm Hk w. unfold bind. specialize (Hm w).
  destruct (m w) as [[a|e|msg|] w1]; cbn [snd] in *; try exact Hm.
  eapply cloud_same_trans; [exact Hm | apply Hk].
Qed.

Lemma pool_only_map_err {A} f (m : M A) : pool_only m -> pool_only (map_err f m).
Proof.
  intros Hm w. unfold map_err. specialize (Hm w).
  destruct (m w) as [[a|e|msg|] w1]; exact Hm.
Qed.

Lemma pool_only_try {A} (m : M A) : pool_only m -> pool_only (try m).
Proof.
  intros Hm w. unfold try. specialize (Hm w).
  destruct (m w) as [[a|e|msg|] w1]; exact Hm.
Qed.

Lemma pool_only_remote ev : pool_only (remote ev).
Proof. intros w. unfold remote. destruct (w_faults w) as [|[e|] fs]; repeat split. Qed.

Lemma pool_only_Sleep ms : pool_only (Sleep ms).
Proof. intros w. repeat split. Qed.

Lemma pool_only_pool_Get name : pool_only (pool_Get name).
Proof.
  apply pool_only_bind; [apply pool_only_remote|]. intros _ w.
  destruct (w_pools w !! name); apply cloud_same_refl.
Qed.

Lemma pool_only_pool_Update p : pool_only (pool_Update p).
Proof.
  apply pool_only_bind; [apply pool_only_remote|]. intros _ w.
  destruct (w_pools w !! Name p) as [cur|]; [|apply cloud_same_refl].
  destruct (ResourceVersion cur =? ResourceVersion p); repeat split.
Qed.

Lemma pool_only_pool_Create p : pool_only (pool_Create p).
Proof.
  apply pool_only_bind; [apply pool_only_remote|]. intros _ w.
  destruct (w_pools w !! Name p) as [cur|]; repeat split.
Qed.

Lemma pool_only_tryAllocate req : pool_only (Ipam.tryAllocate req).
Proof.
  unfold Ipam.tryAllocate.
  apply pool_only_bind; [apply pool_only_map_err, pool_only_pool_Get|]. intros pool.
  apply pool_only_bind.
  { destruct (negb _).
    - destruct (_ !! _); [apply pool_only_fail | apply pool_only_ret].
    - apply pool_only_map_err, pool_only_lift. }
  intros ip. apply pool_only_bind; [apply pool_only_Now|]. intros t.
  apply pool_only_bind; [apply pool_only_Now|]. intros t'.
  apply pool_only_bind; [apply pool_only_pool_Update|]. intros _. apply pool_only_ret.
Qed.

Lemma pool_only_tryRelease name ip : pool_only (Ipam.tryRelease name ip).
Proof.
  unfold Ipam.tryRelease.
  apply pool_only_bind; [apply pool_only_map_err, pool_only_pool_Get|]. intros pool.
  apply pool_only_bind; [apply pool_only_Now|]. intros t.
  apply pool_only_bind; [apply pool_only_pool_Update|]. intros _. apply pool_only_ret.
Qed.

Lemma pool_only_retry {A} what (attempt : M A) n : forall i last,
  pool_only attempt -> pool_only (retry_loop what attempt n i last).
Proof.
  induction n as [|n IH]; intros i last Ha; cbn [retry_loop]; [apply pool_only_fail|].
  apply pool_only_bind.
  { destruct (0 <? i); [apply pool_only_Sleep | apply pool_only_ret]. }
  intros _. apply pool_only_bind; [apply pool_only_try, Ha|].
  intros [e|a]; [|apply pool_only_ret].
  destruct (IsConflict e); [apply IH, Ha | apply pool_only_fail].
Qed.

Lemma pool_only_Allocate req : pool_only (Ipam.Allocate req).
Proof.
  intros w. unfold Ipam.Allocate. rewrite Allocate_loop_retry.
  apply pool_only_retry, pool_only_tryAllocate.
Qed.

Lemma pool_only_Release name ip : pool_only (Ipam.Release name ip).
Proof.
  intros w. unfold Ipam.Release. rewrite Release_loop_retry.
  apply pool_only_retry, pool_only_tryRelease.
Qed.

Lemma try_Ok {A} (m : M A) w a w' : m w = (Ok a, w') -> try m w = (Ok (inr a), w').
Proof. unfold try. intros ->. reflexivity. Qed.

Lemma map_err_Ok_run {A} f (m : M A) w a w' :
  m w = (Ok a, w') -> map_err f m w = (Ok a, w').
Proof. unfold map_err. intros ->. reflexivity. Qed.

Lemma bind_run {A B} (m : M A) (k : A -> M B) w a w' :
  m w = (Ok a, w') -> bind m k w = k a w'.
Proof. unfold bind. intros ->. reflexivity. Qed.

Lemma bind_assoc {A B C} (m : M A) (f : A -> M B) (k : B -> M C) w :
  bind m (fun a => bind (f a) k) w = bind (bind m f) k w.
Proof. unfold bind. destruct (m w) as [[a|e|msg|] w1]; reflexivity. Qed.

Lemma fingerprint_of_head nic rest name :
  fingerprint_of (nic_Name nic) (mkInstance name (nic :: rest)) = Some (nic_Fingerprint nic).
Proof.
  unfold fingerprint_of. cbn [inst_NetworkInterfaces find]. rewrite String.eqb_refl. reflexivity.
Qed.

(** The name the cloud gives the next operation. *)
Definition next_operation (w : World) : string :=
  "operation-" +:+ pretty (Z.of_nat (size (w_operations w))).

Lemma update_logged inst nicName fp al tr w i :
  w_instances w !! inst = Some i ->
  fingerprint_of nicName i = Some fp ->
  Instances_UpdateNetworkInterface inst nicName fp al (logged tr w)
  = (Ok (next_operation w),
     log (EvOperationStarted (next_operation w) inst)
       (set_operations
          (fun ops => <[next_operation w := mkOperation inst nicName al false]> ops)
          (logged (tr ++ [EvUpdateNetworkInterface inst al]) w))).
Proof.
  intros Hi Hfp. unfold Instances_UpdateNetworkInterface, bind. rewrite remote_logged.
  cbn [w_instances logged w_operations]. rewrite Hi, Hfp, Z.eqb_refl. reflexivity.
Qed.

(** What [cmdAdd] and [cmdDel] return when the operation ends in [err]. *)
Definition update_outcome (err : option (list string)) : Outcome unit :=
  match err with
  | None => Ok tt
  | Some errs =>
      Err (Wrapped "failed to wait for network interface update operation"
             (ErrorString ("operation failed: " +:+ Join errs ", ")))
  end.

(** An update request followed by the wait for its operation, when every
    call goes through and the polls end in DONE. *)
Lemma update_and_wait fuel inst nic rest al tr w i flags err polls :
  w_instances w !! inst = Some i ->
  inst_NetworkInterfaces i = nic :: rest ->
  w_polls w = map PollRunning flags ++ PollDone err :: polls ->
  (length flags < fuel)%nat ->
  exists w',
    (c <- map_err (Wrapped "failed to update network interface")
            (Instances_UpdateNetworkInterface inst (nic_Name nic) (nic_Fingerprint nic) al) ;;
     map_err (Wrapped "failed to wait for network interface update operation")
       (Driver.waitForInstanceOperation fuel c)) (logged tr w) = (update_outcome err, w')
    /\ w_faults w' = []
    /\ (err = None ->
        w_instances w' = <[inst := install_aliases (nic_Name nic) al i]> (w_instances w))
    /\ w_pools w' = w_pools w /\ w_pods w' = w_pods w /\ w_metadata w' = w_metadata w
    /\ w_subnets w' = w_subnets w /\ w_polls w' = polls
    /\ w_now w' = w_now w + 100 * Z.of_nat (length flags)
    /\ w_trace w'
       = w_trace w ++ tr
         ++ [EvUpdateNetworkInterface inst al; EvOperationStarted (next_operation w) inst]
         ++ poll_events (next_operation w) flags
         ++ EvOperationGet (next_operation w)
            :: match err with None => [EvOperationDone (next_operation w)] | Some _ => [] end.
Proof.
  intros Hi Hn Hpolls Hfuel.
  assert (Hfp : fingerprint_of (nic_Name nic) i = Some (nic_Fingerprint nic)).
  { destruct i as [name nics]. cbn [inst_NetworkInterfaces] in Hn. subst nics.
    apply fingerprint_of_head. }
  rewrite (bind_run _ _ _ _ _
             (map_err_Ok_run _ _ _ _ _ (update_logged inst _ _ al tr w i Hi Hfp))).
  set (op := next_operation w).
  set (w1 := log _ _).
  destruct (wait_run flags err polls fuel op (mkOperation inst (nic_Name nic) al false) w1)
    as (w' & Hrun & Hnow & Htr & Hpl & Hf & Hp & Hpo & Hmd & Hsn & _ & Hinst);
    [reflexivity | subst w1; cbn [w_operations log set_operations logged]; apply lookup_insert_eq
     | exact Hpolls | exact Hfuel |].
  exists w'. split.
  { unfold map_err. rewrite Hrun. destruct err; reflexivity. }
  subst w1. cbn [w_now w_trace w_pools w_pods w_metadata w_subnets w_instances log
                 set_operations logged] in *.
  rewrite Htr, <- !app_assoc. cbn [app].
  repeat split; try assumption.
  intros He. rewrite (Hinst He). unfold installed.
  cbn [op_Applied op_Instance op_Interface op_AliasIpRanges]. rewrite Hi. reflexivity.
Qed.

(** ** DEL *)

(** The pool a verb works on: the configured name, or the name derived
    from the subnetwork of the instance's first interface. *)
Definition pool_name_for (conf : Driver.PluginConf) (nic : NetworkInterface) : string :=
  if String.eqb (Driver.conf_IPPoolName conf) EmptyString
  then "ippool-" +:+ last_part (split_on "/" (nic_Subnetwork nic))
  else Driver.conf_IPPoolName conf.

Definition cni_namespace (args : Driver.CmdArgs) : string :=
  get_or_empty (parse_cni_args (Driver.Args args)) "K8S_POD_NAMESPACE".

Definition cni_pod_name (args : Driver.CmdArgs) : string :=
  get_or_empty (parse_cni_args (Driver.Args args)) "K8S_POD_NAME".

Lemma install_not_attached iface al i nic rest ip c t :
  inst_NetworkInterfaces i = nic :: rest ->
  nic_Name nic = iface ->
  ~ In (Driver.slash32 ip) (map IpCidrRange al) ->
  ~ attached (<[t := install_aliases iface al i]> c) t ip.
Proof. apply install_detaches. Qed.

(** X10.  A DEL in which every call goes through, for a pod that has an
    address and no move-out annotation, returns nil; the first interface of
    the instance is left with its alias ranges minus every [<ip>/32], in
    their order; and the pool has lost the key of the address, its other
    allocations and the other pools being as before.  When the pool does
    not exist the release fails, and the DEL still returns nil with the
    alias removed. *)
Theorem X10_del_detaches_and_releases :
  forall parseConfig fuel args w conf pod ip ips inst nic nics flags polls,
    w_faults w = [] ->
    Driver.Netns args <> EmptyString ->
    parseConfig (Driver.StdinData args) = inr conf ->
    w_pods w !! (cni_namespace args, cni_pod_name args) = Some pod ->
    pod_PodIPs pod = ip :: ips ->
    pod_Annotations pod !! Driver.MoveOutAnnotation = None ->
    (2 < String.length (md_Zone (w_metadata w)))%nat ->
    w_instances w !! md_InstanceName (w_metadata w) = Some inst ->
    inst_NetworkInterfaces inst = nic :: nics ->
    w_polls w = map PollRunning flags ++ PollDone None :: polls ->
    (length flags < fuel)%nat ->
    exists w',
      Driver.cmdDel parseConfig fuel args w = (Ok tt, w')
      /\ w_instances w'
         = <[md_InstanceName (w_metadata w) :=
               install_aliases (nic_Name nic)
                 (Driver.without_alias ip (nic_AliasIpRanges nic)) inst]> (w_instances w)
      /\ ~ attached (w_instances w') (md_InstanceName (w_metadata w)) ip
      /\ (forall other, other <> pool_name_for conf nic ->
                        w_pools w' !! other = w_pools w !! other)
      /\ match w_pools w !! pool_name_for conf nic with
         | Some p =>
             exists p', w_pools w' !! pool_name_for conf nic = Some p'
                        /\ map_of (Allocations (Spec p'))
                           = delete ip (map_of (Allocations (Spec p)))
         | None => w_pools w' = w_pools w
         end.
Proof.
  intros parseConfig fuel args w conf pod ip ips inst nic nics flags polls
         Hf Hns Hconf Hpod Hips Hmove Hz Hinst Hnics Hpolls Hfuel.
  unfold cni_namespace, cni_pod_name in Hpod.
  unfold Driver.cmdDel.
  apply String.eqb_neq in Hns. rewrite Hns.
  unfold Driver.with_lock.
  rewrite (log_nofault EvLock w Hf).
  unfold Driver.parse_config. rewrite Hconf.
  unfold bind at 1. unfold ret at 1.
  rewrite (bind_run _ _ _ _ _ (map_err_Ok_run _ _ _ _ _ (remote_logged _ _ _))).
  rewrite (bind_run _ _ _ _ _ (map_err_Ok_run _ _ _ _ _ (Pods_Get_logged _ _ _ _ _ Hpod))).
  rewrite Hmove, Hips. unfold index0 at 1. unfold bind at 1. unfold ret at 1.
  rewrite (bind_run _ _ _ _ _ (map_err_Ok_run _ _ _ _ _ (remote_logged _ _ _))).
  rewrite (bind_run _ _ _ _ _ (getInstanceInfo_logged _ _ Hz)).
  rewrite (bind_run _ _ _ _ _ (map_err_Ok_run _ _ _ _ _ (Instances_Get_logged _ _ _ _ Hinst))).
  rewrite (bind_run _ _ _ _ _ (map_err_Ok_run _ _ _ _ _ (Instances_Get_logged _ _ _ _ Hinst))).
  rewrite Hnics. unfold index0 at 1. unfold bind at 1. unfold ret at 1.
  rewrite <- !app_assoc. cbn [app].
  match goal with |- context [logged ?tr w] => set (tr0 := tr) end.
  destruct (update_and_wait fuel (md_InstanceName (w_metadata w)) nic nics
              (Driver.without_alias ip (nic_AliasIpRanges nic)) tr0 w inst flags None polls
              Hinst Hnics Hpolls Hfuel)
    as (w2 & Hrun & Hf2 & Hi2 & Hp2 & _ & _ & _ & _ & _ & _).
  specialize (Hi2 eq_refl). cbn [update_outcome] in Hrun.
  rewrite (bind_assoc _
             (fun c => map_err (Wrapped "failed to wait for network interface update operation")
                         (Driver.waitForInstanceOperation fuel c))
             (fun _ => Driver.del_release conf inst ip)).
  rewrite (bind_run _ _ _ _ _ Hrun).
  (* the release *)
  unfold Driver.del_release. unfold bind at 1.
  rewrite (try_Ok _ _ _ _ (remote_nofault _ _ Hf2)).
  rewrite Hnics. unfold index0 at 1. unfold bind at 1. unfold ret at 1.
  fold (pool_name_for conf nic).
  set (w3 := set_faults [] (log (EvCall "buildDynamicClient") w2)).
  assert (Hf3 : w_faults w3 = []) by reflexivity.
  assert (Hp3 : w_pools w3 = w_pools w) by exact Hp2.
  assert (Hi3 : w_instances w3 = w_instances w2) by reflexivity.
  pose proof (pool_only_Release (pool_name_for conf nic) ip w3) as (Hi4 & _).
  assert (Hnot : ~ attached (<[md_InstanceName (w_metadata w) :=
                                 install_aliases (nic_Name nic)
                                   (Driver.without_alias ip (nic_AliasIpRanges nic)) inst]>
                              (w_instances w)) (md_InstanceName (w_metadata w)) ip).
  { apply (install_not_attached _ _ _ nic nics); [exact Hnics | reflexivity |].
    apply without_alias_spec. }
  destruct (w_pools w !! pool_name_for conf nic) as [p|] eqn:Ep.
  - destruct (Release_nofault (pool_name_for conf nic) ip w3 p Hf3) as (w4 & Hrel & _ & _);
      [rewrite Hp3; exact Ep|].
    rewrite Hrel in Hi4. cbn [snd] in Hi4.
    unfold bind at 1. unfold try at 1. rewrite Hrel. unfold ret.
    eexists. split; [reflexivity|]. cbn [w_instances w_pools log].
    destruct (Release_Ok_inv _ _ _ _ _ Hrel) as (p0 & Hp0 & Hw4).
    rewrite Hp3, Ep in Hp0. injection Hp0 as <-.
    rewrite Hi4, Hi3, Hi2, Hw4, Hp3.
    split; [reflexivity|]. split; [exact Hnot|]. split.
    + intros other Hne. apply lookup_insert_ne. congruence.
    + eexists. split; [apply lookup_insert_eq|]. apply released_pool_allocations.
  - assert (Hrel := Release_no_pool (pool_name_for conf nic) ip w3 I).
    rewrite Hp3 in Hrel. specialize (Hrel Ep).
    unfold bind at 1. unfold try at 1. rewrite Hrel. unfold ret.
    eexists. split; [reflexivity|]. cbn [w_instances w_pools log set_faults].
    fold w3. rewrite Hi3, Hi2, Hp3.
    split; [reflexivity|]. split; [exact Hnot|]. split; [reflexivity|]. reflexivity.
Qed.

Definition del_world_ok : World :=
  mkWorld {[ "ippool-subnet-a" := migration_pool ]}
    {[ ("ns", "p1") := mkPod "uid-1" ∅ ["10.111.0.5"] ]}
    (mkMetadata "proj" "europe-west1-b" "nodeB")
    {[ "nodeB" := node "nodeB" [mkAliasIpRange "10.111.0.9/32" "live";
                                mkAliasIpRange "10.111.0.5/32" "live"] ]}
    {[ "subnet-a" := mkSubnetwork "10.0.0.0/24" 7 [] ]} ∅ ∅ "10.111.0.0/16" 0 []
    [PollRunning true; PollDone None] [] [].

Lemma X10_witness :
  exists w',
    Driver.cmdDel any_conf 3 del_args del_world_ok = (Ok tt, w')
    /\ ~ attached (w_instances w') "nodeB" "10.111.0.5"
    /\ exists p', w_pools w' !! "ippool-subnet-a" = Some p'
                  /\ map_of (Allocations (Spec p'))
                     = delete "10.111.0.5" (map_of (Allocations (Spec migration_pool))).
Proof.
  destruct (X10_del_detaches_and_releases any_conf 3 del_args del_world_ok
              (Driver.mkPluginConf "1.0.0" EmptyString)
              (mkPod "uid-1" ∅ ["10.111.0.5"]) "10.111.0.5" []
              (node "nodeB" [mkAliasIpRange "10.111.0.9/32" "live";
                             mkAliasIpRange "10.111.0.5/32" "live"])
              (mkNetworkInterface "nic0" 1 "projects/proj/global/networks/default"
                 subnet_a_url [mkAliasIpRange "10.111.0.9/32" "live";
                               mkAliasIpRange "10.111.0.5/32" "live"])
              [] [true] [])
    as (w' & Hrun & _ & Hnot & _ & Hpool).
  - reflexivity.
  - discriminate.
  - reflexivity.
  - vm_compute. reflexivity.
  - reflexivity.
  - vm_compute. reflexivity.
  - vm_compute. lia.
  - vm_compute. reflexivity.
  - reflexivity.
  - reflexivity.
  - cbn [length]. lia.
  - exists w'. split; [exact Hrun|]. split; [exact Hnot|].
    exact Hpool.
Defined.

(** ** Verbs that do not write to the pool *)

Definition silent_step (w w' : World) : Prop :=
  w_pools w' = w_pools w
  /\ exists tr, w_trace w' = w_trace w ++ tr /\ Forall (fun ev => ~ pool_write ev) tr.

Definition pool_silent {A} (m : M A) : Prop := forall w, silent_step w (snd (m w)).

Lemma silent_step_refl w : silent_step w w.
Proof. split; [reflexivity|]. exists []. rewrite app_nil_r. split; [reflexivity | apply Forall_nil_2]. Qed.

Lemma silent_step_trans w1 w2 w3 : silent_step w1 w2 -> silent_step w2 w3 -> silent_step w1 w3.
Proof.
  intros (P1 & t1 & T1 & F1) (P2 & t2 & T2 & F2). split; [congruence|].
  exists (t1 ++ t2). split; [rewrite T2, T1, app_assoc; reflexivity|].
  apply Forall_app. auto.
Qed.

Lemma quiet_silent w w' : quiet_step w w' -> silent_step w w'.
Proof.
  intros (P & _ & _ & _ & _ & _ & tr & T & F). split; [exact P|].
  exists tr. split; [exact T|]. apply calm_not_pool_write.
  eapply Forall_impl; [exact F | apply quiet_calm].
Qed.

Lemma silent_log ev w : ~ pool_write ev -> silent_step w (log ev w).
Proof.
  intros H. split; [reflexivity|]. exists [ev]. split; [reflexivity|].
  apply Forall_cons_2; [exact H | apply Forall_nil_2].
Qed.

Lemma pool_silent_quietly {A} (m : M A) : quietly m -> pool_silent m.
Proof. intros H w. apply quiet_silent, H. Qed.

Lemma silent_bind_at {A B} (m : M A) (k : A -> M B) w :
  silent_step w (snd (m w)) ->
  (forall a w1, m w = (Ok a, w1) -> silent_step w1 (snd (k a w1))) ->
  silent_step w (snd (bind m k w)).
Proof.
  intros Hm Hk. unfold bind.
  destruct (m w) as [[a|e|msg|] w1] eqn:E; cbn [snd] in *; try exact Hm.
  eapply silent_step_trans; [exact Hm | apply Hk; reflexivity].
Qed.

Lemma pool_silent_bind {A B} (m : M A) (k : A -> M B) :
  pool_silent m -> (forall a, pool_silent (k a)) -> pool_silent (bind m k).
Proof. intros Hm Hk w. apply silent_bind_at; [apply Hm | intros a w1 _; apply Hk]. Qed.

Lemma pool_silent_map_err {A} f (m : M A) : pool_silent m -> pool_silent (map_err f m).
Proof.
  intros Hm w. unfold map_err. specialize (Hm w).
  destruct (m w) as [[a|e|msg|] w1]; exact Hm.
Qed.

Lemma pool_silent_ret {A} (a : A) : pool_silent (ret a).
Proof. intros w. apply silent_step_refl. Qed.

Lemma pool_silent_update inst nicName fp al :
  pool_silent (Instances_UpdateNetworkInterface inst nicName fp al).
Proof.
  intros w.
  destruct (Instances_UpdateNetworkInterface inst nicName fp al w) as [o w'] eqn:E.
  destruct (update_spec _ _ _ _ _ _ _ E) as (P & _ & _ & _ & _ & H). cbn [snd].
  split; [exact P|].
  destruct o as [op|e|msg|]; try contradiction.
  - destruct H as [T _]. eexists. split; [exact T|].
    apply Forall_cons_2; [exact (fun x => x)|].
    apply Forall_cons_2; [exact (fun x => x) | apply Forall_nil_2].
  - eexists. split; [exact H|].
    apply Forall_cons_2; [exact (fun x => x) | apply Forall_nil_2].
Qed.

Lemma silent_same w w' :
  w_pools w' = w_pools w -> w_trace w' = w_trace w -> silent_step w w'.
Proof.
  intros P T. split; [exact P|]. exists []. rewrite app_nil_r.
  split; [exact T | apply Forall_nil_2].
Qed.

Lemma pool_silent_poll op : pool_silent (ZoneOperations_Get op).
Proof.
  apply pool_silent_bind; [apply pool_silent_quietly, quietly_remote; exact I|].
  intros _ w.
  destruct (w_operations w !! op) as [o|]; [|apply silent_step_refl].
  destruct (carry_out_fields op o (set_polls (tail (w_polls w)) w))
    as (_ & _ & Hp & _ & _ & _ & Ht & _).
  destruct (match w_polls w with [] => PollDone None | r :: _ => r end) as [[|]|[errs|]];
    cbn [snd].
  - apply silent_same; [rewrite Hp | rewrite Ht]; reflexivity.
  - apply silent_same; reflexivity.
  - apply silent_same; reflexivity.
  - eapply silent_step_trans; [|apply silent_log; exact (fun x => x)].
    apply silent_same; [rewrite Hp | rewrite Ht]; reflexivity.
Qed.

Lemma pool_silent_wait fuel : forall op, pool_silent (Driver.waitForInstanceOperation fuel op).
Proof.
  induction fuel as [|fuel IH]; intros op; cbn [Driver.waitForInstanceOperation].
  - intros w. apply silent_step_refl.
  - apply pool_silent_bind; [apply pool_silent_poll|]. intros st.
    destruct (String.eqb (os_Status st) "DONE").
    + destruct (os_Error st); intros w; apply silent_step_refl.
    + apply pool_silent_bind; [apply pool_silent_quietly, quietly_Sleep|].
      intros _. apply IH.
Qed.

(** X11.  A DEL for a pod that carries the move-out annotation does not
    write to the pool, whatever the cluster API and the cloud answer and
    however far it gets: the pools are as before and no pool update or
    create is among its calls.  The allocation stays with the address for
    the ADD on the destination node. *)
Theorem X11_del_with_move_out_keeps_the_allocation :
  forall parseConfig fuel args w pod v,
    w_pods w !! (cni_namespace args, cni_pod_name args) = Some pod ->
    pod_Annotations pod !! Driver.MoveOutAnnotation = Some v ->
    let w' := snd (Driver.cmdDel parseConfig fuel args w) in
    w_pools w' = w_pools w
    /\ exists tr, w_trace w' = w_trace w ++ tr /\ Forall (fun ev => ~ pool_write ev) tr.
Proof.
  intros parseConfig fuel args w pod v Hpod Hmove. cbv zeta.
  change (silent_step w (snd (Driver.cmdDel parseConfig fuel args w))).
  unfold cni_namespace, cni_pod_name in Hpod.
  unfold Driver.cmdDel.
  destruct (String.eqb (Driver.Netns args) EmptyString); [apply silent_step_refl|].
  unfold Driver.with_lock.
  assert (HL : silent_step w (log EvLock w)) by (apply silent_log; exact (fun x => x)).
  match goal with |- context [?body (log EvLock w)] =>
    assert (Hbody : silent_step (log EvLock w) (snd (body (log EvLock w))));
    [| destruct (body (log EvLock w)) as [o wb]; cbn [snd] in Hbody;
       assert (HU : silent_step wb (log EvUnlock wb)) by (apply silent_log; exact (fun x => x));
       pose proof (silent_step_trans _ _ _ HL Hbody) as Hb;
       pose proof (silent_step_trans _ _ _ Hb HU) as Hu;
       destruct o; cbn [snd]; assumption ]
  end.
  apply silent_bind_at; [apply quiet_silent, quietly_parse_config|].
  intros conf w1 E1. pose proof (quietly_run _ _ _ _ (quietly_parse_config _ _) E1) as Q1.
  apply silent_bind_at;
    [apply quiet_silent, quietly_map_err, quietly_remote; exact I|].
  intros [] w2 E2.
  pose proof (quietly_run _ _ _ _
                (quietly_map_err _ _ (quietly_remote (EvCall "buildKubeClient") I)) E2) as Q2.
  apply silent_bind_at; [apply quiet_silent, quietly_map_err, quietly_Pods_Get|].
  intros p w3 E3.
  apply map_err_Ok, Pods_Get_Ok in E3.
  assert (Hp : p = pod).
  { destruct Q1 as (_ & P1 & _), Q2 as (_ & P2 & _).
    cbn [w_pods log] in P1. rewrite P2, P1, Hpod in E3. congruence. }
  subst p. rewrite Hmove.
  apply pool_silent_bind; [apply pool_silent_quietly, quietly_index0|]. intros ip.
  apply pool_silent_bind;
    [apply pool_silent_quietly, quietly_map_err, quietly_remote; exact I|]. intros _.
  apply pool_silent_bind; [apply pool_silent_quietly, quietly_getInstanceInfo|].
  intros [[[projectID zone] region] instanceName].
  apply pool_silent_bind; [apply pool_silent_quietly, quietly_map_err, quietly_Instances_Get|].
  intros instance.
  apply pool_silent_bind; [apply pool_silent_quietly, quietly_map_err, quietly_Instances_Get|].
  intros i.
  apply pool_silent_bind; [apply pool_silent_quietly, quietly_index0|]. intros nic.
  apply pool_silent_bind; [apply pool_silent_map_err, pool_silent_update|]. intros c.
  apply pool_silent_bind; [apply pool_silent_map_err, pool_silent_wait|]. intros _.
  apply pool_silent_ret.
Qed.

Definition moving_out_world : World :=
  mkWorld {[ "ippool-subnet-a" := migration_pool ]}
    {[ ("ns", "p1") := mkPod "uid-1" {[ Driver.MoveOutAnnotation := "true" ]} ["10.111.0.5"] ]}
    (mkMetadata "proj" "europe-west1-b" "nodeA")
    {[ "nodeA" := node "nodeA" [mkAliasIpRange "10.111.0.5/32" "live"] ]}
    {[ "subnet-a" := mkSubnetwork "10.0.0.0/24" 7 [] ]} ∅ ∅ "10.111.0.0/16" 0 []
    [PollDone None] [] [].

Lemma X11_witness :
  let w' := snd (Driver.cmdDel any_conf 3 del_args moving_out_world) in
  w_pools w' = w_pools moving_out_world
  /\ exists tr, w_trace w' = w_trace moving_out_world ++ tr
                /\ Forall (fun ev => ~ pool_write ev) tr.
Proof.
  apply (X11_del_with_move_out_keeps_the_allocation any_conf 3 del_args moving_out_world
           (mkPod "uid-1" {[ Driver.MoveOutAnnotation := "true" ]} ["10.111.0.5"]) "true").
  - vm_compute. reflexivity.
  - vm_compute. reflexivity.
Defined.

(** ** ADD *)

Lemma add_preamble_logged parseConfig args tr w conf pod inst nic nics subnet :
  parseConfig (Driver.StdinData args) = inr conf ->
  w_pods w !! (cni_namespace args, cni_pod_name args) = Some pod ->
  (2 < String.length (md_Zone (w_metadata w)))%nat ->
  w_instances w !! md_InstanceName (w_metadata w) = Some inst ->
  inst_NetworkInterfaces inst = nic :: nics ->
  w_subnets w !! last_part (split_on "/" (nic_Subnetwork nic)) = Some subnet ->
  Driver.add_preamble parseConfig args (logged tr w)
  = (Ok (Driver.mkAddContext conf (cni_pod_name args) (cni_namespace args) pod
           (md_InstanceName (w_metadata w)) inst nic subnet (pool_name_for conf nic)),
     logged (tr ++ [EvCall "buildKubeClient";
                    EvPodGet (cni_namespace args) (cni_pod_name args);
                    EvCall "google.DefaultClient"; EvCall "compute.New";
                    EvCall "metadata.ProjectID"; EvCall "metadata.Zone";
                    EvCall "metadata.InstanceName";
                    EvInstanceGet (md_InstanceName (w_metadata w));
                    EvSubnetGet (last_part (split_on "/" (nic_Subnetwork nic)));
                    EvCall "buildDynamicClient"]) w).
Proof.
  intros Hconf Hpod Hz Hinst Hnics Hsub.
  unfold cni_namespace, cni_pod_name in *.
  unfold Driver.add_preamble, Driver.parse_config. rewrite Hconf.
  unfold bind at 1. unfold ret at 1.
  rewrite (bind_run _ _ _ _ _ (map_err_Ok_run _ _ _ _ _ (remote_logged _ _ _))).
  rewrite (bind_run _ _ _ _ _ (map_err_Ok_run _ _ _ _ _ (Pods_Get_logged _ _ _ _ _ Hpod))).
  rewrite (bind_run _ _ _ _ _ (map_err_Ok_run _ _ _ _ _ (remote_logged _ _ _))).
  rewrite (bind_run _ _ _ _ _ (getInstanceInfo_logged _ _ Hz)).
  rewrite (bind_run _ _ _ _ _ (map_err_Ok_run _ _ _ _ _ (Instances_Get_logged _ _ _ _ Hinst))).
  rewrite Hnics. unfold index0 at 1. unfold bind at 1. unfold ret at 1.
  rewrite (bind_run _ _ _ _ _ (map_err_Ok_run _ _ _ _ _ (Subnetworks_Get_logged _ _ _ _ Hsub))).
  rewrite (bind_run _ _ _ _ _ (map_err_Ok_run _ _ _ _ _ (remote_logged _ _ _))).
  unfold ret, pool_name_for. rewrite <- !app_assoc. reflexivity.
Qed.

(** [Allocate] when every call goes through and [x] is the lowest free
    usable address of the pool. *)
Lemma Allocate_lowest req w p A n x :
  w_faults w = [] ->
  Ipam.req_RequestedIP req = EmptyString ->
  w_pools w !! Ipam.req_PoolName req = Some p ->
  parse_v4 (CIDR (Spec p)) = Some (A, n) ->
  network_addr A n < x < broadcast_addr A n ->
  free (map_of (Allocations (Spec p))) x ->
  (forall y, network_addr A n < y < x -> ~ free (map_of (Allocations (Spec p))) y) ->
  exists w',
    Ipam.Allocate req w = (Ok (allocation_result (Net.IP_String (ip_of_Z x)) p), w')
    /\ w_faults w' = []
    /\ w_now w' = w_now w
    /\ w_pools w' = <[Ipam.req_PoolName req :=
                        allocated_pool req (Net.IP_String (ip_of_Z x)) (w_now w)
                          (Ipam.req_PoolName req) p]> (w_pools w).
Proof.
  intros Hf Hreq Hp Hparse Hx Hfree Hlow.
  assert (Hfind : Ipam.findAvailableIP (CIDR (Spec p)) (map_of (Allocations (Spec p)))
                  = Ok (Net.IP_String (ip_of_Z x))).
  { rewrite (findAvailableIP_spec _ _ A n Hparse).
    rewrite (lowest_free_first _ _ _ x); [reflexivity | | exact Hfree |].
    - destruct (parse_v4_range _ _ _ Hparse) as [HA Hn].
      pose proof (broadcast_addr_spec A n Hn HA).
      assert (0 <= broadcast_addr A n - network_addr A n - 1) by lia.
      rewrite Z2Nat.id by lia. lia.
    - intros y Hy. apply Hlow. lia. }
  destruct (Allocate_nofault req w p Hf Hp) as (o & w' & Ha & Ht & Hf' & Hcases).
  assert (Ho : o = Ok (allocation_result (Net.IP_String (ip_of_Z x)) p)).
  { destruct Hcases as [(key & Hsel & ->) | [(_ & e & He & _) | (Hne & _)]].
    - unfold selected in Hsel. rewrite Hreq in Hsel. cbn in Hsel. congruence.
    - congruence.
    - rewrite Hreq in Hne. discriminate Hne. }
  subst o. exists w'. split; [exact Ha|]. split; [exact Hf'|].
  destruct (tryAllocate_inv req w _ w' Ht) as (Hnow & _ & p0 & key & Hp0 & Hsel & Hr & Hw).
  split; [exact Hnow|].
  assert (p0 = p) by congruence. subst p0.
  injection Hr as Hk. rewrite Hk. exact Hw.
Qed.

Lemma gateway_of_cidr cidr A n :
  parse_v4 cidr = Some (A, n) ->
  exists ip ipNet,
    Net.ParseCIDR cidr = Some (ip, ipNet)
    /\ ip !! 15%nat = Some (A mod 256)
    /\ <[15%nat := wrap8 (A mod 256 + 1)]> ip
       = Net.v4InV6Prefix ++ <[3%nat := wrap8 (A mod 256 + 1)]> (ip_of_Z A).
Proof.
  intros H. destruct (parse_v4_inv _ _ _ H) as (a & Ha & -> & Hn & Hparse).
  destruct (ip4_inv a Ha) as (a0 & a1 & a2 & a3 & -> & H0 & H1 & H2 & H3).
  eexists _, _. split; [exact Hparse|].
  rewrite (ip_of_Z_be_val _ Ha).
  assert (Hm : be_val [a0; a1; a2; a3] mod 256 = a3).
  { rewrite be_val_4. unfold is_byte in *.
    replace (((a0 * 256 + a1) * 256 + a2) * 256 + a3)
      with (a3 + ((a0 * 256 + a1) * 256 + a2) * 256) by lia.
    rewrite Z.mod_add by lia. apply Z.mod_small. lia. }
  rewrite Hm. split; reflexivity.
Qed.

(** The range name an ADD asks the cloud for. *)
Definition range_name_of (p : IPPool) : string :=
  if String.eqb (SecondaryRangeName (Spec p)) EmptyString then "live"
  else SecondaryRangeName (Spec p).

(** The body of [cmdAdd] up to the result, for a pod without migration
    annotations, when every call goes through, [x] is the lowest free
    usable address and the polls of the attach end in [err]. *)
Lemma add_body_run parseConfig fuel args w conf pod inst nic nics subnet p A n x flags err polls :
  w_faults w = [] ->
  parseConfig (Driver.StdinData args) = inr conf ->
  w_pods w !! (cni_namespace args, cni_pod_name args) = Some pod ->
  pod_Annotations pod !! Driver.LiveIPAnnotation = None ->
  pod_Annotations pod !! Driver.OriginalInstanceAnnotation = None ->
  (2 < String.length (md_Zone (w_metadata w)))%nat ->
  w_instances w !! md_InstanceName (w_metadata w) = Some inst ->
  inst_NetworkInterfaces inst = nic :: nics ->
  w_subnets w !! last_part (split_on "/" (nic_Subnetwork nic)) = Some subnet ->
  w_pools w !! pool_name_for conf nic = Some p ->
  parse_v4 (CIDR (Spec p)) = Some (A, n) ->
  network_addr A n < x < broadcast_addr A n ->
  free (map_of (Allocations (Spec p))) x ->
  (forall y, network_addr A n < y < x -> ~ free (map_of (Allocations (Spec p))) y) ->
  w_polls w = map PollRunning flags ++ PollDone err :: polls ->
  (length flags < fuel)%nat ->
  let key := Net.IP_String (ip_of_Z x) in
  let alias := mkAliasIpRange (Driver.slash32 key) (range_name_of p) in
  let ctx := Driver.mkAddContext conf (cni_pod_name args) (cni_namespace args) pod
               (md_InstanceName (w_metadata w)) inst nic subnet (pool_name_for conf nic) in
  exists w2 p',
    (ctx <- Driver.add_preamble parseConfig args ;;
     allocation <- Driver.add_allocation ctx ;;
     let '(newAddress, allocationResult) := allocation in
     Driver.add_source_detach fuel ctx ;;;
     Driver.add_destination_attach fuel ctx newAddress allocationResult ;;;
     Driver.add_result ctx newAddress allocationResult) (log EvLock w)
    = match err with
      | None => Driver.add_result ctx key (allocation_result key p) w2
      | Some _ => (match update_outcome err with Err e => Err e | _ => OutOfFuel end, w2)
      end
    /\ w_faults w2 = []
    /\ w_pools w2 !! pool_name_for conf nic = Some p'
    /\ map_of (Allocations (Spec p'))
       = <[key := mkIPAllocation (cni_pod_name args) (cni_namespace args) (pod_UID pod)
                    (md_InstanceName (w_metadata w)) (w_now w)]>
           (map_of (Allocations (Spec p)))
    /\ (forall other, other <> pool_name_for conf nic ->
                      w_pools w2 !! other = w_pools w !! other)
    /\ (err = None ->
        w_instances w2
        = <[md_InstanceName (w_metadata w) :=
              install_aliases (nic_Name nic) (nic_AliasIpRanges nic ++ [alias]) inst]>
            (w_instances w)).
Proof.
  intros Hf Hconf Hpod Hlive Horig Hz Hinst Hnics Hsub Hpool Hparse Hx Hfree Hlow
         Hpolls Hfuel. cbv zeta.
  rewrite (log_nofault EvLock w Hf).
  rewrite (bind_run _ _ _ _ _
             (add_preamble_logged parseConfig args _ w conf pod inst nic nics subnet
                Hconf Hpod Hz Hinst Hnics Hsub)).
  cbn [app].
  match goal with |- context [logged ?tr w] => set (tr0 := tr) end.
  set (req := Ipam.mkAllocationRequest (pool_name_for conf nic) (cni_pod_name args)
                (cni_namespace args) (pod_UID pod) (md_InstanceName (w_metadata w))
                EmptyString).
  destruct (Allocate_lowest req (logged tr0 w) p A n x eq_refl eq_refl Hpool Hparse Hx Hfree Hlow)
    as (w1 & Halloc & Hf1 & Hnow1 & Hpools1).
  pose proof (pool_only_Allocate req (logged tr0 w)) as Hsame.
  rewrite Halloc in Hsame. cbn [snd] in Hsame.
  destruct Hsame as (Hi1 & _ & Hmd1 & _ & _ & _ & Hpl1 & _).
  cbn [w_instances w_metadata w_polls w_now w_pools logged] in Hi1, Hmd1, Hpl1, Hnow1, Hpools1.
  unfold bind at 1. unfold Driver.add_allocation.
  cbn [Driver.ctx_pod]. rewrite Hlive.
  cbn [Driver.ctx_poolName Driver.ctx_podName Driver.ctx_podNamespace Driver.ctx_instanceName].
  fold req.
  rewrite (bind_run _ _ _ _ _ (map_err_Ok_run _ _ _ _ _ Halloc)).
  unfold ret at 1.
  unfold Driver.add_source_detach. cbn [Driver.ctx_pod]. rewrite Horig.
  unfold bind at 1. unfold ret at 1.
  unfold Driver.add_destination_attach, allocation_result.
  cbn [Driver.ctx_instanceName Driver.ctx_nic Ipam.res_IP Ipam.res_SecondaryRangeName].
  fold (range_name_of p).
  rewrite (logged_nil w1 Hf1).
  assert (Hinst1 : w_instances w1 !! md_InstanceName (w_metadata w) = Some inst)
    by (rewrite Hi1; exact Hinst).
  assert (Hpolls1 : w_polls w1 = map PollRunning flags ++ PollDone err :: polls)
    by (rewrite Hpl1; exact Hpolls).
  destruct (update_and_wait fuel (md_InstanceName (w_metadata w)) nic nics
              (nic_AliasIpRanges nic
               ++ [mkAliasIpRange (Driver.slash32 (Net.IP_String (ip_of_Z x)))
                     (range_name_of p)])
              [] w1 inst flags err polls Hinst1 Hnics Hpolls1 Hfuel)
    as (w2 & Hrun & Hf2 & Hi2 & Hp2 & _ & _ & _ & _ & _ & _).
  exists w2, (allocated_pool req (Net.IP_String (ip_of_Z x)) (w_now w)
                (pool_name_for conf nic) p).
  split.
  { unfold bind at 1. rewrite Hrun. destruct err; reflexivity. }
  split; [exact Hf2|].
  rewrite Hp2, Hpools1.
  split; [apply lookup_insert_eq|].
  split; [apply allocated_pool_allocations|].
  split; [intros other Hne; apply lookup_insert_ne; intros E; apply Hne; symmetry; exact E|].
  intros He. rewrite (Hi2 He), Hi1. reflexivity.
Qed.

(** X12.  An ADD in which every call goes through, for a pod without
    migration annotations, on a pool with a free usable address: it returns
    a result; the pool records the lowest free usable address for the pod
    of the call, on this node; the first interface of the instance gets
    that address as a /32 alias, appended to the ones it had, in the range
    named by the pool (["live"] when the pool names none).  The result
    carries that address with the mask of the subnet's primary range, and
    as gateway the address written in the pool's cidr with its last byte
    incremented modulo 256. *)
Theorem X12_add_allocates_and_attaches :
  forall parseConfig fuel args w conf pod inst nic nics subnet sip snet p A n x flags polls,
    w_faults w = [] ->
    parseConfig (Driver.StdinData args) = inr conf ->
    w_pods w !! (cni_namespace args, cni_pod_name args) = Some pod ->
    pod_Annotations pod !! Driver.LiveIPAnnotation = None ->
    pod_Annotations pod !! Driver.OriginalInstanceAnnotation = None ->
    (2 < String.length (md_Zone (w_metadata w)))%nat ->
    w_instances w !! md_InstanceName (w_metadata w) = Some inst ->
    inst_NetworkInterfaces inst = nic :: nics ->
    w_subnets w !! last_part (split_on "/" (nic_Subnetwork nic)) = Some subnet ->
    Net.ParseCIDR (sub_IpCidrRange subnet) = Some (sip, snet) ->
    w_pools w !! pool_name_for conf nic = Some p ->
    parse_v4 (CIDR (Spec p)) = Some (A, n) ->
    network_addr A n < x < broadcast_addr A n ->
    free (map_of (Allocations (Spec p))) x ->
    (forall y, network_addr A n < y < x -> ~ free (map_of (Allocations (Spec p))) y) ->
    w_polls w = map PollRunning flags ++ PollDone None :: polls ->
    (length flags < fuel)%nat ->
    let key := Net.IP_String (ip_of_Z x) in
    let alias := mkAliasIpRange (Driver.slash32 key) (range_name_of p) in
    exists w' p',
      Driver.cmdAdd parseConfig fuel args w
      = (Ok (Driver.mkResult (Driver.conf_CNIVersion conf)
               (Net.mkIPNet (Net.ParseIP key) (Net.IPNet_Mask snet))
               (Net.v4InV6Prefix ++ <[3%nat := wrap8 (A mod 256 + 1)]> (ip_of_Z A))
               (Net.mkIPNet [0; 0; 0; 0] [0; 0; 0; 0])), w')
      /\ w_pools w' !! pool_name_for conf nic = Some p'
      /\ map_of (Allocations (Spec p'))
         = <[key := mkIPAllocation (cni_pod_name args) (cni_namespace args) (pod_UID pod)
                      (md_InstanceName (w_metadata w)) (w_now w)]>
             (map_of (Allocations (Spec p)))
      /\ w_instances w'
         = <[md_InstanceName (w_metadata w) :=
               install_aliases (nic_Name nic) (nic_AliasIpRanges nic ++ [alias]) inst]>
             (w_instances w)
      /\ attached (w_instances w') (md_InstanceName (w_metadata w)) key.
Proof.
  intros parseConfig fuel args w conf pod inst nic nics subnet sip snet p A n x flags polls
         Hf Hconf Hpod Hlive Horig Hz Hinst Hnics Hsub Hscidr Hpool Hparse Hx Hfree Hlow
         Hpolls Hfuel. cbv zeta.
  destruct (add_body_run parseConfig fuel args w conf pod inst nic nics subnet p A n x flags
              None polls Hf Hconf Hpod Hlive Horig Hz Hinst Hnics Hsub Hpool Hparse Hx Hfree
              Hlow Hpolls Hfuel) as (w2 & p' & Hbody & Hf2 & Hp' & Hallocs & _ & Hi2).
  specialize (Hi2 eq_refl).
  unfold Driver.cmdAdd, Driver.with_lock. rewrite Hbody.
  unfold Driver.add_result, allocation_result.
  cbn [Driver.ctx_subnet Driver.ctx_conf Ipam.res_CIDR].
  rewrite Hscidr.
  destruct (gateway_of_cidr _ _ _ Hparse) as (gip & gnet & Hg & Hg15 & Hgw).
  rewrite Hg, Hg15.
  change (Net.ParseCIDR "0.0.0.0/0")
    with (Some (Net.v4InV6Prefix ++ [0; 0; 0; 0], Net.mkIPNet [0; 0; 0; 0] [0; 0; 0; 0])).
  rewrite (bind_run _ _ _ _ _ (remote_nofault _ _ Hf2)).
  unfold ret. rewrite Hgw.
  exists (log EvUnlock (set_faults [] (log EvPrintResult w2))), p'.
  split; [reflexivity|].
  cbn [w_pools w_instances log set_faults].
  split; [exact Hp'|]. split; [exact Hallocs|]. split; [exact Hi2|].
  rewrite Hi2.
  exists (install_aliases (nic_Name nic)
            (nic_AliasIpRanges nic
             ++ [mkAliasIpRange (Driver.slash32 (Net.IP_String (ip_of_Z x)))
                   (range_name_of p)]) inst).
  unfold install_aliases. rewrite Hnics. cbn [map inst_NetworkInterfaces].
  rewrite String.eqb_refl.
  eexists. split; [apply lookup_insert_eq|]. split; [reflexivity|].
  cbn [nic_AliasIpRanges]. rewrite map_app. apply in_or_app. right. left. reflexivity.
Qed.

Definition add_world_ok (polls : list PollReply) : World :=
  mkWorld {[ "ippool-subnet-a" := migration_pool ]}
    {[ ("ns", "p1") := pod_without_ips ]}
    (mkMetadata "proj" "europe-west1-b" "nodeB")
    {[ "nodeB" := node "nodeB" [mkAliasIpRange "10.111.0.9/32" "live"] ]}
    {[ "subnet-a" := mkSubnetwork "10.0.0.0/24" 7 [] ]} ∅ ∅ "10.111.0.0/16" 0 []
    polls [] [].

Lemma X12_witness :
  exists w' p',
    Driver.cmdAdd any_conf 3 del_args (add_world_ok [PollDone None])
    = (Ok (Driver.mkResult "1.0.0"
             (Net.mkIPNet (Net.ParseIP "10.111.0.1") [255; 255; 255; 0])
             (Net.v4InV6Prefix ++ [10; 111; 0; 1])
             (Net.mkIPNet [0; 0; 0; 0] [0; 0; 0; 0])), w')
    /\ w_pools w' !! "ippool-subnet-a" = Some p'
    /\ map_of (Allocations (Spec p')) !! "10.111.0.1"
       = Some (mkIPAllocation "p1" "ns" "uid-1" "nodeB" 0)
    /\ attached (w_instances w') "nodeB" "10.111.0.1".
Proof.
  assert (HN : network_addr 175046656 16 = 175046656) by (vm_compute; reflexivity).
  destruct (X12_add_allocates_and_attaches any_conf 3 del_args (add_world_ok [PollDone None])
              (Driver.mkPluginConf "1.0.0" EmptyString) pod_without_ips
              (node "nodeB" [mkAliasIpRange "10.111.0.9/32" "live"])
              (mkNetworkInterface "nic0" 1 "projects/proj/global/networks/default"
                 subnet_a_url [mkAliasIpRange "10.111.0.9/32" "live"])
              [] (mkSubnetwork "10.0.0.0/24" 7 [])
              (Net.v4InV6Prefix ++ [10; 0; 0; 0])
              (Net.mkIPNet [10; 0; 0; 0] [255; 255; 255; 0])
              migration_pool 175046656 16 175046657 [] [])
    as (w' & p' & Hrun & Hp' & Hallocs & _ & Hatt).
  - reflexivity.
  - reflexivity.
  - vm_compute. reflexivity.
  - vm_compute. reflexivity.
  - vm_compute. reflexivity.
  - vm_compute. lia.
  - vm_compute. reflexivity.
  - reflexivity.
  - vm_compute. reflexivity.
  - vm_compute. reflexivity.
  - vm_compute. reflexivity.
  - vm_compute. reflexivity.
  - vm_compute. split; reflexivity.
  - vm_compute. reflexivity.
  - intros y Hy. rewrite HN in Hy. lia.
  - reflexivity.
  - cbn [length]. lia.
  - exists w', p'. split; [exact Hrun|]. split; [exact Hp'|].
    split; [rewrite Hallocs; apply lookup_insert_eq | exact Hatt].
Defined.

(** X13.  An ADD has no rollback: when the allocation went through and
    the operation that attaches the alias ends in an error, the ADD returns
    [failed to wait for network interface update operation: operation
    failed: ...] and the address it took stays allocated to the pod in the
    pool. *)
Theorem X13_add_keeps_allocation_when_attach_fails :
  forall parseConfig fuel args w conf pod inst nic nics subnet p A n x flags errs polls,
    w_faults w = [] ->
    parseConfig (Driver.StdinData args) = inr conf ->
    w_pods w !! (cni_namespace args, cni_pod_name args) = Some pod ->
    pod_Annotations pod !! Driver.LiveIPAnnotation = None ->
    pod_Annotations pod !! Driver.OriginalInstanceAnnotation = None ->
    (2 < String.length (md_Zone (w_metadata w)))%nat ->
    w_instances w !! md_InstanceName (w_metadata w) = Some inst ->
    inst_NetworkInterfaces inst = nic :: nics ->
    w_subnets w !! last_part (split_on "/" (nic_Subnetwork nic)) = Some subnet ->
    w_pools w !! pool_name_for conf nic = Some p ->
    parse_v4 (CIDR (Spec p)) = Some (A, n) ->
    network_addr A n < x < broadcast_addr A n ->
    free (map_of (Allocations (Spec p))) x ->
    (forall y, network_addr A n < y < x -> ~ free (map_of (Allocations (Spec p))) y) ->
    w_polls w = map PollRunning flags ++ PollDone (Some errs) :: polls ->
    (length flags < fuel)%nat ->
    exists w' p',
      Driver.cmdAdd parseConfig fuel args w
      = (Err (Wrapped "failed to wait for network interface update operation"
                (ErrorString ("operation failed: " +:+ Join errs ", "))), w')
      /\ w_pools w' !! pool_name_for conf nic = Some p'
      /\ map_of (Allocations (Spec p')) !! Net.IP_String (ip_of_Z x)
         = Some (mkIPAllocation (cni_pod_name args) (cni_namespace args) (pod_UID pod)
                   (md_InstanceName (w_metadata w)) (w_now w)).
Proof.
  intros parseConfig fuel args w conf pod inst nic nics subnet p A n x flags errs polls
         Hf Hconf Hpod Hlive Horig Hz Hinst Hnics Hsub Hpool Hparse Hx Hfree Hlow
         Hpolls Hfuel.
  destruct (add_body_run parseConfig fuel args w conf pod inst nic nics subnet p A n x flags
              (Some errs) polls Hf Hconf Hpod Hlive Horig Hz Hinst Hnics Hsub Hpool Hparse Hx
              Hfree Hlow Hpolls Hfuel) as (w2 & p' & Hbody & _ & Hp' & Hallocs & _).
  unfold Driver.cmdAdd, Driver.with_lock. rewrite Hbody. cbn [update_outcome].
  exists (log EvUnlock w2), p'. split; [reflexivity|].
  cbn [w_pools log]. split; [exact Hp'|].
  rewrite Hallocs. apply lookup_insert_eq.
Qed.

Lemma X13_witness :
  exists w' p',
    Driver.cmdAdd any_conf 3 del_args (add_world_ok [PollDone (Some ["quota"; "denied"])])
    = (Err (Wrapped "failed to wait for network interface update operation"
              (ErrorString "operation failed: quota, denied")), w')
    /\ w_pools w' !! "ippool-subnet-a" = Some p'
    /\ map_of (Allocations (Spec p')) !! "10.111.0.1"
       = Some (mkIPAllocation "p1" "ns" "uid-1" "nodeB" 0).
Proof.
  assert (HN : network_addr 175046656 16 = 175046656) by (vm_compute; reflexivity).
  apply (X13_add_keeps_allocation_when_attach_fails any_conf 3 del_args
           (add_world_ok [PollDone (Some ["quota"; "denied"])])
           (Driver.mkPluginConf "1.0.0" EmptyString) pod_without_ips
           (node "nodeB" [mkAliasIpRange "10.111.0.9/32" "live"])
           (mkNetworkInterface "nic0" 1 "projects/proj/global/networks/default"
              subnet_a_url [mkAliasIpRange "10.111.0.9/32" "live"])
           [] (mkSubnetwork "10.0.0.0/24" 7 [])
           migration_pool 175046656 16 175046657 [] ["quota"; "denied"] []).
  - reflexivity.
  - reflexivity.
  - vm_compute. reflexivity.
  - vm_compute. reflexivity.
  - vm_compute. reflexivity.
  - vm_compute. lia.
  - vm_compute. reflexivity.
  - reflexivity.
  - vm_compute. reflexivity.
  - vm_compute. reflexivity.
  - vm_compute. reflexivity.
  - vm_compute. split; reflexivity.
  - vm_compute. reflexivity.
  - intros y Hy. rewrite HN in Hy. lia.
  - reflexivity.
  - cbn [length]. lia.
Defined.

(** Every allocation of [w] is still there, unchanged, in [w']. *)
Definition allocations_kept (w w' : World) : Prop :=
  forall name p key a,
    w_pools w !! name = Some p ->
    map_of (Allocations (Spec p)) !! key = Some a ->
    exists p', w_pools w' !! name = Some p' /\ map_of (Allocations (Spec p')) !! key = Some a.

Lemma allocations_kept_same w w' : w_pools w' = w_pools w -> allocations_kept w w'.
Proof. intros H name p key a Hp Ha. exists p. rewrite H. auto. Qed.

Lemma allocations_kept_trans w1 w2 w3 :
  allocations_kept w1 w2 -> allocations_kept w2 w3 -> allocations_kept w1 w3.
Proof.
  intros H1 H2 name p key a Hp Ha.
  destruct (H1 name p key a Hp Ha) as (p' & Hp' & Ha').
  apply (H2 name p' key a Hp' Ha').
Qed.

Definition keeps_allocations {A} (m : M A) : Prop :=
  forall w, allocations_kept w (snd (m w)).

Lemma keeps_silent {A} (m : M A) : pool_silent m -> keeps_allocations m.
Proof. intros H w. apply allocations_kept_same, H. Qed.

Lemma keeps_bind {A B} (m : M A) (k : A -> M B) :
  keeps_allocations m -> (forall a, keeps_allocations (k a)) -> keeps_allocations (bind m k).
Proof.
  intros Hm Hk w. unfold bind. specialize (Hm w).
  destruct (m w) as [[a|e|msg|] w1]; cbn [snd] in *; try exact Hm.
  eapply allocations_kept_trans; [exact Hm | apply Hk].
Qed.

Lemma keeps_map_err {A} f (m : M A) : keeps_allocations m -> keeps_allocations (map_err f m).
Proof.
  intros Hm w. unfold map_err. specialize (Hm w).
  destruct (m w) as [[a|e|msg|] w1]; exact Hm.
Qed.

Lemma keeps_Allocate req : keeps_allocations (Ipam.Allocate req).
Proof.
  intros w. destruct (Ipam.Allocate req w) as [o w'] eqn:E. cbn [snd].
  destruct o as [r|e|msg|].
  - destruct (Allocate_Ok_inv _ _ _ _ E) as (p0 & k0 & t & Hp0 & Hsel & _ & _ & Hw).
    intros name p key a Hp Ha. rewrite Hw.
    destruct (decide (name = Ipam.req_PoolName req)) as [->|Hne].
    + rewrite lookup_insert_eq. eexists. split; [reflexivity|].
      rewrite allocated_pool_allocations.
      assert (p0 = p) by congruence. subst p0.
      rewrite lookup_insert_ne; [exact Ha|].
      intros ->. rewrite (selected_fresh _ _ _ Hsel) in Ha. discriminate Ha.
    + rewrite lookup_insert_ne by congruence. exists p. auto.
  - apply allocations_kept_same. apply (Allocate_Err_inv _ _ _ _ E).
  - unfold Ipam.Allocate in E. apply Allocate_loop_inv in E. contradiction.
  - unfold Ipam.Allocate in E. apply Allocate_loop_inv in E. contradiction.
Qed.

Lemma pool_silent_add_source_detach fuel ctx :
  pool_silent (Driver.add_source_detach fuel ctx).
Proof.
  unfold Driver.add_source_detach.
  destruct (_ !! Driver.OriginalInstanceAnnotation); [|apply pool_silent_ret].
  apply pool_silent_bind; [apply pool_silent_quietly, quietly_map_err, quietly_Instances_Get|].
  intros i.
  apply pool_silent_bind; [apply pool_silent_quietly, quietly_index0|]. intros nic.
  apply pool_silent_bind; [apply pool_silent_map_err, pool_silent_update|]. intros c.
  apply pool_silent_map_err, pool_silent_wait.
Qed.

Lemma pool_silent_add_destination_attach fuel ctx newAddress ar :
  pool_silent (Driver.add_destination_attach fuel ctx newAddress ar).
Proof.
  unfold Driver.add_destination_attach.
  apply pool_silent_bind; [apply pool_silent_map_err, pool_silent_update|]. intros c.
  apply pool_silent_map_err, pool_silent_wait.
Qed.

(** X14.  An ADD never drops or rewrites an allocation: whatever the pod's
    annotations, whatever the cluster API and the cloud answer and however
    the ADD ends, every key that was in a pool's allocations is still there
    with the record it had. *)
Theorem X14_add_never_drops_an_allocation :
  forall parseConfig fuel args w name p key a,
    w_pools w !! name = Some p ->
    map_of (Allocations (Spec p)) !! key = Some a ->
    exists p',
      w_pools (snd (Driver.cmdAdd parseConfig fuel args w)) !! name = Some p'
      /\ map_of (Allocations (Spec p')) !! key = Some a.
Proof.
  intros parseConfig fuel args w.
  change (allocations_kept w (snd (Driver.cmdAdd parseConfig fuel args w))).
  unfold Driver.cmdAdd, Driver.with_lock.
  match goal with |- context [?body (log EvLock w)] =>
    assert (Hbody : keeps_allocations body)
  end.
  { apply keeps_bind; [apply keeps_silent, pool_silent_quietly, quietly_add_preamble|].
    intros ctx. apply keeps_bind.
    { unfold Driver.add_allocation.
      destruct (_ !! Driver.LiveIPAnnotation) as [reqIP|].
      - apply keeps_bind;
          [apply keeps_silent, pool_silent_quietly, quietly_map_err, quietly_GetAllocation|].
        intros r. apply keeps_silent, pool_silent_ret.
      - apply keeps_bind; [apply keeps_map_err, keeps_Allocate|].
        intros r. apply keeps_silent, pool_silent_ret. }
    intros [newAddress ar].
    apply keeps_bind; [apply keeps_silent, pool_silent_add_source_detach|]. intros _.
    apply keeps_bind; [apply keeps_silent, pool_silent_add_destination_attach|]. intros _.
    apply keeps_silent, pool_silent_quietly, quietly_add_result. }
  specialize (Hbody (log EvLock w)).
  match goal with |- context [?body (log EvLock w)] =>
    destruct (body (log EvLock w)) as [o wb]
  end.
  cbn [snd] in Hbody.
  assert (H1 : allocations_kept w wb).
  { eapply allocations_kept_trans; [|exact Hbody]. apply allocations_kept_same. reflexivity. }
  destruct o; cbn [snd]; try exact H1;
    (eapply allocations_kept_trans; [exact H1 | apply allocations_kept_same; reflexivity]).
Qed.

Lemma X14_witness :
  exists p',
    w_pools (snd (Driver.cmdAdd any_conf 3 del_args (add_world_ok [PollDone None])))
    !! "ippool-subnet-a" = Some p'
    /\ map_of (Allocations (Spec p')) !! "10.111.0.5"
       = Some (mkIPAllocation "p1" "ns" "uid-1" "nodeA" 0).
Proof.
  apply (X14_add_never_drops_an_allocation any_conf 3 del_args (add_world_ok [PollDone None])
           "ippool-subnet-a" migration_pool "10.111.0.5"
           (mkIPAllocation "p1" "ns" "uid-1" "nodeA" 0)).
  - vm_compute. reflexivity.
  - vm_compute. reflexivity.
Defined.

(** ** The CNI args string *)

Fixpoint has_char (c : ascii) (s : string) : bool :=
  match s with
  | EmptyString => false
  | String.String a rest => Ascii.eqb a c || has_char c rest
  end.

Definition lacks (c : ascii) (s : string) : Prop := has_char c s = false.

Lemma lacks_cons c a s : lacks c (String.String a s) <-> Ascii.eqb a c = false /\ lacks c s.
Proof. unfold lacks. cbn [has_char]. apply orb_false_iff. Qed.

Lemma lacks_app c a b : lacks c (a +:+ b) <-> lacks c a /\ lacks c b.
Proof.
  induction a as [|x a IH].
  - rewrite append_nil_l. unfold lacks at 2. cbn [has_char]. tauto.
  - rewrite append_cons, !lacks_cons, IH. tauto.
Qed.

Lemma split_on_nonempty sep s : split_on sep s <> [].
Proof.
  destruct s as [|c rest]; cbn [split_on]; [discriminate|].
  destruct (Ascii.eqb c sep); [discriminate|].
  destruct (split_on sep rest); discriminate.
Qed.

Lemma split_on_lacks sep s : lacks sep s -> split_on sep s = [s].
Proof.
  induction s as [|c rest IH]; intros H; [reflexivity|].
  apply lacks_cons in H. destruct H as [Hc Hr].
  cbn [split_on]. rewrite Hc, (IH Hr). reflexivity.
Qed.

Lemma split_on_app sep a b :
  lacks sep a -> split_on sep (a +:+ String.String sep b) = a :: split_on sep b.
Proof.
  induction a as [|c rest IH]; intros H.
  - rewrite append_nil_l. cbn [split_on]. rewrite Ascii.eqb_refl. reflexivity.
  - apply lacks_cons in H. destruct H as [Hc Hr].
    rewrite append_cons. cbn [split_on]. rewrite Hc, (IH Hr). reflexivity.
Qed.

Lemma split2_app sep k v :
  lacks sep k -> split2 sep (k +:+ String.String sep v) = [k; v].
Proof.
  induction k as [|c rest IH]; intros H.
  - rewrite append_nil_l. cbn [split2]. rewrite Ascii.eqb_refl. reflexivity.
  - apply lacks_cons in H. destruct H as [Hc Hr].
    rewrite append_cons. cbn [split2]. rewrite Hc, (IH Hr). reflexivity.
Qed.

Lemma split2_lacks sep s : lacks sep s -> split2 sep s = [s].
Proof.
  induction s as [|c rest IH]; intros H; [reflexivity|].
  apply lacks_cons in H. destruct H as [Hc Hr].
  cbn [split2]. rewrite Hc, (IH Hr). reflexivity.
Qed.

(** The args string a runtime writes for the pairs [kvs]. *)
Definition render_pair (kv : string * string) : string := fst kv +:+ "=" +:+ snd kv.

Definition render_args (kvs : list (string * string)) : string :=
  Join (map render_pair kvs) ";".

Definition well_formed_pair (kv : string * string) : Prop :=
  lacks ";" (fst kv) /\ lacks "=" (fst kv) /\ lacks ";" (snd kv).

Definition cni_arg_step (m : gmap string string) (s : string) : gmap string string :=
  match split2 "=" s with
  | [k; v] => <[k := v]> m
  | k :: _ => <[k := EmptyString]> m
  | [] => m
  end.

Lemma cni_arg_step_pair m kv :
  well_formed_pair kv -> cni_arg_step m (render_pair kv) = <[fst kv := snd kv]> m.
Proof.
  intros (_ & Hk & _). unfold cni_arg_step, render_pair.
  change ("=" +:+ snd kv) with (String.String "=" (snd kv)).
  rewrite (split2_app _ _ _ Hk). reflexivity.
Qed.

Lemma render_pair_lacks kv : well_formed_pair kv -> lacks ";" (render_pair kv).
Proof.
  intros (Hk & _ & Hv). unfold render_pair.
  apply lacks_app. split; [exact Hk|]. apply lacks_app. split; [reflexivity | exact Hv].
Qed.

Lemma parse_rendered kvs : forall m,
  kvs <> [] -> Forall well_formed_pair kvs ->
  fold_left cni_arg_step (split_on ";" (render_args kvs)) m
  = fold_left (fun m kv => <[fst kv := snd kv]> m) kvs m.
Proof.
  induction kvs as [|kv rest IH]; intros m Hne Hwf; [contradiction|].
  apply Forall_cons in Hwf. destruct Hwf as [Hkv Hrest].
  destruct rest as [|kv' rest].
  - unfold render_args. cbn [map Join].
    rewrite (split_on_lacks _ _ (render_pair_lacks _ Hkv)).
    cbn [fold_left]. rewrite (cni_arg_step_pair _ _ Hkv). reflexivity.
  - unfold render_args. cbn [map Join].
    change (";" +:+ ?x) with (String.String ";" x).
    rewrite (split_on_app _ _ _ (render_pair_lacks _ Hkv)).
    cbn [fold_left]. rewrite (cni_arg_step_pair _ _ Hkv).
    apply (IH (<[fst kv := snd kv]> m)); [discriminate | exact Hrest].
Qed.

(** X15.  The args of a CNI call are read as [key=value] pairs separated
    by [;], the value being everything after the first [=], and a later
    pair replaces an earlier one with the same key: for pairs whose keys
    hold neither [;] nor [=] and whose values hold no [;], reading the
    string that joins them gives the map that inserts them in order.  An
    element without [=] becomes a key with the empty value, so the empty
    string reads as the map with the empty key. *)
Theorem X15_cni_args_are_read_back :
  (forall kvs,
     kvs <> [] -> Forall well_formed_pair kvs ->
     parse_cni_args (render_args kvs)
     = fold_left (fun m kv => <[fst kv := snd kv]> m) kvs ∅)
  /\ (forall s, lacks ";" s -> lacks "=" s -> parse_cni_args s = {[ s := EmptyString ]})
  /\ (forall ns name,
        lacks ";" ns -> lacks ";" name ->
        let m := parse_cni_args ("K8S_POD_NAMESPACE=" +:+ ns +:+ ";K8S_POD_NAME=" +:+ name) in
        get_or_empty m "K8S_POD_NAMESPACE" = ns /\ get_or_empty m "K8S_POD_NAME" = name).
Proof.
  assert (Hfold : forall s, parse_cni_args s = fold_left cni_arg_step (split_on ";" s) ∅)
    by reflexivity.
  split; [|split].
  - intros kvs Hne Hwf. rewrite Hfold. apply parse_rendered; assumption.
  - intros s Hs He. rewrite Hfold, (split_on_lacks _ _ Hs). cbn [fold_left].
    unfold cni_arg_step. rewrite (split2_lacks _ _ He). reflexivity.
  - intros ns name Hns Hname. cbv zeta.
    assert (Hwf : Forall well_formed_pair
                    [("K8S_POD_NAMESPACE", ns); ("K8S_POD_NAME", name)]).
    { apply Forall_cons_2; [split; [reflexivity | split; [reflexivity | exact Hns]]|].
      apply Forall_cons_2; [split; [reflexivity | split; [reflexivity | exact Hname]]|].
      apply Forall_nil_2. }
    assert (Hr : render_args [("K8S_POD_NAMESPACE", ns); ("K8S_POD_NAME", name)]
                 = "K8S_POD_NAMESPACE=" +:+ ns +:+ ";K8S_POD_NAME=" +:+ name).
    { unfold render_args, render_pair. cbn [map Join fst snd].
      rewrite !append_assoc_str. reflexivity. }
    rewrite <- Hr, (Hfold (render_args [("K8S_POD_NAMESPACE", ns); ("K8S_POD_NAME", name)])).
    rewrite (parse_rendered [("K8S_POD_NAMESPACE", ns); ("K8S_POD_NAME", name)] ∅
               ltac:(discriminate) Hwf).
    cbn [fold_left fst snd]. unfold get_or_empty.
    rewrite lookup_insert_ne by discriminate.
    rewrite !lookup_insert_eq. auto.
Qed.

Lemma X15_witness :
  parse_cni_args (render_args [("IgnoreUnknown", "1"); ("K8S_POD_NAMESPACE", "ns");
                               ("K8S_POD_NAME", "a=b"); ("K8S_POD_NAMESPACE", "kube-system")])
  = fold_left (fun m kv => <[fst kv := snd kv]> m)
      [("IgnoreUnknown", "1"); ("K8S_POD_NAMESPACE", "ns");
       ("K8S_POD_NAME", "a=b"); ("K8S_POD_NAMESPACE", "kube-system")] ∅.
Proof.
  apply (proj1 X15_cni_args_are_read_back).
  - discriminate.
  - repeat (apply Forall_cons_2; [repeat split; reflexivity|]). apply Forall_nil_2.
Defined.
(** * Further properties of the provisioner *)

Lemma getClusterInfo_logged tr w inst nic nics :
  (2 < String.length (md_Zone (w_metadata w)))%nat ->
  w_instances w !! md_InstanceName (w_metadata w) = Some inst ->
  inst_NetworkInterfaces inst = nic :: nics ->
  Provisioner.getClusterInfo (logged tr w)
  = (Ok (Provisioner.mkClusterInfo (md_ProjectID (w_metadata w))
           (region_of (md_Zone (w_metadata w)))
           (last_part (split_on "/" (nic_Subnetwork nic)))
           (last_part (split_on "/" (nic_Network nic)))),
     logged (tr ++ [EvCall "metadata.ProjectID"; EvCall "metadata.Zone";
                    EvCall "metadata.InstanceName";
                    EvInstanceGet (md_InstanceName (w_metadata w))]) w).
Proof.
  intros Hz Hinst Hnics. unfold Provisioner.getClusterInfo.
  rewrite (bind_run _ _ _ _ _ (map_err_Ok_run _ _ _ _ _ (metadata_get_logged _ _ _ _))).
  rewrite (bind_run _ _ _ _ _ (map_err_Ok_run _ _ _ _ _ (metadata_get_logged _ _ _ _))).
  rewrite (bind_run _ _ _ _ _ (region_of_zone_Ok _ _ Hz)).
  rewrite (bind_run _ _ _ _ _ (map_err_Ok_run _ _ _ _ _ (metadata_get_logged _ _ _ _))).
  rewrite (bind_run _ _ _ _ _ (map_err_Ok_run _ _ _ _ _ (Instances_Get_logged _ _ _ _ Hinst))).
  rewrite Hnics. unfold ret. rewrite <- !app_assoc. reflexivity.
Qed.

(** The object [createOrUpdateIPPool] sends, before the store stamps it. *)
Definition provisioned_pool (subnetworkName cidr subnetURL rangeName : string)
           (existing : option IPPool) : IPPool :=
  match existing with
  | Some p =>
      with_version (ResourceVersion p + 1)
        (on_wire (mkIPPool ("ippool-" +:+ subnetworkName) (ResourceVersion p)
                    (mkIPPoolSpec cidr subnetURL rangeName (Allocations (Spec p)))
                    (mkIPPoolStatus 0 0 0 0)))
  | None =>
      with_version 1
        (on_wire (mkIPPool ("ippool-" +:+ subnetworkName) 0
                    (mkIPPoolSpec cidr subnetURL rangeName (Some ∅))
                    (mkIPPoolStatus 0 0 0 0)))
  end.

Lemma createOrUpdateIPPool_run subnetworkName cidr subnetURL rangeName w :
  w_faults w = [] ->
  exists w',
    Provisioner.createOrUpdateIPPool subnetworkName cidr subnetURL rangeName w = (Ok tt, w')
    /\ w_faults w' = []
    /\ w_pools w'
       = <["ippool-" +:+ subnetworkName :=
             provisioned_pool subnetworkName cidr subnetURL rangeName
               (w_pools w !! ("ippool-" +:+ subnetworkName))]> (w_pools w)
    /\ w_subnets w' = w_subnets w /\ w_ranges w' = w_ranges w
    /\ w_instances w' = w_instances w /\ w_metadata w' = w_metadata w
    /\ w_trace w'
       = w_trace w ++ [EvPoolGet ("ippool-" +:+ subnetworkName);
                       match w_pools w !! ("ippool-" +:+ subnetworkName) with
                       | Some _ => EvPoolUpdate ("ippool-" +:+ subnetworkName)
                       | None => EvPoolCreate ("ippool-" +:+ subnetworkName)
                       end].
Proof.
  intros Hf. unfold Provisioner.createOrUpdateIPPool.
  unfold bind at 1. unfold try, pool_Get. unfold bind at 1.
  rewrite (remote_nofault _ _ Hf). cbn [w_pools set_faults log].
  destruct (w_pools w !! ("ippool-" +:+ subnetworkName)) as [p|] eqn:Ep.
  - cbn [with_name ResourceVersion Spec].
    unfold bind at 1. unfold map_err, pool_Update. unfold bind at 1.
    rewrite remote_nofault by reflexivity.
    cbn [Name w_pools set_faults log]. rewrite Ep, Z.eqb_refl.
    unfold ret. eexists. split; [reflexivity|].
    cbn [w_faults w_pools w_subnets w_ranges w_instances w_metadata w_trace set_pools set_faults
         log provisioned_pool].
    rewrite <- app_assoc. repeat split.
  - unfold bind at 1. unfold map_err, pool_Create. unfold bind at 1.
    rewrite remote_nofault by reflexivity.
    cbn [Name w_pools set_faults log]. rewrite Ep.
    unfold ret. eexists. split; [reflexivity|].
    cbn [w_faults w_pools w_subnets w_ranges w_instances w_metadata w_trace set_pools set_faults
         log provisioned_pool].
    rewrite <- app_assoc. repeat split.
Qed.

Lemma provisioned_pool_fields subnetworkName cidr subnetURL rangeName existing :
  let p' := provisioned_pool subnetworkName cidr subnetURL rangeName existing in
  CIDR (Spec p') = cidr /\ Subnet (Spec p') = subnetURL
  /\ SecondaryRangeName (Spec p') = rangeName
  /\ Name p' = "ippool-" +:+ subnetworkName
  /\ Status p' = mkIPPoolStatus 0 0 0 0
  /\ map_of (Allocations (Spec p'))
     = match existing with Some p => map_of (Allocations (Spec p)) | None => ∅ end
  /\ ResourceVersion p'
     = match existing with Some p => ResourceVersion p + 1 | None => 1 end.
Proof.
  cbv zeta. unfold provisioned_pool.
  destruct existing as [p|]; unfold with_version; cbn [Spec Name Status ResourceVersion];
    match goal with |- context [on_wire ?q] =>
      destruct (on_wire_fields q) as (Hc & Hs & Hn);
      destruct (on_wire_meta q) as (Hsub & Hr & _);
      pose proof (map_of_on_wire q) as Hm
    end;
    rewrite Hc, Hs, Hn, Hsub, Hr, Hm; cbn [Spec CIDR Subnet SecondaryRangeName Name Status
                                            Allocations map_of]; repeat split.
Qed.

(** X16.  [createOrUpdateIPPool], when its calls go through: an existing
    pool is updated with the cidr, subnet and range name given, its
    allocations are kept, its [resourceVersion] moves on by one, and the
    status it is written with is zero; a pool that does not exist is
    created with no allocations.  Any error of the read counts as "does not
    exist": when the read fails in transport and the pool is there, the
    create runs into it and the function returns [create IPPool: ... already
    exists], the pool unchanged. *)
Theorem X16_createOrUpdateIPPool_keeps_allocations :
  forall subnetworkName cidr subnetURL rangeName w,
    let name := "ippool-" +:+ subnetworkName in
    let r := Provisioner.createOrUpdateIPPool subnetworkName cidr subnetURL rangeName w in
    (w_faults w = [] ->
     fst r = Ok tt
     /\ (forall other, other <> name -> w_pools (snd r) !! other = w_pools w !! other)
     /\ exists p',
          w_pools (snd r) !! name = Some p'
          /\ CIDR (Spec p') = cidr /\ Subnet (Spec p') = subnetURL
          /\ SecondaryRangeName (Spec p') = rangeName
          /\ Status p' = mkIPPoolStatus 0 0 0 0
          /\ match w_pools w !! name with
             | Some p =>
                 map_of (Allocations (Spec p')) = map_of (Allocations (Spec p))
                 /\ ResourceVersion p' = ResourceVersion p + 1
             | None => map_of (Allocations (Spec p')) = ∅ /\ ResourceVersion p' = 1
             end)
    /\ (forall e p,
          w_faults w = [Some e] -> w_pools w !! name = Some p ->
          fst r = Err (Wrapped "create IPPool"
                         (StatusError StatusReasonAlreadyExists
                            ("ippools.ipam.gcp-cni.cast.ai '" +:+ name +:+ "' already exists")))
          /\ w_pools (snd r) = w_pools w
          /\ w_trace (snd r) = w_trace w ++ [EvPoolGet name; EvPoolCreate name]).
Proof.
  intros subnetworkName cidr subnetURL rangeName w. cbv zeta. split.
  - intros Hf.
    destruct (createOrUpdateIPPool_run subnetworkName cidr subnetURL rangeName w Hf)
      as (w' & -> & _ & Hp & _).
    cbn [fst snd]. split; [reflexivity|]. rewrite Hp. split.
    + intros other Hne. apply lookup_insert_ne. congruence.
    + eexists. split; [apply lookup_insert_eq|].
      destruct (provisioned_pool_fields subnetworkName cidr subnetURL rangeName
                  (w_pools w !! ("ippool-" +:+ subnetworkName)))
        as (H1 & H2 & H3 & _ & H5 & H6 & H7).
      rewrite H1, H2, H3, H5, H6, H7.
      destruct (w_pools w !! ("ippool-" +:+ subnetworkName)); auto 10.
  - intros e p Hf Hp.
    assert (Hr : Provisioner.createOrUpdateIPPool subnetworkName cidr subnetURL rangeName w
                 = (Err (Wrapped "create IPPool"
                           (StatusError StatusReasonAlreadyExists
                              ("ippools.ipam.gcp-cni.cast.ai '" +:+ "ippool-" +:+ subnetworkName
                               +:+ "' already exists"))),
                    set_faults []
                      (log (EvPoolCreate ("ippool-" +:+ subnetworkName))
                         (set_faults []
                            (log (EvPoolGet ("ippool-" +:+ subnetworkName)) w))))).
    { unfold Provisioner.createOrUpdateIPPool.
      unfold bind at 1. unfold try, pool_Get. unfold bind at 1.
      unfold remote at 1. rewrite Hf. cbn [tail].
      unfold bind at 1. unfold map_err, pool_Create. unfold bind at 1.
      rewrite remote_nofault by reflexivity.
      cbn [Name w_pools set_faults log]. rewrite Hp. reflexivity. }
    rewrite Hr. cbn [fst snd w_pools w_trace set_faults log]. rewrite <- app_assoc. auto.
Qed.

Lemma X16_witness :
  let r := Provisioner.createOrUpdateIPPool "subnet-a" "10.112.0.0/16" subnet_a_url "live"
             migration_world in
  fst r = Ok tt
  /\ exists p',
       w_pools (snd r) !! "ippool-subnet-a" = Some p'
       /\ CIDR (Spec p') = "10.112.0.0/16"
       /\ map_of (Allocations (Spec p')) = map_of (Allocations (Spec migration_pool))
       /\ ResourceVersion p' = 5.
Proof.
  cbv zeta.
  destruct (proj1 (X16_createOrUpdateIPPool_keeps_allocations
                     "subnet-a" "10.112.0.0/16" subnet_a_url "live" migration_world) eq_refl)
    as (Hok & _ & p' & Hp' & Hc & _ & _ & _ & Hkeep).
  split; [exact Hok|]. exists p'. split; [exact Hp'|]. split; [exact Hc|]. exact Hkeep.
Defined.

(** ** [Provision] *)

Definition subnet_url (w : World) (nic : NetworkInterface) : string :=
  "projects/" +:+ md_ProjectID (w_metadata w) +:+ "/regions/"
  +:+ region_of (md_Zone (w_metadata w)) +:+ "/subnetworks/"
  +:+ last_part (split_on "/" (nic_Subnetwork nic)).

Definition range_resource (w : World) (rangeName : string) : string :=
  ("projects/" +:+ md_ProjectID (w_metadata w) +:+ "/locations/global")
  +:+ "/internalRanges/" +:+ rangeName.

Definition range_path (w : World) (rangeName : string) : string :=
  "//networkconnectivity.googleapis.com/projects/" +:+ md_ProjectID (w_metadata w)
  +:+ "/locations/global/internalRanges/" +:+ rangeName.

(** The block of the reservation once [allocateInternalRange] has run:
    the one it has, or the one the cloud assigns. *)
Definition reserved_cidr (w : World) (rangeName : string) : string :=
  match w_ranges w !! range_resource w rangeName with
  | Some cidr => cidr
  | None => w_assigned_cidr w
  end.

Definition has_range (rangeName : string) (s : Subnetwork) : option SubnetworkSecondaryRange :=
  List.find (fun r => String.eqb (sr_RangeName r) rangeName) (sub_SecondaryIpRanges s).

Lemma CreateInternalRange_logged name tr w :
  Provisioner.CreateInternalRange name (logged tr w)
  = (Ok name, logged (tr ++ [EvInternalRangeCreate name]) w).
Proof. unfold Provisioner.CreateInternalRange, bind. rewrite remote_logged. reflexivity. Qed.

Lemma WaitInternalRange_logged name tr w :
  Provisioner.WaitInternalRange name (logged tr w)
  = (Ok (w_assigned_cidr w),
     set_ranges (fun rs => <[name := w_assigned_cidr w]> rs)
       (logged (tr ++ [EvCall "CreateInternalRangeOperation.Wait"]) w)).
Proof. unfold Provisioner.WaitInternalRange, bind. rewrite remote_logged. reflexivity. Qed.

Lemma allocateInternalRange_logged c rangeName tr w :
  Provisioner.projectID c = md_ProjectID (w_metadata w) ->
  exists w1,
    Provisioner.allocateInternalRange c rangeName (logged tr w)
    = (Ok (reserved_cidr w rangeName), w1)
    /\ w_faults w1 = []
    /\ w_ranges w1 = <[range_resource w rangeName := reserved_cidr w rangeName]> (w_ranges w)
    /\ w_pools w1 = w_pools w /\ w_subnets w1 = w_subnets w
    /\ w_instances w1 = w_instances w /\ w_metadata w1 = w_metadata w
    /\ w_assigned_cidr w1 = w_assigned_cidr w
    /\ w_trace w1
       = w_trace w ++ tr
         ++ EvInternalRangeGet (range_resource w rangeName)
            :: match w_ranges w !! range_resource w rangeName with
               | Some _ => []
               | None => [EvInternalRangeCreate (range_resource w rangeName);
                          EvCall "CreateInternalRangeOperation.Wait"]
               end.
Proof.
  intros Hproj. unfold Provisioner.allocateInternalRange. rewrite Hproj.
  fold (range_resource w rangeName).
  unfold bind at 1. unfold try, Provisioner.GetInternalRange. unfold bind at 1.
  rewrite remote_logged. cbn [w_ranges logged]. unfold reserved_cidr.
  destruct (w_ranges w !! range_resource w rangeName) as [cidr|] eqn:Er.
  - unfold ret. eexists. split; [reflexivity|].
    cbn [w_faults w_ranges w_pools w_subnets w_instances w_metadata w_assigned_cidr w_trace
         logged].
    try rewrite <- !app_assoc. repeat split.
    symmetry. apply insert_id. exact Er.
  - cbn [Provisioner.isNotFound Z.eqb Pos.eqb negb].
    rewrite (bind_run _ _ _ _ _
               (map_err_Ok_run _ _ _ _ _ (CreateInternalRange_logged _ _ _))).
    rewrite (map_err_Ok_run _ _ _ _ _ (WaitInternalRange_logged _ _ _)).
    eexists. split; [reflexivity|].
    cbn [w_faults w_ranges w_pools w_subnets w_instances w_metadata w_assigned_cidr w_trace
         logged set_ranges].
    try rewrite <- !app_assoc. repeat split.
Qed.

Lemma Provision_prefix rangeName w inst nic nics s :
  w_faults w = [] ->
  (2 < String.length (md_Zone (w_metadata w)))%nat ->
  w_instances w !! md_InstanceName (w_metadata w) = Some inst ->
  inst_NetworkInterfaces inst = nic :: nics ->
  w_subnets w !! last_part (split_on "/" (nic_Subnetwork nic)) = Some s ->
  Provisioner.Provision rangeName w
  = match has_range rangeName s with
    | Some r =>
        map_err (Wrapped "ensure IPPool resource")
          (Provisioner.createOrUpdateIPPool (last_part (split_on "/" (nic_Subnetwork nic)))
             (sr_IpCidrRange r) (subnet_url w nic) rangeName)
    | None =>
        let c := Provisioner.mkClusterInfo (md_ProjectID (w_metadata w))
                   (region_of (md_Zone (w_metadata w)))
                   (last_part (split_on "/" (nic_Subnetwork nic)))
                   (last_part (split_on "/" (nic_Network nic))) in
        allocated <- try (Provisioner.allocateInternalRange c rangeName) ;;
        let internalRangeCIDR :=
          match allocated with inr cidr => cidr | inl _ => EmptyString end in
        let ranges :=
          sub_SecondaryIpRanges s
          ++ [mkSecondaryRange rangeName internalRangeCIDR (range_path w rangeName)] in
        op <- map_err (Wrapped "update subnetwork")
                (Provisioner.Subnetworks_Patch (last_part (split_on "/" (nic_Subnetwork nic)))
                   (sub_Fingerprint s) ranges) ;;
        map_err (Wrapped "wait for subnet update") (Provisioner.WaitSubnetPatch op ranges) ;;;
        map_err (Wrapped "create IPPool resource")
          (Provisioner.createOrUpdateIPPool (last_part (split_on "/" (nic_Subnetwork nic)))
             internalRangeCIDR (subnet_url w nic) rangeName)
    end
      (logged [EvCall "metadata.ProjectID"; EvCall "metadata.Zone";
               EvCall "metadata.InstanceName";
               EvInstanceGet (md_InstanceName (w_metadata w));
               EvSubnetGet (last_part (split_on "/" (nic_Subnetwork nic)))] w).
Proof.
  intros Hf Hz Hinst Hnics Hsub.
  unfold Provisioner.Provision.
  rewrite (logged_nil w Hf) at 1.
  rewrite (bind_run _ _ _ _ _
             (map_err_Ok_run _ _ _ _ _ (getClusterInfo_logged _ _ inst nic nics Hz Hinst Hnics))).
  cbn [Provisioner.subnetworkName Provisioner.projectID Provisioner.region app].
  rewrite (bind_run _ _ _ _ _ (map_err_Ok_run _ _ _ _ _ (Subnetworks_Get_logged _ _ _ _ Hsub))).
  cbn [app]. unfold has_range, subnet_url, range_path.
  destruct (find _ (sub_SecondaryIpRanges s)); reflexivity.
Qed.

Lemma Provision_existing_run rangeName w inst nic nics s r :
  w_faults w = [] ->
  (2 < String.length (md_Zone (w_metadata w)))%nat ->
  w_instances w !! md_InstanceName (w_metadata w) = Some inst ->
  inst_NetworkInterfaces inst = nic :: nics ->
  w_subnets w !! last_part (split_on "/" (nic_Subnetwork nic)) = Some s ->
  has_range rangeName s = Some r ->
  let subnetName := last_part (split_on "/" (nic_Subnetwork nic)) in
  exists w',
    Provisioner.Provision rangeName w = (Ok tt, w')
    /\ w_faults w' = []
    /\ w_subnets w' = w_subnets w /\ w_ranges w' = w_ranges w
    /\ w_instances w' = w_instances w /\ w_metadata w' = w_metadata w
    /\ w_pools w'
       = <["ippool-" +:+ subnetName :=
             provisioned_pool subnetName (sr_IpCidrRange r) (subnet_url w nic) rangeName
               (w_pools w !! ("ippool-" +:+ subnetName))]> (w_pools w)
    /\ w_trace w'
       = w_trace w ++ [EvCall "metadata.ProjectID"; EvCall "metadata.Zone";
                       EvCall "metadata.InstanceName";
                       EvInstanceGet (md_InstanceName (w_metadata w));
                       EvSubnetGet subnetName;
                       EvPoolGet ("ippool-" +:+ subnetName);
                       match w_pools w !! ("ippool-" +:+ subnetName) with
                       | Some _ => EvPoolUpdate ("ippool-" +:+ subnetName)
                       | None => EvPoolCreate ("ippool-" +:+ subnetName)
                       end].
Proof.
  intros Hf Hz Hinst Hnics Hsub Hr. cbv zeta.
  rewrite (Provision_prefix rangeName w inst nic nics s Hf Hz Hinst Hnics Hsub), Hr.
  match goal with |- context [logged ?tr w] => set (wl := logged tr w) end.
  destruct (createOrUpdateIPPool_run (last_part (split_on "/" (nic_Subnetwork nic)))
              (sr_IpCidrRange r) (subnet_url w nic) rangeName wl eq_refl)
    as (w' & Hrun & Hf' & Hp & Hs & Hrg & Hi & Hmd & Ht).
  exists w'. split; [apply map_err_Ok_run, Hrun|].
  subst wl. cbn [w_pools w_subnets w_ranges w_instances w_metadata w_trace logged] in *.
  rewrite Ht, <- app_assoc. cbn [app]. repeat split; assumption.
Qed.

Lemma Provision_fresh_run rangeName w inst nic nics s :
  w_faults w = [] ->
  (2 < String.length (md_Zone (w_metadata w)))%nat ->
  w_instances w !! md_InstanceName (w_metadata w) = Some inst ->
  inst_NetworkInterfaces inst = nic :: nics ->
  w_subnets w !! last_part (split_on "/" (nic_Subnetwork nic)) = Some s ->
  has_range rangeName s = None ->
  let subnetName := last_part (split_on "/" (nic_Subnetwork nic)) in
  let cidr := reserved_cidr w rangeName in
  let ranges := sub_SecondaryIpRanges s
                ++ [mkSecondaryRange rangeName cidr (range_path w rangeName)] in
  exists w',
    Provisioner.Provision rangeName w = (Ok tt, w')
    /\ w_faults w' = []
    /\ w_subnets w'
       = <[subnetName := mkSubnetwork (sub_IpCidrRange s) (sub_Fingerprint s + 1) ranges]>
           (w_subnets w)
    /\ w_ranges w' = <[range_resource w rangeName := cidr]> (w_ranges w)
    /\ w_instances w' = w_instances w /\ w_metadata w' = w_metadata w
    /\ w_pools w'
       = <["ippool-" +:+ subnetName :=
             provisioned_pool subnetName cidr (subnet_url w nic) rangeName
               (w_pools w !! ("ippool-" +:+ subnetName))]> (w_pools w)
    /\ exists tr,
         w_trace w' = w_trace w ++ tr
         /\ In (EvSubnetPatch subnetName ranges) tr.
Proof.
  intros Hf Hz Hinst Hnics Hsub Hr. cbv zeta.
  rewrite (Provision_prefix rangeName w inst nic nics s Hf Hz Hinst Hnics Hsub), Hr. cbv zeta.
  match goal with |- context [logged ?tr w] => set (tr0 := tr) end.
  destruct (allocateInternalRange_logged
              (Provisioner.mkClusterInfo (md_ProjectID (w_metadata w))
                 (region_of (md_Zone (w_metadata w)))
                 (last_part (split_on "/" (nic_Subnetwork nic)))
                 (last_part (split_on "/" (nic_Network nic)))) rangeName tr0 w eq_refl)
    as (w1 & Hrun1 & Hf1 & Hrg1 & Hp1 & Hs1 & Hi1 & Hmd1 & _ & Ht1).
  rewrite (bind_run _ _ _ _ _ (try_Ok _ _ _ _ Hrun1)).
  set (subnetName := last_part (split_on "/" (nic_Subnetwork nic))) in *.
  set (ranges := sub_SecondaryIpRanges s ++ _).
  (* the patch *)
  unfold bind at 1. unfold map_err at 1. unfold Provisioner.Subnetworks_Patch.
  unfold bind at 1. rewrite (remote_nofault _ _ Hf1).
  cbn [w_subnets set_faults log]. rewrite Hs1, Hsub, Z.eqb_refl.
  (* the wait *)
  unfold bind at 1. unfold map_err at 1. unfold Provisioner.WaitSubnetPatch.
  unfold bind at 1. rewrite remote_nofault by reflexivity.
  match goal with |- context [map_err _ _ ?w2] => set (w2' := w2) end.
  destruct (createOrUpdateIPPool_run subnetName (reserved_cidr w rangeName) (subnet_url w nic)
              rangeName w2' eq_refl)
    as (w' & Hrun & Hf' & Hp & Hs & Hrg & Hi & Hmd & Ht).
  exists w'. split; [apply map_err_Ok_run, Hrun|].
  subst w2'.
  cbn [w_pools w_subnets w_ranges w_instances w_metadata w_trace set_subnets set_faults log]
    in Hp, Hs, Hrg, Hi, Hmd, Ht.
  rewrite Hs1, Hsub in Hs.
  rewrite Hp, Hs, Hrg, Hi, Hmd, Ht, Hp1, Hrg1, Hi1, Hmd1, Ht1.
  split; [exact Hf'|]. repeat split.
  eexists. rewrite <- !app_assoc. split; [reflexivity|].
  rewrite !in_app_iff. cbn [In]. auto 10.
Qed.

(** X17.  [Provision] on a subnet that has no secondary range of the
    name, when every call goes through: it returns nil; the reservation
    exists afterwards, with the block it had or the one the cloud assigned;
    the subnet has that block as one more secondary range, after the ones
    it had, under the name and with the path of the reservation; and the
    pool [ippool-<subnetwork>] holds that block, the subnet's URL and the
    range name, with the allocations it had if it existed.  The
    subnetwork's name is the last segment of the path on the instance's
    first interface, which is how the driver derives its default pool
    name. *)
Theorem X17_provision_reserves_patches_and_creates_the_pool :
  forall rangeName w inst nic nics s,
    w_faults w = [] ->
    (2 < String.length (md_Zone (w_metadata w)))%nat ->
    w_instances w !! md_InstanceName (w_metadata w) = Some inst ->
    inst_NetworkInterfaces inst = nic :: nics ->
    w_subnets w !! last_part (split_on "/" (nic_Subnetwork nic)) = Some s ->
    has_range rangeName s = None ->
    let subnetName := last_part (split_on "/" (nic_Subnetwork nic)) in
    let cidr := reserved_cidr w rangeName in
    exists w' s' p',
      Provisioner.Provision rangeName w = (Ok tt, w')
      /\ w_ranges w' !! range_resource w rangeName = Some cidr
      /\ w_subnets w' !! subnetName = Some s'
      /\ sub_SecondaryIpRanges s'
         = sub_SecondaryIpRanges s ++ [mkSecondaryRange rangeName cidr (range_path w rangeName)]
      /\ sub_IpCidrRange s' = sub_IpCidrRange s
      /\ w_pools w' !! pool_name_for (Driver.mkPluginConf EmptyString EmptyString) nic = Some p'
      /\ CIDR (Spec p') = cidr
      /\ Subnet (Spec p') = subnet_url w nic
      /\ SecondaryRangeName (Spec p') = rangeName
      /\ map_of (Allocations (Spec p'))
         = match w_pools w !! ("ippool-" +:+ subnetName) with
           | Some p => map_of (Allocations (Spec p))
           | None => ∅
           end.
Proof.
  intros rangeName w inst nic nics s Hf Hz Hinst Hnics Hsub Hr. cbv zeta.
  destruct (Provision_fresh_run rangeName w inst nic nics s Hf Hz Hinst Hnics Hsub Hr)
    as (w' & Hrun & _ & Hs & Hrg & _ & _ & Hp & _).
  eexists w', _, _. split; [exact Hrun|].
  rewrite Hrg, Hs, Hp.
  split; [apply lookup_insert_eq|]. split; [apply lookup_insert_eq|].
  split; [reflexivity|]. split; [reflexivity|].
  split; [apply lookup_insert_eq|].
  destruct (provisioned_pool_fields (last_part (split_on "/" (nic_Subnetwork nic)))
              (reserved_cidr w rangeName) (subnet_url w nic) rangeName
              (w_pools w !! ("ippool-" +:+ last_part (split_on "/" (nic_Subnetwork nic)))))
    as (H1 & H2 & H3 & _ & _ & H6 & _).
  auto.
Qed.

Lemma find_app_new {A} (f : A -> bool) l x :
  find f l = None -> f x = true -> find f (l ++ [x]) = Some x.
Proof.
  induction l as [|y l IH]; cbn [find app]; intros Hn Hx.
  - rewrite Hx. reflexivity.
  - destruct (f y); [discriminate Hn | apply IH; assumption].
Qed.

Lemma on_wire_normal p : Allocations (Spec (on_wire p)) <> Some ∅.
Proof.
  unfold on_wire. destruct (Allocations (Spec p)) as [m|] eqn:E.
  - destruct (bool_decide (m = ∅)) eqn:Em; cbn [Spec Allocations].
    + discriminate.
    + rewrite E. intros H. injection H as ->. apply bool_decide_eq_false in Em. auto.
  - rewrite E. discriminate.
Qed.

Lemma on_wire_Spec p : Allocations (Spec p) <> Some ∅ -> Spec (on_wire p) = Spec p.
Proof.
  intros H. unfold on_wire. destruct (Allocations (Spec p)) as [m|] eqn:E; [|reflexivity].
  destruct (bool_decide (m = ∅)) eqn:Em; [|reflexivity].
  apply bool_decide_eq_true in Em. subst m. contradiction.
Qed.

Lemma provisioned_again subnetworkName cidr subnetURL rangeName existing :
  let p1 := provisioned_pool subnetworkName cidr subnetURL rangeName existing in
  let p2 := provisioned_pool subnetworkName cidr subnetURL rangeName (Some p1) in
  Spec p2 = Spec p1 /\ ResourceVersion p2 = ResourceVersion p1 + 1.
Proof.
  cbv zeta.
  set (p1 := provisioned_pool subnetworkName cidr subnetURL rangeName existing).
  destruct (provisioned_pool_fields subnetworkName cidr subnetURL rangeName existing)
    as (H1 & H2 & H3 & _). fold p1 in H1, H2, H3.
  assert (Hn : Allocations (Spec p1) <> Some ∅).
  { subst p1. unfold provisioned_pool. destruct existing; apply on_wire_normal. }
  unfold provisioned_pool at 1. unfold with_version. cbn [Spec ResourceVersion].
  rewrite on_wire_Spec by exact Hn.
  cbn [Spec ResourceVersion]. split; [|reflexivity].
  destruct (Spec p1) as [c sb r al]. cbn in *. subst. reflexivity.
Qed.

(** X18.  [Provision] on a subnet that already has a secondary range of
    the name makes no call for a reservation and no patch: it reads the
    cluster, the subnet and the pool, and writes the pool with the cidr of
    the range found.  So a second run after a first one that went through
    leaves the subnets and the reservations as they are, and the pool with
    the spec it has, its [resourceVersion] moved on by one. *)
Theorem X18_provision_twice_changes_nothing_more :
  (forall rangeName w inst nic nics s r,
     w_faults w = [] ->
     (2 < String.length (md_Zone (w_metadata w)))%nat ->
     w_instances w !! md_InstanceName (w_metadata w) = Some inst ->
     inst_NetworkInterfaces inst = nic :: nics ->
     w_subnets w !! last_part (split_on "/" (nic_Subnetwork nic)) = Some s ->
     has_range rangeName s = Some r ->
     let subnetName := last_part (split_on "/" (nic_Subnetwork nic)) in
     exists w' p',
       Provisioner.Provision rangeName w = (Ok tt, w')
       /\ w_subnets w' = w_subnets w /\ w_ranges w' = w_ranges w
       /\ w_trace w'
          = w_trace w ++ [EvCall "metadata.ProjectID"; EvCall "metadata.Zone";
                          EvCall "metadata.InstanceName";
                          EvInstanceGet (md_InstanceName (w_metadata w));
                          EvSubnetGet subnetName;
                          EvPoolGet ("ippool-" +:+ subnetName);
                          match w_pools w !! ("ippool-" +:+ subnetName) with
                          | Some _ => EvPoolUpdate ("ippool-" +:+ subnetName)
                          | None => EvPoolCreate ("ippool-" +:+ subnetName)
                          end]
       /\ w_pools w' !! ("ippool-" +:+ subnetName) = Some p'
       /\ CIDR (Spec p') = sr_IpCidrRange r)
  /\ (forall rangeName w inst nic nics s,
        w_faults w = [] ->
        (2 < String.length (md_Zone (w_metadata w)))%nat ->
        w_instances w !! md_InstanceName (w_metadata w) = Some inst ->
        inst_NetworkInterfaces inst = nic :: nics ->
        w_subnets w !! last_part (split_on "/" (nic_Subnetwork nic)) = Some s ->
        has_range rangeName s = None ->
        let subnetName := last_part (split_on "/" (nic_Subnetwork nic)) in
        exists w1 w2 p1 p2,
          Provisioner.Provision rangeName w = (Ok tt, w1)
          /\ Provisioner.Provision rangeName w1 = (Ok tt, w2)
          /\ w_subnets w2 = w_subnets w1 /\ w_ranges w2 = w_ranges w1
          /\ w_pools w1 !! ("ippool-" +:+ subnetName) = Some p1
          /\ w_pools w2 !! ("ippool-" +:+ subnetName) = Some p2
          /\ Spec p2 = Spec p1
          /\ ResourceVersion p2 = ResourceVersion p1 + 1
          /\ (forall other, other <> "ippool-" +:+ subnetName ->
                            w_pools w2 !! other = w_pools w1 !! other)).
Proof.
  split.
  - intros rangeName w inst nic nics s r Hf Hz Hinst Hnics Hsub Hr. cbv zeta.
    destruct (Provision_existing_run rangeName w inst nic nics s r Hf Hz Hinst Hnics Hsub Hr)
      as (w' & Hrun & _ & Hs & Hrg & _ & _ & Hp & Ht).
    eexists w', _. split; [exact Hrun|]. split; [exact Hs|]. split; [exact Hrg|].
    split; [exact Ht|]. rewrite Hp. split; [apply lookup_insert_eq|].
    apply provisioned_pool_fields.
  - intros rangeName w inst nic nics s Hf Hz Hinst Hnics Hsub Hr. cbv zeta.
    destruct (Provision_fresh_run rangeName w inst nic nics s Hf Hz Hinst Hnics Hsub Hr)
      as (w1 & Hrun1 & Hf1 & Hs1 & Hrg1 & Hi1 & Hmd1 & Hp1 & _).
    set (subnetName := last_part (split_on "/" (nic_Subnetwork nic))) in *.
    set (new := mkSecondaryRange rangeName (reserved_cidr w rangeName)
                  (range_path w rangeName)) in *.
    set (s1 := mkSubnetwork (sub_IpCidrRange s) (sub_Fingerprint s + 1)
                 (sub_SecondaryIpRanges s ++ [new])) in *.
    assert (Hz1 : (2 < String.length (md_Zone (w_metadata w1)))%nat) by (rewrite Hmd1; exact Hz).
    assert (Hinst1 : w_instances w1 !! md_InstanceName (w_metadata w1) = Some inst)
      by (rewrite Hmd1, Hi1; exact Hinst).
    assert (Hsub1 : w_subnets w1 !! last_part (split_on "/" (nic_Subnetwork nic)) = Some s1)
      by (rewrite Hs1; apply lookup_insert_eq).
    assert (Hr1 : has_range rangeName s1 = Some new).
    { unfold has_range, s1. cbn [sub_SecondaryIpRanges].
      apply find_app_new; [exact Hr | apply String.eqb_refl]. }
    destruct (Provision_existing_run rangeName w1 inst nic nics s1 new Hf1 Hz1 Hinst1 Hnics
                Hsub1 Hr1) as (w2 & Hrun2 & _ & Hs2 & Hrg2 & _ & _ & Hp2 & _).
    fold subnetName in Hp2.
    assert (Hurl : subnet_url w1 nic = subnet_url w nic)
      by (unfold subnet_url; rewrite Hmd1; reflexivity).
    rewrite Hurl in Hp2. cbn [sr_IpCidrRange new] in Hp2.
    eexists w1, w2, _, _. split; [exact Hrun1|]. split; [exact Hrun2|].
    split; [exact Hs2|]. split; [exact Hrg2|].
    rewrite Hp2, Hp1, !lookup_insert_eq.
    split; [reflexivity|]. split; [reflexivity|].
    destruct (provisioned_again subnetName (reserved_cidr w rangeName) (subnet_url w nic)
                rangeName (w_pools w !! ("ippool-" +:+ subnetName))) as [HS HV].
    split; [exact HS|]. split; [exact HV|].
    intros other Hne. rewrite lookup_insert_ne by congruence. reflexivity.
Qed.

Lemma X17_witness :
  exists w' p',
    Provisioner.Provision "live" (provision_world []) = (Ok tt, w')
    /\ w_pools w' !! "ippool-subnet-a" = Some p'
    /\ CIDR (Spec p') = "10.111.0.0/16"
    /\ SecondaryRangeName (Spec p') = "live".
Proof.
  destruct (X17_provision_reserves_patches_and_creates_the_pool "live" (provision_world [])
              nodeB
              (mkNetworkInterface "nic0" 1 "projects/proj/global/networks/default"
                 "projects/proj/regions/europe-west1/subnetworks/subnet-a" [])
              [] (mkSubnetwork "10.0.0.0/24" 7 []))
    as (w' & s' & p' & Hrun & _ & _ & _ & _ & Hp & Hc & _ & Hr & _).
  - reflexivity.
  - vm_compute. lia.
  - vm_compute. reflexivity.
  - reflexivity.
  - vm_compute. reflexivity.
  - reflexivity.
  - exists w', p'. split; [exact Hrun|]. split; [exact Hp|]. split; [exact Hc | exact Hr].
Defined.

Lemma X18_witness :
  exists w1 w2,
    Provisioner.Provision "live" (provision_world []) = (Ok tt, w1)
    /\ Provisioner.Provision "live" w1 = (Ok tt, w2)
    /\ w_subnets w2 = w_subnets w1 /\ w_ranges w2 = w_ranges w1.
Proof.
  destruct (proj2 X18_provision_twice_changes_nothing_more "live" (provision_world [])
              nodeB
              (mkNetworkInterface "nic0" 1 "projects/proj/global/networks/default"
                 "projects/proj/regions/europe-west1/subnetworks/subnet-a" [])
              [] (mkSubnetwork "10.0.0.0/24" 7 []))
    as (w1 & w2 & p1 & p2 & H1 & H2 & H3 & H4 & _).
  - reflexivity.
  - vm_compute. lia.
  - vm_compute. reflexivity.
  - reflexivity.
  - vm_compute. reflexivity.
  - reflexivity.
  - exists w1, w2. auto.
Defined.
(** * Properties of the installer *)

(** ** [UpdateCNIIPAM] *)

(** What the loop of [UpdateCNIIPAM] does to one plugin. *)
Definition retype (ipamType : string) (plugin : Installer.Plugin) : Installer.Plugin :=
  match Installer.plugin_ipam plugin with
  | Some ipam => Installer.set_ipam_type ipamType plugin ipam
  | None => plugin
  end.

Definition has_ipam (plugin : Installer.Plugin) : bool :=
  match Installer.plugin_ipam plugin with
  | Some _ => true
  | None => false
  end.

Lemma update_plugins_map ipamType plugins : forall modified,
  Installer.update_plugins ipamType plugins modified
  = (map (retype ipamType) plugins, modified || existsb has_ipam plugins).
Proof.
  induction plugins as [|plugin rest IH]; intros modified; cbn [Installer.update_plugins map existsb].
  - rewrite orb_false_r. reflexivity.
  - unfold retype at 1, has_ipam at 1.
    destruct (Installer.plugin_ipam plugin) as [ipam|]; rewrite IH; cbn [orb].
    + rewrite orb_true_r. reflexivity.
    + reflexivity.
Qed.

Lemma plugin_ipam_Some plugin ipam :
  Installer.plugin_ipam plugin = Some ipam ->
  exists m, plugin = Some m /\ m !! "ipam" = Some (Installer.JObject ipam).
Proof.
  unfold Installer.plugin_ipam. destruct plugin as [m|]; [|discriminate].
  destruct (m !! "ipam") as [[| | | | |ipam']|] eqn:E; try discriminate.
  intros H. injection H as ->. exists m. auto.
Qed.

Lemma retype_ipam ipamType plugin ipam :
  Installer.plugin_ipam plugin = Some ipam ->
  Installer.plugin_ipam (retype ipamType plugin)
  = Some (<["type" := Installer.JString ipamType]> ipam).
Proof.
  intros H. unfold retype. rewrite H.
  destruct (plugin_ipam_Some _ _ H) as (m & -> & _).
  unfold Installer.set_ipam_type, Installer.plugin_ipam. rewrite lookup_insert_eq. reflexivity.
Qed.

Lemma retype_again t1 t2 plugin : retype t2 (retype t1 plugin) = retype t2 plugin.
Proof.
  destruct (Installer.plugin_ipam plugin) as [ipam|] eqn:E.
  - unfold retype at 1. rewrite (retype_ipam t1 _ _ E).
    unfold retype. rewrite E.
    destruct (plugin_ipam_Some _ _ E) as (m & -> & _).
    unfold Installer.set_ipam_type. rewrite !insert_insert_eq. reflexivity.
  - unfold retype at 2. rewrite E. reflexivity.
Qed.

Lemma lookup_map_list {A B} (f : A -> B) l : forall i : nat,
  map f l !! i = option_map f (l !! i).
Proof.
  induction l as [|x l IH]; intros [|i]; cbn; try reflexivity. apply IH.
Qed.

(** The plugins of a decoded configuration; a nil slice has none. *)
Definition plugins_of (config : Installer.CNIConfig) : list Installer.Plugin :=
  match Installer.cfg_Plugins config with
  | Some ps => ps
  | None => []
  end.

Lemma no_ipam_existsb ps :
  existsb has_ipam ps = false
  <-> forall plugin, In plugin ps -> Installer.plugin_ipam plugin = None.
Proof.
  induction ps as [|p ps IH]; cbn [existsb In].
  - split; [intros _ plugin [] | reflexivity].
  - rewrite orb_false_iff, IH. unfold has_ipam.
    split.
    + intros [Hp Hps] plugin [<-|Hin]; [|apply Hps, Hin].
      destruct (Installer.plugin_ipam p); [discriminate Hp | reflexivity].
    + intros H. split; [rewrite (H p) by auto; reflexivity|].
      intros plugin Hin. apply H. auto.
Qed.

Lemma UpdateCNIIPAM_no_ipam Unmarshal MarshalIndent data ipamType config :
  Unmarshal data = inr config ->
  (forall plugin, In plugin (plugins_of config) -> Installer.plugin_ipam plugin = None) ->
  Installer.UpdateCNIIPAM Unmarshal MarshalIndent data ipamType = inr None.
Proof.
  intros Hdec Hnone. unfold Installer.UpdateCNIIPAM, plugins_of in *. rewrite Hdec.
  destruct (Installer.cfg_Plugins config) as [ps|]; [|reflexivity].
  rewrite update_plugins_map. cbn [orb].
  rewrite (proj2 (no_ipam_existsb ps) Hnone). reflexivity.
Qed.

(** X19.  [UpdateCNIIPAM] on a document that decodes: when no plugin holds
    an object under ["ipam"] it returns nil data and a nil error, without
    encoding anything; otherwise it encodes the configuration with the same
    version and name and the same plugins in the same order, in which every
    plugin that holds such an object has the given type under ["type"] in
    it, and nothing else is changed: the other keys of that object, the
    other keys of the plugin, and the plugins without such an object are as
    they were. *)
Theorem X19_UpdateCNIIPAM_sets_the_type_of_every_ipam :
  forall Unmarshal MarshalIndent data ipamType config,
    Unmarshal data = inr config ->
    let plugins' := map (retype ipamType) (plugins_of config) in
    ((forall plugin, In plugin (plugins_of config) -> Installer.plugin_ipam plugin = None) ->
     Installer.UpdateCNIIPAM Unmarshal MarshalIndent data ipamType = inr None)
    /\ ((exists plugin, In plugin (plugins_of config)
                        /\ Installer.plugin_ipam plugin <> None) ->
        Installer.UpdateCNIIPAM Unmarshal MarshalIndent data ipamType
        = match MarshalIndent (Installer.mkCNIConfig (Installer.cfg_CNIVersion config)
                                 (Installer.cfg_Name config) (Some plugins')) with
          | inl err => inl (Wrapped "failed to marshal updated config" err)
          | inr updatedData => inr (Some updatedData)
          end)
    /\ length plugins' = length (plugins_of config)
    /\ (forall i plugin,
          plugins_of config !! i = Some plugin ->
          match Installer.plugin_ipam plugin with
          | None => plugins' !! i = Some plugin
          | Some ipam =>
              exists m m',
                plugin = Some m /\ plugins' !! i = Some (Some m')
                /\ m' !! "ipam"
                   = Some (Installer.JObject (<["type" := Installer.JString ipamType]> ipam))
                /\ (forall k, k <> "ipam" -> m' !! k = m !! k)
                /\ (forall k, k <> "type" ->
                              (<["type" := Installer.JString ipamType]> ipam) !! k = ipam !! k)
          end).
Proof.
  intros Unmarshal MarshalIndent data ipamType config Hdec. cbv zeta.
  pose proof no_ipam_existsb as Hex.
  unfold Installer.UpdateCNIIPAM, plugins_of. rewrite Hdec.
  split; [|split; [|split]].
  - intros Hnone.
    pose proof (UpdateCNIIPAM_no_ipam Unmarshal MarshalIndent data ipamType config Hdec Hnone)
      as Hu.
    unfold Installer.UpdateCNIIPAM in Hu. rewrite Hdec in Hu. exact Hu.
  - intros (plugin & Hin & Hsome).
    destruct (Installer.cfg_Plugins config) as [ps|]; [|destruct Hin].
    rewrite update_plugins_map. cbn [orb].
    destruct (existsb has_ipam ps) eqn:E; [reflexivity|].
    elim Hsome. apply (proj1 (Hex ps) E), Hin.
  - apply length_map.
  - intros i plugin Hi.
    destruct (Installer.plugin_ipam plugin) as [ipam|] eqn:E.
    + destruct (plugin_ipam_Some _ _ E) as (m & -> & Hm).
      eexists m, _. split; [reflexivity|].
      rewrite lookup_map_list, Hi. cbn [option_map].
      unfold retype. rewrite E. cbn [Installer.set_ipam_type].
      split; [reflexivity|].
      split; [apply lookup_insert_eq|].
      split; intros k Hk; apply lookup_insert_ne; congruence.
    + rewrite lookup_map_list, Hi. cbn [option_map].
      unfold retype. rewrite E. reflexivity.
Qed.

Definition sample_plugins : list Installer.Plugin :=
  [Some {[ "type" := Installer.JString "ptp";
           "ipam" := Installer.JObject {[ "type" := Installer.JString "static";
                                          "subnet" := Installer.JString "10.0.0.0/24" ]} ]};
   Some {[ "type" := Installer.JString "portmap" ]}].

Definition sample_config : Installer.CNIConfig :=
  Installer.mkCNIConfig "0.3.1" "k8s-pod-network" (Some sample_plugins).

Definition sample_unmarshal (_ : string) : error + Installer.CNIConfig := inr sample_config.

Definition sample_marshal (_ : Installer.CNIConfig) : error + string := inr "updated".

Lemma X19_witness :
  Installer.UpdateCNIIPAM sample_unmarshal sample_marshal "document" "gcp-ipam"
  = inr (Some "updated").
Proof.
  apply (proj1 (proj2 (X19_UpdateCNIIPAM_sets_the_type_of_every_ipam
                         sample_unmarshal sample_marshal "document" "gcp-ipam" sample_config
                         eq_refl))).
  eexists. split; [left; reflexivity|]. vm_compute. discriminate.
Defined.

(** X20.  Setting the type a second time overrides the first: after the
    installer has set [gcp-ipam] and, on termination, [host-local], every
    [ipam] object has type [host-local], whatever it had before.  A plugin
    comes out as it went in exactly when it has no [ipam] object or that
    object already had the type as a string; so the revert restores the
    configuration the installer found only where the type was
    [host-local]. *)
Theorem X20_revert_sets_host_local_everywhere :
  (forall t1 t2 plugins,
     map (retype t2) (map (retype t1) plugins) = map (retype t2) plugins)
  /\ (forall t plugin,
        retype t plugin = plugin
        <-> match Installer.plugin_ipam plugin with
            | None => True
            | Some ipam => ipam !! "type" = Some (Installer.JString t)
            end).
Proof.
  split.
  - intros t1 t2 plugins. rewrite map_map. apply map_ext. intros p. apply retype_again.
  - intros t plugin. unfold retype.
    destruct (Installer.plugin_ipam plugin) as [ipam|] eqn:E; [|tauto].
    destruct (plugin_ipam_Some _ _ E) as (m & -> & Hm).
    unfold Installer.set_ipam_type. split.
    + intros H. injection H as H.
      assert (Hl : (<["ipam" := Installer.JObject (<["type" := Installer.JString t]> ipam)]> m)
                   !! "ipam" = m !! "ipam") by (rewrite H; reflexivity).
      rewrite lookup_insert_eq, Hm in Hl. injection Hl as Hl.
      rewrite <- Hl. apply lookup_insert_eq.
    + intros H. f_equal. apply insert_id. rewrite Hm. do 2 f_equal.
      symmetry. apply insert_id, H.
Qed.

Lemma X20_witness :
  map (retype "host-local") (map (retype "gcp-ipam") sample_plugins)
  = map (retype "host-local") sample_plugins
  /\ map (retype "host-local") sample_plugins <> sample_plugins.
Proof.
  split; [apply (proj1 X20_revert_sets_host_local_everywhere)|].
  intros H.
  assert (Hp : retype "host-local" (hd None sample_plugins) = hd None sample_plugins)
    by exact (f_equal (hd None) H).
  apply (proj1 (proj2 X20_revert_sets_host_local_everywhere "host-local"
                  (hd None sample_plugins))) in Hp.
  vm_compute in Hp. discriminate Hp.
Defined.

(** ** The installer on the host's files *)

Lemma oscall_nofault {A} ev (run : gmap string Installer.File -> Z
                                   -> (Installer.OsError + A) * gmap string Installer.File) h :
  Installer.h_faults h = [] ->
  Installer.oscall ev run h
  = (Ok (fst (run (Installer.h_files h) (Installer.h_now h))),
     Installer.mkHost (snd (run (Installer.h_files h) (Installer.h_now h))) (Installer.h_now h)
       [] (Installer.h_trace h ++ [ev])).
Proof.
  intros Hf. unfold Installer.oscall. rewrite Hf.
  destruct (run _ _) as [r files]. reflexivity.
Qed.

(** What one [os] call comes to: it returns, the clock stands, and either
    the script made it fail and the files are as before, or it had its
    effect. *)
Lemma oscall_inv {A} ev (run : gmap string Installer.File -> Z
                               -> (Installer.OsError + A) * gmap string Installer.File) h :
  exists r h',
    Installer.oscall ev run h = (Ok r, h')
    /\ Installer.h_now h' = Installer.h_now h
    /\ ((exists e, r = inl e /\ Installer.h_files h' = Installer.h_files h)
        \/ (r, Installer.h_files h') = run (Installer.h_files h) (Installer.h_now h)).
Proof.
  unfold Installer.oscall.
  destruct (Installer.h_faults h) as [|[e|] fs].
  - destruct (run _ _) as [r files]. eexists _, _. split; [reflexivity|]. auto.
  - eexists _, _. split; [reflexivity|]. split; [reflexivity|]. left. eauto.
  - destruct (run _ _) as [r files]. eexists _, _. split; [reflexivity|]. auto.
Qed.

Lemma length_append_str a b :
  String.length (a +:+ b) = (String.length a + String.length b)%nat.
Proof.
  induction a as [|c a IH]; [reflexivity|].
  rewrite append_cons. cbn [String.length]. rewrite IH. reflexivity.
Qed.

Lemma tmp_path_ne path : path +:+ ".tmp" <> path.
Proof.
  intros H. apply (f_equal String.length) in H. rewrite length_append_str in H.
  cbn [String.length] in H. lia.
Qed.

Definition conf_path (Join_path : list string -> string) (flags : Installer.Flags) : string :=
  Join_path [Join_path [Installer.hostRoot flags; Installer.cniConfDir flags];
             Installer.cniConfName flags].

(** X21.  [reconfigureCNIIPAMConf], when the file is there and every call
    goes through: whatever [UpdateCNIIPAM] returns as data is written to
    [<conf>.tmp] and moved over the configuration, the other files being
    left alone.  [UpdateCNIIPAM] returns nil data with a nil error when no
    plugin has an [ipam] object, and nil data is written as nothing: in
    that case the function returns nil and the configuration file is left
    empty. *)
Theorem X21_reconfigure_writes_what_update_returns :
  forall Unmarshal MarshalIndent Join_path flags ipamType h f,
    let confPath := conf_path Join_path flags in
    let r := Installer.reconfigureCNIIPAMConf Unmarshal MarshalIndent Join_path flags
               ipamType h in
    Installer.h_faults h = [] ->
    Installer.h_files h !! confPath = Some f ->
    (forall updated,
       Installer.UpdateCNIIPAM Unmarshal MarshalIndent (Installer.file_data f) ipamType
       = inr updated ->
       fst r = Ok tt
       /\ (exists f',
             Installer.h_files (snd r) !! confPath = Some f'
             /\ Installer.file_data f'
                = match updated with Some d => d | None => EmptyString end
             /\ Installer.file_mtime f' = Installer.h_now h)
       /\ Installer.h_files (snd r) !! (confPath +:+ ".tmp") = None
       /\ (forall other, other <> confPath -> other <> confPath +:+ ".tmp" ->
                         Installer.h_files (snd r) !! other = Installer.h_files h !! other))
    /\ (forall config,
          Unmarshal (Installer.file_data f) = inr config ->
          (forall plugin, In plugin (plugins_of config) ->
                          Installer.plugin_ipam plugin = None) ->
          fst r = Ok tt
          /\ exists f',
               Installer.h_files (snd r) !! confPath = Some f'
               /\ Installer.file_data f' = EmptyString).
Proof.
  intros Unmarshal MarshalIndent Join_path flags ipamType h f confPath r Hf Hfile.
  assert (Hrun : forall updated,
             Installer.UpdateCNIIPAM Unmarshal MarshalIndent (Installer.file_data f) ipamType
             = inr updated ->
             r = (Ok tt,
                  Installer.mkHost
                    (<[confPath :=
                         Installer.truncated (Installer.h_files h) (confPath +:+ ".tmp")
                           (match updated with Some d => d | None => EmptyString end) 420
                           (Installer.h_now h)]>
                       (delete (confPath +:+ ".tmp")
                          (<[confPath +:+ ".tmp" :=
                               Installer.truncated (Installer.h_files h) (confPath +:+ ".tmp")
                                 (match updated with Some d => d | None => EmptyString end) 420
                                 (Installer.h_now h)]> (Installer.h_files h))))
                    (Installer.h_now h) []
                    (Installer.h_trace h
                     ++ [Installer.FsStat confPath; Installer.FsReadFile confPath;
                         Installer.FsWriteFile (confPath +:+ ".tmp");
                         Installer.FsRename (confPath +:+ ".tmp") confPath]))).
  { intros updated Hup. subst r. unfold Installer.reconfigureCNIIPAMConf.
    fold (conf_path Join_path flags). fold confPath.
    unfold Installer.hbind at 1. unfold Installer.Stat.
    rewrite (oscall_nofault _ _ _ Hf). rewrite Hfile. cbn [fst snd].
    unfold Installer.hbind at 1. unfold Installer.orfail at 1. unfold Installer.hbind at 1.
    unfold Installer.ReadFile. rewrite oscall_nofault by reflexivity.
    cbn [Installer.h_files Installer.h_now Installer.h_trace]. rewrite Hfile. cbn [fst snd].
    unfold Installer.hret at 1. rewrite Hup.
    unfold Installer.hbind at 1. unfold Installer.orfail at 1. unfold Installer.hbind at 1.
    unfold Installer.WriteFile. rewrite oscall_nofault by reflexivity.
    cbn [Installer.h_files Installer.h_now Installer.h_trace fst snd].
    unfold Installer.hret at 1.
    unfold Installer.orfail, Installer.hbind, Installer.Rename.
    rewrite oscall_nofault by reflexivity.
    cbn [Installer.h_files Installer.h_now Installer.h_trace].
    rewrite lookup_insert_eq. cbn [fst snd]. unfold Installer.hret.
    rewrite <- !app_assoc. reflexivity. }
  assert (Hgen : forall updated,
             Installer.UpdateCNIIPAM Unmarshal MarshalIndent (Installer.file_data f) ipamType
             = inr updated ->
             fst r = Ok tt
             /\ (exists f',
                   Installer.h_files (snd r) !! confPath = Some f'
                   /\ Installer.file_data f'
                      = match updated with Some d => d | None => EmptyString end
                   /\ Installer.file_mtime f' = Installer.h_now h)
             /\ Installer.h_files (snd r) !! (confPath +:+ ".tmp") = None
             /\ (forall other, other <> confPath -> other <> confPath +:+ ".tmp" ->
                               Installer.h_files (snd r) !! other
                               = Installer.h_files h !! other)).
  { intros updated Hup. rewrite (Hrun updated Hup). cbn [fst snd Installer.h_files].
    split; [reflexivity|]. split; [|split].
    - eexists. split; [apply lookup_insert_eq|].
      unfold Installer.truncated.
      destruct (Installer.h_files h !! (confPath +:+ ".tmp")); split; reflexivity.
    - rewrite lookup_insert_ne by (intros E; apply (tmp_path_ne confPath); auto).
      apply lookup_delete_eq.
    - intros other H1 H2.
      rewrite lookup_insert_ne by congruence.
      rewrite lookup_delete_ne by congruence.
      apply lookup_insert_ne. congruence. }
  split; [exact Hgen|].
  intros config Hdec Hnone.
  destruct (Hgen None (UpdateCNIIPAM_no_ipam _ _ _ _ _ Hdec Hnone)) as (Hok & (f' & Hf' & Hd & _) & _).
  split; [exact Hok|]. exists f'. auto.
Qed.

Definition sample_join (parts : list string) : string := Join parts "/".

Definition sample_flags : Installer.Flags :=
  Installer.mkFlags "opt/cni/bin" "etc/cni/net.d" "10-containerd-net.conflist" "/host".

Definition plain_config : Installer.CNIConfig :=
  Installer.mkCNIConfig "0.3.1" "k8s-pod-network"
    (Some [Some {[ "type" := Installer.JString "portmap" ]}]).

Definition plain_unmarshal (_ : string) : error + Installer.CNIConfig := inr plain_config.

Definition sample_host : Installer.Host :=
  Installer.mkHost
    {[ "/host/etc/cni/net.d/10-containerd-net.conflist" := Installer.mkFile "document" 420 5;
       "/app/gcp-ipam" := Installer.mkFile "binary" 493 3 ]}
    10 [] [].

Lemma X21_witness :
  let r := Installer.reconfigureCNIIPAMConf plain_unmarshal sample_marshal sample_join
             sample_flags "gcp-ipam" sample_host in
  fst r = Ok tt
  /\ exists f',
       Installer.h_files (snd r) !! "/host/etc/cni/net.d/10-containerd-net.conflist" = Some f'
       /\ Installer.file_data f' = EmptyString.
Proof.
  apply (proj2 (X21_reconfigure_writes_what_update_returns plain_unmarshal sample_marshal
                  sample_join sample_flags "gcp-ipam" sample_host
                  (Installer.mkFile "document" 420 5) eq_refl eq_refl) plain_config eq_refl).
  intros plugin [<-|[]]. reflexivity.
Defined.

(** X22.  [reconfigureCNIIPAMConf] changes the configuration file in one
    step, the final rename: whatever the host answers, when it does not
    return nil the file is as it was (a [<conf>.tmp] may be left behind).
    When the file does not exist and the host says so, it returns nil
    after that one call, having changed nothing. *)
Theorem X22_reconfigure_is_all_or_nothing :
  forall Unmarshal MarshalIndent Join_path flags ipamType h,
    let confPath := conf_path Join_path flags in
    let r := Installer.reconfigureCNIIPAMConf Unmarshal MarshalIndent Join_path flags
               ipamType h in
    (fst r <> Ok tt ->
     (exists e, fst r = Err e)
     /\ Installer.h_files (snd r) !! confPath = Installer.h_files h !! confPath)
    /\ (Installer.h_files h !! confPath = None ->
        match Installer.h_faults h with Some _ :: _ => False | _ => True end ->
        fst r = Ok tt
        /\ Installer.h_files (snd r) = Installer.h_files h
        /\ Installer.h_trace (snd r) = Installer.h_trace h ++ [Installer.FsStat confPath]).
Proof.
  intros Unmarshal MarshalIndent Join_path flags ipamType h confPath r.
  subst r. unfold Installer.reconfigureCNIIPAMConf.
  fold (conf_path Join_path flags). fold confPath.
  split.
  - (* all or nothing *)
    destruct (Installer.hbind _ _ h) as [o hf] eqn:E. cbn [fst snd].
    unfold Installer.hbind at 1 in E. unfold Installer.Stat in E.
    destruct (oscall_inv (Installer.FsStat confPath)
                (fun files (_ : Z) =>
                   match files !! confPath with
                   | Some f0 => (inr (Z.of_nat (String.length (Installer.file_data f0)),
                                      Installer.file_mtime f0), files)
                   | None => (inl (Installer.ErrNotExist "stat" confPath), files)
                   end) h) as (r1 & h1 & E1 & _ & H1).
    rewrite E1 in E. clear E1.
    assert (F1 : Installer.h_files h1 = Installer.h_files h).
    { destruct H1 as [(e & _ & H)|H]; [exact H|].
      destruct (Installer.h_files h !! confPath); injection H as _ H; exact H. }
    clear H1.
    destruct (match r1 with inl err => Installer.IsNotExist err | inr _ => false end).
    { injection E as <- <-. intros H. elim H. reflexivity. }
    unfold Installer.hbind at 1 in E. unfold Installer.orfail at 1 in E.
    unfold Installer.hbind at 1 in E. unfold Installer.ReadFile in E.
    destruct (oscall_inv (Installer.FsReadFile confPath)
                (fun files (_ : Z) =>
                   match files !! confPath with
                   | Some f0 => (inr (Installer.file_data f0), files)
                   | None => (inl (Installer.ErrNotExist "open" confPath), files)
                   end) h1) as (r2 & h2 & E2 & _ & H2).
    rewrite E2 in E. clear E2.
    assert (F2 : Installer.h_files h2 = Installer.h_files h).
    { rewrite <- F1. destruct H2 as [(e & _ & H)|H]; [exact H|].
      destruct (Installer.h_files h1 !! confPath); injection H as _ H; exact H. }
    clear H2.
    destruct r2 as [e2|data]; cbn [Installer.hfail Installer.hret] in E.
    { injection E as <- <-. intros _. rewrite F2. eauto. }
    destruct (Installer.UpdateCNIIPAM Unmarshal MarshalIndent data ipamType) as [err|updated];
      cbn [Installer.hfail] in E.
    { injection E as <- <-. intros _. rewrite F2. eauto. }
    unfold Installer.hbind at 1 in E. unfold Installer.orfail at 1 in E.
    unfold Installer.hbind at 1 in E. unfold Installer.WriteFile in E.
    match type of E with context [Installer.oscall ?ev ?run h2] =>
      destruct (oscall_inv ev run h2) as (r3 & h3 & E3 & _ & H3)
    end.
    rewrite E3 in E. clear E3.
    assert (F3 : Installer.h_files h3 !! confPath = Installer.h_files h !! confPath).
    { rewrite <- F2. destruct H3 as [(e & _ & ->)|H]; [reflexivity|].
      injection H as _ ->. apply lookup_insert_ne, tmp_path_ne. }
    clear H3.
    destruct r3 as [e3|[]]; cbn [Installer.hfail Installer.hret] in E.
    { injection E as <- <-. intros _. rewrite F3. eauto. }
    unfold Installer.orfail, Installer.hbind, Installer.Rename in E.
    match type of E with context [Installer.oscall ?ev ?run h3] =>
      destruct (oscall_inv ev run h3) as (r4 & h4 & E4 & _ & H4)
    end.
    rewrite E4 in E. clear E4.
    destruct r4 as [e4|[]]; cbn [Installer.hfail Installer.hret] in E; injection E as <- <-.
    + intros _. split; [eauto|]. rewrite <- F3.
      destruct H4 as [(e & _ & ->)|H]; [reflexivity|].
      destruct (Installer.h_files h3 !! (confPath +:+ ".tmp"));
        [discriminate H | injection H as _ ->; reflexivity].
    + intros H. elim H. reflexivity.
  - (* the file is not there *)
    intros Hnone Hpass.
    destruct (Installer.hbind _ _ h) as [o hf] eqn:E. cbn [fst snd].
    unfold Installer.hbind, Installer.Stat, Installer.oscall in E.
    destruct (Installer.h_faults h) as [|[e|] fs]; [|contradiction|];
      rewrite Hnone in E; cbn [Installer.IsNotExist Installer.hret] in E;
      injection E as <- <-; cbn [Installer.h_files Installer.h_trace]; auto.
Qed.

Definition failing_host : Installer.Host :=
  Installer.mkHost
    {[ "/host/etc/cni/net.d/10-containerd-net.conflist" := Installer.mkFile "document" 420 5 ]}
    10 [None; None; Some (Installer.ErrOther "open"
                            "/host/etc/cni/net.d/10-containerd-net.conflist.tmp"
                            "read-only file system")] [].

Lemma X22_witness :
  let r := Installer.reconfigureCNIIPAMConf sample_unmarshal sample_marshal sample_join
             sample_flags "gcp-ipam" failing_host in
  (exists e, fst r = Err e)
  /\ Installer.h_files (snd r) !! conf_path sample_join sample_flags
     = Installer.h_files failing_host !! conf_path sample_join sample_flags.
Proof.
  apply (proj1 (X22_reconfigure_is_all_or_nothing sample_unmarshal sample_marshal sample_join
                  sample_flags "gcp-ipam" failing_host)).
  vm_compute. discriminate.
Defined.

(** ** [copyFile], [filesMatch] and [installHostBinary] *)

Lemma take_all n s : (String.length s <= n)%nat -> String.substring 0 n s = s.
Proof.
  revert n. induction s as [|c s IH]; intros [|n] H; cbn in *; try reflexivity; try lia.
  rewrite IH by lia. reflexivity.
Qed.

Lemma take_length n s : String.length (String.substring 0 n s) = Nat.min n (String.length s).
Proof.
  revert n. induction s as [|c s IH]; intros [|n]; cbn; try reflexivity.
  rewrite IH. reflexivity.
Qed.

Lemma copyFile_run source target h src :
  Installer.h_faults h = [] ->
  Installer.h_files h !! source = Some src ->
  source <> target ->
  let bytes := Installer.take Installer.maxCopyBytes (Installer.file_data src) in
  let mode := match Installer.h_files h !! target with
              | Some f => Installer.file_mode f
              | None => 438
              end in
  Installer.copyFile source target h
  = (if Installer.maxCopyBytes - Z.of_nat (String.length bytes) <=? 0
     then Err (ErrorString ("reached uncompressed file size limit "
                            +:+ pretty Installer.maxCopyBytes +:+ " bytes"))
     else Ok tt,
     Installer.mkHost
       (<[target := Installer.mkFile bytes mode (Installer.h_now h)]> (Installer.h_files h))
       (Installer.h_now h) []
       (Installer.h_trace h ++ [Installer.FsCreate target; Installer.FsCopy source target])).
Proof.
  intros Hf Hsrc Hne. cbv zeta.
  unfold Installer.copyFile.
  unfold Installer.hbind at 1. unfold Installer.orfail at 1. unfold Installer.hbind at 1.
  unfold Installer.Create. rewrite (oscall_nofault _ _ _ Hf). cbn [fst snd].
  unfold Installer.hret at 1.
  unfold Installer.hbind at 1. unfold Installer.orfail at 1. unfold Installer.hbind at 1.
  unfold Installer.CopyLimited. rewrite oscall_nofault by reflexivity.
  cbn [Installer.h_files Installer.h_now Installer.h_trace].
  rewrite lookup_insert_ne by congruence. rewrite Hsrc, lookup_insert_eq.
  cbn [fst snd]. unfold Installer.hret at 1.
  rewrite insert_insert_eq, <- app_assoc. cbn [app].
  unfold Installer.truncated.
  destruct (Installer.h_files h !! target); cbn [Installer.file_mode];
    destruct (_ <=? 0); reflexivity.
Qed.

(** X23.  [copyFile] copies at most [maxCopyBytes] (100 MiB) and fails
    once the limit is reached.  A source shorter than that arrives whole in
    the target, which has the time of the copy, and nil is returned.  A
    source of [maxCopyBytes] bytes or more gives [reached uncompressed file
    size limit 104857600 bytes], with the first [maxCopyBytes] bytes left
    in the target; so a source of exactly that size is refused although it
    was copied whole.  The source is not changed. *)
Theorem X23_copyFile_stops_at_the_limit :
  forall source target h src,
    Installer.h_faults h = [] ->
    Installer.h_files h !! source = Some src ->
    source <> target ->
    let r := Installer.copyFile source target h in
    let size := Z.of_nat (String.length (Installer.file_data src)) in
    (exists f',
       Installer.h_files (snd r) !! target = Some f'
       /\ Installer.file_mtime f' = Installer.h_now h
       /\ (size <= Installer.maxCopyBytes -> Installer.file_data f' = Installer.file_data src)
       /\ Installer.file_data f'
          = Installer.take Installer.maxCopyBytes (Installer.file_data src))
    /\ (size < Installer.maxCopyBytes -> fst r = Ok tt)
    /\ (Installer.maxCopyBytes <= size ->
        fst r = Err (ErrorString "reached uncompressed file size limit 104857600 bytes"))
    /\ Installer.h_files (snd r) !! source = Some src.
Proof.
  intros source target h src Hf Hsrc Hne. cbv zeta.
  rewrite (copyFile_run source target h src Hf Hsrc Hne). cbn [fst snd Installer.h_files].
  assert (Hmax : 0 <= Installer.maxCopyBytes) by (vm_compute; discriminate).
  assert (Hlen : Z.of_nat (String.length (Installer.take Installer.maxCopyBytes
                                            (Installer.file_data src)))
                 = Z.min Installer.maxCopyBytes
                     (Z.of_nat (String.length (Installer.file_data src)))).
  { unfold Installer.take. rewrite take_length, Nat2Z.inj_min, Z2Nat.id by exact Hmax.
    reflexivity. }
  split; [|split; [|split]].
  - eexists. split; [apply lookup_insert_eq|]. cbn [Installer.file_mtime Installer.file_data].
    split; [reflexivity|]. split; [|reflexivity].
    intros Hs. unfold Installer.take. apply take_all. lia.
  - intros Hs. rewrite Hlen.
    destruct (_ <=? 0) eqn:E; [|reflexivity]. apply Z.leb_le in E. lia.
  - intros Hs. rewrite Hlen.
    destruct (_ <=? 0) eqn:E; [reflexivity|]. apply Z.leb_gt in E. lia.
  - rewrite lookup_insert_ne by congruence. exact Hsrc.
Qed.

Lemma X23_witness :
  let r := Installer.copyFile "/app/gcp-ipam" "/host/opt/cni/bin/gcp-ipam.tmp" sample_host in
  fst r = Ok tt
  /\ exists f',
       Installer.h_files (snd r) !! "/host/opt/cni/bin/gcp-ipam.tmp" = Some f'
       /\ Installer.file_data f' = "binary".
Proof.
  destruct (X23_copyFile_stops_at_the_limit "/app/gcp-ipam" "/host/opt/cni/bin/gcp-ipam.tmp"
              sample_host (Installer.mkFile "binary" 493 3))
    as ((f' & Hf' & _ & Hd & _) & Hok & _).
  - reflexivity.
  - vm_compute. reflexivity.
  - discriminate.
  - split; [apply Hok; vm_compute; reflexivity|].
    exists f'. split; [exact Hf'|]. apply Hd. vm_compute. discriminate.
Defined.

Definition same_size_and_time (a b : Installer.File) : Prop :=
  String.length (Installer.file_data a) = String.length (Installer.file_data b)
  /\ Installer.file_mtime a = Installer.file_mtime b.

Lemma filesMatch_run src dest h f :
  Installer.h_faults h = [] ->
  Installer.h_files h !! src = Some f ->
  Installer.filesMatch src dest h
  = (Ok match Installer.h_files h !! dest with
        | Some d =>
            (Z.of_nat (String.length (Installer.file_data f))
             =? Z.of_nat (String.length (Installer.file_data d)))
            && (Installer.file_mtime f =? Installer.file_mtime d)
        | None => false
        end,
     Installer.mkHost (Installer.h_files h) (Installer.h_now h) []
       (Installer.h_trace h ++ [Installer.FsStat src; Installer.FsStat dest])).
Proof.
  intros Hf Hsrc. unfold Installer.filesMatch.
  unfold Installer.hbind at 1. unfold Installer.Stat at 1.
  rewrite (oscall_nofault _ _ _ Hf), Hsrc. cbn [fst snd].
  unfold Installer.hbind, Installer.Stat. rewrite oscall_nofault by reflexivity.
  cbn [Installer.h_files Installer.h_now Installer.h_trace].
  rewrite <- app_assoc.
  destruct (Installer.h_files h !! dest); reflexivity.
Qed.

Definition bin_src (Join_path : list string -> string) (binaryName : string) : string :=
  Join_path ["/app"; binaryName].

Definition bin_dest (Join_path : list string -> string) (flags : Installer.Flags)
           (binaryName : string) : string :=
  Join_path [Join_path [Installer.hostRoot flags; Installer.cniBinDir flags]; binaryName].

(** X24.  [installHostBinary], when every call goes through and the
    source is shorter than the copy limit.  It compares the size and the
    modification time of source and destination, never their bytes: a
    destination of the same size and time is taken as up to date and
    nothing is changed.  Otherwise the destination ends up with the bytes
    of the source, mode 0755 and the time of the copy (not the source's
    time), put in place by renaming [<dest>.tmp], which is gone afterwards;
    the other files are left alone. *)
Theorem X24_installHostBinary_installs_unless_size_and_time_match :
  forall Join_path flags binaryName h src,
    let srcPath := bin_src Join_path binaryName in
    let destPath := bin_dest Join_path flags binaryName in
    let r := Installer.installHostBinary Join_path flags binaryName h in
    Installer.h_faults h = [] ->
    Installer.h_files h !! srcPath = Some src ->
    srcPath <> destPath +:+ ".tmp" ->
    Z.of_nat (String.length (Installer.file_data src)) < Installer.maxCopyBytes ->
    ((exists d, Installer.h_files h !! destPath = Some d /\ same_size_and_time src d) ->
     fst r = Ok tt /\ Installer.h_files (snd r) = Installer.h_files h)
    /\ ((forall d, Installer.h_files h !! destPath = Some d -> ~ same_size_and_time src d) ->
        fst r = Ok tt
        /\ Installer.h_files (snd r) !! destPath
           = Some (Installer.mkFile (Installer.file_data src) 493 (Installer.h_now h))
        /\ Installer.h_files (snd r) !! (destPath +:+ ".tmp") = None
        /\ (forall other, other <> destPath -> other <> destPath +:+ ".tmp" ->
                          Installer.h_files (snd r) !! other = Installer.h_files h !! other)).
Proof.
  intros Join_path flags binaryName h src srcPath destPath r Hf Hsrc Hne Hsize.
  subst r. unfold Installer.installHostBinary.
  fold (bin_src Join_path binaryName). fold srcPath.
  fold (bin_dest Join_path flags binaryName). fold destPath.
  set (matched := match Installer.h_files h !! destPath with
                  | Some d =>
                      (Z.of_nat (String.length (Installer.file_data src))
                       =? Z.of_nat (String.length (Installer.file_data d)))
                      && (Installer.file_mtime src =? Installer.file_mtime d)
                  | None => false
                  end).
  assert (Hm : matched = true
               <-> exists d, Installer.h_files h !! destPath = Some d
                             /\ same_size_and_time src d).
  { subst matched. unfold same_size_and_time.
    destruct (Installer.h_files h !! destPath) as [d|].
    - rewrite andb_true_iff, !Z.eqb_eq, Nat2Z.inj_iff. split.
      + intros H. exists d. auto.
      + intros (d' & Hd & H). injection Hd as <-. exact H.
    - split; [discriminate | intros (d & Hd & _); discriminate Hd]. }
  split.
  - intros Hex. apply Hm in Hex.
    destruct (Installer.hbind _ _ h) as [o hf] eqn:E. cbn [fst snd].
    unfold Installer.hbind at 1 in E.
    rewrite (filesMatch_run srcPath destPath h src Hf Hsrc) in E.
    fold matched in E. rewrite Hex in E. injection E as <- <-. auto.
  - intros Hno.
    assert (Hfalse : matched = false).
    { apply not_true_is_false. intros E.
      apply Hm in E. destruct E as (d & Hd & Hs). elim (Hno d Hd Hs). }
    destruct (Installer.hbind _ _ h) as [o hf] eqn:E. cbn [fst snd].
    unfold Installer.hbind at 1 in E.
    rewrite (filesMatch_run srcPath destPath h src Hf Hsrc) in E.
    fold matched in E. rewrite Hfalse in E.
    unfold Installer.hbind at 1 in E. unfold Installer.orfail at 1 in E.
    unfold Installer.hbind at 1 in E. unfold Installer.MkdirAll in E.
    rewrite oscall_nofault in E by reflexivity. cbn [fst snd] in E.
    unfold Installer.hret at 1 in E.
    unfold Installer.hbind at 1 in E. unfold Installer.orfail at 1 in E.
    unfold Installer.hbind at 1 in E. unfold Installer.Open in E.
    rewrite oscall_nofault in E by reflexivity.
    cbn [Installer.h_files Installer.h_now Installer.h_trace] in E.
    rewrite Hsrc in E. cbn [fst snd] in E. unfold Installer.hret at 1 in E.
    unfold Installer.hbind at 1 in E. unfold Installer.hmap_err in E.
    match type of E with context [Installer.copyFile _ _ ?h3] =>
      rewrite (copyFile_run srcPath (destPath +:+ ".tmp") h3 src eq_refl Hsrc Hne) in E
    end.
    cbn [Installer.h_files Installer.h_now Installer.h_trace] in E.
    assert (Htake : Installer.take Installer.maxCopyBytes (Installer.file_data src)
                    = Installer.file_data src).
    { unfold Installer.take. apply take_all.
      assert (0 <= Installer.maxCopyBytes) by (vm_compute; discriminate). lia. }
    rewrite Htake in E.
    destruct (_ <=? 0) eqn:El in E; [apply Z.leb_le in El; lia|].
    unfold Installer.hbind at 1 in E. unfold Installer.orfail at 1 in E.
    unfold Installer.hbind at 1 in E. unfold Installer.Chmod in E.
    rewrite oscall_nofault in E by reflexivity.
    cbn [Installer.h_files Installer.h_now Installer.h_trace] in E.
    rewrite lookup_insert_eq in E. cbn [fst snd Installer.file_data Installer.file_mtime] in E.
    unfold Installer.hret at 1 in E.
    unfold Installer.orfail, Installer.hbind, Installer.Rename in E.
    rewrite oscall_nofault in E by reflexivity.
    cbn [Installer.h_files Installer.h_now Installer.h_trace] in E.
    rewrite lookup_insert_eq in E. cbn [fst snd] in E. unfold Installer.hret in E.
    injection E as <- <-. cbn [Installer.h_files].
    split; [reflexivity|].
    split; [apply lookup_insert_eq|].
    split.
    + rewrite lookup_insert_ne by (intros E; apply (tmp_path_ne destPath); auto).
      apply lookup_delete_eq.
    + intros other H1 H2.
      rewrite lookup_insert_ne by congruence.
      rewrite lookup_delete_ne by congruence.
      rewrite !lookup_insert_ne by congruence. reflexivity.
Qed.

Lemma X24_witness :
  let r := Installer.installHostBinary sample_join sample_flags "gcp-ipam" sample_host in
  fst r = Ok tt
  /\ Installer.h_files (snd r) !! "/host/opt/cni/bin/gcp-ipam"
     = Some (Installer.mkFile "binary" 493 10)
  /\ Installer.h_files (snd r) !! "/host/opt/cni/bin/gcp-ipam.tmp" = None.
Proof.
  destruct (proj2 (X24_installHostBinary_installs_unless_size_and_time_match
                     sample_join sample_flags "gcp-ipam" sample_host
                     (Installer.mkFile "binary" 493 3) eq_refl eq_refl
                     ltac:(discriminate) ltac:(vm_compute; reflexivity)))
    as (Hok & Hdest & Htmp & _).
  - intros d Hd. vm_compute in Hd. discriminate Hd.
  - split; [exact Hok|]. split; [exact Hdest | exact Htmp].
Defined.
(** ** Looking an allocation up after a write *)

Lemma GetAllocation_passes poolName ip w p :
  passes (w_faults w) ->
  w_pools w !! poolName = Some p ->
  fst (Ipam.GetAllocation poolName ip w)
  = match map_of (Allocations (Spec p)) !! ip with
    | Some _ => Ok (allocation_result ip p)
    | None => Err (ErrorString ("IP " +:+ ip +:+ " not found in pool " +:+ poolName))
    end.
Proof.
  intros Hpass Hp.
  unfold Ipam.GetAllocation, pool_Get, bind, map_err, remote, passes, fail, ret in *.
  destruct (w_faults w) as [|[e|] fs]; try contradiction;
    cbn [fst snd w_pools set_faults log]; rewrite Hp; cbn [fst Spec with_name];
    destruct (Allocations (Spec p)) as [m|]; cbn [map_of fst];
    try (destruct (m !! ip)); try rewrite lookup_empty; reflexivity.
Qed.

(** X25.  What [Allocate] hands out, [GetAllocation] finds, and what
    [Release] released it finds no more.  After an [Allocate] that returned
    a result, a [GetAllocation] for the pool of the request and the address
    returned gives that same result (address, cidr, subnet and range name);
    after a [Release] that returned nil, a [GetAllocation] for that pool
    and address gives [IP <ip> not found in pool <pool>], also when the
    address had never been allocated.  Both when the read goes through. *)
Theorem X25_allocation_is_found_until_released :
  (forall req w r w1,
     Ipam.Allocate req w = (Ok r, w1) ->
     passes (w_faults w1) ->
     fst (Ipam.GetAllocation (Ipam.req_PoolName req) (Ipam.res_IP r) w1) = Ok r)
  /\ (forall poolName ip w w1,
        Ipam.Release poolName ip w = (Ok tt, w1) ->
        passes (w_faults w1) ->
        fst (Ipam.GetAllocation poolName ip w1)
        = Err (ErrorString ("IP " +:+ ip +:+ " not found in pool " +:+ poolName))).
Proof.
  split.
  - intros req w r w1 H Hpass.
    destruct (Allocate_Ok_inv req w r w1 H) as (p & key & t & Hp & Hsel & -> & -> & Hw).
    cbn [allocation_result Ipam.res_IP].
    rewrite (GetAllocation_passes _ key w1
               (allocated_pool req key (w_now w1) (Ipam.req_PoolName req) p) Hpass)
      by (rewrite Hw; apply lookup_insert_eq).
    rewrite allocated_pool_allocations, lookup_insert_eq.
    unfold allocation_result. rewrite allocated_pool_CIDR.
    unfold allocated_pool, with_version. cbn [Spec].
    match goal with |- context [on_wire ?q] =>
      destruct (on_wire_meta q) as (-> & -> & _) end.
    reflexivity.
  - intros poolName ip w w1 H Hpass.
    destruct (Release_Ok_inv poolName ip w tt w1 H) as (p & Hp & Hw).
    rewrite (GetAllocation_passes _ ip w1 (released_pool ip (w_now w1) poolName p) Hpass)
      by (rewrite Hw; apply lookup_insert_eq).
    rewrite released_pool_allocations, lookup_delete_eq. reflexivity.
Qed.

Lemma X25_witness :
  let w := world_with_pool "ippool-a" "10.0.0.0/30" in
  let w1 := snd (Ipam.Allocate (request "ippool-a" EmptyString) w) in
  let w2 := snd (Ipam.Release "ippool-a" "10.0.0.1" w1) in
  fst (Ipam.GetAllocation "ippool-a" "10.0.0.1" w1)
  = Ok (Ipam.mkAllocationResult "10.0.0.1" "10.0.0.0/30"
          "projects/proj/regions/europe-west1/subnetworks/a" "live")
  /\ fst (Ipam.GetAllocation "ippool-a" "10.0.0.1" w2)
     = Err (ErrorString "IP 10.0.0.1 not found in pool ippool-a").
Proof.
  cbv zeta. split.
  - apply (proj1 X25_allocation_is_found_until_released
             (request "ippool-a" EmptyString) (world_with_pool "ippool-a" "10.0.0.0/30")
             (Ipam.mkAllocationResult "10.0.0.1" "10.0.0.0/30"
                "projects/proj/regions/europe-west1/subnetworks/a" "live")).
    + vm_compute. reflexivity.
    + vm_compute. exact I.
  - apply (proj2 X25_allocation_is_found_until_released "ippool-a" "10.0.0.1"
             (snd (Ipam.Allocate (request "ippool-a" EmptyString)
                     (world_with_pool "ippool-a" "10.0.0.0/30")))).
    + vm_compute. reflexivity.
    + vm_compute. exact I.
Defined.
(** ** A DEL that does not return nil *)

(** [m] returned nil, or it has not written to a pool. *)
Definition nil_or_silent (m : M unit) (w : World) : Prop :=
  fst (m w) = Ok tt \/ silent_step w (snd (m w)).

Lemma nil_or_silent_bind {A} (m : M A) (k : A -> M unit) w :
  silent_step w (snd (m w)) ->
  (forall a w1, m w = (Ok a, w1) -> nil_or_silent (k a) w1) ->
  nil_or_silent (bind m k) w.
Proof.
  intros Hm Hk. unfold nil_or_silent, bind.
  destruct (m w) as [[a|e|msg|] w1] eqn:E; cbn [snd] in *; try (right; exact Hm).
  destruct (Hk a w1 eq_refl) as [H|H]; [left; exact H|].
  right. eapply silent_step_trans; [exact Hm | exact H].
Qed.

Lemma nil_or_silent_of_silent (m : M unit) w : silent_step w (snd (m w)) -> nil_or_silent m w.
Proof. intros H. right. exact H. Qed.

Lemma del_release_nil_or_silent conf instance ip w :
  nil_or_silent (Driver.del_release conf instance ip) w.
Proof.
  unfold Driver.del_release.
  apply nil_or_silent_bind;
    [apply quiet_silent, quietly_try, quietly_remote; exact I|].
  intros [e|[]] w1 _; [left; reflexivity|].
  destruct (inst_NetworkInterfaces instance) as [|nic nics]; cbn [index0].
  - right. apply silent_step_refl.
  - left. unfold bind, ret, try.
    match goal with |- context [Ipam.Release ?n ?i w1] =>
      destruct (Ipam.Release n i w1) as [o w2] eqn:E end.
    apply Release_loop_inv in E. destruct o; try contradiction; reflexivity.
Qed.

Lemma with_lock_nil_or_silent (body : M unit) w :
  nil_or_silent body (log EvLock w) -> nil_or_silent (Driver.with_lock body) w.
Proof.
  unfold nil_or_silent, Driver.with_lock.
  assert (HL : silent_step w (log EvLock w)) by (apply silent_log; exact (fun x => x)).
  destruct (body (log EvLock w)) as [o wb]. cbn [fst snd].
  intros [H|H].
  - left. subst o. reflexivity.
  - right.
    assert (HU : silent_step wb (log EvUnlock wb)) by (apply silent_log; exact (fun x => x)).
    pose proof (silent_step_trans _ _ _ HL H) as Hb.
    pose proof (silent_step_trans _ _ _ Hb HU) as Hu.
    destruct o; cbn [snd]; assumption.
Qed.

Lemma cmdDel_nil_or_silent parseConfig fuel args w :
  nil_or_silent (Driver.cmdDel parseConfig fuel args) w.
Proof.
  unfold Driver.cmdDel.
  destruct (String.eqb (Driver.Netns args) EmptyString); [left; reflexivity|].
  apply with_lock_nil_or_silent.
  apply nil_or_silent_bind; [apply quiet_silent, quietly_parse_config|].
  intros conf w1 _.
  apply nil_or_silent_bind;
    [apply quiet_silent, quietly_map_err, quietly_remote; exact I|].
  intros [] w2 _.
  apply nil_or_silent_bind; [apply quiet_silent, quietly_map_err, quietly_Pods_Get|].
  intros p w3 _.
  apply nil_or_silent_bind; [apply quiet_silent, quietly_index0|]. intros ip w4 _.
  apply nil_or_silent_bind;
    [apply quiet_silent, quietly_map_err, quietly_remote; exact I|]. intros [] w5 _.
  apply nil_or_silent_bind; [apply quiet_silent, quietly_getInstanceInfo|].
  intros [[[projectID zone] region] instanceName] w6 _.
  apply nil_or_silent_bind; [apply quiet_silent, quietly_map_err, quietly_Instances_Get|].
  intros instance w7 _.
  apply nil_or_silent_bind; [apply quiet_silent, quietly_map_err, quietly_Instances_Get|].
  intros i w8 _.
  apply nil_or_silent_bind; [apply quiet_silent, quietly_index0|]. intros nic w9 _.
  apply nil_or_silent_bind; [apply pool_silent_map_err, pool_silent_update|]. intros c w10 _.
  apply nil_or_silent_bind; [apply pool_silent_map_err, pool_silent_wait|]. intros [] w11 _.
  destruct (pod_Annotations p !! Driver.MoveOutAnnotation).
  - left. reflexivity.
  - apply del_release_nil_or_silent.
Qed.

(** X26.  A DEL that does not return nil has not written to a pool.  The
    release is the last thing a DEL does and its own failures are logged,
    not returned; so whatever the cluster API and the cloud answer, when the
    DEL returns an error, panics or runs out of polls, the pools are as
    before and no pool update or create is among its calls: the address is
    still allocated for the retry. *)
Theorem X26_failed_del_has_not_released :
  forall parseConfig fuel args w,
    let r := Driver.cmdDel parseConfig fuel args w in
    fst r <> Ok tt ->
    w_pools (snd r) = w_pools w
    /\ exists tr, w_trace (snd r) = w_trace w ++ tr
                  /\ Forall (fun ev => ~ pool_write ev) tr.
Proof.
  intros parseConfig fuel args w r Hfail. subst r.
  destruct (cmdDel_nil_or_silent parseConfig fuel args w) as [H|H]; [contradiction|].
  exact H.
Qed.

Lemma X26_witness :
  let w := set_faults [None; None; None; None; None; None; None;
                       Some (GoogleApiError 503 "backend error")] del_world_ok in
  let r := Driver.cmdDel any_conf 3 del_args w in
  fst r = Err (Wrapped "failed to get instance details" (GoogleApiError 503 "backend error"))
  /\ w_pools (snd r) = w_pools del_world_ok
  /\ exists tr, w_trace (snd r) = w_trace del_world_ok ++ tr
                /\ Forall (fun ev => ~ pool_write ev) tr.
Proof.
  cbv zeta. split; [vm_compute; reflexivity|].
  apply (X26_failed_del_has_not_released any_conf 3 del_args
           (set_faults [None; None; None; None; None; None; None;
                        Some (GoogleApiError 503 "backend error")] del_world_ok)).
  vm_compute. discriminate.
Defined.
(** ** A migration onto the node the address is on *)

Lemma GetAllocation_logged poolName ip tr w p a :
  w_pools w !! poolName = Some p ->
  map_of (Allocations (Spec p)) !! ip = Some a ->
  Ipam.GetAllocation poolName ip (logged tr w)
  = (Ok (allocation_result ip p), logged (tr ++ [EvPoolGet poolName]) w).
Proof.
  intros Hp Ha. unfold Ipam.GetAllocation, pool_Get.
  unfold bind at 1. unfold map_err. unfold bind at 1. rewrite remote_logged.
  cbn [w_pools logged]. rewrite Hp. cbn [Spec with_name].
  destruct (Allocations (Spec p)) as [m|]; cbn [map_of] in Ha;
    [|rewrite lookup_empty in Ha; discriminate Ha].
  rewrite Ha. reflexivity.
Qed.

Lemma fingerprint_after_install nic nics al i :
  inst_NetworkInterfaces i = nic :: nics ->
  fingerprint_of (nic_Name nic) (install_aliases (nic_Name nic) al i)
  = Some (nic_Fingerprint nic + 1).
Proof.
  intros H. unfold fingerprint_of, install_aliases. cbn [inst_NetworkInterfaces].
  rewrite H. cbn [map find]. rewrite String.eqb_refl. cbn [nic_Name]. rewrite String.eqb_refl.
  reflexivity.
Qed.

Lemma stale_update_refused inst nic nics al al' i w :
  w_faults w = [] ->
  w_instances w !! inst = Some (install_aliases (nic_Name nic) al i) ->
  inst_NetworkInterfaces i = nic :: nics ->
  Instances_UpdateNetworkInterface inst (nic_Name nic) (nic_Fingerprint nic) al' w
  = (Err (GoogleApiError 412 "Supplied fingerprint does not match current fingerprint"),
     set_faults [] (log (EvUpdateNetworkInterface inst al') w)).
Proof.
  intros Hf Hi Hn. unfold Instances_UpdateNetworkInterface.
  rewrite (bind_run _ _ _ _ _ (remote_nofault _ _ Hf)).
  cbn [w_instances set_faults log]. rewrite Hi.
  rewrite (fingerprint_after_install nic nics al i Hn).
  replace (nic_Fingerprint nic + 1 =? nic_Fingerprint nic) with false
    by (symmetry; apply Z.eqb_neq; lia).
  reflexivity.
Qed.

(** X27.  An ADD sends the attach with the interface as it was read at the
    start: the fingerprint and the alias list of before the detach.  So for
    a pod whose original-instance annotation names the node the ADD runs
    on, with the address attached there and every call going through, the
    detach is carried out and the attach is refused by the cloud for its
    fingerprint: the ADD returns [failed to update network interface: ...],
    the address is attached nowhere on the node, and the pool still holds
    the allocation. *)
Theorem X27_migration_onto_the_same_node_loses_the_alias :
  forall parseConfig fuel args w conf pod reqIP inst nic nics subnet p a flags polls,
    w_faults w = [] ->
    parseConfig (Driver.StdinData args) = inr conf ->
    w_pods w !! (cni_namespace args, cni_pod_name args) = Some pod ->
    pod_Annotations pod !! Driver.LiveIPAnnotation = Some reqIP ->
    pod_Annotations pod !! Driver.OriginalInstanceAnnotation
    = Some (md_InstanceName (w_metadata w)) ->
    (2 < String.length (md_Zone (w_metadata w)))%nat ->
    w_instances w !! md_InstanceName (w_metadata w) = Some inst ->
    inst_NetworkInterfaces inst = nic :: nics ->
    attached (w_instances w) (md_InstanceName (w_metadata w)) reqIP ->
    w_subnets w !! last_part (split_on "/" (nic_Subnetwork nic)) = Some subnet ->
    w_pools w !! pool_name_for conf nic = Some p ->
    map_of (Allocations (Spec p)) !! reqIP = Some a ->
    w_polls w = map PollRunning flags ++ PollDone None :: polls ->
    (length flags < fuel)%nat ->
    exists w' tr,
      Driver.cmdAdd parseConfig fuel args w
      = (Err (Wrapped "failed to update network interface"
                (GoogleApiError 412 "Supplied fingerprint does not match current fingerprint")),
         w')
      /\ w_trace w'
         = tr ++ [EvUpdateNetworkInterface (md_InstanceName (w_metadata w))
                    (nic_AliasIpRanges nic
                     ++ [mkAliasIpRange (Driver.slash32 reqIP) (range_name_of p)]);
                  EvUnlock]
      /\ w_instances w'
         = <[md_InstanceName (w_metadata w) :=
               install_aliases (nic_Name nic)
                 (Driver.without_alias reqIP (nic_AliasIpRanges nic)) inst]> (w_instances w)
      /\ ~ attached (w_instances w') (md_InstanceName (w_metadata w)) reqIP
      /\ w_pools w' = w_pools w.
Proof.
  intros parseConfig fuel args w conf pod reqIP inst nic nics subnet p a flags polls
         Hf Hconf Hpod Hlive Horig Hz Hinst Hnics _ Hsub Hpool Ha Hpolls Hfuel.
  unfold Driver.cmdAdd, Driver.with_lock.
  rewrite (log_nofault EvLock w Hf).
  rewrite (bind_run _ _ _ _ _
             (add_preamble_logged parseConfig args _ w conf pod inst nic nics subnet
                Hconf Hpod Hz Hinst Hnics Hsub)).
  cbn [app].
  unfold bind at 1. unfold Driver.add_allocation.
  cbn [Driver.ctx_pod Driver.ctx_poolName]. rewrite Hlive.
  rewrite (bind_run _ _ _ _ _
             (map_err_Ok_run _ _ _ _ _ (GetAllocation_logged _ _ _ w p a Hpool Ha))).
  unfold ret at 1. cbn [app].
  (* the detach *)
  unfold Driver.add_source_detach. cbn [Driver.ctx_pod]. rewrite Horig.
  unfold get_or_empty. rewrite Hlive.
  unfold bind at 1.
  rewrite (bind_run _ _ _ _ _ (map_err_Ok_run _ _ _ _ _ (Instances_Get_logged _ _ _ _ Hinst))).
  rewrite Hnics. unfold index0 at 1. unfold bind at 1. unfold ret at 1.
  cbn [app].
  match goal with |- context [logged ?tr w] => set (tr0 := tr) end.
  destruct (update_and_wait fuel (md_InstanceName (w_metadata w)) nic nics
              (Driver.without_alias reqIP (nic_AliasIpRanges nic)) tr0 w inst flags None polls
              Hinst Hnics Hpolls Hfuel)
    as (w2 & Hrun & Hf2 & Hi2 & Hp2 & _ & _ & _ & _ & _ & Ht2).
  specialize (Hi2 eq_refl). cbn [update_outcome] in Hrun.
  rewrite Hrun.
  (* the attach *)
  match goal with |- context [Driver.add_destination_attach fuel ?c ?ip ?ar] =>
    assert (Hatt : Driver.add_destination_attach fuel c ip ar w2
                   = (Err (Wrapped "failed to update network interface"
                             (GoogleApiError 412
                                "Supplied fingerprint does not match current fingerprint")),
                      set_faults []
                        (log (EvUpdateNetworkInterface (md_InstanceName (w_metadata w))
                                (nic_AliasIpRanges nic
                                 ++ [mkAliasIpRange (Driver.slash32 reqIP) (range_name_of p)]))
                           w2)))
  end.
  { unfold Driver.add_destination_attach, allocation_result.
    cbn [Driver.ctx_instanceName Driver.ctx_nic Ipam.res_SecondaryRangeName].
    fold (range_name_of p). unfold bind, map_err.
    rewrite (stale_update_refused (md_InstanceName (w_metadata w)) nic nics
               (Driver.without_alias reqIP (nic_AliasIpRanges nic)) _ inst w2 Hf2);
      [reflexivity | rewrite Hi2; apply lookup_insert_eq | exact Hnics]. }
  unfold bind at 1. rewrite Hatt.
  eexists _, _. split; [reflexivity|].
  cbn [w_trace w_instances w_pools log set_faults].
  split; [rewrite <- app_assoc; reflexivity|].
  split; [exact Hi2|].
  split; [|exact Hp2].
  rewrite Hi2. apply (install_not_attached _ _ _ nic nics); [exact Hnics | reflexivity |].
  apply without_alias_spec.
Qed.

Definition same_node_world : World :=
  mkWorld {[ "ippool-subnet-a" := migration_pool ]} {[ ("ns", "p2") := migrating_pod ]}
    (mkMetadata "proj" "europe-west1-b" "nodeA")
    {[ "nodeA" := node "nodeA" [mkAliasIpRange "10.111.0.5/32" "live"] ]}
    {[ "subnet-a" := mkSubnetwork "10.0.0.0/24" 7 [] ]} ∅ ∅ "10.111.0.0/16" 0 []
    [PollDone None] [] [].

Lemma X27_witness :
  exists w',
    Driver.cmdAdd any_conf 5 add_args same_node_world
    = (Err (Wrapped "failed to update network interface"
              (GoogleApiError 412 "Supplied fingerprint does not match current fingerprint")),
       w')
    /\ ~ attached (w_instances w') "nodeA" "10.111.0.5"
    /\ w_pools w' = w_pools same_node_world.
Proof.
  destruct (X27_migration_onto_the_same_node_loses_the_alias any_conf 5 add_args
              same_node_world (Driver.mkPluginConf "1.0.0" EmptyString) migrating_pod
              "10.111.0.5" (node "nodeA" [mkAliasIpRange "10.111.0.5/32" "live"])
              (mkNetworkInterface "nic0" 1 "projects/proj/global/networks/default"
                 subnet_a_url [mkAliasIpRange "10.111.0.5/32" "live"])
              [] (mkSubnetwork "10.0.0.0/24" 7 []) migration_pool
              (mkIPAllocation "p1" "ns" "uid-1" "nodeA" 0) [] [])
    as (w' & tr & Hrun & _ & _ & Hnot & Hpools).
  - reflexivity.
  - reflexivity.
  - vm_compute. reflexivity.
  - vm_compute. reflexivity.
  - vm_compute. reflexivity.
  - vm_compute. lia.
  - vm_compute. reflexivity.
  - reflexivity.
  - eexists _, _. split; [vm_compute; reflexivity|]. split; [reflexivity|].
    left. reflexivity.
  - vm_compute. reflexivity.
  - vm_compute. reflexivity.
  - vm_compute. reflexivity.
  - reflexivity.
  - cbn [length]. lia.
  - exists w'. split; [exact Hrun|]. split; [exact Hnot | exact Hpools].
Defined.
(** ** The provisioner and the driver on one node *)

(** What the provisioner leaves alone: the pods, the clock, and the
    operations on instances with their replies. *)
Definition node_same (w w' : World) : Prop :=
  w_pods w' = w_pods w /\ w_polls w' = w_polls w /\ w_now w' = w_now w
  /\ w_operations w' = w_operations w.

Definition keeps_node {A} (m : M A) : Prop := forall w, node_same w (snd (m w)).

Lemma node_same_refl w : node_same w w.
Proof. repeat split. Qed.

Lemma node_same_trans w1 w2 w3 : node_same w1 w2 -> node_same w2 w3 -> node_same w1 w3.
Proof.
  unfold node_same. intros (A1 & A2 & A3 & A4) (B1 & B2 & B3 & B4). repeat split; congruence.
Qed.

Lemma keeps_node_ret {A} (a : A) : keeps_node (ret a).
Proof. intros w. apply node_same_refl. Qed.

Lemma keeps_node_fail {A} e : keeps_node (@fail A e).
Proof. intros w. apply node_same_refl. Qed.

Lemma keeps_node_bind {A B} (m : M A) (k : A -> M B) :
  keeps_node m -> (forall a, keeps_node (k a)) -> keeps_node (bind m k).
Proof.
  intros Hm Hk w. unfold bind. specialize (Hm w).
  destruct (m w) as [[a|e|msg|] w1]; cbn [snd] in *; try assumption.
  eapply node_same_trans; [exact Hm | apply Hk].
Qed.

Lemma keeps_node_map_err {A} f (m : M A) : keeps_node m -> keeps_node (map_err f m).
Proof.
  intros Hm w. unfold map_err. specialize (Hm w).
  destruct (m w) as [[a|e|msg|] w1]; exact Hm.
Qed.

Lemma keeps_node_try {A} (m : M A) : keeps_node m -> keeps_node (try m).
Proof.
  intros Hm w. unfold try. specialize (Hm w).
  destruct (m w) as [[a|e|msg|] w1]; exact Hm.
Qed.

Lemma keeps_node_remote ev : keeps_node (remote ev).
Proof. intros w. unfold remote. destruct (w_faults w) as [|[e|] fs]; repeat split. Qed.

Lemma keeps_node_read {A} (f : World -> Outcome A) : keeps_node (fun w => (f w, w)).
Proof. intros w. apply node_same_refl. Qed.

Lemma keeps_node_metadata_get what field : keeps_node (metadata_get what field).
Proof.
  apply keeps_node_bind; [apply keeps_node_remote|]. intros _. apply keeps_node_read.
Qed.

Lemma keeps_node_Instances_Get name : keeps_node (Instances_Get name).
Proof.
  apply keeps_node_bind; [apply keeps_node_remote|]. intros _ w.
  destruct (w_instances w !! name); apply node_same_refl.
Qed.

Lemma keeps_node_Subnetworks_Get name : keeps_node (Subnetworks_Get name).
Proof.
  apply keeps_node_bind; [apply keeps_node_remote|]. intros _ w.
  destruct (w_subnets w !! name); apply node_same_refl.
Qed.

Lemma keeps_node_pool_Get name : keeps_node (pool_Get name).
Proof.
  apply keeps_node_bind; [apply keeps_node_remote|]. intros _ w.
  destruct (w_pools w !! name); apply node_same_refl.
Qed.

Lemma keeps_node_pool_Update p : keeps_node (pool_Update p).
Proof.
  apply keeps_node_bind; [apply keeps_node_remote|]. intros _ w.
  destruct (w_pools w !! Name p) as [cur|]; [|apply node_same_refl].
  destruct (ResourceVersion cur =? ResourceVersion p); repeat split.
Qed.

Lemma keeps_node_pool_Create p : keeps_node (pool_Create p).
Proof.
  apply keeps_node_bind; [apply keeps_node_remote|]. intros _ w.
  destruct (w_pools w !! Name p); repeat split.
Qed.

Lemma keeps_node_getClusterInfo : keeps_node Provisioner.getClusterInfo.
Proof.
  unfold Provisioner.getClusterInfo.
  apply keeps_node_bind; [apply keeps_node_map_err, keeps_node_metadata_get|]. intros projectID.
  apply keeps_node_bind; [apply keeps_node_map_err, keeps_node_metadata_get|]. intros zone.
  apply keeps_node_bind.
  { unfold region_of_zone. destruct (2 <? String.length zone)%nat;
      [apply keeps_node_ret | apply keeps_node_fail]. }
  intros region.
  apply keeps_node_bind; [apply keeps_node_map_err, keeps_node_metadata_get|]. intros name.
  apply keeps_node_bind; [apply keeps_node_map_err, keeps_node_Instances_Get|]. intros i.
  destruct (inst_NetworkInterfaces i); [apply keeps_node_fail | apply keeps_node_ret].
Qed.

Lemma keeps_node_allocateInternalRange c name :
  keeps_node (Provisioner.allocateInternalRange c name).
Proof.
  unfold Provisioner.allocateInternalRange.
  apply keeps_node_bind.
  { apply keeps_node_try. apply keeps_node_bind; [apply keeps_node_remote|]. intros _ w.
    destruct (w_ranges w !! _); apply node_same_refl. }
  intros [err|cidr]; [|apply keeps_node_ret].
  destruct (negb (Provisioner.isNotFound err)); [apply keeps_node_fail|].
  apply keeps_node_bind.
  { apply keeps_node_map_err. apply keeps_node_bind; [apply keeps_node_remote|].
    intros _. apply keeps_node_ret. }
  intros op. apply keeps_node_map_err.
  apply keeps_node_bind; [apply keeps_node_remote|]. intros _ w. repeat split.
Qed.

Lemma keeps_node_createOrUpdateIPPool subnetworkName cidr subnetURL rangeName :
  keeps_node (Provisioner.createOrUpdateIPPool subnetworkName cidr subnetURL rangeName).
Proof.
  unfold Provisioner.createOrUpdateIPPool.
  apply keeps_node_bind; [apply keeps_node_try, keeps_node_pool_Get|].
  intros [err|existing].
  - apply keeps_node_bind; [apply keeps_node_map_err, keeps_node_pool_Create|].
    intros _. apply keeps_node_ret.
  - apply keeps_node_bind; [apply keeps_node_map_err, keeps_node_pool_Update|].
    intros _. apply keeps_node_ret.
Qed.

Lemma keeps_node_Provision rangeName : keeps_node (Provisioner.Provision rangeName).
Proof.
  unfold Provisioner.Provision.
  apply keeps_node_bind; [apply keeps_node_map_err, keeps_node_getClusterInfo|]. intros c.
  apply keeps_node_bind; [apply keeps_node_map_err, keeps_node_Subnetworks_Get|]. intros s.
  destruct (find _ _).
  - apply keeps_node_map_err, keeps_node_createOrUpdateIPPool.
  - apply keeps_node_bind; [apply keeps_node_try, keeps_node_allocateInternalRange|].
    intros allocated.
    apply keeps_node_bind.
    { apply keeps_node_map_err. apply keeps_node_bind; [apply keeps_node_remote|].
      intros _ w. destruct (w_subnets w !! _) as [s0|]; [|apply node_same_refl].
      destruct (sub_Fingerprint s0 =? _); apply node_same_refl. }
    intros op.
    apply keeps_node_bind.
    { apply keeps_node_map_err. apply keeps_node_bind; [apply keeps_node_remote|].
      intros _ w. repeat split. }
    intros _. apply keeps_node_map_err, keeps_node_createOrUpdateIPPool.
Qed.
(** X28.  The provisioner and the driver fit together.  On a cluster whose
    subnet has no range of the name and that has no pool yet, when every
    call goes through: [Provision] leaves the subnet of the node with a
    secondary range of that name over the reserved block, and a pool named
    as the driver names its default pool; an ADD on the node that follows,
    configured with no pool name, finds that pool, records in it the first
    address after the block's network address for the pod, and attaches it
    as a /32 alias that names the range [Provision] put on the subnet. *)
Theorem X28_add_after_provision_uses_the_provisioned_range :
  forall parseConfig rangeName fuel args w conf pod inst nic nics s sip snet A n flags polls,
    w_faults w = [] ->
    (2 < String.length (md_Zone (w_metadata w)))%nat ->
    w_instances w !! md_InstanceName (w_metadata w) = Some inst ->
    inst_NetworkInterfaces inst = nic :: nics ->
    w_subnets w !! last_part (split_on "/" (nic_Subnetwork nic)) = Some s ->
    has_range rangeName s = None ->
    rangeName <> EmptyString ->
    w_pools w !! ("ippool-" +:+ last_part (split_on "/" (nic_Subnetwork nic))) = None ->
    parse_v4 (reserved_cidr w rangeName) = Some (A, n) ->
    network_addr A n + 1 < broadcast_addr A n ->
    Net.ParseCIDR (sub_IpCidrRange s) = Some (sip, snet) ->
    parseConfig (Driver.StdinData args) = inr conf ->
    Driver.conf_IPPoolName conf = EmptyString ->
    w_pods w !! (cni_namespace args, cni_pod_name args) = Some pod ->
    pod_Annotations pod !! Driver.LiveIPAnnotation = None ->
    pod_Annotations pod !! Driver.OriginalInstanceAnnotation = None ->
    w_polls w = map PollRunning flags ++ PollDone None :: polls ->
    (length flags < fuel)%nat ->
    let subnetName := last_part (split_on "/" (nic_Subnetwork nic)) in
    let cidr := reserved_cidr w rangeName in
    let key := Net.IP_String (ip_of_Z (network_addr A n + 1)) in
    exists w1 w2 s1 p2,
      Provisioner.Provision rangeName w = (Ok tt, w1)
      /\ w_subnets w1 !! subnetName = Some s1
      /\ In (mkSecondaryRange rangeName cidr (range_path w rangeName))
            (sub_SecondaryIpRanges s1)
      /\ Driver.cmdAdd parseConfig fuel args w1
         = (Ok (Driver.mkResult (Driver.conf_CNIVersion conf)
                  (Net.mkIPNet (Net.ParseIP key) (Net.IPNet_Mask snet))
                  (Net.v4InV6Prefix ++ <[3%nat := wrap8 (A mod 256 + 1)]> (ip_of_Z A))
                  (Net.mkIPNet [0; 0; 0; 0] [0; 0; 0; 0])), w2)
      /\ w_instances w2
         = <[md_InstanceName (w_metadata w) :=
               install_aliases (nic_Name nic)
                 (nic_AliasIpRanges nic ++ [mkAliasIpRange (Driver.slash32 key) rangeName])
                 inst]> (w_instances w)
      /\ w_pools w2 !! ("ippool-" +:+ subnetName) = Some p2
      /\ map_of (Allocations (Spec p2))
         = {[ key := mkIPAllocation (cni_pod_name args) (cni_namespace args) (pod_UID pod)
                       (md_InstanceName (w_metadata w)) (w_now w) ]}.
Proof.
  intros parseConfig rangeName fuel args w conf pod inst nic nics s sip snet A n flags polls
         Hf Hz Hinst Hnics Hsub Hrange Hname Hnone Hparse Hroom Hscidr Hconf Hdefault Hpod
         Hlive Horig Hpolls Hfuel. cbv zeta.
  destruct (Provision_fresh_run rangeName w inst nic nics s Hf Hz Hinst Hnics Hsub Hrange)
    as (w1 & Hrun1 & Hf1 & Hs1 & _ & Hi1 & Hmd1 & Hp1 & _).
  pose proof (keeps_node_Provision rangeName w) as Hnode.
  rewrite Hrun1 in Hnode. cbn [snd] in Hnode. destruct Hnode as (Hpods1 & Hpolls1 & Hnow1 & _).
  set (subnetName := last_part (split_on "/" (nic_Subnetwork nic))) in *.
  set (cidr := reserved_cidr w rangeName) in *.
  set (s1 := mkSubnetwork (sub_IpCidrRange s) (sub_Fingerprint s + 1)
               (sub_SecondaryIpRanges s
                ++ [mkSecondaryRange rangeName cidr (range_path w rangeName)])) in *.
  set (p1 := provisioned_pool subnetName cidr (subnet_url w nic) rangeName
               (w_pools w !! ("ippool-" +:+ subnetName))) in *.
  destruct (provisioned_pool_fields subnetName cidr (subnet_url w nic) rangeName
              (w_pools w !! ("ippool-" +:+ subnetName)))
    as (Hc1 & _ & Hr1 & _ & _ & Ha1 & _).
  fold p1 in Hc1, Hr1, Ha1. rewrite Hnone in Ha1.
  assert (Hpn : pool_name_for conf nic = "ippool-" +:+ subnetName).
  { unfold pool_name_for. rewrite Hdefault. reflexivity. }
  assert (Hrn : range_name_of p1 = rangeName).
  { unfold range_name_of. rewrite Hr1.
    destruct (String.eqb rangeName EmptyString) eqn:E; [|reflexivity].
    apply String.eqb_eq in E. contradiction. }
  assert (Hz1 : (2 < String.length (md_Zone (w_metadata w1)))%nat) by (rewrite Hmd1; exact Hz).
  assert (Hinst1 : w_instances w1 !! md_InstanceName (w_metadata w1) = Some inst)
    by (rewrite Hmd1, Hi1; exact Hinst).
  assert (Hsub1 : w_subnets w1 !! subnetName = Some s1)
    by (rewrite Hs1; apply lookup_insert_eq).
  assert (Hpool1 : w_pools w1 !! pool_name_for conf nic = Some p1)
    by (rewrite Hpn, Hp1; apply lookup_insert_eq).
  assert (Hpod1 : w_pods w1 !! (cni_namespace args, cni_pod_name args) = Some pod)
    by (rewrite Hpods1; exact Hpod).
  assert (Hparse1 : parse_v4 (CIDR (Spec p1)) = Some (A, n)) by (rewrite Hc1; exact Hparse).
  assert (Hfree : free (map_of (Allocations (Spec p1))) (network_addr A n + 1))
    by (unfold free; rewrite Ha1; apply lookup_empty).
  assert (Hpolls' : w_polls w1 = map PollRunning flags ++ PollDone None :: polls)
    by (rewrite Hpolls1; exact Hpolls).
  destruct (add_body_run parseConfig fuel args w1 conf pod inst nic nics s1 p1 A n
              (network_addr A n + 1) flags None polls Hf1 Hconf Hpod1 Hlive Horig Hz1 Hinst1
              Hnics Hsub1 Hpool1 Hparse1 ltac:(lia) Hfree ltac:(intros y Hy; lia) Hpolls' Hfuel)
    as (w2 & p2 & Hbody & Hf2 & Hp2 & Hallocs & _ & Hi2).
  specialize (Hi2 eq_refl).
  rewrite Hrn, Hmd1, Hi1 in Hi2. rewrite Hpn in Hp2. rewrite Ha1, Hmd1, Hnow1 in Hallocs.
  exists w1, (log EvUnlock (set_faults [] (log EvPrintResult w2))), s1, p2.
  split; [exact Hrun1|]. split; [exact Hsub1|].
  split; [subst s1; cbn [sub_SecondaryIpRanges]; apply in_or_app; right; left; reflexivity|].
  split.
  { unfold Driver.cmdAdd, Driver.with_lock. rewrite Hbody.
    unfold Driver.add_result, allocation_result.
    cbn [Driver.ctx_subnet Driver.ctx_conf Ipam.res_CIDR].
    subst s1. cbn [sub_IpCidrRange]. rewrite Hscidr.
    destruct (gateway_of_cidr _ _ _ Hparse1) as (gip & gnet & Hg & Hg15 & Hgw).
    rewrite Hg, Hg15.
    change (Net.ParseCIDR "0.0.0.0/0")
      with (Some (Net.v4InV6Prefix ++ [0; 0; 0; 0], Net.mkIPNet [0; 0; 0; 0] [0; 0; 0; 0])).
    rewrite (bind_run _ _ _ _ _ (remote_nofault _ _ Hf2)).
    unfold ret. rewrite Hgw. reflexivity. }
  cbn [w_pools w_instances log set_faults].
  split; [exact Hi2|]. split; [exact Hp2|].
  rewrite Hallocs. reflexivity.
Qed.

Definition fresh_node_world : World :=
  mkWorld ∅ {[ ("ns", "p1") := pod_without_ips ]} (mkMetadata "proj" "europe-west1-b" "nodeB")
    {[ "nodeB" := nodeB ]} {[ "subnet-a" := mkSubnetwork "10.0.0.0/24" 7 [] ]} ∅ ∅
    "10.111.0.0/16" 0 [] [PollDone None] [] [].

Lemma X28_witness :
  exists w1 w2 s1 p2,
    Provisioner.Provision "live" fresh_node_world = (Ok tt, w1)
    /\ w_subnets w1 !! "subnet-a" = Some s1
    /\ In (live_range "10.111.0.0/16") (sub_SecondaryIpRanges s1)
    /\ fst (Driver.cmdAdd any_conf 3 del_args w1)
       = Ok (Driver.mkResult "1.0.0"
               (Net.mkIPNet (Net.ParseIP "10.111.0.1") [255; 255; 255; 0])
               (Net.v4InV6Prefix ++ [10; 111; 0; 1])
               (Net.mkIPNet [0; 0; 0; 0] [0; 0; 0; 0]))
    /\ snd (Driver.cmdAdd any_conf 3 del_args w1) = w2
    /\ attached (w_instances w2) "nodeB" "10.111.0.1"
    /\ w_pools w2 !! "ippool-subnet-a" = Some p2
    /\ map_of (Allocations (Spec p2)) !! "10.111.0.1"
       = Some (mkIPAllocation "p1" "ns" "uid-1" "nodeB" 0).
Proof.
  assert (HN : network_addr 175046656 16 = 175046656) by (vm_compute; reflexivity).
  destruct (X28_add_after_provision_uses_the_provisioned_range any_conf "live" 3 del_args
              fresh_node_world (Driver.mkPluginConf "1.0.0" EmptyString) pod_without_ips
              nodeB
              (mkNetworkInterface "nic0" 1 "projects/proj/global/networks/default"
                 "projects/proj/regions/europe-west1/subnetworks/subnet-a" [])
              [] (mkSubnetwork "10.0.0.0/24" 7 [])
              (Net.v4InV6Prefix ++ [10; 0; 0; 0])
              (Net.mkIPNet [10; 0; 0; 0] [255; 255; 255; 0])
              175046656 16 [] [])
    as (w1 & w2 & s1 & p2 & Hrun1 & Hs1 & Hin & Hrun2 & Hi2 & Hp2 & Hallocs).
  - reflexivity.
  - vm_compute. lia.
  - vm_compute. reflexivity.
  - reflexivity.
  - vm_compute. reflexivity.
  - reflexivity.
  - discriminate.
  - vm_compute. reflexivity.
  - vm_compute. reflexivity.
  - vm_compute. reflexivity.
  - vm_compute. reflexivity.
  - reflexivity.
  - reflexivity.
  - vm_compute. reflexivity.
  - vm_compute. reflexivity.
  - vm_compute. reflexivity.
  - reflexivity.
  - cbn [length]. lia.
  - exists w1, w2, s1, p2. split; [exact Hrun1|]. split; [exact Hs1|].
    split; [exact Hin|]. rewrite Hrun2. split; [reflexivity|]. split; [reflexivity|].
    split; [|split; [exact Hp2 | rewrite Hallocs; apply lookup_insert_eq]].
    rewrite Hi2. eexists _, _. split; [apply lookup_insert_eq|].
    split; [reflexivity|]. left. reflexivity.
Defined.
(** ** Which files the installer can change *)

(** From [h] to [h'] only files whose path is in [P] have changed. *)
Definition touches (P : string -> Prop) (h h' : Installer.Host) : Prop :=
  forall path, ~ P path -> Installer.h_files h' !! path = Installer.h_files h !! path.

Definition only_touches {A} (P : string -> Prop) (m : Installer.H A) : Prop :=
  forall h, touches P h (snd (m h)).

Lemma touches_refl P h : touches P h h.
Proof. intros path _. reflexivity. Qed.

Lemma touches_trans P h1 h2 h3 : touches P h1 h2 -> touches P h2 h3 -> touches P h1 h3.
Proof. intros H12 H23 path Hp. rewrite (H23 path Hp). apply H12, Hp. Qed.

Lemma touches_weaken (P Q : string -> Prop) h h' :
  (forall path, P path -> Q path) -> touches P h h' -> touches Q h h'.
Proof. intros HPQ H path Hq. apply H. intros Hp. apply Hq, HPQ, Hp. Qed.

Lemma only_touches_hret {A} P (a : A) : only_touches P (Installer.hret a).
Proof. intros h. apply touches_refl. Qed.

Lemma only_touches_hfail {A} P e : only_touches P (@Installer.hfail A e).
Proof. intros h. apply touches_refl. Qed.

Lemma only_touches_hbind {A B} P (m : Installer.H A) (k : A -> Installer.H B) :
  only_touches P m -> (forall a, only_touches P (k a)) -> only_touches P (Installer.hbind m k).
Proof.
  intros Hm Hk h. unfold Installer.hbind. specialize (Hm h).
  destruct (m h) as [[a|e|msg|] h1]; cbn [snd] in *; try exact Hm.
  eapply touches_trans; [exact Hm | apply Hk].
Qed.

Lemma only_touches_hmap_err {A} P f (m : Installer.H A) :
  only_touches P m -> only_touches P (Installer.hmap_err f m).
Proof.
  intros Hm h. unfold Installer.hmap_err. specialize (Hm h).
  destruct (m h) as [[a|e|msg|] h1]; exact Hm.
Qed.

Lemma only_touches_orfail {A} P msg (m : Installer.H (Installer.OsError + A)) :
  only_touches P m -> only_touches P (Installer.orfail msg m).
Proof.
  intros Hm. apply only_touches_hbind; [exact Hm|].
  intros [e|a]; [apply only_touches_hfail | apply only_touches_hret].
Qed.

Lemma only_touches_oscall {A} (P : string -> Prop) ev
      (run : gmap string Installer.File -> Z
             -> (Installer.OsError + A) * gmap string Installer.File) :
  (forall files now path, ~ P path -> snd (run files now) !! path = files !! path) ->
  only_touches P (Installer.oscall ev run).
Proof.
  intros Hrun h path Hp.
  destruct (oscall_inv ev run h) as (r & h' & E & _ & [(e & _ & F)|F]); rewrite E; cbn [snd].
  - rewrite F. reflexivity.
  - apply (f_equal snd) in F. cbn [snd] in F. rewrite F. apply Hrun, Hp.
Qed.

Lemma only_touches_Stat P path : only_touches P (Installer.Stat path).
Proof.
  apply only_touches_oscall. intros files now p _. destruct (files !! path); reflexivity.
Qed.

Lemma only_touches_ReadFile P path : only_touches P (Installer.ReadFile path).
Proof.
  apply only_touches_oscall. intros files now p _. destruct (files !! path); reflexivity.
Qed.

Lemma only_touches_MkdirAll P path : only_touches P (Installer.MkdirAll path).
Proof. apply only_touches_oscall. intros files now p _. reflexivity. Qed.

Lemma only_touches_Open P path : only_touches P (Installer.Open path).
Proof.
  apply only_touches_oscall. intros files now p _. destruct (files !! path); reflexivity.
Qed.

Lemma only_touches_Create (P : string -> Prop) path :
  P path -> only_touches P (Installer.Create path).
Proof.
  intros HP. apply only_touches_oscall. intros files now p Hp. cbn [snd].
  apply lookup_insert_ne. intros ->. exact (Hp HP).
Qed.

Lemma only_touches_WriteFile (P : string -> Prop) path data perm :
  P path -> only_touches P (Installer.WriteFile path data perm).
Proof.
  intros HP. apply only_touches_oscall. intros files now p Hp. cbn [snd].
  apply lookup_insert_ne. intros ->. exact (Hp HP).
Qed.

Lemma only_touches_CopyLimited (P : string -> Prop) source target n :
  P target -> only_touches P (Installer.CopyLimited source target n).
Proof.
  intros HP. apply only_touches_oscall. intros files now p Hp.
  destruct (files !! source), (files !! target); cbn [snd]; try reflexivity.
  apply lookup_insert_ne. intros ->. exact (Hp HP).
Qed.

Lemma only_touches_Chmod (P : string -> Prop) path mode :
  P path -> only_touches P (Installer.Chmod path mode).
Proof.
  intros HP. apply only_touches_oscall. intros files now p Hp.
  destruct (files !! path); cbn [snd]; [|reflexivity].
  apply lookup_insert_ne. intros ->. exact (Hp HP).
Qed.

Lemma only_touches_Rename (P : string -> Prop) oldpath newpath :
  P oldpath -> P newpath -> only_touches P (Installer.Rename oldpath newpath).
Proof.
  intros Ho Hn. apply only_touches_oscall. intros files now p Hp.
  destruct (files !! oldpath); cbn [snd]; [|reflexivity].
  rewrite lookup_insert_ne by (intros ->; exact (Hp Hn)).
  apply lookup_delete_ne. intros ->. exact (Hp Ho).
Qed.

Lemma only_touches_filesMatch P src dest : only_touches P (Installer.filesMatch src dest).
Proof.
  unfold Installer.filesMatch.
  apply only_touches_hbind; [apply only_touches_Stat|].
  intros [e|[srcSize srcTime]]; [apply only_touches_hret|].
  apply only_touches_hbind; [apply only_touches_Stat|].
  intros [e|[destSize destTime]]; apply only_touches_hret.
Qed.

Lemma touches_hbind_at {A B} P (m : Installer.H A) (k : A -> Installer.H B) h :
  touches P h (snd (m h)) ->
  (forall a h1, m h = (Ok a, h1) -> touches P h1 (snd (k a h1))) ->
  touches P h (snd (Installer.hbind m k h)).
Proof.
  intros Hm Hk. unfold Installer.hbind.
  destruct (m h) as [[a|e|msg|] h1] eqn:E; cbn [snd] in *; try exact Hm.
  eapply touches_trans; [exact Hm | apply Hk; reflexivity].
Qed.

(** The handle [os.Create] returns is the file at the path. *)
Lemma Create_handle msg path h a h1 :
  Installer.orfail msg (Installer.Create path) h = (Ok a, h1) -> a = path.
Proof.
  unfold Installer.orfail, Installer.hbind, Installer.Create.
  match goal with |- context [Installer.oscall ?ev ?run h] =>
    destruct (oscall_inv ev run h) as (r & h' & E & _ & [(e & -> & _)|F])
  end; rewrite E.
  - unfold Installer.hfail. discriminate.
  - injection F as -> _. unfold Installer.hret. intros [= <- _]. reflexivity.
Qed.

Lemma only_touches_copyFile (P : string -> Prop) source target :
  P target -> only_touches P (Installer.copyFile source target).
Proof.
  intros HP h. unfold Installer.copyFile.
  apply touches_hbind_at; [apply only_touches_orfail, only_touches_Create, HP|].
  intros outFile h1 E. apply Create_handle in E. subst outFile.
  apply only_touches_hbind.
  - apply only_touches_orfail, only_touches_CopyLimited, HP.
  - intros n. destruct (n <=? 0); [apply only_touches_hfail | apply only_touches_hret].
Qed.

Lemma only_touches_installHostBinary Join_path flags binaryName :
  only_touches (fun path => path = bin_dest Join_path flags binaryName
                            \/ path = bin_dest Join_path flags binaryName +:+ ".tmp")
    (Installer.installHostBinary Join_path flags binaryName).
Proof.
  unfold Installer.installHostBinary. fold (bin_dest Join_path flags binaryName).
  apply only_touches_hbind; [apply only_touches_filesMatch|].
  intros [|]; [apply only_touches_hret|].
  apply only_touches_hbind; [apply only_touches_orfail, only_touches_MkdirAll|]. intros _.
  apply only_touches_hbind; [apply only_touches_orfail, only_touches_Open|]. intros srcFile.
  apply only_touches_hbind;
    [apply only_touches_hmap_err, only_touches_copyFile; right; reflexivity|]. intros _.
  apply only_touches_hbind;
    [apply only_touches_orfail, only_touches_Chmod; right; reflexivity|]. intros _.
  apply only_touches_orfail, only_touches_Rename; [right | left]; reflexivity.
Qed.

Lemma only_touches_reconfigure Unmarshal MarshalIndent Join_path flags ipamType :
  only_touches (fun path => path = conf_path Join_path flags
                            \/ path = conf_path Join_path flags +:+ ".tmp")
    (Installer.reconfigureCNIIPAMConf Unmarshal MarshalIndent Join_path flags ipamType).
Proof.
  unfold Installer.reconfigureCNIIPAMConf. fold (conf_path Join_path flags).
  apply only_touches_hbind; [apply only_touches_Stat|]. intros info.
  destruct (match info with inl err => Installer.IsNotExist err | inr _ => false end);
    [apply only_touches_hret|].
  apply only_touches_hbind; [apply only_touches_orfail, only_touches_ReadFile|]. intros data.
  destruct (Installer.UpdateCNIIPAM Unmarshal MarshalIndent data ipamType) as [err|updated];
    [apply only_touches_hfail|].
  apply only_touches_hbind;
    [apply only_touches_orfail, only_touches_WriteFile; right; reflexivity|]. intros _.
  apply only_touches_orfail, only_touches_Rename; [right | left]; reflexivity.
Qed.

(** [m] returned nil, or it has changed only files in [P]. *)
Definition nil_or_touches (P : string -> Prop) (m : Installer.H unit) (h : Installer.Host)
  : Prop :=
  fst (m h) = Ok tt \/ touches P h (snd (m h)).

Lemma nil_or_touches_hbind {A} P (m : Installer.H A) (k : A -> Installer.H unit) h :
  touches P h (snd (m h)) ->
  (forall a h1, m h = (Ok a, h1) -> nil_or_touches P (k a) h1) ->
  nil_or_touches P (Installer.hbind m k) h.
Proof.
  intros Hm Hk. unfold nil_or_touches, Installer.hbind.
  destruct (m h) as [[a|e|msg|] h1] eqn:E; cbn [snd] in *; try (right; exact Hm).
  destruct (Hk a h1 eq_refl) as [H|H]; [left; exact H|].
  right. eapply touches_trans; [exact Hm | exact H].
Qed.

(** A rename happens or changes nothing. *)
Lemma nil_or_touches_Rename P msg oldpath newpath h :
  nil_or_touches P (Installer.orfail msg (Installer.Rename oldpath newpath)) h.
Proof.
  unfold nil_or_touches, Installer.orfail, Installer.hbind, Installer.Rename.
  match goal with |- context [Installer.oscall ?ev ?run h] =>
    destruct (oscall_inv ev run h) as (r & h' & E & _ & [(e & -> & F)|F])
  end; rewrite E.
  - right. cbn [Installer.hfail snd]. intros path _. rewrite F. reflexivity.
  - destruct (Installer.h_files h !! oldpath).
    + injection F as -> _. left. reflexivity.
    + injection F as -> F. right. cbn [Installer.hfail snd]. intros path _. rewrite F.
      reflexivity.
Qed.

Lemma installHostBinary_nil_or_tmp Join_path flags binaryName h :
  nil_or_touches (fun path => path = bin_dest Join_path flags binaryName +:+ ".tmp")
    (Installer.installHostBinary Join_path flags binaryName) h.
Proof.
  unfold Installer.installHostBinary. fold (bin_dest Join_path flags binaryName).
  apply nil_or_touches_hbind; [apply only_touches_filesMatch|].
  intros [|] h1 _; [left; reflexivity|].
  apply nil_or_touches_hbind; [apply only_touches_orfail, only_touches_MkdirAll|].
  intros _ h2 _.
  apply nil_or_touches_hbind; [apply only_touches_orfail, only_touches_Open|].
  intros srcFile h3 _.
  apply nil_or_touches_hbind;
    [apply only_touches_hmap_err, only_touches_copyFile; reflexivity|].
  intros _ h4 _.
  apply nil_or_touches_hbind; [apply only_touches_orfail, only_touches_Chmod; reflexivity|].
  intros _ h5 _.
  apply nil_or_touches_Rename.
Qed.

(** X29.  [installHostBinary] puts the binary in place in one step, the
    final rename: whatever the host answers, when it does not return nil no
    file other than [<dest>.tmp] has changed; the destination in
    particular is the binary it was, or is still missing. *)
Theorem X29_failed_install_leaves_the_destination :
  forall Join_path flags binaryName h,
    let destPath := bin_dest Join_path flags binaryName in
    let r := Installer.installHostBinary Join_path flags binaryName h in
    fst r <> Ok tt ->
    Installer.h_files (snd r) !! destPath = Installer.h_files h !! destPath
    /\ forall other, other <> destPath +:+ ".tmp" ->
                     Installer.h_files (snd r) !! other = Installer.h_files h !! other.
Proof.
  intros Join_path flags binaryName h destPath r Hfail. subst r.
  destruct (installHostBinary_nil_or_tmp Join_path flags binaryName h) as [H|H];
    [contradiction|].
  fold destPath in H. split.
  - apply H. intros E. symmetry in E. exact (tmp_path_ne destPath E).
  - intros other Hne. apply H, Hne.
Qed.
Definition stale_host : Installer.Host :=
  Installer.mkHost
    {[ "/host/etc/cni/net.d/10-containerd-net.conflist" := Installer.mkFile "document" 420 5;
       "/app/gcp-ipam" := Installer.mkFile "binary" 493 3;
       "/host/opt/cni/bin/gcp-ipam" := Installer.mkFile "old binary" 493 1 ]}
    10 [None; None;
        Some (Installer.ErrOther "mkdir" "/host/opt/cni/bin" "read-only file system")] [].

Lemma X29_witness :
  let r := Installer.installHostBinary sample_join sample_flags "gcp-ipam" stale_host in
  fst r = Err (Wrapped "failed to create directory /host/opt/cni/bin"
                 (ErrorString "mkdir /host/opt/cni/bin: read-only file system"))
  /\ Installer.h_files (snd r) !! "/host/opt/cni/bin/gcp-ipam"
     = Some (Installer.mkFile "old binary" 493 1).
Proof.
  cbv zeta. split; [vm_compute; reflexivity|].
  destruct (X29_failed_install_leaves_the_destination sample_join sample_flags "gcp-ipam"
              stale_host) as [H _].
  - vm_compute. discriminate.
  - change (bin_dest sample_join sample_flags "gcp-ipam")
      with "/host/opt/cni/bin/gcp-ipam" in H.
    rewrite H. vm_compute. reflexivity.
Defined.

(** ** The configuration and the binary *)

(** When [m] returns nil, [Q] holds of the host. *)
Definition nil_gives (Q : Installer.Host -> Prop) (m : Installer.H unit) (h : Installer.Host)
  : Prop :=
  fst (m h) = Ok tt -> Q (snd (m h)).

Lemma nil_gives_hbind {A} Q (m : Installer.H A) (k : A -> Installer.H unit) h :
  (forall a h1, m h = (Ok a, h1) -> nil_gives Q (k a) h1) ->
  nil_gives Q (Installer.hbind m k) h.
Proof.
  intros Hk. unfold nil_gives, Installer.hbind.
  destruct (m h) as [[a|e|msg|] h1] eqn:E; cbn [fst snd]; try discriminate.
  apply Hk. reflexivity.
Qed.

(** [filesMatch] says yes only of a destination that is there. *)
Lemma filesMatch_true src dest h h1 :
  Installer.filesMatch src dest h = (Ok true, h1) ->
  is_Some (Installer.h_files h1 !! dest).
Proof.
  unfold Installer.filesMatch, Installer.hbind, Installer.Stat.
  match goal with |- context [Installer.oscall ?ev ?run h] =>
    destruct (oscall_inv ev run h) as (r1 & h' & E1 & _ & _)
  end.
  rewrite E1. destruct r1 as [e1|[srcSize srcTime]]; [discriminate|].
  match goal with |- context [Installer.oscall ?ev ?run h'] =>
    destruct (oscall_inv ev run h') as (r2 & h'' & E2 & _ & [(e & -> & _)|F])
  end; rewrite E2; [discriminate|].
  destruct (Installer.h_files h' !! dest) as [d|] eqn:Ed.
  - injection F as -> F. unfold Installer.hret. intros [= _ <-]. rewrite F, Ed. eauto.
  - injection F as -> _. discriminate.
Qed.

Lemma Rename_nil_gives msg oldpath newpath h :
  nil_gives (fun h' => is_Some (Installer.h_files h' !! newpath))
    (Installer.orfail msg (Installer.Rename oldpath newpath)) h.
Proof.
  unfold nil_gives, Installer.orfail, Installer.hbind, Installer.Rename.
  match goal with |- context [Installer.oscall ?ev ?run h] =>
    destruct (oscall_inv ev run h) as (r & h' & E & _ & [(e & -> & _)|F])
  end; rewrite E; [discriminate|].
  destruct (Installer.h_files h !! oldpath) as [f|].
  - injection F as -> F. intros _. cbn [Installer.hret snd]. rewrite F, lookup_insert_eq. eauto.
  - injection F as -> _. discriminate.
Qed.

Lemma installHostBinary_nil_gives Join_path flags binaryName h :
  nil_gives (fun h' => is_Some (Installer.h_files h' !! bin_dest Join_path flags binaryName))
    (Installer.installHostBinary Join_path flags binaryName) h.
Proof.
  unfold Installer.installHostBinary. fold (bin_dest Join_path flags binaryName).
  apply nil_gives_hbind. intros [|] h1 E.
  - intros _. cbn [Installer.hret snd]. apply (filesMatch_true _ _ _ _ E).
  - apply nil_gives_hbind. intros _ h2 _.
    apply nil_gives_hbind. intros srcFile h3 _.
    apply nil_gives_hbind. intros _ h4 _.
    apply nil_gives_hbind. intros _ h5 _.
    apply Rename_nil_gives.
Qed.

(** X30.  [runInstallation] does not change the CNI configuration unless
    the binary is in place.  Whatever the host answers: when the
    configuration file is not what it was before the run, [installHostBinary]
    had returned nil and the binary is at its destination.  The paths of
    the configuration, of the binary and of their [.tmp] files are taken to
    differ. *)
Theorem X30_configuration_changes_only_with_the_binary_in_place :
  forall Unmarshal MarshalIndent Join_path flags h,
    let confPath := conf_path Join_path flags in
    let destPath := bin_dest Join_path flags "gcp-ipam" in
    let r := Installer.runInstallation Unmarshal MarshalIndent Join_path flags h in
    confPath <> destPath ->
    confPath <> destPath +:+ ".tmp" ->
    destPath <> confPath +:+ ".tmp" ->
    Installer.h_files (snd r) !! confPath <> Installer.h_files h !! confPath ->
    fst (Installer.installHostBinary Join_path flags "gcp-ipam" h) = Ok tt
    /\ is_Some (Installer.h_files (snd r) !! destPath).
Proof.
  intros Unmarshal MarshalIndent Join_path flags h confPath destPath r Hcd Hct Hdt Hchanged.
  subst r. unfold Installer.runInstallation in *.
  pose proof (only_touches_installHostBinary Join_path flags "gcp-ipam" h) as T1.
  pose proof (installHostBinary_nil_gives Join_path flags "gcp-ipam" h) as G1.
  fold destPath in T1, G1. unfold nil_gives in G1.
  unfold Installer.hbind, Installer.hmap_err in *.
  destruct (Installer.installHostBinary Join_path flags "gcp-ipam" h) as [o h1].
  cbn [fst snd] in *.
  assert (Hconf1 : Installer.h_files h1 !! confPath = Installer.h_files h !! confPath).
  { apply T1. intros [E|E]; [exact (Hcd E) | exact (Hct E)]. }
  destruct o as [[]|e|msg|]; cbn [snd] in Hchanged; try (elim Hchanged; exact Hconf1).
  split; [reflexivity|].
  pose proof (only_touches_reconfigure Unmarshal MarshalIndent Join_path flags "gcp-ipam" h1)
    as T2.
  fold confPath in T2.
  assert (Hdest : Installer.h_files
                    (snd (Installer.reconfigureCNIIPAMConf Unmarshal MarshalIndent Join_path
                            flags "gcp-ipam" h1)) !! destPath
                  = Installer.h_files h1 !! destPath).
  { apply T2. intros [E|E]; [apply Hcd; symmetry; exact E | exact (Hdt E)]. }
  destruct (Installer.reconfigureCNIIPAMConf Unmarshal MarshalIndent Join_path flags
              "gcp-ipam" h1) as [o2 h2].
  cbn [snd] in Hdest.
  assert (Hfinal : is_Some (Installer.h_files h2 !! destPath))
    by (rewrite Hdest; apply G1; reflexivity).
  destruct o2; exact Hfinal.
Qed.

Definition installed_host : Installer.Host :=
  Installer.mkHost
    {[ "/host/etc/cni/net.d/10-containerd-net.conflist" := Installer.mkFile "document" 420 5;
       "/app/gcp-ipam" := Installer.mkFile "binary" 493 3;
       "/host/opt/cni/bin/gcp-ipam" := Installer.mkFile "binary" 493 3 ]}
    10 [] [].

Lemma X30_witness :
  let r := Installer.runInstallation sample_unmarshal sample_marshal sample_join sample_flags
             installed_host in
  Installer.h_files (snd r) !! "/host/etc/cni/net.d/10-containerd-net.conflist"
  = Some (Installer.mkFile "updated" 420 10)
  /\ is_Some (Installer.h_files (snd r) !! "/host/opt/cni/bin/gcp-ipam").
Proof.
  cbv zeta. split; [vm_compute; reflexivity|].
  apply (X30_configuration_changes_only_with_the_binary_in_place sample_unmarshal
           sample_marshal sample_join sample_flags installed_host).
  - vm_compute. discriminate.
  - vm_compute. discriminate.
  - vm_compute. discriminate.
  - vm_compute. discriminate.
Defined.
